(** * Laplace approximations ([laplace/baselaplace.py]): a shallow embedding

    The development follows the class hierarchy of the source:
    [BaseLaplace] (prior, noise, grid search), [ParametricLaplace] with its
    four curvature variants, and [FunctionalLaplace].

    Conventions.
    - Tensor entries are exact rationals ([Q]); a one-dimensional tensor is
      a list, a matrix a list of rows.  Rounding is not modelled, and [/]
      is the total division of [Q].
    - A Python object is a record; a method that assigns attributes is a
      function in the monad [Act S], which threads the object and keeps the
      assignments made before an exception is raised.
    - The predictor, the curvature backend and the numerical kernels of
      torch are collaborators; they are the methods of type classes. *)

From Stdlib Require Import QArith ZArith String List Bool Arith Lia.
Import ListNotations.

Set Implicit Arguments.
Open Scope string_scope.
Open Scope list_scope.
Open Scope nat_scope.

(* ================================================================== *)
(** ** Exceptions and the object monad *)

Inductive exn : Type :=
| ValueError (msg : string)
| RuntimeError (msg : string)
| AttributeError (msg : string)
| TypeError (msg : string)
| IndexError (msg : string)
| AssertionError
| StopIteration
| ZeroDivisionError
| NotImplementedError.

Inductive result (A : Type) : Type :=
| Ok (a : A)
| Raise (e : exn).
Arguments Ok {A} a.
Arguments Raise {A} e.

Definition is_ok {A} (r : result A) : bool :=
  match r with Ok _ => true | Raise _ => false end.

Definition rbind {A B} (r : result A) (f : A -> result B) : result B :=
  match r with Ok a => f a | Raise e => Raise e end.

(** [Act S A]: a computation on an object of type [S] that returns an [A] or
    raises; the object after the computation is returned in both cases. *)
Definition Act (S A : Type) : Type := S -> S * result A.

Definition ret {S A} (a : A) : Act S A := fun s => (s, Ok a).
Definition raise {S A} (e : exn) : Act S A := fun s => (s, Raise e).
Definition bind {S A B} (m : Act S A) (f : A -> Act S B) : Act S B :=
  fun s => match m s with
           | (s', Ok a) => f a s'
           | (s', Raise e) => (s', Raise e)
           end.
Definition get {S} : Act S S := fun s => (s, Ok s).
Definition gets {S A} (f : S -> A) : Act S A := fun s => (s, Ok (f s)).
Definition modify {S} (f : S -> S) : Act S unit := fun s => (f s, Ok tt).
Definition lift {S A} (r : result A) : Act S A := fun s => (s, r).

Declare Scope obj_scope.
Delimit Scope obj_scope with obj.
Notation "x <- m ;; k" := (bind m (fun x => k))
  (at level 61, m at next level, right associativity) : obj_scope.
Notation "m ;;; k" := (bind m (fun _ => k))
  (at level 61, right associativity) : obj_scope.
Open Scope obj_scope.

(** [for x in xs: body x] *)
Fixpoint for_each {S A} (xs : list A) (body : A -> Act S unit) : Act S unit :=
  match xs with
  | [] => ret tt
  | x :: xs' => body x ;;; for_each xs' body
  end.

(* ================================================================== *)
(** ** Tensors *)

Definition Vec : Type := list Q.
Definition Mat : Type := list (list Q).

(** A tensor of dimension zero or one, as [prior_mean] and [mean] are. *)
Inductive tensor01 : Type :=
| Scalar0 (q : Q)
| Vector1 (v : Vec).

(** [torch.ones(n)] *)
Definition ones (n : nat) : Vec := repeat 1%Q n.

(** [torch.zeros(n)] and [torch.zeros(n, m)] *)
Definition zeros (n : nat) : Vec := repeat 0%Q n.
Definition zeros2 (n m : nat) : Mat := repeat (zeros m) n.

(** [c * v] for a zero-dimensional [c] *)
Definition vscale (c : Q) (v : Vec) : Vec := map (Qmult c) v.
Definition mscale (c : Q) (m : Mat) : Mat := map (vscale c) m.

(** [a + b] entry by entry; shapes that differ raise (broadcasting of
    shapes that differ is not modelled). *)
Fixpoint vadd (a b : Vec) : result Vec :=
  match a, b with
  | [], [] => Ok []
  | x :: a', y :: b' => rbind (vadd a' b') (fun r => Ok ((x + y)%Q :: r))
  | _, _ => Raise (RuntimeError "The size of tensor a must match the size of tensor b")
  end.

Fixpoint madd (a b : Mat) : result Mat :=
  match a, b with
  | [], [] => Ok []
  | r :: a', s :: b' =>
      rbind (vadd r s) (fun rs => rbind (madd a' b') (fun m => Ok (rs :: m)))
  | _, _ => Raise (RuntimeError "The size of tensor a must match the size of tensor b")
  end.

(** [a * b] for one-dimensional tensors, a tensor of one element being
    broadcast. *)
Fixpoint vmul_same (a b : Vec) : result Vec :=
  match a, b with
  | [], [] => Ok []
  | x :: a', y :: b' => rbind (vmul_same a' b') (fun r => Ok ((x * y)%Q :: r))
  | _, _ => Raise (RuntimeError "The size of tensor a must match the size of tensor b")
  end.

Definition vmul (a b : Vec) : result Vec :=
  if length a =? length b then vmul_same a b
  else match a, b with
       | [x], _ => Ok (vscale x b)
       | _, [y] => Ok (map (fun x => (x * y)%Q) a)
       | _, _ => Raise (RuntimeError "The size of tensor a must match the size of tensor b")
       end.

(** Row [i] of [torch.diag(v)] when [v] has [k] entries before it and the
    rest of the diagonal is [rest]. *)
Fixpoint diag_rows (k : nat) (rest : Vec) : Mat :=
  match rest with
  | [] => []
  | x :: rest' => (zeros k ++ x :: zeros (length rest')) :: diag_rows (S k) rest'
  end.

(** [torch.diag(v)] *)
Definition diag (v : Vec) : Mat := diag_rows 0 v.

(** [torch.cat(vs)]; an empty list of tensors raises. *)
Definition cat (vs : list Vec) : result Vec :=
  match vs with
  | [] => Raise (RuntimeError "torch.cat(): expected a non-empty list of Tensors")
  | _ => Ok (concat vs)
  end.

Definition list_sum (l : list nat) : nat := fold_right Nat.add 0 l.

(** Entry [i] of a vector and entry [(i, j)] of a matrix, zero outside. *)
Definition vnth (v : Vec) (i : nat) : Q := nth i v 0%Q.
Definition mnth (m : Mat) (i j : nat) : Q := nth j (nth i m []) 0%Q.

(** An [n] by [k] matrix. *)
Definition has_shape (m : Mat) (n k : nat) : Prop :=
  length m = n /\ Forall (fun r => length r = k) m.

(* ================================================================== *)
(** ** Python values passed to the setters *)

(** What a caller can hand to [prior_precision], [prior_mean] and
    [sigma_noise]: a real scalar, a tensor of dimension zero, one, or more
    (given by its entries), or something else. *)
Inductive pyarg : Type :=
| PyFloat (q : Q)
| Tensor0 (q : Q)
| Tensor1 (v : Vec)
| TensorN (ndim : nat) (entries : Vec)
| PyOther.

(** [bool(x != 1)]: a tensor of one entry converts to a boolean, any other
    number of entries is ambiguous. *)
Definition ne_one (x : pyarg) : result bool :=
  match x with
  | PyFloat q | Tensor0 q => Ok (negb (Qeq_bool q 1))
  | Tensor1 [q] | TensorN _ [q] => Ok (negb (Qeq_bool q 1))
  | Tensor1 _ | TensorN _ _ =>
      Raise (RuntimeError "Boolean value of Tensor with more than one value is ambiguous")
  | PyOther => Ok true
  end.

(* ================================================================== *)
(** ** The predictor *)

Record Param : Type := mkParam {
  data : Vec;
  requires_grad : bool
}.

Definition numel (p : Param) : nat := length (data p).

(** [torch.nn.Module]: only what the approximations read and write. *)
Record Module_ : Type := mkModule {
  parameters : list Param;
  output_size : option nat;
  training : bool
}.

Definition set_parameters (ps : list Param) (m : Module_) : Module_ :=
  {| parameters := ps; output_size := output_size m; training := training m |}.
Definition set_output_size (o : option nat) (m : Module_) : Module_ :=
  {| parameters := parameters m; output_size := o; training := training m |}.
Definition set_training (b : bool) (m : Module_) : Module_ :=
  {| parameters := parameters m; output_size := output_size m; training := b |}.

(** [model.eval()] *)
Definition eval_mode (m : Module_) : Module_ := set_training false m.

(** A reference to a parameter tensor of the model is its position in
    [model.parameters()]: [self.params] shares the tensors with the model. *)
Definition param_ref : Type := nat.

Definition deref (m : Module_) (r : param_ref) : Param :=
  nth r (parameters m) (mkParam [] false).

(** The positions, from [k] on, of the parameters that require a gradient. *)
Fixpoint trainable_from (k : nat) (ps : list Param) : list param_ref :=
  match ps with
  | [] => []
  | p :: ps' =>
      if requires_grad p then k :: trainable_from (S k) ps'
      else trainable_from (S k) ps'
  end.

(** [torch.nn.utils.parameters_to_vector], for a list of tensors that is
    not empty: torch concatenates with [torch.cat], which refuses an empty
    list. *)
Definition parameters_to_vector (ps : list Param) : Vec :=
  concat (map data ps).

Fixpoint update_nth {A} (i : nat) (x : A) (l : list A) : list A :=
  match l, i with
  | [], _ => []
  | _ :: l', O => x :: l'
  | y :: l', S i' => y :: update_nth i' x l'
  end.

(** [param.data = chunk] *)
Definition write_param (r : param_ref) (chunk : Vec) (m : Module_) : Module_ :=
  set_parameters
    (update_nth r (mkParam chunk (requires_grad (deref m r))) (parameters m)) m.

(** The loop of [torch.nn.utils.vector_to_parameters]: each parameter takes
    the next [numel] entries of the vector; a slice that is too short cannot
    be viewed as the parameter.  Entries left over are ignored. *)
Fixpoint vector_to_parameters_loop (vec : Vec) (refs : list param_ref)
  : Act Module_ unit :=
  match refs with
  | [] => ret tt
  | r :: refs' =>
      m <- get ;;
      let n := numel (deref m r) in
      if length vec <? n
      then raise (RuntimeError "shape is invalid for input size")
      else modify (write_param r (firstn n vec)) ;;;
           vector_to_parameters_loop (skipn n vec) refs'
  end.

(** [vector_to_parameters(vec, params)]; a tensor of dimension zero cannot
    be sliced. *)
Definition vector_to_parameters (vec : tensor01) (refs : list param_ref)
  : Act Module_ unit :=
  match vec with
  | Vector1 v => vector_to_parameters_loop v refs
  | Scalar0 _ =>
      match refs with
      | [] => ret tt
      | _ => raise (IndexError "slice() cannot be applied to a 0-dim tensor")
      end
  end.

(* ================================================================== *)
(** ** [BaseLaplace] *)

(** The curvature backends named in the source; [OtherBackend b] is any
    other class, [b] telling whether its name contains "backpack". *)
Inductive backend_cls : Type :=
| CurvlinopsGGN
| CurvlinopsEF
| AsdlGGN
| BackPackGGN
| AsdfghjklHessian
| OtherBackend (backpack_in_name : bool).

(** ['backpack' in backend.__name__.lower()] *)
Definition is_backpack (b : backend_cls) : bool :=
  match b with
  | BackPackGGN => true
  | OtherBackend b => b
  | _ => false
  end.

Definition backend_cls_eqb (a b : backend_cls) : bool :=
  match a, b with
  | CurvlinopsGGN, CurvlinopsGGN | CurvlinopsEF, CurvlinopsEF
  | AsdlGGN, AsdlGGN | BackPackGGN, BackPackGGN
  | AsdfghjklHessian, AsdfghjklHessian => true
  | OtherBackend x, OtherBackend y => Bool.eqb x y
  | _, _ => false
  end.

(** The attributes of a [BaseLaplace] object.  [model] is the predictor the
    object refers to, [params] the references to its trainable tensors. *)
Record BaseLaplace : Type := mkBase {
  model : Module_;
  params : list param_ref;
  is_subset_params : bool;
  n_params : nat;
  n_layers : nat;
  _prior_precision : Vec;
  _prior_mean : tensor01;
  reward_modeling : bool;
  likelihood : string;
  _sigma_noise : Q;
  temperature : Q;
  enable_backprop : bool;
  _backend : option string;
  _backend_cls : backend_cls;
  loss : Q;
  n_outputs : option nat;
  n_data : nat;
  _posterior_scale : option Mat
}.

Definition set_model (x : Module_) (s : BaseLaplace) : BaseLaplace :=
  {| model := x; params := params s; is_subset_params := is_subset_params s;
     n_params := n_params s; n_layers := n_layers s; _prior_precision :=
     _prior_precision s; _prior_mean := _prior_mean s; reward_modeling :=
     reward_modeling s; likelihood := likelihood s; _sigma_noise :=
     _sigma_noise s; temperature := temperature s; enable_backprop :=
     enable_backprop s; _backend := _backend s; _backend_cls := _backend_cls s;
     loss := loss s; n_outputs := n_outputs s; n_data := n_data s;
     _posterior_scale := _posterior_scale s |}.
Definition set__prior_precision (x : Vec) (s : BaseLaplace) : BaseLaplace :=
  {| model := model s; params := params s; is_subset_params :=
     is_subset_params s; n_params := n_params s; n_layers := n_layers s;
     _prior_precision := x; _prior_mean := _prior_mean s; reward_modeling :=
     reward_modeling s; likelihood := likelihood s; _sigma_noise :=
     _sigma_noise s; temperature := temperature s; enable_backprop :=
     enable_backprop s; _backend := _backend s; _backend_cls := _backend_cls s;
     loss := loss s; n_outputs := n_outputs s; n_data := n_data s;
     _posterior_scale := _posterior_scale s |}.
Definition set__prior_mean (x : tensor01) (s : BaseLaplace) : BaseLaplace :=
  {| model := model s; params := params s; is_subset_params :=
     is_subset_params s; n_params := n_params s; n_layers := n_layers s;
     _prior_precision := _prior_precision s; _prior_mean := x; reward_modeling
     := reward_modeling s; likelihood := likelihood s; _sigma_noise :=
     _sigma_noise s; temperature := temperature s; enable_backprop :=
     enable_backprop s; _backend := _backend s; _backend_cls := _backend_cls s;
     loss := loss s; n_outputs := n_outputs s; n_data := n_data s;
     _posterior_scale := _posterior_scale s |}.
Definition set_reward_modeling (x : bool) (s : BaseLaplace) : BaseLaplace :=
  {| model := model s; params := params s; is_subset_params :=
     is_subset_params s; n_params := n_params s; n_layers := n_layers s;
     _prior_precision := _prior_precision s; _prior_mean := _prior_mean s;
     reward_modeling := x; likelihood := likelihood s; _sigma_noise :=
     _sigma_noise s; temperature := temperature s; enable_backprop :=
     enable_backprop s; _backend := _backend s; _backend_cls := _backend_cls s;
     loss := loss s; n_outputs := n_outputs s; n_data := n_data s;
     _posterior_scale := _posterior_scale s |}.
Definition set_likelihood (x : string) (s : BaseLaplace) : BaseLaplace :=
  {| model := model s; params := params s; is_subset_params :=
     is_subset_params s; n_params := n_params s; n_layers := n_layers s;
     _prior_precision := _prior_precision s; _prior_mean := _prior_mean s;
     reward_modeling := reward_modeling s; likelihood := x; _sigma_noise :=
     _sigma_noise s; temperature := temperature s; enable_backprop :=
     enable_backprop s; _backend := _backend s; _backend_cls := _backend_cls s;
     loss := loss s; n_outputs := n_outputs s; n_data := n_data s;
     _posterior_scale := _posterior_scale s |}.
Definition set__sigma_noise (x : Q) (s : BaseLaplace) : BaseLaplace :=
  {| model := model s; params := params s; is_subset_params :=
     is_subset_params s; n_params := n_params s; n_layers := n_layers s;
     _prior_precision := _prior_precision s; _prior_mean := _prior_mean s;
     reward_modeling := reward_modeling s; likelihood := likelihood s;
     _sigma_noise := x; temperature := temperature s; enable_backprop :=
     enable_backprop s; _backend := _backend s; _backend_cls := _backend_cls s;
     loss := loss s; n_outputs := n_outputs s; n_data := n_data s;
     _posterior_scale := _posterior_scale s |}.
Definition set_temperature (x : Q) (s : BaseLaplace) : BaseLaplace :=
  {| model := model s; params := params s; is_subset_params :=
     is_subset_params s; n_params := n_params s; n_layers := n_layers s;
     _prior_precision := _prior_precision s; _prior_mean := _prior_mean s;
     reward_modeling := reward_modeling s; likelihood := likelihood s;
     _sigma_noise := _sigma_noise s; temperature := x; enable_backprop :=
     enable_backprop s; _backend := _backend s; _backend_cls := _backend_cls s;
     loss := loss s; n_outputs := n_outputs s; n_data := n_data s;
     _posterior_scale := _posterior_scale s |}.
Definition set_enable_backprop (x : bool) (s : BaseLaplace) : BaseLaplace :=
  {| model := model s; params := params s; is_subset_params :=
     is_subset_params s; n_params := n_params s; n_layers := n_layers s;
     _prior_precision := _prior_precision s; _prior_mean := _prior_mean s;
     reward_modeling := reward_modeling s; likelihood := likelihood s;
     _sigma_noise := _sigma_noise s; temperature := temperature s;
     enable_backprop := x; _backend := _backend s; _backend_cls := _backend_cls
     s; loss := loss s; n_outputs := n_outputs s; n_data := n_data s;
     _posterior_scale := _posterior_scale s |}.
Definition set__backend (x : option string) (s : BaseLaplace) : BaseLaplace :=
  {| model := model s; params := params s; is_subset_params :=
     is_subset_params s; n_params := n_params s; n_layers := n_layers s;
     _prior_precision := _prior_precision s; _prior_mean := _prior_mean s;
     reward_modeling := reward_modeling s; likelihood := likelihood s;
     _sigma_noise := _sigma_noise s; temperature := temperature s;
     enable_backprop := enable_backprop s; _backend := x; _backend_cls :=
     _backend_cls s; loss := loss s; n_outputs := n_outputs s; n_data := n_data
     s; _posterior_scale := _posterior_scale s |}.
Definition set__backend_cls (x : backend_cls) (s : BaseLaplace) : BaseLaplace :=
  {| model := model s; params := params s; is_subset_params :=
     is_subset_params s; n_params := n_params s; n_layers := n_layers s;
     _prior_precision := _prior_precision s; _prior_mean := _prior_mean s;
     reward_modeling := reward_modeling s; likelihood := likelihood s;
     _sigma_noise := _sigma_noise s; temperature := temperature s;
     enable_backprop := enable_backprop s; _backend := _backend s; _backend_cls
     := x; loss := loss s; n_outputs := n_outputs s; n_data := n_data s;
     _posterior_scale := _posterior_scale s |}.
Definition set_loss (x : Q) (s : BaseLaplace) : BaseLaplace :=
  {| model := model s; params := params s; is_subset_params :=
     is_subset_params s; n_params := n_params s; n_layers := n_layers s;
     _prior_precision := _prior_precision s; _prior_mean := _prior_mean s;
     reward_modeling := reward_modeling s; likelihood := likelihood s;
     _sigma_noise := _sigma_noise s; temperature := temperature s;
     enable_backprop := enable_backprop s; _backend := _backend s; _backend_cls
     := _backend_cls s; loss := x; n_outputs := n_outputs s; n_data := n_data
     s; _posterior_scale := _posterior_scale s |}.
Definition set_n_outputs (x : option nat) (s : BaseLaplace) : BaseLaplace :=
  {| model := model s; params := params s; is_subset_params :=
     is_subset_params s; n_params := n_params s; n_layers := n_layers s;
     _prior_precision := _prior_precision s; _prior_mean := _prior_mean s;
     reward_modeling := reward_modeling s; likelihood := likelihood s;
     _sigma_noise := _sigma_noise s; temperature := temperature s;
     enable_backprop := enable_backprop s; _backend := _backend s; _backend_cls
     := _backend_cls s; loss := loss s; n_outputs := x; n_data := n_data s;
     _posterior_scale := _posterior_scale s |}.
Definition set_n_data (x : nat) (s : BaseLaplace) : BaseLaplace :=
  {| model := model s; params := params s; is_subset_params :=
     is_subset_params s; n_params := n_params s; n_layers := n_layers s;
     _prior_precision := _prior_precision s; _prior_mean := _prior_mean s;
     reward_modeling := reward_modeling s; likelihood := likelihood s;
     _sigma_noise := _sigma_noise s; temperature := temperature s;
     enable_backprop := enable_backprop s; _backend := _backend s; _backend_cls
     := _backend_cls s; loss := loss s; n_outputs := n_outputs s; n_data := x;
     _posterior_scale := _posterior_scale s |}.
Definition set__posterior_scale (x : option Mat) (s : BaseLaplace) : BaseLaplace :=
  {| model := model s; params := params s; is_subset_params :=
     is_subset_params s; n_params := n_params s; n_layers := n_layers s;
     _prior_precision := _prior_precision s; _prior_mean := _prior_mean s;
     reward_modeling := reward_modeling s; likelihood := likelihood s;
     _sigma_noise := _sigma_noise s; temperature := temperature s;
     enable_backprop := enable_backprop s; _backend := _backend s; _backend_cls
     := _backend_cls s; loss := loss s; n_outputs := n_outputs s; n_data :=
     n_data s; _posterior_scale := x |}.

(** [x in [a, b, c]] for lengths *)
Definition nat_in (x : nat) (l : list nat) : bool := existsb (Nat.eqb x) l.

(** The setter of [prior_precision]. *)
Definition set_prior_precision (prior_precision : pyarg) : Act BaseLaplace unit :=
  modify (set__posterior_scale None) ;;;
  s <- get ;;
  match prior_precision with
  | PyFloat q => modify (set__prior_precision [q])
  | Tensor0 q => modify (set__prior_precision [q])
  | Tensor1 v =>
      if negb (nat_in (length v) [1; n_layers s; n_params s])
      then raise (ValueError "Length of prior precision does not align with architecture.")
      else modify (set__prior_precision v)
  | TensorN _ _ =>
      raise (ValueError "Prior precision needs to be at most one-dimensional tensor.")
  | PyOther =>
      raise (ValueError "Prior precision either scalar or torch.Tensor up to 1-dim.")
  end.

(** The setter of [prior_mean]. *)
Definition set_prior_mean (prior_mean : pyarg) : Act BaseLaplace unit :=
  s <- get ;;
  match prior_mean with
  | PyFloat q => modify (set__prior_mean (Scalar0 q))
  | Tensor0 q => modify (set__prior_mean (Vector1 [q]))
  | Tensor1 v =>
      if negb (nat_in (length v) [1; n_params s])
      then raise (ValueError "Invalid length of prior mean.")
      else modify (set__prior_mean (Vector1 v))
  | TensorN _ _ => raise (ValueError "Prior mean has too many dimensions!")
  | PyOther => raise (ValueError "Invalid argument type of prior mean.")
  end.

(** The setter of [sigma_noise]. *)
Definition set_sigma_noise (sigma_noise : pyarg) : Act BaseLaplace unit :=
  modify (set__posterior_scale None) ;;;
  match sigma_noise with
  | PyFloat q => modify (set__sigma_noise q)
  | Tensor0 q => modify (set__sigma_noise q)
  | Tensor1 v =>
      if 1 <? length v
      then raise (ValueError "Only homoscedastic output noise supported.")
      else match v with
           | q :: _ => modify (set__sigma_noise q)
           | [] => raise (IndexError "index 0 is out of bounds for dimension 0 with size 0")
           end
  | TensorN _ _ => raise (ValueError "Sigma noise needs to be scalar or 1-dimensional.")
  | PyOther =>
      raise (ValueError "Invalid type: sigma noise needs to be torch.Tensor or scalar.")
  end.

(** The property [_H_factor], for a noise and a temperature other than
    zero: there torch divides to an infinite factor, where the division of
    [Q] gives zero. *)
Definition _H_factor (s : BaseLaplace) : Q :=
  let sigma2 := (_sigma_noise s * _sigma_noise s)%Q in
  (1 / sigma2 / temperature s)%Q.

(** [[p.numel() for p in self.params]] *)
Definition n_params_per_layer (s : BaseLaplace) : list nat :=
  map (fun r => numel (deref (model s) r)) (params s).

(** The property [prior_precision_diag]. *)
Definition prior_precision_diag (s : BaseLaplace) : result Vec :=
  let pp := _prior_precision s in
  if length pp =? 1 then vmul pp (ones (n_params s))
  else if length pp =? n_params s then Ok pp
  else if length pp =? n_layers s then
    cat (map (fun pn => vscale (fst pn) (ones (snd pn)))
             (combine pp (n_params_per_layer s)))
  else Raise (ValueError "Mismatch of prior and model. Diagonal, scalar, or per-layer prior.").

(** The arguments of the constructors. *)
Record Config : Type := mkConfig {
  cfg_model : Module_;
  cfg_likelihood : string;
  cfg_sigma_noise : pyarg;
  cfg_prior_precision : pyarg;
  cfg_prior_mean : pyarg;
  cfg_temperature : Q;
  cfg_enable_backprop : bool;
  cfg_backend : option backend_cls
}.

Definition string_in (x : string) (l : list string) : bool :=
  existsb (String.eqb x) l.

(** The object when [__init__] reaches its first setter: the attributes
    assigned so far, the others with the value they receive first. *)
Definition blank (c : Config) : BaseLaplace :=
  let ps := trainable_from 0 (parameters (cfg_model c)) in
  {| model := cfg_model c;
     params := ps;
     is_subset_params := existsb (fun p => negb (requires_grad p))
                                 (parameters (cfg_model c));
     n_params := list_sum (map (fun r => numel (deref (cfg_model c) r)) ps);
     n_layers := length ps;
     _prior_precision := [];
     _prior_mean := Scalar0 0;
     reward_modeling := false;
     likelihood := "";
     _sigma_noise := 1;
     temperature := cfg_temperature c;
     enable_backprop := cfg_enable_backprop c;
     _backend := None;
     _backend_cls := CurvlinopsGGN;
     loss := 0;
     n_outputs := None;
     n_data := 0;
     _posterior_scale := None |}.

(** [BaseLaplace.__init__], in the order of the source.  [prior_setter] is
    the setter of [prior_precision] of the class being constructed. *)
Definition base_init_steps (prior_setter : pyarg -> Act BaseLaplace unit)
  (c : Config) : Act BaseLaplace unit :=
  prior_setter (cfg_prior_precision c) ;;;
  set_prior_mean (cfg_prior_mean c) ;;;
  b <- lift (ne_one (cfg_sigma_noise c)) ;;
  if b && negb (cfg_likelihood c =? "regression")%string
  then raise (ValueError "Sigma noise != 1 only available for regression.")
  else
    modify (set_reward_modeling (cfg_likelihood c =? "reward_modeling")%string) ;;;
    s <- get ;;
    (if reward_modeling s
     then modify (set_likelihood "classification")
     else modify (set_likelihood (cfg_likelihood c))) ;;;
    set_sigma_noise (cfg_sigma_noise c) ;;;
    s <- get ;;
    match cfg_backend c with
    | None => modify (set__backend_cls CurvlinopsGGN)
    | Some b =>
        if is_subset_params s && is_backpack b
        then raise (ValueError
               "If some grad are switched off, the BackPACK backend is not supported.")
        else modify (set__backend_cls b)
    end.

Definition base_init (prior_setter : pyarg -> Act BaseLaplace unit) (c : Config)
  : result BaseLaplace :=
  if negb (string_in (cfg_likelihood c)
             ["classification"; "regression"; "reward_modeling"])
  then Raise (ValueError "Invalid likelihood type")
  else match base_init_steps prior_setter c (blank c) with
       | (s, Ok _) => Ok s
       | (_, Raise e) => Raise e
       end.

(* ================================================================== *)
(** ** Collaborators *)

(** The predictor as a callable, and the operations of torch on its
    outputs that the predictive code uses. *)
Class Predictor : Type := {
  Input : Type;
  Label : Type;
  Output : Type;
  Jacobians : Type;
  (** [self.model(X)], which reads the parameters of the module *)
  forward : Module_ -> Input -> result Output;
  (** [X[:1]] *)
  first_example : Input -> result Input;
  (** [out.shape[-1]] *)
  last_dim : Output -> nat;
  (** [torch.softmax(., dim=-1)] *)
  softmax : Output -> Output;
  (** [.flatten()] *)
  flatten : Output -> Output;
  (** [.mean(dim=0)] and [.var(dim=0)] of stacked outputs *)
  mean0 : list Output -> Output;
  var0 : list Output -> Output;
  (** [0], [a + b] and [a / n] on outputs *)
  out_zero : Output;
  out_add : Output -> Output -> Output;
  out_div : Output -> nat -> Output;
  (** [f_var.shape == [f_mu.shape[0], f_mu.shape[1], f_mu.shape[1]]] *)
  var_shape_ok : Output -> Output -> bool;
  (** [torch.diagonal(f_var, dim1=1, dim2=2)] *)
  diagonal12 : Output -> Output;
  (** the probit link approximation, and the Laplace bridge with or
      without the variance correction of ['bridge_norm'] *)
  probit : Output -> Output -> Output;
  bridge : bool -> Output -> Output -> Output
}.

(** A batch of the data stream: a pair [(X, y)] or a mapping with the key
    ['labels']. *)
Inductive Batch `{Predictor} : Type :=
| TupleBatch (X : Input) (y : Label)
| MappingBatch (d : Input) (labels : Label).

(** [torch.utils.data.DataLoader]: the batches it yields,
    [len(loader.dataset)] and [loader.batch_size]. *)
Record DataLoader `{Predictor} : Type := mkLoader {
  batches : list Batch;
  dataset_len : nat;
  loader_batch_size : nat
}.

(** [laplace.utils.Kron]: the factors per parameter group. *)
Record Kron : Type := mkKron { kfacs : list (list Mat) }.

(** The operations of [laplace.utils.matrix] on Kronecker factors. *)
Class KronOps : Type := {
  KronDecomposed : Type;
  (** [Kron.init_from_model(params, device)] *)
  init_from_model : list Param -> Kron;
  (** [a + b] *)
  kron_add : Kron -> Kron -> Kron;
  (** [kron.decompose(damping=...)] *)
  decompose : Kron -> bool -> KronDecomposed;
  (** [H * factor + prior_precision] on the decomposed form, which may
      raise, as on a prior precision that does not fit the factors *)
  kd_posterior : KronDecomposed -> Q -> Vec -> result KronDecomposed;
  (** [.logdet()] and [.bmm(delta, exponent=1)] on the decomposed form *)
  kd_logdet : KronDecomposed -> Q;
  kd_bmm : KronDecomposed -> Vec -> Vec
}.

(** The scalar functions of torch that are not rational, and the
    determinant. *)
Class Numerics : Type := {
  log : Q -> Q;
  sqrt_2pi : Q;
  logdet : Mat -> Q;
  (** [torch.logdet(self.Kinv)] of [LowRankLaplace], from the eigenpairs
      and the diagonal of the prior *)
  logdet_Kinv : Mat -> Vec -> Vec -> Q
}.

(** [laplace.curvature.CurvatureInterface].  A backend object is built from
    its class, the model and the likelihood; its methods read the current
    parameters of the model. *)
Class CurvatureInterface `{Predictor} : Type := {
  backend_full :
    backend_cls -> string -> Module_ -> Input -> Label -> nat -> result (Q * Mat);
  backend_diag :
    backend_cls -> string -> Module_ -> Input -> Label -> nat -> result (Q * Vec);
  backend_kron :
    backend_cls -> string -> Module_ -> Input -> Label -> nat -> result (Q * Kron);
  eig_lowrank :
    backend_cls -> string -> Module_ -> DataLoader -> result (Mat * Vec * Q);
  jacobians :
    backend_cls -> string -> Module_ -> Input -> result (Jacobians * Output);
  functorch_jacobians :
    backend_cls -> string -> Module_ -> Input -> result (Jacobians * Output)
}.

(* ================================================================== *)
(** ** [ParametricLaplace] and its variants *)

Inductive laplace_cls : Type :=
| FullLaplace
| KronLaplace
| DiagLaplace
| LowRankLaplace.

Definition laplace_cls_eqb (a b : laplace_cls) : bool :=
  match a, b with
  | FullLaplace, FullLaplace | KronLaplace, KronLaplace
  | DiagLaplace, DiagLaplace | LowRankLaplace, LowRankLaplace => true
  | _, _ => false
  end.

(** What a predictive call returns: mean and variance for regression, class
    probabilities for classification. *)
Inductive prediction `{Predictor} : Type :=
| RegressionPred (f_mu f_var : Output)
| ClassPred (p : Output).

(** [generator]: whether it is a [torch.Generator], and whether its device
    is the device of the input. *)
Record Generator : Type := mkGenerator {
  is_torch_generator : bool;
  on_input_device : bool
}.

Record CallArgs : Type := mkCallArgs {
  pred_type : string;
  joint : bool;
  link_approx : string;
  n_samples : nat;
  diagonal_output : bool;
  generator : option Generator
}.

Section Parametric.
Context {P : Predictor} {K : KronOps} {C : CurvatureInterface} {Nm : Numerics}.

(** The attribute [H] over all variants. *)
Inductive Hrep : Type :=
| HNone
| HFull (m : Mat)
| HDiag (v : Vec)
| HKron (k : Kron)
| HKronDecomposed (k : KronDecomposed)
| HLowRank (eigenvectors : Mat) (eigenvalues : Vec).

Record ParametricLaplace : Type := mkParametric {
  base : BaseLaplace;
  cls : laplace_cls;
  H : Hrep;
  mean : tensor01;
  H_facs : option Kron;
  damping : bool
}.

Definition set_base (x : BaseLaplace) (s : ParametricLaplace) : ParametricLaplace :=
  {| base := x; cls := cls s; H := H s; mean := mean s; H_facs := H_facs s;
     damping := damping s |}.
Definition set_H (x : Hrep) (s : ParametricLaplace) : ParametricLaplace :=
  {| base := base s; cls := cls s; H := x; mean := mean s; H_facs := H_facs
     s; damping := damping s |}.
Definition set_mean (x : tensor01) (s : ParametricLaplace) : ParametricLaplace :=
  {| base := base s; cls := cls s; H := H s; mean := x; H_facs := H_facs s;
     damping := damping s |}.
Definition set_H_facs (x : option Kron) (s : ParametricLaplace) : ParametricLaplace :=
  {| base := base s; cls := cls s; H := H s; mean := mean s; H_facs := x;
     damping := damping s |}.

(** A method of the base class run on the object. *)
Definition on_base {A} (m : Act BaseLaplace A) : Act ParametricLaplace A :=
  fun s => (set_base (fst (m (base s))) s, snd (m (base s))).

(** A function of torch that writes the tensors of the model. *)
Definition on_model {A} (m : Act Module_ A) : Act BaseLaplace A :=
  fun s => (set_model (fst (m (model s))) s, snd (m (model s))).

(** The numerical methods that [ParametricLaplace] leaves to its
    subclasses; they read the object.  Those of [FullLaplace] also keep
    the scale they compute in [_posterior_scale]; that cache is not
    written here, so what is stated of these methods on the whole object
    is stated for the other variants. *)
Class PosteriorKernels : Type := {
  (** [self.sample(n_samples, generator)], the rows of the result *)
  sample : ParametricLaplace -> nat -> option Generator -> result (list Vec);
  functional_variance : ParametricLaplace -> Jacobians -> result Output;
  functional_covariance : ParametricLaplace -> Jacobians -> result Output;
  (** [laplace.utils.normal_samples] *)
  normal_samples : Output -> Output -> nat -> option Generator -> list Output
}.
Context {PK : PosteriorKernels}.

(** The setter of [prior_precision] in [KronLaplace]. *)
Definition kron_set_prior_precision (prior_precision : pyarg)
  : Act BaseLaplace unit :=
  set_prior_precision prior_precision ;;;
  s <- get ;;
  if negb (nat_in (length (_prior_precision s)) [1; n_layers s])
  then raise (ValueError "Prior precision for Kron either scalar or per-layer.")
  else ret tt.

(** The setter of [prior_precision] that an object of class [c] runs. *)
Definition prior_precision_setter (c : laplace_cls) : pyarg -> Act BaseLaplace unit :=
  match c with
  | KronLaplace => kron_set_prior_precision
  | _ => set_prior_precision
  end.

(** [_init_H] *)
Definition _init_H : Act ParametricLaplace unit :=
  s <- get ;;
  match cls s with
  | FullLaplace =>
      modify (set_H (HFull (zeros2 (n_params (base s)) (n_params (base s)))))
  | KronLaplace =>
      modify (set_H (HKron (init_from_model
                              (map (deref (model (base s))) (params (base s))))))
  | DiagLaplace => modify (set_H (HDiag (zeros (n_params (base s)))))
  | LowRankLaplace => modify (set_H HNone)
  end.

(** The constructor of the class [c].  [LowRankLaplace] takes
    [AsdfghjklHessian] when no backend is given. *)
Definition parametric_init (c : laplace_cls) (damping_arg : bool) (cfg : Config)
  : result ParametricLaplace :=
  let cfg' :=
    match c, cfg_backend cfg with
    | LowRankLaplace, None =>
        mkConfig (cfg_model cfg) (cfg_likelihood cfg) (cfg_sigma_noise cfg)
                 (cfg_prior_precision cfg) (cfg_prior_mean cfg)
                 (cfg_temperature cfg) (cfg_enable_backprop cfg)
                 (Some AsdfghjklHessian)
    | _, _ => cfg
    end in
  rbind (base_init (prior_precision_setter c) cfg') (fun b =>
    let s := {| base := b; cls := c; H := HNone; mean := _prior_mean b;
                H_facs := None; damping := damping_arg |} in
    Ok (fst (_init_H s))).

(** [_check_H_init] *)
Definition _check_H_init (s : ParametricLaplace) : result unit :=
  match H s with
  | HNone => Raise (AttributeError "Laplace not fitted. Run fit() first.")
  | _ => Ok tt
  end.

(** The property [backend]: the backend object is created on first use,
    with the likelihood stored at that moment, and kept. *)
Definition backend : Act BaseLaplace string :=
  s <- get ;;
  match _backend s with
  | Some l => ret l
  | None => modify (set__backend (Some (likelihood s))) ;;; ret (likelihood s)
  end.

(** [_curv_closure] of each variant; [ParametricLaplace] has none. *)
Definition _curv_closure (X : Input) (y : Label) (N : nat)
  : Act ParametricLaplace (Q * Hrep) :=
  s <- get ;;
  match cls s with
  | FullLaplace =>
      l <- on_base backend ;;
      s <- get ;;
      r <- lift (backend_full (_backend_cls (base s)) l (model (base s)) X y N) ;;
      ret (fst r, HFull (snd r))
  | KronLaplace =>
      l <- on_base backend ;;
      s <- get ;;
      r <- lift (backend_kron (_backend_cls (base s)) l (model (base s)) X y N) ;;
      ret (fst r, HKron (snd r))
  | DiagLaplace =>
      l <- on_base backend ;;
      s <- get ;;
      r <- lift (backend_diag (_backend_cls (base s)) l (model (base s)) X y N) ;;
      ret (fst r, HDiag (snd r))
  | LowRankLaplace => raise NotImplementedError
  end.

(** [self.H += H_batch] *)
Definition H_iadd (h b : Hrep) : result Hrep :=
  match h, b with
  | HFull x, HFull y => rbind (madd x y) (fun m => Ok (HFull m))
  | HDiag x, HDiag y => rbind (vadd x y) (fun v => Ok (HDiag v))
  | HKron x, HKron y => Ok (HKron (kron_add x y))
  | _, _ => Raise (TypeError "unsupported operand type(s) for +=")
  end.

(** The forward pass of [fit] on the first batch, which gives [n_outputs]. *)
Definition first_forward (data : Batch) : Act ParametricLaplace Output :=
  s <- get ;;
  match data with
  | MappingBatch d _ =>
      if laplace_cls_eqb (cls s) DiagLaplace
         && backend_cls_eqb (_backend_cls (base s)) CurvlinopsEF
      then raise (ValueError
             "Currently DiagEF is not supported under CurvlinopsEF backend for custom models with non-tensor inputs")
      else lift (forward (model (base s)) d)
  | TupleBatch X _ =>
      match rbind (first_example X) (forward (model (base s))) with
      | Raise (TypeError _) | Raise (AttributeError _) =>
          lift (forward (model (base s)) X)
      | r => lift r
      end
  end.

(** The body of the loop of [fit] over the batches. *)
Definition fit_batch (N : nat) (data : Batch) : Act ParametricLaplace unit :=
  let '(X, y) := match data with
                 | MappingBatch d labels => (d, labels)
                 | TupleBatch X y => (X, y)
                 end in
  r <- _curv_closure X y N ;;
  modify (fun s => set_base (set_loss (loss (base s) + fst r)%Q (base s)) s) ;;;
  s <- get ;;
  h <- lift (H_iadd (H s) (snd r)) ;;
  modify (set_H h).

(** [ParametricLaplace.fit] *)
Definition parametric_fit (train_loader : DataLoader) (override : bool)
  : Act ParametricLaplace unit :=
  (if override
   then _init_H ;;;
        modify (fun s => set_base (set_n_data 0 (set_loss 0 (base s))) s)
   else ret tt) ;;;
  modify (fun s => set_base (set_model (eval_mode (model (base s))) (base s)) s) ;;;
  modify (fun s =>
    set_mean (Vector1 (parameters_to_vector
                         (map (deref (model (base s))) (params (base s))))) s) ;;;
  data <- match batches train_loader with
          | [] => raise StopIteration
          | d :: _ => ret d
          end ;;
  out <- first_forward data ;;
  modify (fun s =>
    set_base (set_model (set_output_size (Some (last_dim out)) (model (base s)))
                        (set_n_outputs (Some (last_dim out)) (base s))) s) ;;;
  let N := dataset_len train_loader in
  for_each (batches train_loader) (fit_batch N) ;;;
  modify (fun s => set_base (set_n_data (n_data (base s) + N) (base s)) s).

(** [FullLaplace.fit] *)
Definition full_fit (train_loader : DataLoader) (override : bool)
  : Act ParametricLaplace unit :=
  modify (fun s => set_base (set__posterior_scale None (base s)) s) ;;;
  parametric_fit train_loader override.

(** [KronLaplace._rescale_factors]: [F[1] *= factor] where [len(F) == 2]. *)
Definition _rescale_factors (kron : Kron) (factor : Q) : Kron :=
  mkKron (map (fun F => match F with
                        | [a; b] => [a; mscale factor b]
                        | _ => F
                        end) (kfacs kron)).

(** [n / (n + m)] on Python integers *)
Definition int_ratio (n d : nat) : result Q :=
  if d =? 0 then Raise ZeroDivisionError
  else Ok (inject_Z (Z.of_nat n) / inject_Z (Z.of_nat d))%Q.

(** [KronLaplace.fit] *)
Definition kron_fit (train_loader : DataLoader) (override : bool)
  : Act ParametricLaplace unit :=
  (if override then modify (set_H_facs None) else ret tt) ;;;
  s0 <- get ;;
  let n_data_old := n_data (base s0) in
  let n_data_new := dataset_len train_loader in
  match H_facs s0 with
  | Some facs =>
      _init_H ;;;
      f <- lift (int_ratio n_data_old (n_data_old + n_data_new)) ;;
      modify (set_H_facs (Some (_rescale_factors facs f)))
  | None => ret tt
  end ;;;
  parametric_fit train_loader override ;;;
  s <- get ;;
  match H_facs s, H s with
  | None, HKron h => modify (set_H_facs (Some h))
  | Some facs, HKron h =>
      f <- lift (int_ratio n_data_new (n_data_new + n_data_old)) ;;
      modify (set_H (HKron (_rescale_factors h f))) ;;;
      modify (set_H_facs (Some (kron_add facs (_rescale_factors h f))))
  | _, _ => raise (AttributeError "object has no attribute 'kfacs'")
  end ;;;
  s <- get ;;
  match H_facs s with
  | Some facs => modify (set_H (HKronDecomposed (decompose facs (damping s))))
  | None => raise (AttributeError "'NoneType' object has no attribute 'decompose'")
  end.

(** [LowRankLaplace.fit] *)
Definition lowrank_fit (train_loader : DataLoader) (override : bool)
  : Act ParametricLaplace unit :=
  if negb override
  then raise (ValueError "LowRank LA does not support updating.")
  else
    modify (fun s => set_base (set_model (eval_mode (model (base s))) (base s)) s) ;;;
    modify (fun s =>
      set_mean (Vector1 (parameters_to_vector (parameters (model (base s))))) s) ;;;
    s <- get ;;
    out <- match batches train_loader with
           | [] => raise StopIteration
           | MappingBatch _ _ :: _ =>
               raise (ValueError "too many values to unpack (expected 2)")
           | TupleBatch X _ :: _ =>
               match rbind (first_example X) (forward (model (base s))) with
               | Raise (TypeError _) | Raise (AttributeError _) =>
                   lift (forward (model (base s)) X)
               | r => lift r
               end
           end ;;
    modify (fun s =>
      set_base (set_model (set_output_size (Some (last_dim out)) (model (base s)))
                          (set_n_outputs (Some (last_dim out)) (base s))) s) ;;;
    l <- on_base backend ;;
    s <- get ;;
    r <- lift (eig_lowrank (_backend_cls (base s)) l (model (base s)) train_loader) ;;
    let '(eigenvectors, eigenvalues, loss_) := r in
    modify (set_H (HLowRank eigenvectors eigenvalues)) ;;;
    modify (fun s => set_base (set_loss loss_ (base s)) s) ;;;
    modify (fun s => set_base (set_n_data (dataset_len train_loader) (base s)) s).

(** [fit], by the class of the object. *)
Definition fit (train_loader : DataLoader) (override : bool)
  : Act ParametricLaplace unit :=
  s <- get ;;
  match cls s with
  | FullLaplace => full_fit train_loader override
  | KronLaplace => kron_fit train_loader override
  | DiagLaplace => parametric_fit train_loader override
  | LowRankLaplace => lowrank_fit train_loader override
  end.

(** *** Posterior precision and marginal likelihood *)

(** The value of the property [posterior_precision], by variant. *)
Inductive precision : Type :=
| PFull (m : Mat)
| PDiag (v : Vec)
| PKron (k : KronDecomposed)
| PLowRank (eigenvectors : Mat) (scaled_eigenvalues : Vec) (prior_diag : Vec).

(** The property [posterior_precision] of the four variants.  A value of
    [H] that the class of the object never stores raises. *)
Definition posterior_precision (s : ParametricLaplace) : result precision :=
  rbind (_check_H_init s) (fun _ =>
  match cls s, H s with
  | FullLaplace, HFull h =>
      let scaled := mscale (_H_factor (base s)) h in
      rbind (prior_precision_diag (base s)) (fun p0 =>
      rbind (madd scaled (diag p0)) (fun m => Ok (PFull m)))
  | DiagLaplace, HDiag h =>
      let scaled := vscale (_H_factor (base s)) h in
      rbind (prior_precision_diag (base s)) (fun p0 =>
      rbind (vadd scaled p0) (fun v => Ok (PDiag v)))
  | KronLaplace, HKronDecomposed k =>
      rbind (kd_posterior k (_H_factor (base s)) (_prior_precision (base s)))
            (fun k' => Ok (PKron k'))
  | LowRankLaplace, HLowRank U eig =>
      rbind (prior_precision_diag (base s)) (fun p0 =>
      Ok (PLowRank U (vscale (_H_factor (base s)) eig) p0))
  | _, _ => Raise (TypeError "unsupported operand type(s)")
  end).

Definition vsum (v : Vec) : Q := fold_left Qplus v 0%Q.

(** [a @ b] for one-dimensional tensors *)
Definition dot (a b : Vec) : result Q := rbind (vmul_same a b) (fun v => Ok (vsum v)).

(** [a - b] with the broadcasting of a tensor of at most one element *)
Definition tsub (a b : tensor01) : result tensor01 :=
  match a, b with
  | Scalar0 x, Scalar0 y => Ok (Scalar0 (x - y))
  | Vector1 v, Scalar0 y => Ok (Vector1 (map (fun x => (x - y)%Q) v))
  | Scalar0 x, Vector1 w => Ok (Vector1 (map (fun y => (x - y)%Q) w))
  | Vector1 v, Vector1 w =>
      if length v =? length w
      then rbind (vadd v (map Qopp w)) (fun r => Ok (Vector1 r))
      else match v, w with
           | [x], _ => Ok (Vector1 (map (fun y => (x - y)%Q) w))
           | _, [y] => Ok (Vector1 (map (fun x => (x - y)%Q) v))
           | _, _ => Raise (RuntimeError
                       "The size of tensor a must match the size of tensor b")
           end
  end.

(** The property [log_likelihood]. *)
Definition log_likelihood (s : BaseLaplace) : result Q :=
  let factor := (- _H_factor s)%Q in
  if (likelihood s =? "regression")%string then
    match n_outputs s with
    | None => Raise (TypeError "unsupported operand type(s) for *: 'int' and 'NoneType'")
    | Some k =>
        let c := (inject_Z (Z.of_nat (n_data s * k))
                  * log (_sigma_noise s * sqrt_2pi))%Q in
        Ok (factor * loss s - c)%Q
    end
  else Ok (factor * loss s)%Q.

(** The property [scatter]. *)
Definition scatter (s : ParametricLaplace) : result Q :=
  rbind (tsub (mean s) (_prior_mean (base s))) (fun delta =>
  rbind (prior_precision_diag (base s)) (fun p0 =>
  match delta with
  | Scalar0 _ =>
      Raise (RuntimeError "both arguments to matmul need to be at least 1D")
  | Vector1 d => rbind (vmul d p0) (fun dp => dot dp d)
  end)).

(** The property [log_det_prior_precision]. *)
Definition log_det_prior_precision (s : ParametricLaplace) : result Q :=
  rbind (prior_precision_diag (base s)) (fun p0 => Ok (vsum (map log p0))).

(** The property [log_det_posterior_precision] of the four variants. *)
Definition log_det_posterior_precision (s : ParametricLaplace) : result Q :=
  match cls s, H s with
  | KronLaplace, HKron _ =>
      rbind (prior_precision_diag (base s)) (fun p0 => Ok (vsum (map log p0)))
  | _, _ =>
      rbind (posterior_precision s) (fun p =>
      match p with
      | PFull m => Ok (logdet m)
      | PDiag v => Ok (vsum (map log v))
      | PKron k => Ok (kd_logdet k)
      | PLowRank U eig p0 =>
          Ok (vsum (map log eig) + vsum (map log p0) - logdet_Kinv U eig p0)%Q
      end)
  end.

(** The property [log_det_ratio]. *)
Definition log_det_ratio (s : ParametricLaplace) : result Q :=
  rbind (log_det_posterior_precision s) (fun a =>
  rbind (log_det_prior_precision s) (fun b => Ok (a - b)%Q)).

(** [log_marginal_likelihood(prior_precision, sigma_noise)]; [None] leaves
    the stored value. *)
Definition log_marginal_likelihood
  (prior_precision sigma_noise : option pyarg) : Act ParametricLaplace Q :=
  match prior_precision with
  | Some p => s <- get ;; on_base (prior_precision_setter (cls s) p)
  | None => ret tt
  end ;;;
  match sigma_noise with
  | Some sn =>
      s <- get ;;
      if negb (likelihood (base s) =? "regression")%string
      then raise (ValueError "Can only change sigma_noise for regression.")
      else on_base (set_sigma_noise sn)
  | None => ret tt
  end ;;;
  s <- get ;;
  ll <- lift (log_likelihood (base s)) ;;
  ldr <- lift (log_det_ratio s) ;;
  sc <- lift (scatter s) ;;
  ret (ll - (1 # 2) * (ldr + sc))%Q.

(** *** The predictive *)

(** [_glm_predictive_distribution] *)
Definition _glm_predictive_distribution (X : Input) (joint_ : bool)
  : Act ParametricLaplace (Output * Output) :=
  l <- on_base backend ;;
  s <- get ;;
  r <- lift (if is_backpack (_backend_cls (base s))
             then jacobians (_backend_cls (base s)) l (model (base s)) X
             else functorch_jacobians (_backend_cls (base s)) l (model (base s)) X) ;;
  let '(Js, f_mu) := r in
  if joint_
  then f_var <- lift (functional_covariance s Js) ;; ret (flatten f_mu, f_var)
  else f_var <- lift (functional_variance s Js) ;; ret (f_mu, f_var).

(** [vector_to_parameters(vec, self.params)] *)
Definition load_params (vec : tensor01) : Act ParametricLaplace unit :=
  s <- get ;;
  on_base (on_model (vector_to_parameters vec (params (base s)))).

(** The loop of [_nn_predictive_samples]: each sample is written into the
    predictor, whose output is appended to [fs]. *)
Fixpoint nn_samples_loop (X : Input) (samples : list Vec) (fs : list Output)
  : Act ParametricLaplace (list Output) :=
  match samples with
  | [] => ret fs
  | smp :: rest =>
      load_params (Vector1 smp) ;;;
      s <- get ;;
      logits <- lift (forward (model (base s)) X) ;;
      nn_samples_loop X rest (fs ++ [logits])
  end.

(** [torch.stack(fs)] keeps the outputs in a list; none is an error. *)
Definition stack (fs : list Output) : result (list Output) :=
  match fs with
  | [] => Raise (RuntimeError "stack expects a non-empty TensorList")
  | _ => Ok fs
  end.

(** [_nn_predictive_samples] *)
Definition _nn_predictive_samples (X : Input) (n : nat) (g : option Generator)
  : Act ParametricLaplace (list Output) :=
  s <- get ;;
  samples <- lift (sample s n g) ;;
  fs <- nn_samples_loop X samples [] ;;
  s <- get ;;
  load_params (mean s) ;;;
  fs <- lift (stack fs) ;;
  s <- get ;;
  if (likelihood (base s) =? "classification")%string
  then ret (map softmax fs)
  else ret fs.

(** The loop of [_nn_predictive_classification], with the running
    average [py]. *)
Fixpoint nn_classification_loop (X : Input) (n : nat) (samples : list Vec)
  (py : Output) : Act ParametricLaplace Output :=
  match samples with
  | [] => ret py
  | smp :: rest =>
      load_params (Vector1 smp) ;;;
      s <- get ;;
      logits <- lift (forward (model (base s)) X) ;;
      nn_classification_loop X n rest (out_add py (out_div (softmax logits) n))
  end.

(** [_nn_predictive_classification] *)
Definition _nn_predictive_classification (X : Input) (n : nat)
  : Act ParametricLaplace Output :=
  s <- get ;;
  samples <- lift (sample s n None) ;;
  py <- nn_classification_loop X n samples out_zero ;;
  s <- get ;;
  load_params (mean s) ;;;
  ret py.

(** [predictive_samples] *)
Definition predictive_samples (x : Input) (pred_type_ : string) (n : nat)
  (diagonal_output_ : bool) (g : option Generator)
  : Act ParametricLaplace (list Output) :=
  if negb (string_in pred_type_ ["glm"; "nn"])
  then raise (ValueError "Only glm and nn supported as prediction types.")
  else if (pred_type_ =? "glm")%string then
    r <- _glm_predictive_distribution x false ;;
    let '(f_mu, f_var) := r in
    if negb (var_shape_ok f_mu f_var) then raise AssertionError
    else
      let f_var' := if diagonal_output_ then diagonal12 f_var else f_var in
      let f_samples := normal_samples f_mu f_var' n g in
      s <- get ;;
      if (likelihood (base s) =? "regression")%string
      then ret f_samples
      else ret (map softmax f_samples)
  else _nn_predictive_samples x n g.

(** Whether [generator] passes the check of [__call__]. *)
Definition generator_ok (g : option Generator) : bool :=
  match g with
  | None => true
  | Some g => is_torch_generator g && on_input_device g
  end.

(** The checks of the arguments at the head of [__call__]. *)
Definition check_call_args (a : CallArgs) : result unit :=
  if negb (string_in (pred_type a) ["glm"; "nn"])
  then Raise (ValueError "Only glm and nn supported as prediction types.")
  else if negb (string_in (link_approx a) ["mc"; "probit"; "bridge"; "bridge_norm"])
  then Raise (ValueError "Unsupported link approximation")
  else if (pred_type a =? "nn")%string && negb (link_approx a =? "mc")%string
  then Raise (ValueError
         "Only mc link approximation is supported for nn prediction type.")
  else if negb (generator_ok (generator a))
  then Raise (ValueError "Invalid random generator (check type and device).")
  else Ok tt.

(** For reward modeling, the likelihood becomes regression at the first
    prediction that reaches this point. *)
Definition switch_reward_modeling (s : BaseLaplace) : BaseLaplace :=
  if reward_modeling s && (likelihood s =? "classification")%string
  then set_model (set_output_size (Some 1) (model s))
                 (set_likelihood "regression" s)
  else s.

(** [ParametricLaplace.__call__] *)
Definition parametric_call (x : Input) (a : CallArgs)
  : Act ParametricLaplace prediction :=
  lift (check_call_args a) ;;;
  modify (fun s => set_base (switch_reward_modeling (base s)) s) ;;;
  if (pred_type a =? "glm")%string then
    s <- get ;;
    r <- _glm_predictive_distribution x
           (joint a && (likelihood (base s) =? "regression")%string) ;;
    let '(f_mu, f_var) := r in
    s <- get ;;
    if (likelihood (base s) =? "regression")%string
    then ret (RegressionPred f_mu f_var)
    else if (link_approx a =? "mc")%string then
      smp <- predictive_samples x "glm" (n_samples a) (diagonal_output a) None ;;
      ret (ClassPred (mean0 smp))
    else if (link_approx a =? "probit")%string
    then ret (ClassPred (probit f_mu f_var))
    else ret (ClassPred (bridge (link_approx a =? "bridge_norm")%string f_mu f_var))
  else
    s <- get ;;
    if (likelihood (base s) =? "regression")%string then
      smp <- _nn_predictive_samples x (n_samples a) None ;;
      ret (RegressionPred (mean0 smp) (var0 smp))
    else
      py <- _nn_predictive_classification x (n_samples a) ;;
      ret (ClassPred py).

(** *** Persisted state *)

Record StateDict : Type := mkStateDict {
  sd_mean : tensor01;
  sd_H : Hrep;
  sd_loss : Q;
  sd_prior_mean : tensor01;
  sd_prior_precision : Vec;
  sd_sigma_noise : Q;
  sd_n_data : nat;
  sd_n_outputs : option nat;
  sd_likelihood : string;
  sd_temperature : Q;
  sd_enable_backprop : bool;
  sd_cls_name : laplace_cls
}.

(** [state_dict]; [KronLaplace] stores its raw factors under ['H']. *)
Definition state_dict (s : ParametricLaplace) : result StateDict :=
  rbind (_check_H_init s) (fun _ =>
  rbind (match cls s, H_facs s with
         | KronLaplace, Some facs => Ok (HKron facs)
         | KronLaplace, None =>
             Raise (AttributeError "'NoneType' object has no attribute 'kfacs'")
         | _, _ => Ok (H s)
         end) (fun h =>
  Ok {| sd_mean := mean s; sd_H := h; sd_loss := loss (base s);
        sd_prior_mean := _prior_mean (base s);
        sd_prior_precision := _prior_precision (base s);
        sd_sigma_noise := _sigma_noise (base s);
        sd_n_data := n_data (base s); sd_n_outputs := n_outputs (base s);
        sd_likelihood := likelihood (base s);
        sd_temperature := temperature (base s);
        sd_enable_backprop := enable_backprop (base s);
        sd_cls_name := cls s |})).

Definition as_pyarg (t : tensor01) : pyarg :=
  match t with Scalar0 q => Tensor0 q | Vector1 v => Tensor1 v end.

(** [len(t)] *)
Definition tensor_len (t : tensor01) : result nat :=
  match t with
  | Scalar0 _ => Raise (TypeError "len() of a 0-d tensor")
  | Vector1 v => Ok (length v)
  end.

(** [ParametricLaplace.load_state_dict] *)
Definition parametric_load_state_dict (sd : StateDict) : Act ParametricLaplace unit :=
  s <- get ;;
  if negb (laplace_cls_eqb (cls s) (sd_cls_name sd))
  then raise (ValueError "Loading a wrong Laplace type.")
  else
    n <- lift (tensor_len (sd_mean sd)) ;;
    if negb (n =? n_params (base s))
    then raise (ValueError
           "Attempting to load Laplace with different number of parameters than the model.")
    else if negb (likelihood (base s) =? sd_likelihood sd)%string
    then raise (ValueError "Different likelihoods detected!")
    else
      modify (set_mean (sd_mean sd)) ;;;
      modify (set_H (sd_H sd)) ;;;
      modify (fun s => set_base (set_loss (sd_loss sd) (base s)) s) ;;;
      on_base (set_prior_mean (as_pyarg (sd_prior_mean sd))) ;;;
      on_base (prior_precision_setter (cls s) (Tensor1 (sd_prior_precision sd))) ;;;
      on_base (set_sigma_noise (Tensor0 (sd_sigma_noise sd))) ;;;
      modify (fun s =>
        set_base (set_model (set_output_size (sd_n_outputs sd) (model (base s)))
                   (set_n_outputs (sd_n_outputs sd)
                      (set_n_data (sd_n_data sd) (base s)))) s) ;;;
      modify (fun s =>
        set_base (set_enable_backprop (sd_enable_backprop sd)
                   (set_temperature (sd_temperature sd)
                      (set_likelihood (sd_likelihood sd) (base s)))) s).

(** [load_state_dict], by the class of the object. *)
Definition load_state_dict (sd : StateDict) : Act ParametricLaplace unit :=
  s <- get ;;
  match cls s with
  | KronLaplace =>
      parametric_load_state_dict sd ;;;
      _init_H ;;;
      match sd_H sd with
      | HKron facs =>
          modify (set_H_facs (Some facs)) ;;;
          s <- get ;;
          modify (set_H (HKronDecomposed (decompose facs (damping s))))
      | _ => raise (TypeError "'Kron' factors expected")
      end
  | _ => parametric_load_state_dict sd
  end.

(** *** The operations a caller has on a parametric approximation *)

Inductive op : Type :=
| OpFit (train_loader : DataLoader) (override : bool)
| OpCall (x : Input) (a : CallArgs)
| OpPredictiveSamples (x : Input) (pred_type_ : string) (n : nat)
    (diagonal_output_ : bool) (g : option Generator)
| OpSetPriorPrecision (p : pyarg)
| OpSetPriorMean (p : pyarg)
| OpSetSigmaNoise (p : pyarg)
| OpLogMarginalLikelihood (prior_precision sigma_noise : option pyarg)
| OpLoadStateDict (sd : StateDict).

Definition discard {S A} (m : Act S A) : Act S unit :=
  fun s => (fst (m s), rbind (snd (m s)) (fun _ => Ok tt)).

(** The object after an operation, and whether the operation raised. *)
Definition run_op (o : op) : Act ParametricLaplace unit :=
  match o with
  | OpFit l ov => fit l ov
  | OpCall x a => discard (parametric_call x a)
  | OpPredictiveSamples x pt n d g => discard (predictive_samples x pt n d g)
  | OpSetPriorPrecision p =>
      s <- get ;; on_base (prior_precision_setter (cls s) p)
  | OpSetPriorMean p => on_base (set_prior_mean p)
  | OpSetSigmaNoise p => on_base (set_sigma_noise p)
  | OpLogMarginalLikelihood p sn => discard (log_marginal_likelihood p sn)
  | OpLoadStateDict sd => load_state_dict sd
  end.

(** The object after a sequence of operations; an operation that raises
    leaves its partial effect and the caller goes on. *)
Fixpoint run_ops (os : list op) (s : ParametricLaplace) : ParametricLaplace :=
  match os with
  | [] => s
  | o :: os' => run_ops os' (fst (run_op o s))
  end.

(** An operation other than a call of the predictive entry point. *)
Definition not_a_call (o : op) : Prop :=
  match o with OpCall _ _ => False | _ => True end.

End Parametric.

(* ================================================================== *)
(** ** Grid search over the prior precision *)

(** A validation loss, a floating-point number: a finite value, [inf],
    [-inf] or [nan]. *)
Inductive score : Type :=
| Finite (q : Q)
| Inf
| NegInf
| NaN.

Definition is_nan (a : score) : bool :=
  match a with NaN => true | _ => false end.

(** [a < b]; a comparison with [nan] is false. *)
Definition score_ltb (a b : score) : bool :=
  match a, b with
  | NaN, _ | _, NaN => false
  | Finite x, Finite y => negb (Qle_bool y x)
  | Finite _, Inf => true
  | NegInf, Finite _ | NegInf, Inf => true
  | _, _ => false
  end.

(** [not (b < a)], which is [a <= b] for losses that are not [nan]. *)
Definition score_leb (a b : score) : bool := negb (score_ltb b a).

(** The scan of [np.argmin], [best] at [best_i] being the entry kept so far
    and [i] the next position: the scan ends at a [nan]; otherwise an entry
    [x] replaces [best] when [x >= best] is false, that is when [x] is
    [nan] or less than [best]. *)
Fixpoint argmin_from (best_i : nat) (best : score) (i : nat) (l : list score)
  : nat :=
  match l with
  | [] => best_i
  | x :: l' =>
      if is_nan best then best_i
      else if is_nan x || score_ltb x best then argmin_from i x (S i) l'
      else argmin_from best_i best (S i) l'
  end.

(** [np.argmin(results)] *)
Definition argmin (results : list score) : result nat :=
  match results with
  | [] => Raise (ValueError "attempt to get argmin of an empty sequence")
  | x :: l => Ok (argmin_from 0 x 1 l)
  end.

(** [isinstance(e, RuntimeError)]: [NotImplementedError] is a subclass of
    [RuntimeError]. *)
Definition is_RuntimeError (e : exn) : bool :=
  match e with
  | RuntimeError _ | NotImplementedError => true
  | _ => false
  end.

(** [try: ... except RuntimeError: result = np.inf] *)
Definition except_RuntimeError {S} (m : Act S score) : Act S score :=
  fun s => match m s with
           | (s', Raise e) =>
               if is_RuntimeError e then (s', Ok Inf) else (s', Raise e)
           | r => r
           end.

Section Gridsearch.
(** The object, the setter of its [prior_precision], and
    [laplace.utils.validate] applied to it with the arguments of the
    search. *)
Variable S : Type.
Variable prior_setter : pyarg -> Act S unit.
Variable validate : Act S score.

(** The loop of [_gridsearch], with the lists [results] and
    [prior_precs]. *)
Fixpoint gridsearch_loop (interval : list pyarg) (results : list score)
  (prior_precs : list pyarg) : Act S (list score * list pyarg) :=
  match interval with
  | [] => ret (results, prior_precs)
  | prior_prec :: rest =>
      prior_setter prior_prec ;;;
      r <- except_RuntimeError validate ;;
      gridsearch_loop rest (results ++ [r]) (prior_precs ++ [prior_prec])
  end.

(** [_gridsearch]; [loss_ok] is the asserted condition on [loss]. *)
Definition _gridsearch (loss_ok : bool) (interval : list pyarg) : Act S pyarg :=
  if negb loss_ok then raise AssertionError
  else
    rp <- gridsearch_loop interval [] [] ;;
    i <- lift (argmin (fst rp)) ;;
    match nth_error (snd rp) i with
    | Some p => ret p
    | None => raise (IndexError "list index out of range")
    end.

(** The branch [method == 'gridsearch'] of [optimize_prior_precision_base];
    [interval] is the grid that [torch.logspace] returns. *)
Definition optimize_prior_precision_gridsearch (has_val_loader loss_ok : bool)
  (interval : list pyarg) : Act S unit :=
  if negb has_val_loader
  then raise (ValueError "gridsearch requires a validation set DataLoader")
  else p <- _gridsearch loss_ok interval ;; prior_setter p.

(** The score that the search records for an evaluation: the loss, and
    infinity for an evaluation that raised. *)
Definition score_of (r : result score) : score :=
  match r with Ok x => x | Raise _ => Inf end.

(** The evaluation of each grid point in turn, as the specification
    describes the search: the prior precision is set, then the validation
    loss is computed on the object. *)
Fixpoint evaluations (interval : list pyarg) (s : S)
  : list (pyarg * result score) :=
  match interval with
  | [] => []
  | prior_prec :: rest =>
      let s1 := fst (prior_setter prior_prec s) in
      (prior_prec, snd (validate s1)) :: evaluations rest (fst (validate s1))
  end.

End Gridsearch.

(** [k] is the position of the first least score of [l]. *)
Definition first_minimum (l : list score) (k : nat) : Prop :=
  k < length l
  /\ (forall j, j < length l -> score_leb (nth k l Inf) (nth j l Inf) = true)
  /\ (forall j, j < k -> score_ltb (nth k l Inf) (nth j l Inf) = true).

(** [k] is the position of the first [nan] of [l]. *)
Definition first_nan (l : list score) (k : nat) : Prop :=
  k < length l
  /\ nth k l Inf = NaN
  /\ (forall j, j < k -> is_nan (nth j l Inf) = false).

(* ================================================================== *)
(** ** [FunctionalLaplace] *)

(** [K_MM] and [Sigma_inv]: unset, one matrix per output (diagonal kernel),
    or one matrix. *)
Inductive kernel_rep : Type :=
| KNone
| KList (ms : list Mat)
| KDense (m : Mat).

(** [L]: unset, one vector per output, or one vector. *)
Inductive L_rep : Type :=
| LNone
| LList (vs : list Vec)
| LDense (v : Vec).

Section Functional.
Context {P : Predictor} {C : CurvatureInterface}.

Record FunctionalLaplace : Type := mkFunctional {
  fbase : BaseLaplace;
  M : option nat;
  diagonal_kernel : bool;
  seed : nat;
  K_MM : kernel_rep;
  Sigma_inv : kernel_rep;
  train_loader : option DataLoader;
  batch_size : option nat;
  _prior_factor_sod : option Q;
  mu : option Mat;
  L : L_rep;
  map_estimate : Vec;
  _fitted : bool;
  _recompute_Sigma : bool
}.

Definition set_fbase (x : BaseLaplace) (s : FunctionalLaplace) : FunctionalLaplace :=
  {| fbase := x; M := M s; diagonal_kernel := diagonal_kernel s; seed :=
     seed s; K_MM := K_MM s; Sigma_inv := Sigma_inv s; train_loader :=
     train_loader s; batch_size := batch_size s; _prior_factor_sod :=
     _prior_factor_sod s; mu := mu s; L := L s; map_estimate := map_estimate s;
     _fitted := _fitted s; _recompute_Sigma := _recompute_Sigma s |}.
Definition set_M (x : option nat) (s : FunctionalLaplace) : FunctionalLaplace :=
  {| fbase := fbase s; M := x; diagonal_kernel := diagonal_kernel s; seed :=
     seed s; K_MM := K_MM s; Sigma_inv := Sigma_inv s; train_loader :=
     train_loader s; batch_size := batch_size s; _prior_factor_sod :=
     _prior_factor_sod s; mu := mu s; L := L s; map_estimate := map_estimate s;
     _fitted := _fitted s; _recompute_Sigma := _recompute_Sigma s |}.
Definition set_K_MM (x : kernel_rep) (s : FunctionalLaplace) : FunctionalLaplace :=
  {| fbase := fbase s; M := M s; diagonal_kernel := diagonal_kernel s; seed
     := seed s; K_MM := x; Sigma_inv := Sigma_inv s; train_loader :=
     train_loader s; batch_size := batch_size s; _prior_factor_sod :=
     _prior_factor_sod s; mu := mu s; L := L s; map_estimate := map_estimate s;
     _fitted := _fitted s; _recompute_Sigma := _recompute_Sigma s |}.
Definition set_Sigma_inv (x : kernel_rep) (s : FunctionalLaplace) : FunctionalLaplace :=
  {| fbase := fbase s; M := M s; diagonal_kernel := diagonal_kernel s; seed
     := seed s; K_MM := K_MM s; Sigma_inv := x; train_loader := train_loader s;
     batch_size := batch_size s; _prior_factor_sod := _prior_factor_sod s; mu
     := mu s; L := L s; map_estimate := map_estimate s; _fitted := _fitted s;
     _recompute_Sigma := _recompute_Sigma s |}.
Definition set_train_loader (x : option DataLoader) (s : FunctionalLaplace) : FunctionalLaplace :=
  {| fbase := fbase s; M := M s; diagonal_kernel := diagonal_kernel s; seed
     := seed s; K_MM := K_MM s; Sigma_inv := Sigma_inv s; train_loader := x;
     batch_size := batch_size s; _prior_factor_sod := _prior_factor_sod s; mu
     := mu s; L := L s; map_estimate := map_estimate s; _fitted := _fitted s;
     _recompute_Sigma := _recompute_Sigma s |}.
Definition set_batch_size (x : option nat) (s : FunctionalLaplace) : FunctionalLaplace :=
  {| fbase := fbase s; M := M s; diagonal_kernel := diagonal_kernel s; seed
     := seed s; K_MM := K_MM s; Sigma_inv := Sigma_inv s; train_loader :=
     train_loader s; batch_size := x; _prior_factor_sod := _prior_factor_sod s;
     mu := mu s; L := L s; map_estimate := map_estimate s; _fitted := _fitted
     s; _recompute_Sigma := _recompute_Sigma s |}.
Definition set__prior_factor_sod (x : option Q) (s : FunctionalLaplace) : FunctionalLaplace :=
  {| fbase := fbase s; M := M s; diagonal_kernel := diagonal_kernel s; seed
     := seed s; K_MM := K_MM s; Sigma_inv := Sigma_inv s; train_loader :=
     train_loader s; batch_size := batch_size s; _prior_factor_sod := x; mu :=
     mu s; L := L s; map_estimate := map_estimate s; _fitted := _fitted s;
     _recompute_Sigma := _recompute_Sigma s |}.
Definition set_mu (x : option Mat) (s : FunctionalLaplace) : FunctionalLaplace :=
  {| fbase := fbase s; M := M s; diagonal_kernel := diagonal_kernel s; seed
     := seed s; K_MM := K_MM s; Sigma_inv := Sigma_inv s; train_loader :=
     train_loader s; batch_size := batch_size s; _prior_factor_sod :=
     _prior_factor_sod s; mu := x; L := L s; map_estimate := map_estimate s;
     _fitted := _fitted s; _recompute_Sigma := _recompute_Sigma s |}.
Definition set_L (x : L_rep) (s : FunctionalLaplace) : FunctionalLaplace :=
  {| fbase := fbase s; M := M s; diagonal_kernel := diagonal_kernel s; seed
     := seed s; K_MM := K_MM s; Sigma_inv := Sigma_inv s; train_loader :=
     train_loader s; batch_size := batch_size s; _prior_factor_sod :=
     _prior_factor_sod s; mu := mu s; L := x; map_estimate := map_estimate s;
     _fitted := _fitted s; _recompute_Sigma := _recompute_Sigma s |}.
Definition set__fitted (x : bool) (s : FunctionalLaplace) : FunctionalLaplace :=
  {| fbase := fbase s; M := M s; diagonal_kernel := diagonal_kernel s; seed
     := seed s; K_MM := K_MM s; Sigma_inv := Sigma_inv s; train_loader :=
     train_loader s; batch_size := batch_size s; _prior_factor_sod :=
     _prior_factor_sod s; mu := mu s; L := L s; map_estimate := map_estimate s;
     _fitted := x; _recompute_Sigma := _recompute_Sigma s |}.
Definition set__recompute_Sigma (x : bool) (s : FunctionalLaplace) : FunctionalLaplace :=
  {| fbase := fbase s; M := M s; diagonal_kernel := diagonal_kernel s; seed
     := seed s; K_MM := K_MM s; Sigma_inv := Sigma_inv s; train_loader :=
     train_loader s; batch_size := batch_size s; _prior_factor_sod :=
     _prior_factor_sod s; mu := mu s; L := L s; map_estimate := map_estimate s;
     _fitted := _fitted s; _recompute_Sigma := x |}.

Definition on_fbase {A} (m : Act BaseLaplace A) : Act FunctionalLaplace A :=
  fun s => (set_fbase (fst (m (fbase s))) s, snd (m (fbase s))).

(** The tensor kernels of the function-space variant. *)
Class GPKernels : Type := {
  KBlock : Type;
  (** [torch.linalg.cholesky], which raises on a matrix that is not
      positive definite *)
  cholesky : Mat -> result Mat;
  (** [torch.empty(size=(n, m))] *)
  empty : nat -> nat -> Mat;
  (** the loader over [SoDSampler(N, M, seed)] *)
  SoD_loader : DataLoader -> nat -> nat -> nat -> DataLoader;
  (** [backend.factor * backend.lossfunc(f_batch, y)] *)
  batch_loss : string -> Output -> Label -> Q;
  (** the identity per example, and [diag(p) - p p^T] for [p = softmax(f)] *)
  identity_lambdas : Output -> list Mat;
  softmax_lambdas : Output -> list Mat;
  (** [torch.einsum('bcp,p->bc', Js, v)] *)
  jac_vec : Jacobians -> Vec -> Mat;
  (** [y - (f + t)] *)
  residual : Label -> Output -> Mat -> Mat;
  (** the products of Jacobians of [_kernel_batch], by [diagonal_kernel]
      and [n_outputs] *)
  kernel_einsum : bool -> nat -> Jacobians -> Jacobians -> KBlock;
  (** the slice assignments of [_store_K_batch] into [K_MM], from
      [diagonal_kernel], [batch_size], [M], [n_outputs], the block and its
      position [(i, j)] *)
  store_block :
    bool -> nat -> nat -> nat -> kernel_rep -> KBlock -> nat -> nat -> kernel_rep;
  (** [_build_L], by [diagonal_kernel] and [n_outputs] *)
  build_L : bool -> nat -> list (list Mat) -> L_rep;
  (** [functional_variance] and [functional_covariance], which read the
      object, [Sigma_inv] included *)
  gp_functional_variance : FunctionalLaplace -> Jacobians -> result Output;
  gp_functional_covariance : FunctionalLaplace -> Jacobians -> result Output;
  (** [MultivariateNormal(f_mu, f_var).sample((n,))] *)
  mvn_sample : Output -> Output -> nat -> list Output
}.
Context {G : GPKernels}.

(** The setter of [prior_precision] in [FunctionalLaplace]: the setter of
    the base class, then the flag. *)
Definition functional_set_prior_precision (prior_precision : pyarg)
  : Act FunctionalLaplace unit :=
  on_fbase (set_prior_precision prior_precision) ;;;
  modify (set__recompute_Sigma true).

(** [_check_prior_precision] *)
Definition _check_prior_precision (prior_precision : pyarg) : result unit :=
  match prior_precision with
  | Tensor0 _ | Tensor1 [_] | PyFloat _ | PyOther => Ok tt
  | Tensor1 _ | TensorN _ _ =>
      Raise (ValueError "Only isotropic priors supported in FunctionalLaplace")
  end.

(** [FunctionalLaplace.__init__] with [backend_kwargs=None].  The base
    constructor receives [backend] in the position of [enable_backprop] and
    [backend_kwargs] in the position of [backend], so the stored backend
    class is the default of the base class. *)
Definition functional_init (M_arg : option nat) (diagonal_kernel_arg : bool)
  (seed_arg : nat) (cfg : Config) : result FunctionalLaplace :=
  match cfg_backend cfg with
  | Some BackPackGGN | Some AsdlGGN | None =>
      rbind (_check_prior_precision (cfg_prior_precision cfg)) (fun _ =>
      let cfg' := mkConfig (cfg_model cfg) (cfg_likelihood cfg)
                    (cfg_sigma_noise cfg) (cfg_prior_precision cfg)
                    (cfg_prior_mean cfg) (cfg_temperature cfg) true None in
      rbind (base_init set_prior_precision cfg') (fun b =>
      Ok {| fbase := set_enable_backprop (cfg_enable_backprop cfg) b;
            M := M_arg; diagonal_kernel := diagonal_kernel_arg;
            seed := seed_arg; K_MM := KNone; Sigma_inv := KNone;
            train_loader := None; batch_size := None;
            _prior_factor_sod := None; mu := None; L := LNone;
            map_estimate := parameters_to_vector (parameters (cfg_model cfg));
            _fitted := false; _recompute_Sigma := true |}))
  | Some _ => Raise AssertionError
  end.

(** The property [gp_kernel_prior_variance]: a tensor of the length of the
    prior precision. *)
Definition gp_kernel_prior_variance (s : FunctionalLaplace) : result Vec :=
  match _prior_factor_sod s with
  | None => Raise (TypeError "unsupported operand type(s) for /: 'NoneType' and 'Tensor'")
  | Some f => Ok (map (fun p => (f / p)%Q) (_prior_precision (fbase s)))
  end.

(** [v * m] for a one-dimensional [v]: a single entry scales the matrix,
    otherwise [v] is broadcast along the rows. *)
Fixpoint rows_mul (v : Vec) (m : Mat) : result Mat :=
  match m with
  | [] => Ok []
  | r :: m' =>
      rbind (vmul v r) (fun r' => rbind (rows_mul v m') (fun m'' => Ok (r' :: m'')))
  end.

(** [torch.nan_to_num(1 / x, posinf=10.0)] entry by entry: the reciprocal,
    and [10] where [x] is zero. *)
Definition clamped_reciprocal (x : Q) : Q :=
  if Qeq_bool x 0 then 10%Q else (1 / x)%Q.

(** One factor of [_build_Sigma_inv]. *)
Definition Sigma_inv_of (gp_var : Vec) (H_factor : Q) (K : Mat) (lambda : Vec)
  : result Mat :=
  rbind (rows_mul gp_var K) (fun scaled =>
  rbind (madd scaled
           (diag (map (fun l => clamped_reciprocal (H_factor * l)) lambda)))
        cholesky).

(** The list comprehension of [_build_Sigma_inv] over [enumerate(self.L)]. *)
Fixpoint Sigma_inv_list (gp_var : Vec) (H_factor : Q) (Ks : list Mat) (c : nat)
  (Ls : list Vec) : result (list Mat) :=
  match Ls with
  | [] => Ok []
  | lambda_c :: Ls' =>
      match nth_error Ks c with
      | None => Raise (IndexError "list index out of range")
      | Some K =>
          rbind (Sigma_inv_of gp_var H_factor K lambda_c) (fun m =>
          rbind (Sigma_inv_list gp_var H_factor Ks (S c) Ls') (fun ms =>
          Ok (m :: ms)))
      end
  end.

(** The value that [_build_Sigma_inv] computes from the object. *)
Definition built_Sigma_inv (s : FunctionalLaplace) : result kernel_rep :=
  rbind (gp_kernel_prior_variance s) (fun gp_var =>
  if diagonal_kernel s then
    match K_MM s, L s with
    | KList Ks, LList Ls =>
        rbind (Sigma_inv_list gp_var (_H_factor (fbase s)) Ks 0 Ls)
              (fun ms => Ok (KList ms))
    | _, _ => Raise (TypeError "object is not subscriptable")
    end
  else
    match K_MM s, L s with
    | KDense K_, LDense L_ =>
        rbind (Sigma_inv_of gp_var (_H_factor (fbase s)) K_ L_)
              (fun m => Ok (KDense m))
    | _, _ => Raise (TypeError "unsupported operand type(s) for *")
    end).

(** [_build_Sigma_inv] *)
Definition _build_Sigma_inv : Act FunctionalLaplace unit :=
  s <- get ;;
  k <- lift (built_Sigma_inv s) ;;
  modify (set_Sigma_inv k).

(** [_init_K_MM] and [_init_Sigma_inv]: memory of the right shape. *)
Definition empty_kernel (diagonal : bool) (m n_out : nat) : kernel_rep :=
  if diagonal then KList (repeat (empty m m) n_out)
  else KDense (empty (m * n_out) (m * n_out)).

(** [_jacobians] *)
Definition _jacobians (X : Input) : Act FunctionalLaplace (Jacobians * Output) :=
  l <- on_fbase backend ;;
  s <- get ;;
  lift (jacobians (_backend_cls (fbase s)) l (model (fbase s)) X).

(** [_mean_scatter_term_batch]; a likelihood that is neither regression
    nor classification gives [None]. *)
Definition _mean_scatter_term_batch (Js : Jacobians) (f : Output) (y : Label)
  : Act FunctionalLaplace (option Mat) :=
  s <- get ;;
  if (likelihood (fbase s) =? "regression")%string then
    d <- lift (tsub (_prior_mean (fbase s)) (Vector1 (map_estimate s))) ;;
    match d with
    | Vector1 v => ret (Some (residual y f (jac_vec Js v)))
    | Scalar0 _ => raise (RuntimeError "einsum(): operand has too few dimensions")
    end
  else if (likelihood (fbase s) =? "classification")%string then
    d <- lift (tsub (_prior_mean (fbase s)) (Vector1 (map_estimate s))) ;;
    match d with
    | Vector1 v => ret (Some (mscale (-1) (jac_vec Js v)))
    | Scalar0 _ => raise (RuntimeError "einsum(): operand has too few dimensions")
    end
  else ret None.

(** [_kernel_batch] *)
Definition _kernel_batch (Js : Jacobians) (batch : Input)
  : Act FunctionalLaplace KBlock :=
  r <- _jacobians batch ;;
  s <- get ;;
  match n_outputs (fbase s) with
  | Some k => ret (kernel_einsum (diagonal_kernel s) k Js (fst r))
  | None => raise (TypeError "'NoneType' object cannot be interpreted as an integer")
  end.

(** [_store_K_batch] *)
Definition _store_K_batch (K_batch : KBlock) (i j : nat)
  : Act FunctionalLaplace unit :=
  s <- get ;;
  match batch_size s, M s, n_outputs (fbase s) with
  | Some b, Some m, Some k =>
      modify (set_K_MM (store_block (diagonal_kernel s) b m k (K_MM s) K_batch i j))
  | _, _, _ => raise (TypeError "unsupported operand type(s) for *")
  end.

Definition batch_input (d : Batch) : Act FunctionalLaplace (Input * Label) :=
  match d with
  | TupleBatch X y => ret (X, y)
  | MappingBatch _ _ => raise (ValueError "too many values to unpack (expected 2)")
  end.

(** The inner loop of [fit]: the blocks [(i, j)] with [j >= i]. *)
Fixpoint fit_inner (Js_batch : Jacobians) (i j : nat) (bs : list Batch)
  : Act FunctionalLaplace unit :=
  match bs with
  | [] => ret tt
  | d :: bs' =>
      xy <- batch_input d ;;
      (if i <=? j
       then K_batch <- _kernel_batch Js_batch (fst xy) ;; _store_K_batch K_batch i j
       else ret tt) ;;;
      fit_inner Js_batch i (S j) bs'
  end.

(** The outer loop of [fit], with the lists [lambdas] and [mu]. *)
Fixpoint fit_outer (loader : list Batch) (i : nat) (bs : list Batch)
  (lambdas : list (list Mat)) (mus : list (option Mat))
  : Act FunctionalLaplace (list (list Mat) * list (option Mat)) :=
  match bs with
  | [] => ret (lambdas, mus)
  | d :: bs' =>
      xy <- batch_input d ;;
      r <- _jacobians (fst xy) ;;
      let '(Js_batch, f_batch) := r in
      l <- on_fbase backend ;;
      let loss_batch := batch_loss l f_batch (snd xy) in
      s <- get ;;
      let lambdas_batch :=
        if (likelihood (fbase s) =? "regression")%string
        then identity_lambdas f_batch else softmax_lambdas f_batch in
      modify (fun s => set_fbase (set_loss (loss (fbase s) + loss_batch)%Q (fbase s)) s) ;;;
      m <- _mean_scatter_term_batch Js_batch f_batch (snd xy) ;;
      fit_inner Js_batch i 0 loader ;;;
      fit_outer loader (S i) bs' (lambdas ++ [lambdas_batch]) (mus ++ [m])
  end.

(** [torch.cat(mu, dim=0)] *)
Fixpoint cat_mu (mus : list (option Mat)) : result Mat :=
  match mus with
  | [] => Raise (RuntimeError "torch.cat(): expected a non-empty list of Tensors")
  | [Some m] => Ok m
  | Some m :: rest => rbind (cat_mu rest) (fun r => Ok (m ++ r))
  | None :: _ => Raise (TypeError "expected Tensor as element of argument 'tensors'")
  end.

(** [FunctionalLaplace.fit] *)
Definition functional_fit (loader : DataLoader) : Act FunctionalLaplace unit :=
  xy <- match batches loader with
        | [] => raise StopIteration
        | d :: _ => batch_input d
        end ;;
  s <- get ;;
  out <- lift (rbind (first_example (fst xy)) (forward (model (fbase s)))) ;;
  modify (fun s =>
    set_fbase (set_model (set_output_size (Some (last_dim out)) (model (fbase s)))
                 (set_n_outputs (Some (last_dim out)) (fbase s))) s) ;;;
  modify (set_batch_size (Some (loader_batch_size loader))) ;;;
  modify (fun s => set_fbase (set_model (eval_mode (model (fbase s))) (fbase s)) s) ;;;
  let N := dataset_len loader in
  modify (fun s => set_fbase (set_n_data N (fbase s)) s) ;;;
  modify (fun s => match M s with None => set_M (Some N) s | Some _ => s end) ;;;
  s <- get ;;
  let m := match M s with Some m => m | None => N end in
  let sod := SoD_loader loader N m (seed s) in
  modify (set_train_loader (Some sod)) ;;;
  f <- lift (int_ratio m N) ;;
  modify (set__prior_factor_sod (Some f)) ;;;
  modify (set_K_MM (empty_kernel (diagonal_kernel s) m (last_dim out))) ;;;
  modify (set_Sigma_inv (empty_kernel (diagonal_kernel s) m (last_dim out))) ;;;
  r <- fit_outer (batches sod) 0 (batches sod) [] [] ;;
  modify (set_L (build_L (diagonal_kernel s) (last_dim out) (fst r))) ;;;
  mu_ <- lift (cat_mu (snd r)) ;;
  modify (set_mu (Some mu_)) ;;;
  _build_Sigma_inv ;;;
  modify (set__fitted true).

(** [FunctionalLaplace._glm_predictive_distribution] *)
Definition functional_glm_predictive_distribution (X : Input) (joint_ : bool)
  : Act FunctionalLaplace (Output * Output) :=
  r <- _jacobians X ;;
  let '(Js, f_mu) := r in
  s <- get ;;
  if joint_
  then f_var <- lift (gp_functional_covariance s Js) ;; ret (flatten f_mu, f_var)
  else f_var <- lift (gp_functional_variance s Js) ;; ret (f_mu, f_var).

(** [FunctionalLaplace.predictive_samples] *)
Definition functional_predictive_samples (f_mu f_var : Output) (n : nat)
  : Act FunctionalLaplace (list Output) :=
  if negb (var_shape_ok f_mu f_var) then raise AssertionError
  else
    s <- get ;;
    if (likelihood (fbase s) =? "regression")%string
    then ret (mvn_sample f_mu f_var n)
    else ret (map softmax (mvn_sample f_mu f_var n)).

(** The checks of the arguments of [FunctionalLaplace.__call__]. *)
Definition functional_check_call_args (a : CallArgs) : result unit :=
  if negb (string_in (pred_type a) ["gp"])
  then Raise (ValueError "Only gp supported as prediction types.")
  else if negb (string_in (link_approx a) ["mc"; "probit"; "bridge"; "bridge_norm"])
  then Raise (ValueError "Unsupported link approximation")
  else if negb (generator_ok (generator a))
  then Raise (ValueError "Invalid random generator (check type and device).")
  else Ok tt.

(** The part of [FunctionalLaplace.__call__] after the factor [Sigma_inv]
    has been dealt with. *)
Definition functional_predict (x : Input) (a : CallArgs)
  : Act FunctionalLaplace prediction :=
  lift (functional_check_call_args a) ;;;
  modify (fun s => set_fbase (switch_reward_modeling (fbase s)) s) ;;;
  s <- get ;;
  r <- functional_glm_predictive_distribution x
         (joint a && (likelihood (fbase s) =? "regression")%string) ;;
  let '(f_mu, f_var) := r in
  s <- get ;;
  if (likelihood (fbase s) =? "regression")%string
  then ret (RegressionPred f_mu f_var)
  else if (link_approx a =? "mc")%string then
    smp <- functional_predictive_samples f_mu f_var (n_samples a) ;;
    ret (ClassPred (mean0 smp))
  else if (link_approx a =? "probit")%string
  then ret (ClassPred (probit f_mu f_var))
  else ret (ClassPred (bridge (link_approx a =? "bridge_norm")%string f_mu f_var)).

(** [FunctionalLaplace.__call__] *)
Definition functional_call (x : Input) (a : CallArgs)
  : Act FunctionalLaplace prediction :=
  s <- get ;;
  if negb (_fitted s)
  then raise (RuntimeError
         "Functional Laplace has not been fitted to any training dataset. Please call .fit method.")
  else
    (if _recompute_Sigma s then _build_Sigma_inv else ret tt) ;;;
    functional_predict x a.

(** [FunctionalLaplace.optimize_prior_precision] with
    [method='gridsearch']. *)
Definition functional_optimize_prior_precision
  (validate : Act FunctionalLaplace score) (pred_type_ prior_structure : string)
  (has_val_loader loss_ok : bool) (interval : list pyarg)
  : Act FunctionalLaplace unit :=
  if negb (pred_type_ =? "gp")%string then raise AssertionError
  else if negb (prior_structure =? "scalar")%string then raise AssertionError
  else
    optimize_prior_precision_gridsearch functional_set_prior_precision validate
      has_val_loader loss_ok interval ;;;
    _build_Sigma_inv.

(** *** The operations a caller has on a function-space approximation *)

Inductive fop : Type :=
| FopFit (loader : DataLoader)
| FopCall (x : Input) (a : CallArgs)
| FopSetPriorPrecision (p : pyarg)
| FopSetPriorMean (p : pyarg)
| FopSetSigmaNoise (p : pyarg).

Definition run_fop (o : fop) : Act FunctionalLaplace unit :=
  match o with
  | FopFit l => functional_fit l
  | FopCall x a => discard (functional_call x a)
  | FopSetPriorPrecision p => functional_set_prior_precision p
  | FopSetPriorMean p => on_fbase (set_prior_mean p)
  | FopSetSigmaNoise p => on_fbase (set_sigma_noise p)
  end.

Fixpoint run_fops (os : list fop) (s : FunctionalLaplace) : FunctionalLaplace :=
  match os with
  | [] => s
  | o :: os' => run_fops os' (fst (run_fop o s))
  end.

Definition not_a_fcall (o : fop) : Prop :=
  match o with FopCall _ _ => False | _ => True end.

(** The stored factor is the one that [_build_Sigma_inv] computes from the
    kernel, the likelihood curvature, the noise and the prior precision of
    the object. *)
Definition Sigma_consistent (s : FunctionalLaplace) : Prop :=
  built_Sigma_inv s = Ok (Sigma_inv s).

(** What a fit leaves in the object, apart from the factor. *)
Definition fit_state (s : FunctionalLaplace) :=
  (K_MM s, L s, mu s, M s, train_loader s, _prior_factor_sod s,
   (loss (fbase s), n_data (fbase s), n_outputs (fbase s))).

End Functional.

(* ================================================================== *)
(** ** A small world to run the code in

    A linear predictor on rational inputs, [f(x) = [x * sum(theta)]], with a
    backend whose curvature of a batch [(x, y)] is [x * x] in every entry
    and whose loss is [(x - y)^2].  The irrational kernels are stood in for
    by rational ones. *)

Section SmallWorld.

Definition lin_forward (m : Module_) (x : Q) : result Vec :=
  Ok [(x * vsum (parameters_to_vector (parameters m)))%Q].

#[local] Instance lin_predictor : Predictor := {|
  Input := Q;
  Label := Q;
  Output := Vec;
  Jacobians := Mat;
  forward := lin_forward;
  first_example := fun x => Ok x;
  last_dim := fun out => length out;
  softmax := fun out => out;
  flatten := fun out => out;
  mean0 := fun outs => hd [] outs;
  var0 := fun outs => map (fun _ => 0%Q) (hd [] outs);
  out_zero := [];
  out_add := fun a b => match a with [] => b | _ => map (fun xy => (fst xy + snd xy)%Q) (combine a b) end;
  out_div := fun a n => map (fun x => (x / inject_Z (Z.of_nat n))%Q) a;
  var_shape_ok := fun _ _ => true;
  diagonal12 := fun v => v;
  probit := fun f_mu _ => f_mu;
  bridge := fun _ f_mu _ => f_mu
|}.

Definition n_trainable (m : Module_) : nat :=
  list_sum (map numel (filter requires_grad (parameters m))).

#[local] Instance lin_backend : CurvatureInterface := {|
  backend_full := fun _ _ m x y _ =>
    Ok (((x - y) * (x - y))%Q,
        repeat (repeat (x * x)%Q (n_trainable m)) (n_trainable m));
  backend_diag := fun _ _ m x y _ =>
    Ok (((x - y) * (x - y))%Q, repeat (x * x)%Q (n_trainable m));
  backend_kron := fun _ _ m x y _ =>
    Ok (((x - y) * (x - y))%Q, mkKron [[[[x]]; [[x]]]]);
  eig_lowrank := fun _ _ m l =>
    Ok ([repeat 1%Q (n_trainable m)], [1%Q], 0%Q);
  jacobians := fun _ _ m x =>
    rbind (lin_forward m x) (fun f => Ok ([repeat x (n_trainable m)], f));
  functorch_jacobians := fun _ _ m x =>
    rbind (lin_forward m x) (fun f => Ok ([repeat x (n_trainable m)], f))
|}.

#[local] Instance plain_kron : KronOps := {|
  KronDecomposed := Kron;
  init_from_model := fun ps => mkKron (map (fun _ => [[[0%Q]]; [[0%Q]]]) ps);
  kron_add := fun a b => mkKron (kfacs a ++ kfacs b);
  decompose := fun k _ => k;
  kd_posterior := fun k _ _ => Ok k;
  kd_logdet := fun _ => 0%Q;
  kd_bmm := fun _ v => v
|}.

#[local] Instance plain_numerics : Numerics := {|
  log := fun x => x;
  sqrt_2pi := 5 # 2;
  logdet := fun _ => 0%Q;
  logdet_Kinv := fun _ _ _ => 0%Q
|}.

(** Sampling that returns [n] copies of the mean shifted by one. *)
#[local] Instance shifted_samples : PosteriorKernels := {|
  sample := fun s n _ =>
    match mean s with
    | Vector1 v => Ok (repeat (map (Qplus 1) v) n)
    | Scalar0 _ => Raise (RuntimeError "shape '[1, n]' is invalid for input of size 1")
    end;
  functional_variance := fun s Js => Ok (map (fun _ => 1%Q) Js);
  functional_covariance := fun s Js => Ok (map (fun _ => 1%Q) Js);
  normal_samples := fun f_mu _ n _ => repeat f_mu n
|}.

#[local] Instance plain_gp : GPKernels := {|
  KBlock := Mat;
  cholesky := fun m => Ok m;
  empty := fun n m => zeros2 n m;
  SoD_loader := fun l _ _ _ => l;
  batch_loss := fun _ f y => 0%Q;
  identity_lambdas := fun f => [[[1%Q]]];
  softmax_lambdas := fun f => [[[1 # 4]]];
  jac_vec := fun Js v => [[0%Q]];
  residual := fun y f t => t;
  kernel_einsum := fun _ _ a b => [[1%Q]];
  store_block := fun d _ _ _ k blk _ _ => if d then KList [blk] else KDense blk;
  build_L := fun d _ ls => if d then LList [[1%Q]] else LDense [1%Q];
  gp_functional_variance := fun s Js =>
    match Sigma_inv s with
    | KDense m => Ok (concat m)
    | KList ms => Ok (concat (concat ms))
    | KNone => Raise (TypeError "linalg.solve(): argument 'A' must be Tensor")
    end;
  gp_functional_covariance := fun s Js =>
    match Sigma_inv s with
    | KDense m => Ok (concat m)
    | KList ms => Ok (concat (concat ms))
    | KNone => Raise (TypeError "linalg.solve(): argument 'A' must be Tensor")
    end;
  mvn_sample := fun f_mu _ n => repeat f_mu n
|}.

(** A predictor with one trainable tensor [[1; 2]]. *)
Definition net2 : Module_ :=
  {| parameters := [mkParam [1%Q; 2%Q] true]; output_size := None; training := true |}.

(** A predictor with a frozen tensor [[5]] before a trainable tensor [[7]]. *)
Definition net_frozen : Module_ :=
  {| parameters := [mkParam [5%Q] false; mkParam [7%Q] true];
     output_size := None; training := true |}.

(** A predictor with two trainable tensors, [[1; 2]] and [[3]]. *)
Definition net3 : Module_ :=
  {| parameters := [mkParam [1%Q; 2%Q] true; mkParam [3%Q] true];
     output_size := None; training := true |}.

Definition config (m : Module_) (lik : string) : Config :=
  {| cfg_model := m; cfg_likelihood := lik; cfg_sigma_noise := PyFloat 1;
     cfg_prior_precision := PyFloat 1; cfg_prior_mean := PyFloat 0;
     cfg_temperature := 1; cfg_enable_backprop := false; cfg_backend := None |}.

(** Two batches, then two more. *)
Definition first_half : DataLoader :=
  {| batches := [TupleBatch 1%Q 0%Q; TupleBatch 2%Q 1%Q];
     dataset_len := 2; loader_batch_size := 1 |}.
Definition second_half : DataLoader :=
  {| batches := [TupleBatch 3%Q 1%Q; TupleBatch (1 # 2)%Q 0%Q];
     dataset_len := 2; loader_batch_size := 1 |}.

(** [P] holds of the value of [r], which did not raise. *)
Definition returns {A} (r : result A) (P : A -> Prop) : Prop :=
  match r with Ok a => P a | Raise _ => False end.

(** The object that the constructor of class [c] returns for [cfg] (the
    blank object if the constructor raises). *)
Definition parametric_object (c : laplace_cls) (cfg : Config) : ParametricLaplace :=
  match parametric_init c false cfg with
  | Ok s => s
  | Raise _ => {| base := blank cfg; cls := c; H := HNone; mean := Scalar0 0;
                  H_facs := None; damping := false |}
  end.

(** The object after [fit(loader)]. *)
Definition fitted_object (c : laplace_cls) (cfg : Config) (loader : DataLoader)
  : ParametricLaplace :=
  fst (fit loader true (parametric_object c cfg)).

(** [net3] with a prior precision per layer. *)
Definition config_per_layer : Config :=
  {| cfg_model := net3; cfg_likelihood := "regression";
     cfg_sigma_noise := PyFloat 2; cfg_prior_precision := Tensor1 [2%Q; 3%Q];
     cfg_prior_mean := PyFloat 0; cfg_temperature := 1 # 2;
     cfg_enable_backprop := false; cfg_backend := None |}.

(** Arguments of a call of the predictive: by sampling with the [mc] link,
    by sampling with the default link, and the defaults. *)
Definition nn_mc_args : CallArgs :=
  {| pred_type := "nn"; joint := false; link_approx := "mc"; n_samples := 3;
     diagonal_output := false; generator := None |}.
Definition nn_default_args : CallArgs :=
  {| pred_type := "nn"; joint := false; link_approx := "probit"; n_samples := 100;
     diagonal_output := false; generator := None |}.
Definition glm_args : CallArgs :=
  {| pred_type := "glm"; joint := false; link_approx := "probit"; n_samples := 100;
     diagonal_output := false; generator := None |}.

(** A stored diagonal approximation for a predictor of the sizes of [net2],
    saved at the parameters [[3; 4]]. *)
Definition stored_at_3_4 : StateDict :=
  {| sd_mean := Vector1 [3%Q; 4%Q]; sd_H := HDiag [1%Q; 1%Q]; sd_loss := 0%Q;
     sd_prior_mean := Scalar0 0; sd_prior_precision := [1%Q];
     sd_sigma_noise := 1%Q; sd_n_data := 2; sd_n_outputs := Some 1;
     sd_likelihood := "regression"; sd_temperature := 1%Q;
     sd_enable_backprop := false; sd_cls_name := DiagLaplace |}.

Definition gp_args : CallArgs :=
  {| pred_type := "gp"; joint := false; link_approx := "probit"; n_samples := 100;
     diagonal_output := false; generator := None |}.

(** A validation loss on the bare object: the prior precision when it is a
    single entry above one, and a failed factorization otherwise. *)
Definition validate_above_one : Act BaseLaplace score :=
  fun b =>
    (b, match _prior_precision b with
        | [p] => if Qle_bool p 1
                 then Raise (RuntimeError
                        "linalg.cholesky: the input is not positive-definite")
                 else Ok (Finite p)
        | _ => Raise (RuntimeError
                 "linalg.cholesky: the input is not positive-definite")
        end).

(** The function-space object that the constructor returns for [cfg], and
    the object after [fit(loader)]. *)
Definition functional_object (cfg : Config) : FunctionalLaplace :=
  match functional_init (Some 2) false 0 cfg with
  | Ok s => s
  | Raise _ => {| fbase := blank cfg; M := None; diagonal_kernel := false;
                  seed := 0; K_MM := KNone; Sigma_inv := KNone;
                  train_loader := None; batch_size := None;
                  _prior_factor_sod := None; mu := None; L := LNone;
                  map_estimate := []; _fitted := false;
                  _recompute_Sigma := true |}
  end.

Definition fitted_functional_object (cfg : Config) (loader : DataLoader)
  : FunctionalLaplace :=
  fst (functional_fit loader (functional_object cfg)).

End SmallWorld.

(* ================================================================== *)
(** ** The quantities of the specification, in its words *)

(** The stream of [l1] followed by the stream of [l2]. *)
Definition concat_loader `{Predictor} (l1 l2 : DataLoader) : DataLoader :=
  {| batches := batches l1 ++ batches l2;
     dataset_len := dataset_len l1 + dataset_len l2;
     loader_batch_size := loader_batch_size l1 |}.

(** The manual broadcast of a scalar prior precision. *)
Definition scalar_broadcast (p : Q) (n : nat) : Vec := repeat p n.

(** The manual broadcast of a prior precision per layer: the value of each
    layer repeated over the number of entries of the layer. *)
Definition layer_broadcast (prior : Vec) (sizes : list nat) : Vec :=
  concat (map (fun pn => repeat (fst pn) (snd pn)) (combine prior sizes)).

(** The curvature of a batch that [_curv_closure] asks of the backend
    built with likelihood [l], by the class of the object. *)
Definition curvature_of `{CurvatureInterface} `{KronOps} (c : laplace_cls) (bc : backend_cls)
  (l : string) (m : Module_) (X : Input) (y : Label) (N : nat)
  : result (Q * Hrep) :=
  match c with
  | FullLaplace =>
      rbind (backend_full bc l m X y N) (fun r => Ok (fst r, HFull (snd r)))
  | KronLaplace =>
      rbind (backend_kron bc l m X y N) (fun r => Ok (fst r, HKron (snd r)))
  | DiagLaplace =>
      rbind (backend_diag bc l m X y N) (fun r => Ok (fst r, HDiag (snd r)))
  | LowRankLaplace => Raise NotImplementedError
  end.

(** The batch contribution of the dense and the diagonal backend does not
    depend on the declared size [N] of the stream. *)
Definition N_independent `{CurvatureInterface} : Prop :=
  forall bc l m X y N N',
    backend_full bc l m X y N = backend_full bc l m X y N'
    /\ backend_diag bc l m X y N = backend_diag bc l m X y N'.

(** [self.n_data += N] *)
Definition add_n_data `{KronOps} (N : nat) (s : ParametricLaplace)
  : ParametricLaplace :=
  set_base (set_n_data (n_data (base s) + N) (base s)) s.

(** The object when [ParametricLaplace.fit] reaches its first batch: after
    the reset of an overriding fit, [model.eval()] and the assignment of
    [mean]. *)
Definition fit_prelude `{KronOps} (override : bool) (s : ParametricLaplace)
  : ParametricLaplace :=
  let s1 := if override
            then (fun s => set_base (set_n_data 0 (set_loss 0%Q (base s))) s)
                   (fst (_init_H s))
            else s in
  let s2 := set_base (set_model (eval_mode (model (base s1))) (base s1)) s1 in
  set_mean (Vector1 (parameters_to_vector
                       (map (deref (model (base s2))) (params (base s2))))) s2.

(** The assignment of [n_outputs] and of [model.output_size]. *)
Definition with_outputs `{KronOps} (k : nat) (s : ParametricLaplace)
  : ParametricLaplace :=
  set_base (set_model (set_output_size (Some k) (model (base s)))
              (set_n_outputs (Some k) (base s))) s.

(** [self._posterior_scale = None] *)
Definition clear_scale `{KronOps} (s : ParametricLaplace) : ParametricLaplace :=
  set_base (set__posterior_scale None (base s)) s.

(** [s'] differs from [s] at most in the loss, [H] and the cached
    backend, which is what the loop of [fit] assigns. *)
Definition same_frame `{KronOps} (s s' : ParametricLaplace) : Prop :=
  cls s' = cls s /\ mean s' = mean s /\ model (base s') = model (base s)
  /\ params (base s') = params (base s)
  /\ n_outputs (base s') = n_outputs (base s)
  /\ n_data (base s') = n_data (base s)
  /\ _posterior_scale (base s') = _posterior_scale (base s)
  /\ n_params (base s') = n_params (base s)
  /\ n_layers (base s') = n_layers (base s)
  /\ _prior_precision (base s') = _prior_precision (base s)
  /\ likelihood (base s') = likelihood (base s)
  /\ reward_modeling (base s') = reward_modeling (base s).

(** The class of the object, its stored likelihood and its flag
    [reward_modeling]. *)
Definition kind_is `{KronOps} (c : laplace_cls) (l : string) (r : bool)
  (s : ParametricLaplace) : Prop :=
  cls s = c /\ likelihood (base s) = l /\ reward_modeling (base s) = r.

Definition base_kind_is (l : string) (r : bool) (b : BaseLaplace) : Prop :=
  likelihood b = l /\ reward_modeling b = r.

(** The flattened concatenation of the trainable parameters of the
    predictor of [s]. *)
Definition trainable_vector `{KronOps} (s : ParametricLaplace) : Vec :=
  parameters_to_vector (map (deref (model (base s))) (params (base s))).

(** The entries of [mean] that [vector_to_parameters(self.mean, self.params)]
    writes into the trainable tensors: its first [n_params] entries. *)
Definition mean_written `{KronOps} (s : ParametricLaplace) : Vec :=
  match mean s with
  | Vector1 v => firstn (n_params (base s)) v
  | Scalar0 _ => []
  end.

(** The tensors of the predictor, the references to the trainable ones
    and the stored counts are [ps], [refs], [n] and [k]. *)
Definition predictor_is `{KronOps} (ps : list Param) (refs : list param_ref)
  (n k : nat) (s : ParametricLaplace) : Prop :=
  parameters (model (base s)) = ps /\ params (base s) = refs
  /\ n_params (base s) = n /\ n_layers (base s) = k.

(** The predictor and the counts of [s'] are those of [s]. *)
Definition same_predictor `{KronOps} (s s' : ParametricLaplace) : Prop :=
  predictor_is (parameters (model (base s))) (params (base s))
    (n_params (base s)) (n_layers (base s)) s'.

(** [kind_is], and the attribute [output_size] of the predictor is [o]. *)
Definition kind_out `{KronOps} (c : laplace_cls) (l : string) (r : bool)
  (o : option nat) (s : ParametricLaplace) : Prop :=
  kind_is c l r s /\ output_size (model (base s)) = o.

(** The references of [refs] are distinct positions of tensors of [m]. *)
Definition refs_ok (m : Module_) (refs : list param_ref) : Prop :=
  NoDup refs /\ Forall (fun r => r < length (parameters m)) refs.

(** [m'] has the tensors of [m] with the same sizes, and the same entries
    outside of [refs]. *)
Definition same_shapes (refs : list param_ref) (m m' : Module_) : Prop :=
  map numel (parameters m') = map numel (parameters m)
  /\ forall r, ~ In r refs -> deref m' r = deref m r.

(** While a predictive by sampling runs on [s0]: [mean] and the references
    are those of [s0], and the predictor has tensors of the same sizes, with
    the same entries in the frozen ones. *)
Definition sampling_from `{KronOps} (s0 s : ParametricLaplace) : Prop :=
  mean s = mean s0 /\ params (base s) = params (base s0)
  /\ n_params (base s) = n_params (base s0)
  /\ same_shapes (params (base s0)) (model (base s0)) (model (base s)).

(** [H_factor = 1/(sigma_noise^2 * temperature)] *)
Definition spec_H_factor (s : BaseLaplace) : Q :=
  (1 / (_sigma_noise s ^ 2 * temperature s))%Q.

(** What the constructor establishes about the counts of the object. *)
Definition counts_ok (s : BaseLaplace) : Prop :=
  n_layers s = length (params s)
  /\ n_params s = list_sum (n_params_per_layer s).

(** [m] keeps the property [I] of the object, whether it returns or
    raises. *)
Definition preserves {S A} (I : S -> Prop) (m : Act S A) : Prop :=
  forall s, I s -> I (fst (m s)).

(** The attributes the factor is built from, and the factor. *)
Definition factor_inputs_are `{Predictor} `{GPKernels}
  (v : kernel_rep * result kernel_rep) (s : FunctionalLaplace) : Prop :=
  Sigma_inv s = fst v /\ built_Sigma_inv s = snd v.

(** The likelihood, the reward-modeling flag and the output size of the
    function-space object are [l], [r] and [o]. *)
Definition fkind_out `{Predictor} (l : string) (r : bool) (o : option nat)
  (s : FunctionalLaplace) : Prop :=
  base_kind_is l r (fbase s) /\ output_size (model (fbase s)) = o.

(* ================================================================== *)
(** ** The architecture of an object *)

(** The architecture an object was built for: the sizes of the tensors of
    its predictor, the references to the trainable ones, and the counts. *)
Definition arch_is (sizes : list nat) (refs : list param_ref) (n k : nat)
  (b : BaseLaplace) : Prop :=
  map numel (parameters (model b)) = sizes /\ params b = refs
  /\ n_params b = n /\ n_layers b = k.

(** The stored prior precision has one of the three lengths that the
    setter accepts. *)
Definition prior_precision_ok (b : BaseLaplace) : Prop :=
  nat_in (length (_prior_precision b)) [1; n_layers b; n_params b] = true.

Definition shaped (sizes : list nat) (refs : list param_ref) (n k : nat)
  (b : BaseLaplace) : Prop :=
  arch_is sizes refs n k b /\ prior_precision_ok b.

(* ================================================================== *)
(** ** Saving and loading *)

(** A stored prior mean is a scalar, or a vector of one or [n_params]
    entries. *)
Definition prior_mean_ok (b : BaseLaplace) : Prop :=
  match _prior_mean b with
  | Scalar0 _ => True
  | Vector1 v => nat_in (length v) [1; n_params b] = true
  end.

(** [t.reshape(-1)] *)
Definition as_vector (t : tensor01) : Vec :=
  match t with Scalar0 q => [q] | Vector1 v => v end.

Section Persisted.
Context {P : Predictor} {K : KronOps}.

(** The object can be saved and loaded again: [mean] is a vector of
    [n_params] entries, as after [fit], and the prior has a shape that the
    setters of the class accept. *)
Definition loadable (s : ParametricLaplace) : Prop :=
  (exists v, mean s = Vector1 v /\ length v = n_params (base s))
  /\ prior_mean_ok (base s)
  /\ nat_in (length (_prior_precision (base s)))
            (match cls s with
             | KronLaplace => [1; n_layers (base s)]
             | _ => [1; n_layers (base s); n_params (base s)]
             end) = true.

(** [t] is an object of the class of [s], for a predictor with as many
    trainable tensors and entries, and the same likelihood. *)
Definition same_architecture (s t : ParametricLaplace) : Prop :=
  cls t = cls s /\ n_params (base t) = n_params (base s)
  /\ n_layers (base t) = n_layers (base s)
  /\ likelihood (base t) = likelihood (base s).

(** What [load_state_dict] restores of [s] in [t]. *)
Definition restored (s t : ParametricLaplace) : Prop :=
  mean t = mean s
  /\ loss (base t) = loss (base s)
  /\ n_data (base t) = n_data (base s)
  /\ n_outputs (base t) = n_outputs (base s)
  /\ output_size (model (base t)) = n_outputs (base s)
  /\ _prior_precision (base t) = _prior_precision (base s)
  /\ _prior_mean (base t)
     = match _prior_mean (base s) with
       | Scalar0 q => Vector1 [q]
       | Vector1 v => Vector1 v
       end
  /\ _sigma_noise (base t) = _sigma_noise (base s)
  /\ temperature (base t) = temperature (base s)
  /\ enable_backprop (base t) = enable_backprop (base s)
  /\ likelihood (base t) = likelihood (base s).

End Persisted.

(* ================================================================== *)
(** ** What a fit leaves *)

(** What a fit that returns leaves in the base object [b'], started on
    [b]: the count of the data, the output size in the object and in the
    predictor, and the predictor in evaluation mode with its tensors. *)
Definition fit_leaves `{Predictor} (override : bool) (l : DataLoader)
  (b b' : BaseLaplace) : Prop :=
  n_data b' = (if override then 0 else n_data b) + dataset_len l
  /\ (exists k, n_outputs b' = Some k /\ output_size (model b') = Some k)
  /\ training (model b') = false
  /\ parameters (model b') = parameters (model b).

(* ================================================================== *)
(** ** The backend object *)

(** The likelihood of the backend object that the property [backend]
    returns: the cached one, or the stored likelihood on first use. *)
Definition backend_likelihood (b : BaseLaplace) : string :=
  match _backend b with Some l => l | None => likelihood b end.

(** The object with the backend object created. *)
Definition with_backend `{KronOps} (s : ParametricLaplace) : ParametricLaplace :=
  set_base (set__backend (Some (backend_likelihood (base s))) (base s)) s.

(** [s'] is [s] with the backend created, and the loss and the [H]
    it has. *)
Definition loop_result `{KronOps} (s s' : ParametricLaplace) : Prop :=
  s' = set_H (H s') (set_base (set_loss (loss (base s')) (base (with_backend s)))
                       (with_backend s)).

(* ================================================================== *)
(** ** What the marginal likelihood may change *)

Section MarglikFrame.
Context {P : Predictor} {K : KronOps}.

(** [s'] is [s] but for the prior precision, the noise and the cached
    scale. *)
Definition same_but_hyperparameters (s s' : ParametricLaplace) : Prop :=
  exists pp sn ps,
    s' = set_base (set__posterior_scale ps
                     (set__sigma_noise sn (set__prior_precision pp (base s)))) s.

End MarglikFrame.

(* ================================================================== *)
(** ** Outcomes of an action *)

(** When [m] returns, the object satisfies [J]. *)
Definition ensures {S A} (J : S -> Prop) (m : Act S A) : Prop :=
  forall s a, snd (m s) = Ok a -> J (fst (m s)).

(** When [m] raises, the object still satisfies [I]. *)
Definition keeps_on_raise {S A} (I : S -> Prop) (m : Act S A) : Prop :=
  forall s e, I s -> snd (m s) = Raise e -> I (fst (m s)).

(** A property of the two flags of the object alone. *)
Definition on_flags `{Predictor} (I : bool -> bool -> Prop) (s : FunctionalLaplace) : Prop :=
  I (_fitted s) (_recompute_Sigma s).

(* ================================================================== *)
(** ** What a linearized prediction writes *)

Section GlmFrame.
Context {P : Predictor} {K : KronOps}.

(** [s'] is [s] but for the cached backend object. *)
Definition same_but_backend (s s' : ParametricLaplace) : Prop :=
  exists bk, s' = set_base (set__backend bk (base s)) s.

End GlmFrame.

Section GlmBranch.
Context {P : Predictor} {K : KronOps} {C : CurvatureInterface}
  {N : Numerics} {PK : PosteriorKernels}.

(** The branch [pred_type == 'glm'] of [ParametricLaplace.__call__]. *)
Definition glm_branch (x : Input) (a : CallArgs)
  : Act ParametricLaplace prediction :=
  s <- get ;;
  r <- _glm_predictive_distribution x
         (joint a && (likelihood (base s) =? "regression")%string) ;;
  let '(f_mu, f_var) := r in
  s <- get ;;
  if (likelihood (base s) =? "regression")%string
  then ret (RegressionPred f_mu f_var)
  else if (link_approx a =? "mc")%string then
    smp <- predictive_samples x "glm" (n_samples a) (diagonal_output a) None ;;
    ret (ClassPred (mean0 smp))
  else if (link_approx a =? "probit")%string
  then ret (ClassPred (probit f_mu f_var))
  else ret (ClassPred (bridge (link_approx a =? "bridge_norm")%string f_mu f_var)).

End GlmBranch.

(* ================================================================== *)
(** ** Arguments of one entry *)

(** The number that an argument of one entry holds. *)
Definition scalar_of (p : pyarg) : option Q :=
  match p with
  | PyFloat q | Tensor0 q | Tensor1 [q] => Some q
  | _ => None
  end.

(* ================================================================== *)
(** ** The outcome of a grid search *)

(** The tensor that the setter of the prior precision stores for an
    argument it accepts. *)
Definition stored_prior_precision (p : pyarg) : Vec :=
  match p with
  | PyFloat q | Tensor0 q => [q]
  | Tensor1 v => v
  | _ => []
  end.

(* ================================================================== *)
(** ** Methods of the diagonal variant *)

(** [1 / x] for an entry of a tensor: [None] stands for the infinite entry
    that the division by zero gives. *)
Definition reciprocal (x : Q) : option Q :=
  if Qeq_bool x 0 then None else Some (1 / x)%Q.

Section DiagMethods.
Context {P : Predictor} {K : KronOps} {N : Numerics}.
(** [log(2 * pi)] *)
Variable log_2pi : Q.

(** [DiagLaplace.posterior_variance], on an object of that class. *)
Definition diag_posterior_variance (s : ParametricLaplace)
  : result (list (option Q)) :=
  rbind (posterior_precision s) (fun p =>
  match p with
  | PDiag v => Ok (map reciprocal v)
  | _ => Raise (TypeError "unsupported operand type(s)")
  end).

(** [DiagLaplace.square_norm], on an object of that class. *)
Definition diag_square_norm (value : tensor01) (s : ParametricLaplace)
  : result Q :=
  rbind (tsub value (mean s)) (fun delta =>
  rbind (posterior_precision s) (fun p =>
  match delta, p with
  | Vector1 d, PDiag v => rbind (vmul d v) (fun dv => dot d dv)
  | Scalar0 _, PDiag _ =>
      Raise (RuntimeError "both arguments to matmul need to be at least 1D")
  | _, _ => Raise (TypeError "unsupported operand type(s)")
  end)).

(** [ParametricLaplace.log_prob] with the [square_norm] of
    [DiagLaplace]. *)
Definition diag_log_prob (value : tensor01) (normalized : bool)
  (s : ParametricLaplace) : result Q :=
  if negb normalized
  then rbind (diag_square_norm value s) (fun q => Ok (- q / 2)%Q)
  else
    rbind (log_det_posterior_precision s) (fun ld =>
    let log_prob :=
      (- inject_Z (Z.of_nat (n_params (base s))) / 2 * log_2pi + ld / 2)%Q in
    rbind (diag_square_norm value s) (fun q => Ok (log_prob - q / 2)%Q)).

End DiagMethods.

(* ================================================================== *)
(** ** What a function-space fit sets up *)

(** What [FunctionalLaplace.fit] sets up before its loop over the
    batches. *)
Definition fit_setup `{Predictor} (s : FunctionalLaplace) :=
  (n_data (fbase s), n_outputs (fbase s), model (fbase s),
   (M s, batch_size s, _prior_factor_sod s, train_loader s)).

(* ================================================================== *)
(** ** Saving and loading a function-space object *)

Section FunctionalPersisted.
Context {P : Predictor} {C : CurvatureInterface} {G : GPKernels}.

(** The dictionary of [FunctionalLaplace.state_dict]. *)
Record FunctionalStateDict : Type := mkFunctionalStateDict {
  fsd_map_estimate : Vec;
  fsd_M : option nat;
  fsd_diagonal_kernel : bool;
  fsd_seed : nat;
  fsd_K_MM : kernel_rep;
  fsd_Sigma_inv : kernel_rep;
  fsd__prior_factor_sod : option Q;
  fsd__fitted : bool;
  fsd__recompute_Sigma : bool;
  fsd_mu : option Mat;
  fsd_L : L_rep;
  fsd_train_loader : option DataLoader;
  fsd_loss : Q;
  fsd_prior_mean : tensor01;
  fsd_prior_precision : Vec;
  fsd_sigma_noise : Q;
  fsd_n_data : nat;
  fsd_n_outputs : option nat;
  fsd_likelihood : string;
  fsd_temperature : Q;
  fsd_enable_backprop : bool;
  fsd_cls_name : string
}.

(** [FunctionalLaplace.state_dict] *)
Definition functional_state_dict (s : FunctionalLaplace) : FunctionalStateDict :=
  {| fsd_map_estimate := map_estimate s;
     fsd_M := M s;
     fsd_diagonal_kernel := diagonal_kernel s;
     fsd_seed := seed s;
     fsd_K_MM := K_MM s;
     fsd_Sigma_inv := Sigma_inv s;
     fsd__prior_factor_sod := _prior_factor_sod s;
     fsd__fitted := _fitted s;
     fsd__recompute_Sigma := _recompute_Sigma s;
     fsd_mu := mu s;
     fsd_L := L s;
     fsd_train_loader := train_loader s;
     fsd_loss := loss (fbase s);
     fsd_prior_mean := _prior_mean (fbase s);
     fsd_prior_precision := _prior_precision (fbase s);
     fsd_sigma_noise := _sigma_noise (fbase s);
     fsd_n_data := n_data (fbase s);
     fsd_n_outputs := n_outputs (fbase s);
     fsd_likelihood := likelihood (fbase s);
     fsd_temperature := temperature (fbase s);
     fsd_enable_backprop := enable_backprop (fbase s);
     fsd_cls_name := "FunctionalLaplace" |}.

(** [FunctionalLaplace.load_state_dict] *)
Definition functional_load_state_dict (sd : FunctionalStateDict)
  : Act FunctionalLaplace unit :=
  s <- get ;;
  if negb ("FunctionalLaplace" =? fsd_cls_name sd)%string
  then raise (ValueError "Loading a wrong Laplace type.")
  else if negb (length (fsd_map_estimate sd) =? n_params (fbase s))
  then raise (ValueError
         "Attempting to load Laplace with different number of parameters than the model.")
  else if negb (likelihood (fbase s) =? fsd_likelihood sd)%string
  then raise (ValueError "Different likelihoods detected!")
  else
    modify (fun s =>
      mkFunctional (fbase s) (fsd_M sd) (fsd_diagonal_kernel sd) (fsd_seed sd)
        (fsd_K_MM sd) (fsd_Sigma_inv sd) (fsd_train_loader sd) (batch_size s)
        (fsd__prior_factor_sod sd) (fsd_mu sd) (fsd_L sd) (fsd_map_estimate sd)
        (fsd__fitted sd) (fsd__recompute_Sigma sd)) ;;;
    modify (fun s => set_fbase (set_loss (fsd_loss sd) (fbase s)) s) ;;;
    on_fbase (set_prior_mean (as_pyarg (fsd_prior_mean sd))) ;;;
    functional_set_prior_precision (Tensor1 (fsd_prior_precision sd)) ;;;
    on_fbase (set_sigma_noise (Tensor0 (fsd_sigma_noise sd))) ;;;
    modify (fun s =>
      set_fbase (set_model (set_output_size (fsd_n_outputs sd) (model (fbase s)))
                  (set_n_outputs (fsd_n_outputs sd)
                     (set_n_data (fsd_n_data sd) (fbase s)))) s) ;;;
    modify (fun s =>
      set_fbase (set_enable_backprop (fsd_enable_backprop sd)
                  (set_temperature (fsd_temperature sd)
                     (set_likelihood (fsd_likelihood sd) (fbase s)))) s).

(** What [load_state_dict] restores of [s] in [t]. *)
Definition functional_restored (s t : FunctionalLaplace) : Prop :=
  map_estimate t = map_estimate s
  /\ diagonal_kernel t = diagonal_kernel s /\ seed t = seed s
  /\ Sigma_inv t = Sigma_inv s /\ fit_state t = fit_state s
  /\ _fitted t = _fitted s
  /\ output_size (model (fbase t)) = n_outputs (fbase s)
  /\ _prior_precision (fbase t) = _prior_precision (fbase s)
  /\ _prior_mean (fbase t)
     = match _prior_mean (fbase s) with
       | Scalar0 q => Vector1 [q]
       | Vector1 v => Vector1 v
       end
  /\ _sigma_noise (fbase t) = _sigma_noise (fbase s)
  /\ temperature (fbase t) = temperature (fbase s)
  /\ likelihood (fbase t) = likelihood (fbase s).

End FunctionalPersisted.

(* ================================================================== *)
(** * Facts *)

(** ** The monad *)

Lemma bind_ok {S A B} (m : Act S A) (f : A -> Act S B) s s' a :
  m s = (s', Ok a) -> bind m f s = f a s'.
Proof. intros E. unfold bind. now rewrite E. Qed.

Lemma bind_raise {S A B} (m : Act S A) (f : A -> Act S B) s s' e :
  m s = (s', Raise e) -> bind m f s = (s', Raise e).
Proof. intros E. unfold bind. now rewrite E. Qed.

Lemma bind_lift_ok {S A B} (r : result A) (f : A -> Act S B) s a :
  r = Ok a -> bind (lift r) f s = f a s.
Proof. now intros ->. Qed.

Lemma bind_modify {S B} (g : S -> S) (f : unit -> Act S B) s :
  bind (modify g) f s = f tt (g s).
Proof. reflexivity. Qed.

Lemma bind_inv_ok {S A B} (m : Act S A) (f : A -> Act S B) s s' b :
  bind m f s = (s', Ok b) ->
  exists s1 a, m s = (s1, Ok a) /\ f a s1 = (s', Ok b).
Proof.
  unfold bind. destruct (m s) as [s1 [a|e]]; intros E.
  - now exists s1, a.
  - discriminate.
Qed.

Lemma for_each_app {S A} (xs ys : list A) (body : A -> Act S unit) s :
  for_each (xs ++ ys) body s =
  match for_each xs body s with
  | (s', Ok _) => for_each ys body s'
  | (s', Raise e) => (s', Raise e)
  end.
Proof.
  revert s. induction xs as [|x xs IH]; intros s; simpl.
  - reflexivity.
  - unfold bind. destruct (body x s) as [s1 [[]|e]]; [apply IH | reflexivity].
Qed.

Lemma preserves_ret {S A} (I : S -> Prop) (a : A) : preserves I (ret a).
Proof. intros s Hs. exact Hs. Qed.

Lemma preserves_raise {S A} (I : S -> Prop) e : preserves I (@raise S A e).
Proof. intros s Hs. exact Hs. Qed.

Lemma preserves_lift {S A} (I : S -> Prop) (r : result A) : preserves I (lift r).
Proof. intros s Hs. exact Hs. Qed.

Lemma preserves_get {S} (I : S -> Prop) : preserves I get.
Proof. intros s Hs. exact Hs. Qed.

Lemma preserves_modify {S} (I : S -> Prop) (f : S -> S) :
  (forall s, I s -> I (f s)) -> preserves I (modify f).
Proof. intros Hf s Hs. apply Hf, Hs. Qed.

Lemma preserves_bind {S A B} (I : S -> Prop) (m : Act S A) (f : A -> Act S B) :
  preserves I m -> (forall a, preserves I (f a)) -> preserves I (bind m f).
Proof.
  intros Hm Hf s Hs. unfold bind. specialize (Hm s Hs).
  destruct (m s) as [s1 [a|e]]; simpl in *; [apply Hf, Hm | exact Hm].
Qed.

Lemma preserves_for_each {S A} (I : S -> Prop) (xs : list A) (body : A -> Act S unit) :
  (forall x, preserves I (body x)) -> preserves I (for_each xs body).
Proof.
  intros Hb. induction xs as [|x xs IH]; simpl.
  - apply preserves_ret.
  - apply preserves_bind; [apply Hb | intros _; exact IH].
Qed.

Lemma preserves_discard {S A} (I : S -> Prop) (m : Act S A) :
  preserves I m -> preserves I (discard m).
Proof. intros Hm s Hs. apply Hm, Hs. Qed.

Lemma preserves_except_RuntimeError {S} (I : S -> Prop) (m : Act S score) :
  preserves I m -> preserves I (except_RuntimeError m).
Proof.
  intros Hm s Hs. unfold except_RuntimeError. specialize (Hm s Hs).
  destruct (m s) as [s1 [a|e]]; [exact Hm|].
  destruct (is_RuntimeError e); exact Hm.
Qed.

(** Decomposition of a computation along its binds and case distinctions,
    down to the steps that assign attributes. *)
Ltac preserves_step :=
  match goal with
  | |- preserves _ (bind _ _) => apply preserves_bind; [|intros ?]
  | |- preserves _ (ret _) => apply preserves_ret
  | |- preserves _ (raise _) => apply preserves_raise
  | |- preserves _ (lift _) => apply preserves_lift
  | |- preserves _ get => apply preserves_get
  | |- preserves _ (discard _) => apply preserves_discard
  | |- preserves _ (for_each _ _) => apply preserves_for_each; intros ?
  | |- preserves _ (except_RuntimeError _) => apply preserves_except_RuntimeError
  | |- preserves _ (if ?b then _ else _) => destruct b
  | |- preserves _ (match ?x with _ => _ end) => destruct x
  | |- preserves _ (let (_, _) := ?x in _) => destruct x
  end.

(** ** Tensors: entries and shapes *)

Lemma Qmult_1_r_eq (p : Q) : (p * 1)%Q = p.
Proof.
  destruct p as [n d]. unfold Qmult. simpl.
  now rewrite Z.mul_1_r, Pos.mul_1_r.
Qed.

Lemma vscale_ones (p : Q) (n : nat) : vscale p (ones n) = repeat p n.
Proof.
  unfold vscale, ones. induction n as [|n IH]; simpl.
  - reflexivity.
  - now rewrite Qmult_1_r_eq, IH.
Qed.

Lemma vmul_scalar_ones (p : Q) (n : nat) : vmul [p] (ones n) = Ok (repeat p n).
Proof.
  unfold vmul. unfold ones at 1. rewrite repeat_length. simpl length.
  destruct (Nat.eqb_spec 1 n) as [<-|Hn].
  - simpl. now rewrite Qmult_1_r_eq.
  - now rewrite vscale_ones.
Qed.

Lemma vadd_length a b r : vadd a b = Ok r -> length r = length a /\ length b = length a.
Proof.
  revert b r. induction a as [|x a IH]; intros [|y b] r; simpl; try discriminate.
  - intros [= <-]. auto.
  - destruct (vadd a b) as [r'|] eqn:E; simpl; [|discriminate].
    intros [= <-]. destruct (IH _ _ E). simpl. lia.
Qed.

Lemma vadd_same_length a b : length a = length b -> exists r, vadd a b = Ok r.
Proof.
  revert b. induction a as [|x a IH]; intros [|y b]; simpl; try discriminate.
  - now exists [].
  - intros [= E]. destruct (IH _ E) as [r ->]. simpl. eauto.
Qed.

Lemma vadd_nth a b r i :
  vadd a b = Ok r -> i < length a -> vnth r i = (vnth a i + vnth b i)%Q.
Proof.
  unfold vnth. revert b r i.
  induction a as [|x a IH]; intros [|y b] r i; simpl; try discriminate.
  - intros _ Hi. lia.
  - destruct (vadd a b) as [r'|] eqn:E; simpl; [|discriminate].
    intros [= <-] Hi. destruct i as [|i]; simpl.
    + reflexivity.
    + apply IH; [assumption | lia].
Qed.

Lemma vscale_nth c v i : i < length v -> vnth (vscale c v) i = (c * vnth v i)%Q.
Proof.
  unfold vnth, vscale. revert i. induction v as [|x v IH]; intros i Hi; simpl in *.
  - lia.
  - destruct i as [|i]; [reflexivity | apply IH; lia].
Qed.

Lemma vscale_length c v : length (vscale c v) = length v.
Proof. unfold vscale. apply length_map. Qed.

Lemma zeros_nth n i : nth i (zeros n) 0%Q = 0%Q.
Proof.
  unfold zeros. revert i. induction n as [|n IH]; intros [|i]; simpl; auto.
Qed.

Lemma zeros_length n : length (zeros n) = n.
Proof. apply repeat_length. Qed.

Lemma diag_rows_shape k v :
  length (diag_rows k v) = length v
  /\ Forall (fun r => length r = k + length v) (diag_rows k v).
Proof.
  revert k. induction v as [|x v IH]; intros k; simpl.
  - split; [reflexivity | constructor].
  - destruct (IH (S k)) as [Hl Hf]. split; [now rewrite Hl|].
    constructor.
    + rewrite length_app. simpl. rewrite !zeros_length. lia.
    + eapply Forall_impl; [|exact Hf]. simpl. intros r Hr. lia.
Qed.

Lemma diag_shape v : has_shape (diag v) (length v) (length v).
Proof. unfold has_shape, diag. apply (diag_rows_shape 0 v). Qed.

Lemma diag_rows_nth k v i j :
  i < length v ->
  nth j (nth i (diag_rows k v) []) 0%Q = if j =? k + i then vnth v i else 0%Q.
Proof.
  unfold vnth. revert k i. induction v as [|x v IH]; intros k i Hi; simpl in *.
  - lia.
  - destruct i as [|i].
    + rewrite Nat.add_0_r. destruct (Nat.eqb_spec j k) as [->|Hjk].
      * rewrite app_nth2; rewrite zeros_length; [|lia].
        now rewrite Nat.sub_diag.
      * destruct (Nat.lt_ge_cases j k) as [Hlt|Hge].
        -- rewrite app_nth1 by (rewrite zeros_length; lia). apply zeros_nth.
        -- rewrite app_nth2 by (rewrite zeros_length; lia).
           rewrite zeros_length.
           destruct (j - k) as [|d] eqn:Ed; [lia|]. simpl. apply zeros_nth.
    + rewrite IH by lia. replace (S k + i) with (k + S i) by lia. reflexivity.
Qed.

Lemma diag_nth v i j :
  i < length v -> mnth (diag v) i j = if i =? j then vnth v i else 0%Q.
Proof.
  intros Hi. unfold mnth, diag. rewrite diag_rows_nth by assumption.
  simpl. now rewrite Nat.eqb_sym.
Qed.

Lemma madd_shape a b m n k :
  madd a b = Ok m -> has_shape a n k -> has_shape m n k /\ has_shape b n k.
Proof.
  unfold has_shape. revert b m n.
  induction a as [|r a IH]; intros [|s b] m n; simpl; try discriminate.
  - intros [= <-] [<- _]. repeat split; constructor.
  - destruct (vadd r s) as [rs|] eqn:Ev; simpl; [|discriminate].
    destruct (madd a b) as [m'|] eqn:Em; simpl; [|discriminate].
    intros [= <-] [<- Hf]. inversion Hf as [|? ? Hr Hf']; subst.
    destruct (IH _ _ _ Em (conj eq_refl Hf')) as [[Hl1 Hf1] [Hl2 Hf2]].
    destruct (vadd_length _ _ Ev) as [Hrs Hs].
    repeat split; simpl; try congruence; constructor; auto; congruence.
Qed.

Lemma madd_same_shape a b n k :
  has_shape a n k -> has_shape b n k -> exists m, madd a b = Ok m.
Proof.
  unfold has_shape. revert b n.
  induction a as [|r a IH]; intros [|s b] n [Hl Hf] [Hl' Hf']; simpl in *;
    try congruence.
  - now exists [].
  - inversion Hf; inversion Hf'; subst.
    destruct (vadd_same_length r s) as [rs ->]; [congruence|]. simpl.
    destruct (IH b (length a)) as [m ->]; [split; auto | split; auto; congruence |].
    simpl. eauto.
Qed.

Lemma madd_nth a b m i j :
  madd a b = Ok m -> i < length a -> j < length (nth i a []) ->
  mnth m i j = (mnth a i j + mnth b i j)%Q.
Proof.
  unfold mnth. revert b m i.
  induction a as [|r a IH]; intros [|s b] m i; simpl; try discriminate.
  - intros _ Hi. lia.
  - destruct (vadd r s) as [rs|] eqn:Ev; simpl; [|discriminate].
    destruct (madd a b) as [m'|] eqn:Em; simpl; [|discriminate].
    intros [= <-] Hi Hj. destruct i as [|i]; simpl.
    + now apply vadd_nth.
    + apply IH; [assumption | lia | assumption].
Qed.

Lemma mscale_shape c m n k : has_shape m n k -> has_shape (mscale c m) n k.
Proof.
  unfold has_shape, mscale. intros [Hl Hf]. split.
  - now rewrite length_map.
  - apply Forall_map. eapply Forall_impl; [|exact Hf].
    simpl. intros r Hr. now rewrite vscale_length.
Qed.

Lemma mscale_nth c m i j :
  i < length m -> j < length (nth i m []) ->
  mnth (mscale c m) i j = (c * mnth m i j)%Q.
Proof.
  unfold mnth, mscale. intros Hi Hj.
  rewrite (nth_indep _ [] (vscale c [])) by (now rewrite length_map).
  rewrite map_nth. now apply vscale_nth.
Qed.

Lemma has_shape_nth m n k i : has_shape m n k -> i < n -> length (nth i m []) = k.
Proof.
  intros [Hl Hf] Hi. rewrite Forall_forall in Hf. apply Hf, nth_In. lia.
Qed.

(** ** Broadcasting of the prior precision *)

Lemma layer_broadcast_length prior sizes :
  length prior = length sizes ->
  length (layer_broadcast prior sizes) = list_sum sizes.
Proof.
  unfold layer_broadcast. revert sizes.
  induction prior as [|p prior IH]; intros [|n sizes]; simpl; try discriminate.
  - reflexivity.
  - intros [= E]. rewrite length_app, repeat_length. now rewrite IH.
Qed.

Lemma layer_broadcast_units prior sizes :
  length prior = length sizes -> Forall (fun n => n = 1) sizes ->
  layer_broadcast prior sizes = prior.
Proof.
  unfold layer_broadcast. revert sizes.
  induction prior as [|p prior IH]; intros [|n sizes]; simpl; try discriminate.
  - reflexivity.
  - intros [= E] Hf. inversion Hf; subst. simpl. now rewrite IH.
Qed.

Lemma sum_of_positive_sizes sizes :
  Forall (fun n => 1 <= n) sizes -> list_sum sizes = length sizes ->
  Forall (fun n => n = 1) sizes.
Proof.
  induction sizes as [|n sizes IH]; intros Hf Hs; [constructor|].
  inversion Hf as [|? ? Hn Hf']; subst. simpl in Hs.
  assert (length sizes <= list_sum sizes).
  { clear -Hf'. induction Hf'; simpl; lia. }
  constructor; [lia | apply IH; [assumption | lia]].
Qed.

Lemma cat_layers prior sizes :
  length prior = length sizes -> prior <> [] ->
  cat (map (fun pn => vscale (fst pn) (ones (snd pn))) (combine prior sizes))
  = Ok (layer_broadcast prior sizes).
Proof.
  intros Hl Hne. unfold layer_broadcast.
  assert (E : map (fun pn => vscale (fst pn) (ones (snd pn))) (combine prior sizes)
              = map (fun pn => repeat (fst pn) (snd pn)) (combine prior sizes)).
  { apply map_ext. intros [p n]. apply vscale_ones. }
  rewrite E. destruct prior as [|p prior]; [congruence|].
  destruct sizes as [|n sizes]; [discriminate | reflexivity].
Qed.

Lemma prior_precision_diag_length (s : BaseLaplace) v :
  counts_ok s -> prior_precision_diag s = Ok v -> length v = n_params s.
Proof.
  intros [Hlay Hpar]. unfold prior_precision_diag.
  destruct (Nat.eqb_spec (length (_prior_precision s)) 1) as [H1|H1].
  - destruct (_prior_precision s) as [|p [|q l]]; try discriminate.
    rewrite vmul_scalar_ones. intros [= <-]. apply repeat_length.
  - destruct (Nat.eqb_spec (length (_prior_precision s)) (n_params s)) as [H2|H2].
    + now intros [= <-].
    + destruct (Nat.eqb_spec (length (_prior_precision s)) (n_layers s)) as [H3|H3];
        [|discriminate].
      assert (Hl : length (_prior_precision s) = length (n_params_per_layer s)).
      { unfold n_params_per_layer. rewrite length_map. congruence. }
      destruct (_prior_precision s) as [|p l] eqn:E.
      * simpl in *. exfalso. apply H2. rewrite Hpar.
        destruct (n_params_per_layer s); [reflexivity | discriminate].
      * rewrite cat_layers by (auto; discriminate). intros [= <-].
        rewrite layer_broadcast_length by assumption. now rewrite Hpar.
Qed.

(** A stored prior precision of one of the three lengths broadcasts. *)
Lemma prior_precision_diag_defined (b : BaseLaplace) :
  counts_ok b ->
  nat_in (length (_prior_precision b)) [1; n_layers b; n_params b] = true ->
  exists v, prior_precision_diag b = Ok v /\ length v = n_params b.
Proof.
  intros Hc Hin. pose proof Hc as [Hlay Hpar].
  assert (Hex : exists v, prior_precision_diag b = Ok v).
  { unfold nat_in in Hin. simpl in Hin. unfold prior_precision_diag.
    destruct (length (_prior_precision b) =? 1) eqn:E1.
    - apply Nat.eqb_eq in E1.
      destruct (_prior_precision b) as [|p [|q l]]; try discriminate.
      rewrite vmul_scalar_ones. eauto.
    - destruct (length (_prior_precision b) =? n_params b) eqn:E2; [eauto|].
      destruct (length (_prior_precision b) =? n_layers b) eqn:E3;
        [|discriminate].
      apply Nat.eqb_eq in E3. apply Nat.eqb_neq in E2.
      rewrite cat_layers; [eauto | |].
      + unfold n_params_per_layer. rewrite length_map. congruence.
      + intros Hnil. apply E2. rewrite Hnil in *. simpl in *. rewrite Hpar.
        unfold n_params_per_layer.
        destruct (params b); [reflexivity | simpl in *; congruence]. }
  destruct Hex as [v Hv]. exists v. split; [exact Hv|].
  now apply prior_precision_diag_length.
Qed.

(** C6. [prior_precision_diag] broadcasts a stored prior precision of
    length 1, [n_layers] or [n_params] to a vector of length [n_params]: a
    scalar is repeated [n_params] times, a value per layer is repeated
    over the entries of its layer, a diagonal is returned as it is; any
    other stored length raises the mismatch error.  Where the length is
    both [n_layers] and [n_params] the code takes the diagonal reading,
    which is the per-layer one as soon as no parameter tensor is empty. *)
Theorem prior_precision_diag_broadcast (s : BaseLaplace) :
  counts_ok s ->
  (forall p, _prior_precision s = [p] ->
     prior_precision_diag s = Ok (scalar_broadcast p (n_params s)))
  /\ (length (_prior_precision s) = n_layers s ->
      length (_prior_precision s) <> n_params s
      \/ Forall (fun n => 1 <= n) (n_params_per_layer s) ->
      prior_precision_diag s
      = Ok (layer_broadcast (_prior_precision s) (n_params_per_layer s)))
  /\ (length (_prior_precision s) = n_params s ->
      prior_precision_diag s = Ok (_prior_precision s))
  /\ (nat_in (length (_prior_precision s)) [1; n_layers s; n_params s] = true ->
      exists v, prior_precision_diag s = Ok v /\ length v = n_params s)
  /\ (nat_in (length (_prior_precision s)) [1; n_layers s; n_params s] = false ->
      prior_precision_diag s
      = Raise (ValueError
                 "Mismatch of prior and model. Diagonal, scalar, or per-layer prior.")).
Proof.
  intros Hc. pose proof Hc as [Hlay Hpar].
  assert (Hsizes : length (n_params_per_layer s) = n_layers s).
  { unfold n_params_per_layer. rewrite length_map. congruence. }
  assert (Hscalar : forall p, _prior_precision s = [p] ->
            prior_precision_diag s = Ok (scalar_broadcast p (n_params s))).
  { intros p E. unfold prior_precision_diag. rewrite E. simpl length.
    rewrite Nat.eqb_refl. apply vmul_scalar_ones. }
  assert (Hdiag : length (_prior_precision s) = n_params s ->
            prior_precision_diag s = Ok (_prior_precision s)).
  { intros E. destruct (Nat.eq_dec (length (_prior_precision s)) 1) as [E1|E1].
    - destruct (_prior_precision s) as [|p [|q l]] eqn:Ep; try discriminate.
      rewrite (Hscalar p eq_refl). simpl in E. now rewrite <- E.
    - unfold prior_precision_diag.
      apply Nat.eqb_neq in E1. rewrite E1. apply Nat.eqb_eq in E. now rewrite E. }
  assert (Hlayer : length (_prior_precision s) = n_layers s ->
            length (_prior_precision s) <> n_params s
            \/ Forall (fun n => 1 <= n) (n_params_per_layer s) ->
            prior_precision_diag s
            = Ok (layer_broadcast (_prior_precision s) (n_params_per_layer s))).
  { intros E Hor.
    destruct (Nat.eq_dec (length (_prior_precision s)) 1) as [E1|E1].
    - destruct (_prior_precision s) as [|p [|q l]] eqn:Ep; try discriminate.
      rewrite (Hscalar p eq_refl). unfold scalar_broadcast, layer_broadcast.
      rewrite Hpar. destruct (n_params_per_layer s) as [|n [|n' l']];
        simpl in *; try congruence.
      now rewrite app_nil_r, Nat.add_0_r.
    - destruct (Nat.eq_dec (length (_prior_precision s)) (n_params s)) as [E2|E2].
      + rewrite (Hdiag E2). destruct Hor as [Hne|Hpos]; [contradiction|].
        rewrite layer_broadcast_units; [reflexivity | congruence |].
        apply sum_of_positive_sizes; [assumption | congruence].
      + unfold prior_precision_diag.
        apply Nat.eqb_neq in E1, E2. rewrite E1, E2.
        pose proof E as E'. apply Nat.eqb_eq in E'. rewrite E'.
        apply cat_layers; [congruence|].
        intros Hnil. apply Nat.eqb_neq in E2. apply E2. rewrite Hnil in *.
        simpl in *. rewrite Hpar.
        destruct (n_params_per_layer s); [reflexivity | simpl in *; congruence]. }
  repeat split; try assumption.
  - intros Hin. unfold nat_in in Hin. simpl in Hin.
    rewrite !orb_true_iff in Hin.
    assert (Hex : exists v, prior_precision_diag s = Ok v).
    { destruct Hin as [E|[E|[E|E]]]; try discriminate.
      - apply Nat.eqb_eq in E.
        destruct (_prior_precision s) as [|p [|q l]] eqn:Ep; try discriminate.
        eexists. now apply Hscalar.
      - apply Nat.eqb_eq in E.
        destruct (Nat.eq_dec (length (_prior_precision s)) (n_params s)) as [E2|E2].
        + eexists. now apply Hdiag.
        + eexists. apply Hlayer; auto.
      - apply Nat.eqb_eq in E. eexists. now apply Hdiag. }
    destruct Hex as [v Hv]. exists v. split; [assumption|].
    now apply prior_precision_diag_length.
  - intros Hin. unfold nat_in in Hin. simpl in Hin.
    rewrite !orb_false_iff in Hin. destruct Hin as (E1 & E2 & E3 & _).
    unfold prior_precision_diag.
    now rewrite E1, E3, E2.
Qed.


(** ** What the setters of the base class keep *)

Ltac base_modify :=
  apply preserves_modify; intros [] ?; simpl in *; auto.

Lemma set_prior_precision_kind l r p :
  preserves (base_kind_is l r) (set_prior_precision p).
Proof. unfold set_prior_precision. repeat preserves_step; base_modify. Qed.

Lemma set_prior_mean_kind l r p :
  preserves (base_kind_is l r) (set_prior_mean p).
Proof. unfold set_prior_mean. repeat preserves_step; base_modify. Qed.

Lemma set_sigma_noise_kind l r p :
  preserves (base_kind_is l r) (set_sigma_noise p).
Proof. unfold set_sigma_noise. repeat preserves_step; base_modify. Qed.

(** ** Writing a vector into the parameters *)

Lemma update_nth_length {A} i (x : A) l : length (update_nth i x l) = length l.
Proof.
  revert i. induction l as [|y l IH]; intros [|i]; simpl; auto.
Qed.

Lemma update_nth_same {A} i (x d : A) l :
  i < length l -> nth i (update_nth i x l) d = x.
Proof.
  revert i. induction l as [|y l IH]; intros [|i] Hi; simpl in *; try lia; auto.
  apply IH. lia.
Qed.

Lemma update_nth_other {A} i j (x d : A) l :
  i <> j -> nth j (update_nth i x l) d = nth j l d.
Proof.
  revert i j. induction l as [|y l IH]; intros [|i] [|j] Hij; simpl; auto;
    try congruence.
Qed.

Lemma firstn_add {A} n k (v : list A) :
  firstn (n + k) v = firstn n v ++ firstn k (skipn n v).
Proof.
  revert v. induction n as [|n IH]; intros v; simpl; [reflexivity|].
  destruct v as [|x v]; simpl.
  - now rewrite firstn_nil.
  - now rewrite IH.
Qed.

Lemma write_param_other r chunk m r' :
  r <> r' -> deref (write_param r chunk m) r' = deref m r'.
Proof. intros H. unfold deref, write_param. simpl. now apply update_nth_other. Qed.

Lemma write_param_same r chunk m :
  r < length (parameters m) -> data (deref (write_param r chunk m) r) = chunk.
Proof.
  intros H. unfold deref, write_param. simpl. now rewrite update_nth_same.
Qed.

Lemma map_nth_ext {A B} (f : A -> B) (d : A) (l l' : list A) :
  length l' = length l ->
  (forall i, i < length l -> f (nth i l' d) = f (nth i l d)) ->
  map f l' = map f l.
Proof.
  revert l'. induction l as [|x l IH]; intros [|x' l'] Hl Hn; simpl in *;
    try discriminate; [reflexivity|].
  f_equal.
  - apply (Hn 0). lia.
  - apply IH; [lia|]. intros i Hi. apply (Hn (S i)). lia.
Qed.

Lemma write_param_numel r chunk m :
  length chunk = numel (deref m r) ->
  map numel (parameters (write_param r chunk m)) = map numel (parameters m).
Proof.
  intros Hc. unfold write_param. simpl.
  apply map_nth_ext with (d := mkParam [] false).
  - apply update_nth_length.
  - intros i Hi. destruct (Nat.eq_dec r i) as [->|Hne].
    + rewrite update_nth_same by assumption. unfold numel at 1. simpl. exact Hc.
    + now rewrite update_nth_other.
Qed.

Lemma numel_deref m m' r :
  map numel (parameters m') = map numel (parameters m) ->
  numel (deref m' r) = numel (deref m r).
Proof.
  intros H. unfold deref.
  change (numel (nth r (parameters m') (mkParam [] false)))
    with (nth r (map numel (parameters m')) (numel (mkParam [] false)))
    || rewrite <- !(map_nth numel).
  now rewrite H.
Qed.

Lemma same_shapes_refl refs m : same_shapes refs m m.
Proof. split; auto. Qed.

Lemma same_shapes_trans refs m1 m2 m3 :
  same_shapes refs m1 m2 -> same_shapes refs m2 m3 -> same_shapes refs m1 m3.
Proof.
  intros [H1 F1] [H2 F2]. split; [congruence|].
  intros r Hr. rewrite F2, F1; auto.
Qed.

(** Whatever it returns, the loop keeps the sizes of the tensors and the
    entries of the tensors it is not given. *)
Lemma vector_to_parameters_loop_shapes all refs v m :
  incl refs all ->
  same_shapes all m (fst (vector_to_parameters_loop v refs m)).
Proof.
  revert v m. induction refs as [|r refs IH]; intros v m Hincl; simpl.
  - apply same_shapes_refl.
  - cbv beta iota delta [bind get]. simpl.
    destruct (length v <? numel (deref m r)) eqn:El; simpl.
    + apply same_shapes_refl.
    + apply Nat.ltb_ge in El. cbv beta iota delta [modify]. simpl.
      eapply same_shapes_trans; [|apply IH].
      * split.
        -- apply write_param_numel. rewrite length_firstn. lia.
        -- intros r' Hr'. apply write_param_other. intros ->.
           apply Hr', Hincl. now left.
      * intros x Hx. apply Hincl. now right.
Qed.

(** When the loop returns, the tensors it was given hold the leading
    entries of the vector, in order. *)
Lemma vector_to_parameters_loop_written refs v m m' :
  refs_ok m refs ->
  vector_to_parameters_loop v refs m = (m', Ok tt) ->
  parameters_to_vector (map (deref m') refs)
  = firstn (list_sum (map (fun r => numel (deref m r)) refs)) v
  /\ list_sum (map (fun r => numel (deref m r)) refs) <= length v.
Proof.
  revert v m. induction refs as [|r refs IH]; intros v m [Hnd Hin] Hrun; simpl in *.
  - split; [reflexivity | lia].
  - cbv beta iota delta [bind get] in Hrun. simpl in Hrun.
    destruct (length v <? numel (deref m r)) eqn:El; [discriminate|].
    apply Nat.ltb_ge in El. cbv beta iota delta [modify] in Hrun. simpl in Hrun.
    inversion Hnd as [|? ? Hnotin Hnd']; subst.
    inversion Hin as [|? ? Hr Hin']; subst.
    set (m1 := write_param r (firstn (numel (deref m r)) v) m) in *.
    assert (Hsh1 : map numel (parameters m1) = map numel (parameters m)).
    { apply write_param_numel. rewrite length_firstn. lia. }
    assert (Hlen1 : length (parameters m1) = length (parameters m)).
    { unfold m1, write_param. simpl. apply update_nth_length. }
    destruct (IH (skipn (numel (deref m r)) v) m1) as [Hw Hle].
    { split; [assumption|]. eapply Forall_impl; [|exact Hin'].
      intros a Ha. cbv beta in *. rewrite Hlen1. exact Ha. }
    { exact Hrun. }
    assert (Esum : map (fun r0 => numel (deref m1 r0)) refs
                   = map (fun r0 => numel (deref m r0)) refs).
    { apply map_ext. intros r0. now apply numel_deref. }
    rewrite Esum in Hw, Hle. rewrite length_skipn in Hle.
    split; [|lia].
    unfold parameters_to_vector in *. simpl. rewrite Hw, firstn_add. f_equal.
    pose proof (@vector_to_parameters_loop_shapes refs refs
                  (skipn (numel (deref m r)) v) m1 (incl_refl _)) as [_ Hfr].
    rewrite Hrun in Hfr. simpl in Hfr. rewrite (Hfr r Hnotin).
    unfold m1. now apply write_param_same.
Qed.

(** ** Grid search *)

Lemma score_leb_refl a : score_leb a a = true.
Proof.
  unfold score_leb, score_ltb. destruct a as [x| | |]; try reflexivity.
  rewrite negb_involutive. apply Qle_bool_iff, Qle_refl.
Qed.

Lemma score_ltb_leb a b : score_ltb a b = true -> score_leb a b = true.
Proof.
  unfold score_leb, score_ltb.
  destruct a as [x| | |], b as [y| | |]; try discriminate; auto.
  rewrite negb_involutive. intros H. apply negb_true_iff in H.
  apply Qle_bool_iff. destruct (Qlt_le_dec y x) as [Hlt|Hle]; [|assumption].
  exfalso. apply Qlt_le_weak, Qle_bool_iff in Hlt. congruence.
Qed.

Lemma score_lt_le_trans a b c :
  is_nan c = false ->
  score_ltb a b = true -> score_leb b c = true -> score_ltb a c = true.
Proof.
  unfold score_leb, score_ltb.
  destruct a as [x| | |], b as [y| | |], c as [z| | |]; try discriminate; auto.
  rewrite negb_involutive. intros _ H1 H2.
  apply negb_true_iff in H1. apply Qle_bool_iff in H2.
  apply negb_true_iff. destruct (Qle_bool z x) eqn:E; [|reflexivity].
  apply Qle_bool_iff in E.
  assert (Hyx : (y <= x)%Q) by (eapply Qle_trans; eauto).
  apply Qle_bool_iff in Hyx. congruence.
Qed.

Lemma score_not_lt a b : score_ltb a b = false -> score_leb b a = true.
Proof. unfold score_leb. now intros ->. Qed.

Lemma not_nan_nth (l : list score) j :
  Forall (fun a => is_nan a = false) l -> is_nan (nth j l Inf) = false.
Proof.
  intros Hl. destruct (Nat.lt_ge_cases j (length l)) as [Hj|Hj].
  - rewrite Forall_forall in Hl. apply Hl, nth_In, Hj.
  - now rewrite nth_overflow.
Qed.

(** On entries without [nan], the scan keeps the first least entry. *)
Lemma argmin_from_spec l pre bi b :
  Forall (fun a => is_nan a = false) (pre ++ l) ->
  first_minimum pre bi -> nth bi pre Inf = b ->
  first_minimum (pre ++ l) (argmin_from bi b (length pre) l).
Proof.
  revert pre bi b. induction l as [|x l IH]; intros pre bi b Hnn Hmin Hb; simpl.
  - now rewrite app_nil_r.
  - assert (Hnn' : Forall (fun a => is_nan a = false) ((pre ++ [x]) ++ l))
      by (now rewrite <- app_assoc).
    assert (Hpre : Forall (fun a => is_nan a = false) pre)
      by (apply Forall_app in Hnn; apply Hnn).
    assert (Hxn : is_nan x = false).
    { apply Forall_app in Hnn. destruct Hnn as [_ Hnn].
      now inversion Hnn. }
    assert (Hbn : is_nan b = false) by (rewrite <- Hb; now apply not_nan_nth).
    rewrite Hbn, Hxn. simpl.
    replace (pre ++ x :: l) with ((pre ++ [x]) ++ l) by (now rewrite <- app_assoc).
    replace (S (length pre)) with (length (pre ++ [x]))
      by (rewrite length_app; simpl; lia).
    destruct Hmin as (Hbi & Hle & Hlt).
    destruct (score_ltb x b) eqn:Ex.
    + apply IH; [exact Hnn'| |].
      * split; [rewrite length_app; simpl; lia|].
        assert (Hx : nth (length pre) (pre ++ [x]) Inf = x).
        { rewrite app_nth2, Nat.sub_diag by lia. reflexivity. }
        rewrite Hx. split.
        -- intros j Hj. rewrite length_app in Hj. simpl in Hj.
           destruct (Nat.eq_dec j (length pre)) as [->|Hne].
           ++ rewrite Hx. apply score_leb_refl.
           ++ rewrite app_nth1 by lia. apply score_ltb_leb.
              eapply score_lt_le_trans; [now apply not_nan_nth|exact Ex|].
              rewrite <- Hb. apply Hle. lia.
        -- intros j Hj. rewrite app_nth1 by lia.
           eapply score_lt_le_trans; [now apply not_nan_nth|exact Ex|].
           rewrite <- Hb. apply Hle. lia.
      * rewrite app_nth2, Nat.sub_diag by lia. reflexivity.
    + apply IH; [exact Hnn'| |].
      * split; [rewrite length_app; simpl; lia|].
        rewrite (app_nth1 pre [x] Inf Hbi). split.
        -- intros j Hj. rewrite length_app in Hj. simpl in Hj.
           destruct (Nat.eq_dec j (length pre)) as [->|Hne].
           ++ rewrite app_nth2, Nat.sub_diag by lia. simpl.
              rewrite Hb. now apply score_not_lt.
           ++ rewrite app_nth1 by lia. apply Hle. lia.
        -- intros j Hj. rewrite app_nth1 by lia. now apply Hlt.
      * now rewrite app_nth1.
Qed.

(** With a [nan] among the entries, the scan ends at the first one. *)
Lemma argmin_from_nan l pre bi b :
  bi < length pre -> nth bi pre Inf = b ->
  (is_nan b = true -> first_nan pre bi) ->
  (is_nan b = false -> Forall (fun a => is_nan a = false) pre) ->
  Exists (fun a => is_nan a = true) (pre ++ l) ->
  first_nan (pre ++ l) (argmin_from bi b (length pre) l).
Proof.
  revert pre bi b. induction l as [|x l IH]; intros pre bi b Hbi Hb H1 H0 Hex;
    simpl.
  - rewrite app_nil_r in *. destruct (is_nan b) eqn:Eb; [now apply H1|].
    exfalso. specialize (H0 eq_refl). rewrite Forall_forall in H0.
    apply Exists_exists in Hex. destruct Hex as (a & Ha & Hn).
    specialize (H0 a Ha). congruence.
  - destruct (is_nan b) eqn:Eb.
    + destruct (H1 eq_refl) as (_ & Hn & Hbefore).
      split; [rewrite length_app; lia|]. split.
      * now rewrite app_nth1.
      * intros j Hj. rewrite app_nth1 by lia. now apply Hbefore.
    + specialize (H0 eq_refl).
      replace (pre ++ x :: l) with ((pre ++ [x]) ++ l) in *
        by (now rewrite <- app_assoc).
      replace (S (length pre)) with (length (pre ++ [x]))
        by (rewrite length_app; simpl; lia).
      assert (Hx : nth (length pre) (pre ++ [x]) Inf = x).
      { rewrite app_nth2, Nat.sub_diag by lia. reflexivity. }
      destruct (is_nan x) eqn:Ex; simpl.
      * apply IH; [rewrite length_app; simpl; lia | exact Hx | | | exact Hex].
        -- intros _. split; [rewrite length_app; simpl; lia|].
           split; [rewrite Hx; now destruct x|].
           intros j Hj. rewrite app_nth1 by lia. now apply not_nan_nth.
        -- congruence.
      * assert (Hpre' : Forall (fun a => is_nan a = false) (pre ++ [x])).
        { apply Forall_app. split; [exact H0|]. now constructor. }
        destruct (score_ltb x b).
        -- apply IH; [rewrite length_app; simpl; lia | exact Hx | | | exact Hex].
           ++ congruence.
           ++ intros _. exact Hpre'.
        -- apply IH; [rewrite length_app; simpl; lia | | | | exact Hex].
           ++ now rewrite app_nth1.
           ++ congruence.
           ++ intros _. exact Hpre'.
Qed.

(** [np.argmin] of a list that is not empty: the position of its first
    [nan] if it has one, and of its first least entry otherwise. *)
Lemma argmin_spec x l :
  exists k, argmin (x :: l) = Ok k
    /\ (Forall (fun a => is_nan a = false) (x :: l) -> first_minimum (x :: l) k)
    /\ (Exists (fun a => is_nan a = true) (x :: l) -> first_nan (x :: l) k).
Proof.
  exists (argmin_from 0 x 1 l). split; [reflexivity|]. split.
  - intros Hnn. apply (@argmin_from_spec l [x] 0 x); [exact Hnn| |reflexivity].
    split; [simpl; lia|]. split.
    + intros [|j] Hj; simpl in *; [apply score_leb_refl | lia].
    + intros j Hj. lia.
  - intros Hex. apply (@argmin_from_nan l [x] 0 x); simpl; auto;
      intros Hn;
      first [ now constructor
            | split; [simpl; lia|]; split; [now destruct x|];
              intros j Hj; lia ].
Qed.

Section GridsearchFacts.
Variable S : Type.
Variable prior_setter : pyarg -> Act S unit.
Variable validate : Act S score.

Lemma gridsearch_loop_spec (interval : list pyarg) :
  (forall p s, In p interval -> snd (prior_setter p s) = Ok tt) ->
  (forall s e, snd (validate s) = Raise e -> is_RuntimeError e = true) ->
  forall results precs s,
    snd (gridsearch_loop prior_setter validate interval results precs s)
    = Ok (results ++ map (fun e => score_of (snd e))
                         (evaluations prior_setter validate interval s),
          precs ++ map fst (evaluations prior_setter validate interval s)).
Proof.
  intros Hset Hval. induction interval as [|p rest IH]; intros results precs s;
    simpl.
  - now rewrite !app_nil_r.
  - cbv beta iota delta [bind].
    pose proof (Hset p s (or_introl eq_refl)) as Hp.
    destruct (prior_setter p s) as [s1 r1]. simpl in Hp. subst r1. simpl.
    unfold except_RuntimeError.
    pose proof (Hval s1) as Hv.
    destruct (validate s1) as [s2 [x|e]]; simpl in *.
    + rewrite IH by (intros; apply Hset; now right).
      now rewrite <- !app_assoc.
    + rewrite (Hv e eq_refl).
      rewrite IH by (intros; apply Hset; now right).
      now rewrite <- !app_assoc.
Qed.

(** C7, as the code has it.  On a grid that is not empty, when the setter
    accepts every grid point and the evaluations raise nothing but
    [RuntimeError] and its subclasses, the score of an evaluation that
    raised is infinite, and [_gridsearch] returns a grid point.  When no
    evaluation returned [nan], it is the first grid point whose score is
    least, so that a grid point whose evaluation raised is not returned as
    soon as one evaluation gave a finite loss.  When an evaluation returned
    [nan], it is the first grid point whose evaluation returned [nan],
    whatever the other losses. *)
Theorem gridsearch_selects_first_minimum (interval : list pyarg) (s : S) :
  interval <> [] ->
  (forall p s, In p interval -> snd (prior_setter p s) = Ok tt) ->
  (forall s e, snd (validate s) = Raise e -> is_RuntimeError e = true) ->
  exists i p r,
    snd (_gridsearch prior_setter validate true interval s) = Ok p
    /\ nth_error (evaluations prior_setter validate interval s) i = Some (p, r)
    /\ ((forall j q,
           nth_error (evaluations prior_setter validate interval s) j
           <> Some (q, Ok NaN)) ->
        (forall j q r',
           nth_error (evaluations prior_setter validate interval s) j
           = Some (q, r') ->
           score_leb (score_of r) (score_of r') = true)
        /\ (forall j q r', j < i ->
              nth_error (evaluations prior_setter validate interval s) j
              = Some (q, r') ->
              score_ltb (score_of r) (score_of r') = true)
        /\ ((exists j q x,
               nth_error (evaluations prior_setter validate interval s) j
               = Some (q, Ok (Finite x))) ->
             exists y, r = Ok y /\ score_ltb y Inf = true))
    /\ ((exists j q,
           nth_error (evaluations prior_setter validate interval s) j
           = Some (q, Ok NaN)) ->
        r = Ok NaN
        /\ forall j q, j < i ->
             nth_error (evaluations prior_setter validate interval s) j
             <> Some (q, Ok NaN)).
Proof.
  intros Hne Hset Hval.
  pose proof (gridsearch_loop_spec interval Hset Hval [] [] s) as Hloop.
  simpl in Hloop.
  set (evs := evaluations prior_setter validate interval s) in *.
  assert (Hlen : length evs = length interval).
  { unfold evs. clear. revert s. induction interval as [|p rest IH]; intros s;
      simpl; [reflexivity | now rewrite IH]. }
  destruct evs as [|e0 evs'] eqn:Eevs.
  { destruct interval; [congruence | discriminate]. }
  rewrite <- Eevs in *.
  set (scores := map (fun e => score_of (snd e)) evs) in *.
  assert (Hsc : scores = score_of (snd e0)
                         :: map (fun e => score_of (snd e)) evs').
  { unfold scores. now rewrite Eevs. }
  destruct (argmin_spec (score_of (snd e0)) (map (fun e => score_of (snd e)) evs'))
    as (k & Hk & Hmin & Hnan).
  rewrite <- Hsc in Hk, Hmin, Hnan.
  assert (Hscore : forall j q r', nth_error evs j = Some (q, r') ->
            nth j scores Inf = score_of r').
  { intros j q r' Hj. unfold scores.
    change Inf with ((fun e : pyarg * result score => score_of (snd e))
                       (q, Raise (RuntimeError ""))).
    rewrite map_nth. now rewrite (nth_error_nth _ _ _ Hj). }
  assert (Hnan_of : forall r' : result score,
            is_nan (score_of r') = true -> r' = Ok NaN).
  { intros [[]|e] Hr; simpl in Hr; try discriminate. reflexivity. }
  assert (Hcases : Forall (fun a => is_nan a = false) scores
                   \/ Exists (fun a => is_nan a = true) scores).
  { clear. induction scores as [|a l IH]; [left; constructor|].
    destruct (is_nan a) eqn:Ea; [right; now constructor|].
    destruct IH as [IH|IH]; [left; now constructor | right; now constructor]. }
  assert (Hkl : k < length scores).
  { destruct Hcases as [Hc|Hc]; [apply (Hmin Hc) | apply (Hnan Hc)]. }
  assert (Hkl' : k < length evs)
    by (unfold scores in Hkl; now rewrite length_map in Hkl).
  destruct (nth_error evs k) as [[p r]|] eqn:Hnth;
    [|apply nth_error_None in Hnth; lia].
  exists k, p, r. split; [|split; [exact Hnth|split]].
  - unfold _gridsearch. simpl. cbv beta iota delta [bind].
    destruct (gridsearch_loop prior_setter validate interval [] [] s) as [sf rf].
    simpl in Hloop. subst rf. simpl. fold scores. unfold lift. rewrite Hk. simpl.
    assert (Hp : nth_error (map fst evs) k = Some p).
    { rewrite nth_error_map, Hnth. reflexivity. }
    now rewrite Hp.
  - intros Hno.
    assert (Hnn : Forall (fun a => is_nan a = false) scores).
    { apply Forall_forall. intros a Ha. unfold scores in Ha.
      apply in_map_iff in Ha. destruct Ha as ([q r'] & <- & Hin).
      apply In_nth_error in Hin. destruct Hin as [j Hj]. simpl.
      destruct (is_nan (score_of r')) eqn:En; [|reflexivity].
      apply Hnan_of in En. subst r'. exfalso. exact (Hno j q Hj). }
    destruct (Hmin Hnn) as (_ & Hle & Hlt).
    split; [|split].
    + intros j q r' Hj. rewrite <- (Hscore _ _ _ Hnth), <- (Hscore _ _ _ Hj).
      apply Hle. unfold scores. rewrite length_map.
      apply nth_error_Some. congruence.
    + intros j q r' Hjk Hj. rewrite <- (Hscore _ _ _ Hnth), <- (Hscore _ _ _ Hj).
      now apply Hlt.
    + intros (j & q & x & Hj).
      assert (Hx : score_leb (score_of r) (Finite x) = true).
      { rewrite <- (Hscore _ _ _ Hnth).
        change (Finite x) with (score_of (Ok (Finite x))).
        rewrite <- (Hscore _ _ _ Hj).
        apply Hle. unfold scores. rewrite length_map.
        apply nth_error_Some. congruence. }
      assert (Hrn : is_nan (score_of r) = false).
      { rewrite <- (Hscore _ _ _ Hnth). now apply not_nan_nth. }
      destruct r as [[y| | |]|e]; simpl in Hx, Hrn; try discriminate.
      * exists (Finite y). split; reflexivity.
      * exists NegInf. split; reflexivity.
  - intros (j & q & Hj).
    assert (Hex : Exists (fun a => is_nan a = true) scores).
    { apply Exists_exists. exists NaN. split; [|reflexivity].
      unfold scores. apply in_map_iff. exists (q, Ok NaN).
      split; [reflexivity|]. eapply nth_error_In; eassumption. }
    destruct (Hnan Hex) as (_ & Hn & Hbefore).
    rewrite (Hscore _ _ _ Hnth) in Hn.
    split; [apply Hnan_of; now rewrite Hn|].
    intros j' q' Hj' Hc. specialize (Hbefore j' Hj').
    rewrite (Hscore _ _ _ Hc) in Hbefore. discriminate.
Qed.

End GridsearchFacts.

(** ** Posterior precision *)

Section ParametricFacts.
Context {P : Predictor} {K : KronOps} {C : CurvatureInterface} {Nm : Numerics}
        {PK : PosteriorKernels}.

Lemma H_factor_spec (s : BaseLaplace) : (_H_factor s == spec_H_factor s)%Q.
Proof.
  unfold _H_factor, spec_H_factor.
  assert (E : (_sigma_noise s ^ 2 == _sigma_noise s * _sigma_noise s)%Q)
    by (simpl; unfold Qpower_positive; simpl; ring).
  rewrite E. unfold Qdiv. rewrite !Qinv_mult_distr. ring.
Qed.

(** C1. The posterior precision of a fitted dense approximation is the
    matrix with entries [H_factor * H[i][j]], plus the prior diagonal on
    the diagonal; that of a fitted diagonal approximation is the vector
    with entries [H_factor * H[i] + p0[i]]; where
    [H_factor = 1/(sigma_noise^2 * temperature)] and [p0] is
    [prior_precision_diag], all read from the object at the call. *)
Theorem posterior_precision_formula (s : ParametricLaplace) :
  counts_ok (base s) ->
  nat_in (length (_prior_precision (base s)))
         [1; n_layers (base s); n_params (base s)] = true ->
  exists p0, prior_precision_diag (base s) = Ok p0 /\
  (forall h, cls s = FullLaplace -> H s = HFull h ->
     has_shape h (n_params (base s)) (n_params (base s)) ->
     exists m, posterior_precision s = Ok (PFull m)
       /\ has_shape m (n_params (base s)) (n_params (base s))
       /\ forall i j, i < n_params (base s) -> j < n_params (base s) ->
            (mnth m i j ==
             spec_H_factor (base s) * mnth h i j
             + (if i =? j then vnth p0 i else 0))%Q)
  /\ (forall h, cls s = DiagLaplace -> H s = HDiag h ->
     length h = n_params (base s) ->
     exists v, posterior_precision s = Ok (PDiag v)
       /\ length v = n_params (base s)
       /\ forall i, i < n_params (base s) ->
            (vnth v i == spec_H_factor (base s) * vnth h i + vnth p0 i)%Q).
Proof.
  intros Hc Hin.
  destruct (prior_precision_diag_defined Hc Hin) as (p0 & Hp0 & Hlen).
  exists p0. split; [assumption|].
  split.
  - intros h Hcls HH Hsh. unfold posterior_precision, _check_H_init.
    rewrite Hcls, HH. simpl. rewrite Hp0. simpl.
    assert (Hsc := mscale_shape (_H_factor (base s)) Hsh).
    assert (Hd := diag_shape p0). rewrite Hlen in Hd.
    destruct (madd_same_shape Hsc Hd) as [m Hm]. rewrite Hm. simpl.
    exists m. split; [reflexivity|].
    destruct (madd_shape _ Hm Hsc) as [Hms _]. split; [assumption|].
    intros i j Hi Hj.
    assert (Hrow : length (nth i h []) = n_params (base s))
      by (eapply has_shape_nth; eauto).
    rewrite (madd_nth _ _ Hm).
    + rewrite mscale_nth.
      * rewrite diag_nth by lia. now rewrite H_factor_spec.
      * destruct Hsh. lia.
      * lia.
    + destruct Hsc. lia.
    + rewrite (has_shape_nth Hsc Hi). assumption.
  - intros h Hcls HH Hl. unfold posterior_precision, _check_H_init.
    rewrite Hcls, HH. simpl. rewrite Hp0. simpl.
    destruct (vadd_same_length (vscale (_H_factor (base s)) h) p0) as [v Hv].
    { rewrite vscale_length. congruence. }
    rewrite Hv. simpl. exists v. split; [reflexivity|].
    destruct (vadd_length _ _ Hv) as [Hlv _]. rewrite vscale_length in Hlv.
    split; [congruence|].
    intros i Hi. rewrite (vadd_nth _ _ Hv) by (rewrite vscale_length; lia).
    rewrite vscale_nth by lia. now rewrite H_factor_spec.
Qed.

(** ** The loop of [fit] *)

(** What a batch changes: the cached backend, the loss and [H]. *)
Lemma fit_batch_explicit (N : nat) (d : Batch) (s : ParametricLaplace) :
  let X := match d with MappingBatch x _ | TupleBatch x _ => x end in
  let y := match d with MappingBatch _ l | TupleBatch _ l => l end in
  let l := match _backend (base s) with Some l => l | None => likelihood (base s) end in
  let s1 := match cls s with
            | LowRankLaplace => s
            | _ => set_base (set__backend (Some l) (base s)) s
            end in
  fit_batch N d s =
  match curvature_of (cls s) (_backend_cls (base s)) l (model (base s)) X y N with
  | Raise e => (s1, Raise e)
  | Ok r =>
      let s2 := set_base (set_loss (loss (base s) + fst r)%Q (base s1)) s1 in
      match H_iadd (H s) (snd r) with
      | Raise e => (s2, Raise e)
      | Ok h => (set_H h s2, Ok tt)
      end
  end.
Proof.
  destruct s as [b c h mu hf dm]; destruct b; destruct d as [X y|X y];
    destruct c; simpl;
    unfold fit_batch, _curv_closure, curvature_of, bind, get, on_base, backend,
      lift, ret, modify, raise; simpl.
  all: try reflexivity.
  all: destruct _backend0 as [l|]; simpl.
  all: match goal with
       | |- context [backend_full ?a ?b ?c ?d ?e ?f] =>
           destruct (backend_full a b c d e f) as [[? ?]|?]
       | |- context [backend_kron ?a ?b ?c ?d ?e ?f] =>
           destruct (backend_kron a b c d e f) as [[? ?]|?]
       | |- context [backend_diag ?a ?b ?c ?d ?e ?f] =>
           destruct (backend_diag a b c d e f) as [[? ?]|?]
       end; simpl; try reflexivity.
  all: destruct h; simpl; try reflexivity.
  all: match goal with
       | |- context [madd ?a ?b] => destruct (madd a b)
       | |- context [vadd ?a ?b] => destruct (vadd a b)
       end; reflexivity.
Qed.

Ltac crush_fit_batch s d :=
  let h := fresh "h" in
  destruct s as [[] [] h ? ? ?]; destruct d;
  cbv [fit_batch _curv_closure curvature_of bind get on_base backend
       lift ret modify raise add_n_data same_frame]; simpl;
  try (repeat split; reflexivity);
  match goal with
  | |- context [_backend {| _backend := ?b |}] => destruct b
  | |- context [match ?b with Some _ => _ | None => _ end] => destruct b
  | _ => idtac
  end; simpl;
  match goal with
  | |- context [backend_full ?a ?b ?c ?d ?e ?f] =>
      destruct (backend_full a b c d e f) as [[? ?]|?]
  | |- context [backend_kron ?a ?b ?c ?d ?e ?f] =>
      destruct (backend_kron a b c d e f) as [[? ?]|?]
  | |- context [backend_diag ?a ?b ?c ?d ?e ?f] =>
      destruct (backend_diag a b c d e f) as [[? ?]|?]
  | _ => idtac
  end; simpl; try (repeat split; reflexivity);
  destruct h; simpl; try (repeat split; reflexivity);
  match goal with
  | |- context [madd ?a ?b] => destruct (madd a b)
  | |- context [vadd ?a ?b] => destruct (vadd a b)
  | _ => idtac
  end; try (repeat split; reflexivity).

Lemma fit_batch_frame N d s : same_frame s (fst (fit_batch N d s)).
Proof. crush_fit_batch s d. Qed.

Lemma same_frame_refl s : same_frame s s.
Proof. unfold same_frame. repeat split; reflexivity. Qed.

Lemma same_frame_trans s1 s2 s3 :
  same_frame s1 s2 -> same_frame s2 s3 -> same_frame s1 s3.
Proof.
  unfold same_frame. intros H12 H23.
  decompose [and] H12. decompose [and] H23. repeat split; congruence.
Qed.

Lemma fit_batch_add_n_data N d k s :
  fit_batch N d (add_n_data k s)
  = (add_n_data k (fst (fit_batch N d s)), snd (fit_batch N d s)).
Proof. crush_fit_batch s d. Qed.

Lemma fit_batch_N_independent N N' d s :
  N_independent -> cls s = FullLaplace \/ cls s = DiagLaplace ->
  fit_batch N d s = fit_batch N' d s.
Proof.
  intros Hind Hcls. rewrite !fit_batch_explicit.
  assert (E : forall l X y,
            curvature_of (cls s) (_backend_cls (base s)) l (model (base s)) X y N
            = curvature_of (cls s) (_backend_cls (base s)) l (model (base s)) X y N').
  { intros l X y. unfold curvature_of.
    destruct (Hind (_backend_cls (base s)) l (model (base s)) X y N N') as [Ef Ed].
    destruct Hcls as [-> | ->]; [now rewrite Ef | now rewrite Ed]. }
  now rewrite E.
Qed.

Lemma loop_frame_preserved N bs s :
  same_frame s (fst (for_each bs (fit_batch N) s)).
Proof.
  revert s. induction bs as [|d bs IH]; intros s; simpl; [apply same_frame_refl|].
  unfold bind. pose proof (fit_batch_frame N d s) as Hf.
  destruct (fit_batch N d s) as [s1 [[]|e]]; simpl in *.
  - eapply same_frame_trans; [exact Hf | apply IH].
  - assumption.
Qed.

Lemma loop_add_n_data N bs k s :
  for_each bs (fit_batch N) (add_n_data k s)
  = (add_n_data k (fst (for_each bs (fit_batch N) s)),
     snd (for_each bs (fit_batch N) s)).
Proof.
  revert s. induction bs as [|d bs IH]; intros s; simpl; [reflexivity|].
  unfold bind. rewrite fit_batch_add_n_data.
  destruct (fit_batch N d s) as [s1 [[]|e]]; simpl; [apply IH | reflexivity].
Qed.

Lemma loop_N_independent N N' bs s :
  N_independent -> cls s = FullLaplace \/ cls s = DiagLaplace ->
  for_each bs (fit_batch N) s = for_each bs (fit_batch N') s.
Proof.
  intros Hind. revert s. induction bs as [|d bs IH]; intros s Hcls; simpl;
    [reflexivity|].
  unfold bind. rewrite (fit_batch_N_independent N N' d s Hind Hcls).
  pose proof (fit_batch_frame N' d s) as Hf.
  destruct (fit_batch N' d s) as [s1 [[]|e]]; simpl in *; [|reflexivity].
  apply IH. destruct Hf as (Ec & _). now rewrite Ec.
Qed.

(** ** [fit] *)

Lemma first_forward_state d s : fst (first_forward d s) = s.
Proof.
  unfold first_forward, bind, get, lift, raise. simpl.
  destruct d as [X y|X y]; simpl.
  - destruct (rbind (first_example X) (forward (model (base s)))) as [o|[]];
      reflexivity.
  - destruct (laplace_cls_eqb (cls s) DiagLaplace
              && backend_cls_eqb (_backend_cls (base s)) CurvlinopsEF);
      reflexivity.
Qed.

Lemma parametric_fit_unfold (l : DataLoader) (o : bool) (s : ParametricLaplace) :
  parametric_fit l o s =
  match batches l with
  | [] => (fit_prelude o s, Raise StopIteration)
  | d :: _ =>
      match snd (first_forward d (fit_prelude o s)) with
      | Raise e => (fit_prelude o s, Raise e)
      | Ok out =>
          match for_each (batches l) (fit_batch (dataset_len l))
                  (with_outputs (last_dim out) (fit_prelude o s)) with
          | (s', Ok _) => (add_n_data (dataset_len l) s', Ok tt)
          | (s', Raise e) => (s', Raise e)
          end
      end
  end.
Proof.
  unfold parametric_fit.
  assert (E : forall (k : unit -> Act ParametricLaplace unit),
            bind (if o
                  then _init_H ;;;
                       modify (fun s => set_base (set_n_data 0 (set_loss 0 (base s))) s)
                  else ret tt) k s
            = k tt (if o
                    then (fun s => set_base (set_n_data 0 (set_loss 0%Q (base s))) s)
                           (fst (_init_H s))
                    else s)).
  { intros k. destruct o; [|reflexivity].
    unfold bind at 1. unfold bind at 1.
    assert (Ei : snd (_init_H s) = Ok tt).
    { unfold _init_H, bind, get, modify. simpl. destruct (cls s); reflexivity. }
    destruct (_init_H s) as [s' r]. simpl in Ei. subst r. reflexivity. }
  rewrite E. clear E. unfold fit_prelude.
  set (s1 := if o then _ else s).
  cbv [bind modify]. simpl.
  destruct (batches l) as [|d bs] eqn:Eb; [reflexivity|].
  simpl.
  match goal with
  | |- context [first_forward d ?x] =>
      pose proof (first_forward_state d x) as Hs;
      destruct (first_forward d x) as [s' [out|e]]; simpl in Hs; subst s'
  end; simpl; [|reflexivity].
  unfold with_outputs, add_n_data. simpl.
  match goal with
  | |- (let (_, _) := ?e in _) = _ => destruct e as [? [[]|?]]
  end; reflexivity.
Qed.

Lemma _init_H_frame (s : ParametricLaplace) :
  cls (fst (_init_H s)) = cls s /\ base (fst (_init_H s)) = base s.
Proof.
  unfold _init_H, bind, get, modify. simpl.
  destruct (cls s) eqn:E; simpl; split; auto.
Qed.

Lemma fit_prelude_cls o s : cls (fit_prelude o s) = cls s.
Proof.
  unfold fit_prelude. destruct o; simpl; [apply _init_H_frame | reflexivity].
Qed.

(** The prelude of a fit that does not override changes nothing in an
    object that a fit has just left. *)
Lemma fit_prelude_noop k s :
  training (model (base s)) = false ->
  mean s = Vector1 (parameters_to_vector
                      (map (deref (model (base s))) (params (base s)))) ->
  n_outputs (base s) = Some k -> output_size (model (base s)) = Some k ->
  with_outputs k (fit_prelude false s) = s.
Proof.
  destruct s as [[[ps os tr] ? ? ? ? ? ? ? ? ? ? ? ? ? ? ? ? ?] ? ? mu ? ?].
  unfold with_outputs, fit_prelude, eval_mode, deref. simpl.
  intros -> -> -> ->. reflexivity.
Qed.

Lemma clear_scale_noop s : _posterior_scale (base s) = None -> clear_scale s = s.
Proof.
  destruct s as [[] ? ? ? ? ?]. unfold clear_scale. simpl. now intros ->.
Qed.

Lemma add_n_data_add a b s : add_n_data b (add_n_data a s) = add_n_data (a + b) s.
Proof.
  destruct s as [[] ? ? ? ? ?]. unfold add_n_data. simpl.
  now rewrite Nat.add_assoc.
Qed.

(** The attributes of the object after the prelude and the assignment of
    the output size. *)
Lemma with_outputs_fields o k s :
  let s' := with_outputs k (fit_prelude o s) in
  training (model (base s')) = false
  /\ mean s' = Vector1 (parameters_to_vector
                         (map (deref (model (base s'))) (params (base s'))))
  /\ n_outputs (base s') = Some k /\ output_size (model (base s')) = Some k
  /\ cls s' = cls s
  /\ _posterior_scale (base s') = _posterior_scale (base s).
Proof.
  unfold with_outputs, fit_prelude.
  destruct o; simpl; destruct (_init_H_frame s) as [Ec Eb];
    repeat split; try reflexivity; try assumption; now rewrite ?Eb.
Qed.

Lemma parametric_fit_split (l1 l2 : DataLoader) (o : bool)
  (s0 s1 s2 : ParametricLaplace) :
  N_independent ->
  cls s0 = FullLaplace \/ cls s0 = DiagLaplace ->
  parametric_fit l1 o s0 = (s1, Ok tt) ->
  parametric_fit l2 false s1 = (s2, Ok tt) ->
  n_outputs (base s2) = n_outputs (base s1) ->
  parametric_fit (concat_loader l1 l2) o s0 = (s2, Ok tt).
Proof.
  intros Hind Hcls H1 H2 Hout.
  rewrite parametric_fit_unfold in H1, H2. rewrite parametric_fit_unfold.
  (* the first fit *)
  destruct (batches l1) as [|d1 b1] eqn:E1; [discriminate|].
  destruct (snd (first_forward d1 (fit_prelude o s0))) as [out1|] eqn:F1;
    [|discriminate].
  destruct (with_outputs_fields o (last_dim out1) s0)
    as (Htr & Hmean & Hno & Hos & Hc & _).
  set (pre1 := with_outputs (last_dim out1) (fit_prelude o s0)) in *.
  pose proof (loop_frame_preserved (dataset_len l1) (d1 :: b1) pre1) as Hfr1.
  destruct (for_each (d1 :: b1) (fit_batch (dataset_len l1)) pre1)
    as [L1 [[]|]] eqn:Lp1; [|discriminate].
  injection H1 as <-. simpl fst in Hfr1.
  destruct Hfr1 as (Ec1 & Em1 & Emod1 & Epar1 & Eno1 & _).
  (* the second fit starts from the object as it is *)
  destruct (batches l2) as [|d2 b2] eqn:E2; [discriminate|].
  destruct (snd (first_forward d2 (fit_prelude false (add_n_data (dataset_len l1) L1))))
    as [out2|] eqn:F2; [|discriminate].
  destruct (with_outputs_fields false (last_dim out2) (add_n_data (dataset_len l1) L1))
    as (_ & _ & Hno2 & _).
  set (pre2 := with_outputs (last_dim out2)
                 (fit_prelude false (add_n_data (dataset_len l1) L1))) in *.
  pose proof (loop_frame_preserved (dataset_len l2) (d2 :: b2) pre2) as Hfr2.
  destruct (for_each (d2 :: b2) (fit_batch (dataset_len l2)) pre2)
    as [L2 [[]|]] eqn:Lp2; [|discriminate].
  injection H2 as <-. simpl fst in Hfr2.
  destruct Hfr2 as (_ & _ & _ & _ & Eno2 & _).
  assert (Ek : last_dim out2 = last_dim out1).
  { simpl in Hout. rewrite Eno2, Hno2, Eno1, Hno in Hout. congruence. }
  assert (Epre2 : pre2 = add_n_data (dataset_len l1) L1).
  { unfold pre2. rewrite Ek. apply fit_prelude_noop; simpl.
    - now rewrite Emod1.
    - now rewrite Em1, Hmean, Emod1, Epar1.
    - now rewrite Eno1.
    - now rewrite Emod1. }
  rewrite Epre2, loop_add_n_data in Lp2.
  (* the single fit on the concatenated stream *)
  unfold concat_loader at 1. simpl batches. rewrite E1, E2. simpl app.
  cbv beta iota. rewrite F1. fold pre1. unfold concat_loader. simpl dataset_len.
  change (d1 :: b1 ++ d2 :: b2) with ((d1 :: b1) ++ d2 :: b2).
  rewrite (loop_N_independent (dataset_len l1 + dataset_len l2) (dataset_len l1))
    by (auto; rewrite Hc; exact Hcls).
  rewrite for_each_app, Lp1.
  rewrite (loop_N_independent (dataset_len l1) (dataset_len l2))
    by (auto; rewrite Ec1, Hc; exact Hcls).
  destruct (for_each (d2 :: b2) (fit_batch (dataset_len l2)) L1) as [L2' r].
  simpl in Lp2. injection Lp2 as <- ->.
  now rewrite add_n_data_add.
Qed.

(** C2. For the dense and the diagonal variant, with a backend whose batch
    contribution does not depend on the declared size of the stream: when
    [fit] on a first stream and then [fit(override=False)] on a second
    stream both return, and both see the same output size, a single [fit]
    on the concatenated stream returns and leaves the same [H], [loss] and
    [n_data] (indeed the same object), with no rounding difference since
    the batches are added in the same order. *)
Theorem split_fit_equals_concatenated_fit (l1 l2 : DataLoader) (o : bool)
  (s0 s1 s2 : ParametricLaplace) :
  N_independent ->
  cls s0 = FullLaplace \/ cls s0 = DiagLaplace ->
  fit l1 o s0 = (s1, Ok tt) ->
  fit l2 false s1 = (s2, Ok tt) ->
  n_outputs (base s2) = n_outputs (base s1) ->
  exists s3, fit (concat_loader l1 l2) o s0 = (s3, Ok tt)
    /\ H s3 = H s2
    /\ loss (base s3) = loss (base s2)
    /\ n_data (base s3) = n_data (base s2)
    /\ s3 = s2.
Proof.
  intros Hind Hcls H1 H2 Hout. exists s2.
  split; [|repeat split; reflexivity].
  assert (Hc1 : cls s1 = cls s0).
  { unfold fit, bind, get in H1. simpl in H1.
    destruct Hcls as [E|E]; rewrite E in H1.
    - unfold full_fit in H1. cbv [bind modify] in H1.
      rewrite parametric_fit_unfold in H1.
      set (c0 := set_base _ s0) in H1.
      destruct (batches l1) as [|d1 b1]; [discriminate|].
      destruct (snd (first_forward d1 (fit_prelude o c0))) as [out1|]; [|discriminate].
      destruct (with_outputs_fields o (last_dim out1) c0) as (_ & _ & _ & _ & Hc & _).
      pose proof (loop_frame_preserved (dataset_len l1) (d1 :: b1)
                    (with_outputs (last_dim out1) (fit_prelude o c0))) as Hfr.
      destruct (for_each _ _ _) as [L1 [[]|]]; [|discriminate].
      injection H1 as <-. simpl in Hfr.
      destruct Hfr as (Ec & _). simpl. now rewrite Ec, Hc.
    - rewrite parametric_fit_unfold in H1.
      destruct (batches l1) as [|d1 b1]; [discriminate|].
      destruct (snd (first_forward d1 (fit_prelude o s0))) as [out1|]; [|discriminate].
      destruct (with_outputs_fields o (last_dim out1) s0) as (_ & _ & _ & _ & Hc & _).
      pose proof (loop_frame_preserved (dataset_len l1) (d1 :: b1)
                    (with_outputs (last_dim out1) (fit_prelude o s0))) as Hfr.
      destruct (for_each _ _ _) as [L1 [[]|]]; [|discriminate].
      injection H1 as <-. simpl in Hfr.
      destruct Hfr as (Ec & _). simpl. now rewrite Ec, Hc. }
  unfold fit, bind, get in *. simpl in *. rewrite Hc1 in H2.
  destruct Hcls as [E|E]; rewrite E in *.
  - unfold full_fit in *. cbv [bind modify] in *.
    fold (clear_scale s0) in *. fold (clear_scale s1) in H2.
    assert (Hs1 : clear_scale s1 = s1).
    { apply clear_scale_noop.
      rewrite parametric_fit_unfold in H1.
      destruct (batches l1) as [|d1 b1]; [discriminate|].
      destruct (snd (first_forward d1 (fit_prelude o (clear_scale s0))))
        as [out1|]; [|discriminate].
      destruct (with_outputs_fields o (last_dim out1) (clear_scale s0))
        as (_ & _ & _ & _ & _ & Hps).
      pose proof (loop_frame_preserved (dataset_len l1) (d1 :: b1)
                    (with_outputs (last_dim out1) (fit_prelude o (clear_scale s0))))
        as Hfr.
      destruct (for_each _ _ _) as [L1 [[]|]]; [|discriminate].
      injection H1 as <-. simpl in Hfr.
      destruct Hfr as (_ & _ & _ & _ & _ & _ & Eps & _).
      simpl. rewrite Eps, Hps. reflexivity. }
    rewrite Hs1 in H2.
    eapply parametric_fit_split; eauto.
  - eapply parametric_fit_split; eauto.
Qed.

(** ** What the methods keep of the class and the likelihood *)

Lemma preserves_on_base {A} (I : ParametricLaplace -> Prop)
  (J : BaseLaplace -> Prop) (m : Act BaseLaplace A) :
  (forall s, I s -> J (base s)) ->
  (forall s b, I s -> J b -> I (set_base b s)) ->
  preserves J m -> preserves I (on_base m).
Proof.
  intros HIJ Hset Hm s Hs. unfold on_base. simpl.
  apply Hset; [exact Hs | apply Hm, HIJ, Hs].
Qed.

Lemma preserves_on_model {A} (J : BaseLaplace -> Prop) (Q : Module_ -> Prop)
  (m : Act Module_ A) :
  (forall b, J b -> Q (model b)) ->
  (forall b x, J b -> Q x -> J (set_model x b)) ->
  preserves Q m -> preserves J (on_model m).
Proof.
  intros HJQ Hset Hm b Hb. unfold on_model. simpl.
  apply Hset; [exact Hb | apply Hm, HJQ, Hb].
Qed.

Lemma on_base_kind {A} c l r (m : Act BaseLaplace A) :
  preserves (base_kind_is l r) m -> preserves (kind_is c l r) (on_base m).
Proof.
  apply preserves_on_base.
  - intros s (_ & Hl & Hr). now split.
  - intros [] b (Hc & _) (Hl & Hr). repeat split; assumption.
Qed.

Ltac obj_modify :=
  apply preserves_modify; intros [[] ? ? ? ? ?] ?;
  unfold kind_is, base_kind_is in *; simpl in *; intuition auto.

Lemma backend_kind l r : preserves (base_kind_is l r) backend.
Proof. unfold backend. repeat preserves_step; base_modify. Qed.

Lemma prior_precision_setter_kind c l r p :
  preserves (base_kind_is l r) (prior_precision_setter c p).
Proof.
  destruct c; simpl; try apply set_prior_precision_kind.
  unfold kron_set_prior_precision.
  apply preserves_bind; [apply set_prior_precision_kind | intros _].
  repeat preserves_step.
Qed.

Lemma _init_H_kind c l r : preserves (kind_is c l r) _init_H.
Proof. unfold _init_H. repeat preserves_step; obj_modify. Qed.

Lemma fit_batch_kind c l r N d : preserves (kind_is c l r) (fit_batch N d).
Proof.
  intros s Hs. pose proof (fit_batch_frame N d s) as Hf.
  unfold same_frame in Hf. decompose [and] Hf.
  destruct Hs as (Hc & Hl & Hr). repeat split; congruence.
Qed.

Lemma first_forward_kind c l r d : preserves (kind_is c l r) (first_forward d).
Proof. intros s Hs. now rewrite first_forward_state. Qed.

Lemma parametric_fit_kind c l r loader o :
  preserves (kind_is c l r) (parametric_fit loader o).
Proof.
  unfold parametric_fit.
  repeat first [ apply _init_H_kind | apply first_forward_kind
               | apply fit_batch_kind | preserves_step ];
    obj_modify.
Qed.

Lemma fit_kind c l r loader o : preserves (kind_is c l r) (fit loader o).
Proof.
  unfold fit, full_fit, kron_fit, lowrank_fit.
  repeat first [ apply parametric_fit_kind | apply _init_H_kind
               | apply on_base_kind, backend_kind | preserves_step ];
    obj_modify.
Qed.

(** ** The mean after [fit] *)

Lemma deref_parameters m m' r : parameters m = parameters m' -> deref m r = deref m' r.
Proof. unfold deref. now intros ->. Qed.

Lemma trainable_vector_ext s s' :
  same_predictor s s' -> trainable_vector s' = trainable_vector s.
Proof.
  unfold trainable_vector. intros (Hp & -> & _). f_equal. apply map_ext.
  intros r. now apply deref_parameters.
Qed.

Lemma counts_ok_ext s s' :
  same_predictor s s' -> counts_ok (base s) -> counts_ok (base s').
Proof.
  unfold counts_ok, n_params_per_layer. intros (Hp & Hr & Hn & Hk) [H1 H2].
  rewrite Hr, Hn, Hk. split; [assumption|]. rewrite H2. f_equal.
  apply map_ext. intros r. f_equal. symmetry. now apply deref_parameters.
Qed.

Lemma trainable_vector_length s :
  counts_ok (base s) -> length (trainable_vector s) = n_params (base s).
Proof.
  intros [_ ->]. unfold trainable_vector, parameters_to_vector, n_params_per_layer.
  generalize (params (base s)). intros refs.
  induction refs as [|r refs IH]; simpl; [reflexivity|].
  rewrite length_app, IH. reflexivity.
Qed.

Ltac predictor_modify :=
  apply preserves_modify; intros [[] ? ? ? ? ?] ?;
  unfold predictor_is in *; simpl in *; auto.

Lemma on_base_predictor {A} ps refs n k (m : Act BaseLaplace A) :
  preserves (fun b => parameters (model b) = ps /\ params b = refs
                      /\ n_params b = n /\ n_layers b = k) m ->
  preserves (predictor_is ps refs n k) (on_base m).
Proof.
  apply preserves_on_base.
  - intros s Hs. exact Hs.
  - intros [] b _ Hb. exact Hb.
Qed.

Lemma backend_predictor ps refs n k :
  preserves (fun b => parameters (model b) = ps /\ params b = refs
                      /\ n_params b = n /\ n_layers b = k) backend.
Proof. unfold backend. repeat preserves_step; base_modify. Qed.

Lemma _init_H_predictor ps refs n k : preserves (predictor_is ps refs n k) _init_H.
Proof. unfold _init_H. repeat preserves_step; predictor_modify. Qed.

Lemma fit_batch_predictor ps refs n k N d :
  preserves (predictor_is ps refs n k) (fit_batch N d).
Proof.
  intros s Hs. pose proof (fit_batch_frame N d s) as Hf.
  unfold same_frame in Hf. decompose [and] Hf.
  destruct Hs as (Hp & Hr & Hn & Hk). repeat split; congruence.
Qed.

Lemma first_forward_preserves (I : ParametricLaplace -> Prop) d :
  preserves I (first_forward d).
Proof. intros s Hs. now rewrite first_forward_state. Qed.

Lemma parametric_fit_predictor ps refs n k loader o :
  preserves (predictor_is ps refs n k) (parametric_fit loader o).
Proof.
  unfold parametric_fit.
  repeat first [ apply _init_H_predictor | apply fit_batch_predictor
               | apply first_forward_preserves | preserves_step ];
    predictor_modify.
Qed.

Lemma fit_predictor ps refs n k loader o :
  preserves (predictor_is ps refs n k) (fit loader o).
Proof.
  unfold fit, full_fit, kron_fit, lowrank_fit.
  repeat first [ apply parametric_fit_predictor | apply _init_H_predictor
               | apply on_base_predictor, backend_predictor | preserves_step ];
    predictor_modify.
Qed.

(** [fit] leaves the tensors of the predictor and the counts alone. *)
Lemma fit_same_predictor loader o s : same_predictor s (fst (fit loader o s)).
Proof. apply fit_predictor. repeat split; reflexivity. Qed.

Lemma parametric_fit_mean l o s s' :
  parametric_fit l o s = (s', Ok tt) -> mean s' = Vector1 (trainable_vector s).
Proof.
  intros Hfit. rewrite parametric_fit_unfold in Hfit.
  destruct (batches l) as [|d bs]; [discriminate|].
  destruct (snd (first_forward d (fit_prelude o s))) as [out|]; [|discriminate].
  destruct (with_outputs_fields o (last_dim out) s) as (_ & Hmean & _).
  pose proof (loop_frame_preserved (dataset_len l) (d :: bs)
                (with_outputs (last_dim out) (fit_prelude o s))) as Hfr.
  destruct (for_each _ _ _) as [L [[]|]]; [|discriminate].
  injection Hfit as <-. simpl in Hfr.
  destruct Hfr as (_ & Em & _).
  simpl. rewrite Em, Hmean. f_equal.
  unfold with_outputs, fit_prelude, trainable_vector.
  destruct (_init_H_frame s) as [_ Eb]. destruct o; simpl; now rewrite ?Eb.
Qed.

Lemma _init_H_mean v : preserves (fun s => mean s = v) _init_H.
Proof.
  unfold _init_H. repeat preserves_step;
    apply preserves_modify; intros [] ?; simpl in *; auto.
Qed.

Lemma kron_fit_mean l o s s' :
  kron_fit l o s = (s', Ok tt) -> mean s' = Vector1 (trainable_vector s).
Proof.
  intros Hfit. unfold kron_fit in Hfit.
  set (I := fun x : ParametricLaplace => trainable_vector x = trainable_vector s).
  assert (HI : forall f, (forall x, base (f x) = base x) ->
                 preserves I (modify f)).
  { intros f Hf. apply preserves_modify. intros x Hx. unfold I in *.
    rewrite <- Hx. unfold trainable_vector. now rewrite Hf. }
  apply bind_inv_ok in Hfit. destruct Hfit as (s1 & [] & H1 & Hfit).
  assert (I1 : I s1).
  { replace s1 with (fst ((if o then modify (set_H_facs None) else ret tt) s))
      by now rewrite H1.
    assert (Hp : preserves I (if o then modify (set_H_facs None) else ret tt)).
    { destruct o; [apply HI; now intros [] | apply preserves_ret]. }
    apply Hp. reflexivity. }
  apply bind_inv_ok in Hfit. destruct Hfit as (s2 & s0 & H2 & Hfit).
  injection H2 as <- <-.
  apply bind_inv_ok in Hfit. destruct Hfit as (s3 & [] & H3 & Hfit).
  assert (I3 : I s3).
  { match type of H3 with ?m s1 = _ =>
      replace s3 with (fst (m s1)) by (now rewrite H3);
      assert (Hp : preserves I m)
    end.
    { destruct (H_facs s1).
      - repeat preserves_step.
        + unfold _init_H. repeat preserves_step; apply HI; now intros [].
        + apply HI; now intros [].
      - apply preserves_ret. }
    apply Hp, I1. }
  apply bind_inv_ok in Hfit. destruct Hfit as (s4 & [] & H4 & Hfit).
  apply parametric_fit_mean in H4. rewrite I3 in H4.
  match type of Hfit with ?m s4 = _ =>
    replace s' with (fst (m s4)) by (now rewrite Hfit);
    assert (Hp : preserves (fun x => mean x = Vector1 (trainable_vector s)) m)
  end.
  { repeat preserves_step; apply preserves_modify; intros [] ?; simpl in *; auto. }
  apply Hp, H4.
Qed.

(** After a [fit] that returns, of the dense, the Kronecker-factored or the
    diagonal variant, [mean] is the flattened concatenation of the trainable
    parameters of the predictor, which [fit] has not changed, and it has
    [n_params] entries. *)
Lemma fit_sets_mean (l : DataLoader) (o : bool) (s s' : ParametricLaplace) :
  cls s <> LowRankLaplace ->
  fit l o s = (s', Ok tt) ->
  mean s' = Vector1 (trainable_vector s)
  /\ trainable_vector s' = trainable_vector s
  /\ (counts_ok (base s) -> length (trainable_vector s) = n_params (base s')).
Proof.
  intros Hc Hfit.
  pose proof (fit_same_predictor l o s) as Hsame. rewrite Hfit in Hsame.
  simpl in Hsame.
  split; [|split].
  - unfold fit, bind, get in Hfit. simpl in Hfit.
    destruct (cls s) eqn:Ecls; try congruence.
    + unfold full_fit in Hfit. cbv [bind modify] in Hfit.
      rewrite (parametric_fit_mean _ _ _ Hfit). reflexivity.
    + exact (kron_fit_mean _ _ _ Hfit).
    + exact (parametric_fit_mean _ _ _ Hfit).
  - now apply trainable_vector_ext.
  - intros Hok. rewrite trainable_vector_length by assumption.
    destruct Hsame as (_ & _ & Hn & _). now rewrite Hn.
Qed.

(** Where every parameter of the predictor is trainable, the vector of all
    parameters, which the low-rank [fit] stores, is the vector of the
    trainable ones. *)
Lemma trainable_from_all k (ps : list Param) :
  forallb requires_grad ps = true -> trainable_from k ps = seq k (length ps).
Proof.
  revert k. induction ps as [|p ps IH]; intros k; simpl; [reflexivity|].
  destruct (requires_grad p); simpl; [|discriminate].
  intros H. now rewrite IH.
Qed.

(** ** What the predictive keeps *)

Lemma vector_to_parameters_loop_output o v refs :
  preserves (fun m => output_size m = o) (vector_to_parameters_loop v refs).
Proof.
  revert v. induction refs as [|r refs IH]; intros v; simpl.
  - apply preserves_ret.
  - repeat preserves_step; try apply IH.
    apply preserves_modify. intros [] ?. simpl in *. assumption.
Qed.

Lemma vector_to_parameters_output o v refs :
  preserves (fun m => output_size m = o) (vector_to_parameters v refs).
Proof.
  destruct v; simpl.
  - repeat preserves_step.
  - apply vector_to_parameters_loop_output.
Qed.

Ltac out_modify :=
  apply preserves_modify; intros [[] ? ? ? ? ?] ?;
  unfold kind_out, kind_is in *; simpl in *; intuition auto.

Lemma on_base_kind_out {A} c l r o (m : Act BaseLaplace A) :
  preserves (fun b => base_kind_is l r b /\ output_size (model b) = o) m ->
  preserves (kind_out c l r o) (on_base m).
Proof.
  apply preserves_on_base.
  - intros s ((_ & Hl & Hr) & Ho). repeat split; assumption.
  - intros [] b ((Hc & _) & _) ((Hl & Hr) & Ho). repeat split; assumption.
Qed.

Lemma load_params_kind_out c l r o v : preserves (kind_out c l r o) (load_params v).
Proof.
  unfold load_params. repeat preserves_step.
  apply on_base_kind_out.
  apply preserves_on_model with (Q := fun m => output_size m = o).
  - intros b [_ Ho]. exact Ho.
  - intros [] x ((Hl & Hr) & _) Hx. repeat split; assumption.
  - apply vector_to_parameters_output.
Qed.

Lemma backend_kind_out l r o :
  preserves (fun b => base_kind_is l r b /\ output_size (model b) = o) backend.
Proof.
  unfold backend. repeat preserves_step.
  apply preserves_modify. intros [] ?. unfold base_kind_is in *. simpl in *. auto.
Qed.

Lemma nn_samples_loop_kind_out c l r o X samples fs :
  preserves (kind_out c l r o) (nn_samples_loop X samples fs).
Proof.
  revert fs. induction samples as [|smp rest IH]; intros fs; simpl.
  - apply preserves_ret.
  - repeat first [ apply load_params_kind_out | apply IH | preserves_step ].
Qed.

Lemma nn_classification_loop_kind_out c l r o X n samples py :
  preserves (kind_out c l r o) (nn_classification_loop X n samples py).
Proof.
  revert py. induction samples as [|smp rest IH]; intros py; simpl.
  - apply preserves_ret.
  - repeat first [ apply load_params_kind_out | apply IH | preserves_step ].
Qed.

Lemma _nn_predictive_samples_kind_out c l r o X n g :
  preserves (kind_out c l r o) (_nn_predictive_samples X n g).
Proof.
  unfold _nn_predictive_samples.
  repeat first [ apply load_params_kind_out | apply nn_samples_loop_kind_out
               | preserves_step ].
Qed.

Lemma _nn_predictive_classification_kind_out c l r o X n :
  preserves (kind_out c l r o) (_nn_predictive_classification X n).
Proof.
  unfold _nn_predictive_classification.
  repeat first [ apply load_params_kind_out | apply nn_classification_loop_kind_out
               | preserves_step ].
Qed.

Lemma _glm_predictive_distribution_kind_out c l r o X j :
  preserves (kind_out c l r o) (_glm_predictive_distribution X j).
Proof.
  unfold _glm_predictive_distribution.
  repeat first [ apply on_base_kind_out, backend_kind_out | preserves_step ].
Qed.

Lemma predictive_samples_kind_out c l r o x pt n d g :
  preserves (kind_out c l r o) (predictive_samples x pt n d g).
Proof.
  unfold predictive_samples.
  repeat first [ apply _glm_predictive_distribution_kind_out
               | apply _nn_predictive_samples_kind_out | preserves_step ].
Qed.

(** The part of [__call__] after the switch of the likelihood. *)
Lemma parametric_call_kind_out c r o x a :
  preserves (kind_out c "regression" r o) (parametric_call x a).
Proof.
  unfold parametric_call.
  repeat first [ apply _glm_predictive_distribution_kind_out
               | apply predictive_samples_kind_out
               | apply _nn_predictive_samples_kind_out
               | apply _nn_predictive_classification_kind_out
               | preserves_step ].
  apply preserves_modify. intros [[] ? ? ? ? ?] ((Hc & Hl & Hr) & Ho).
  unfold kind_out, kind_is, switch_reward_modeling in *. simpl in *.
  subst. rewrite andb_false_r. simpl. auto.
Qed.

Lemma kind_out_drop {A} c l r (m : Act ParametricLaplace A) :
  (forall o, preserves (kind_out c l r o) m) -> preserves (kind_is c l r) m.
Proof.
  intros Hm s Hs.
  apply (Hm (output_size (model (base s))) s). split; [exact Hs | reflexivity].
Qed.

Lemma log_marginal_likelihood_kind c l r p sn :
  preserves (kind_is c l r) (log_marginal_likelihood p sn).
Proof.
  unfold log_marginal_likelihood.
  repeat first [ apply on_base_kind, prior_precision_setter_kind
               | apply on_base_kind, set_sigma_noise_kind | preserves_step ].
Qed.

Lemma load_state_dict_kind c l r sd :
  preserves (kind_is c l r) (load_state_dict sd).
Proof.
  assert (Hp : preserves (kind_is c l r) (parametric_load_state_dict sd)).
  { intros s Hs. unfold parametric_load_state_dict.
    unfold bind at 1. unfold get at 1.
    destruct (negb (laplace_cls_eqb (cls s) (sd_cls_name sd))); [exact Hs|].
    unfold bind at 1. unfold lift at 1.
    destruct (tensor_len (sd_mean sd)) as [n|e]; [|exact Hs].
    destruct (negb (n =? n_params (base s))); [exact Hs|].
    destruct (negb (likelihood (base s) =? sd_likelihood sd)%string) eqn:El;
      [exact Hs|].
    apply negb_false_iff, String.eqb_eq in El.
    assert (Esd : sd_likelihood sd = l) by (destruct Hs as (_ & <- & _); auto).
    match goal with |- ?I (fst (?m s)) =>
      cut (preserves I m); [intros Hm; apply Hm; exact Hs|] end.
    repeat first [ apply on_base_kind, prior_precision_setter_kind
                 | apply on_base_kind, set_sigma_noise_kind
                 | apply on_base_kind, set_prior_mean_kind
                 | preserves_step ];
      obj_modify. }
  unfold load_state_dict.
  repeat first [ exact Hp | apply _init_H_kind | preserves_step ]; obj_modify.
Qed.

(** Every operation keeps the class, and keeps the likelihood once it is
    regression. *)
Lemma run_op_kind c r o : preserves (kind_is c "regression" r) (run_op o).
Proof.
  destruct o; simpl.
  - apply fit_kind.
  - apply preserves_discard, kind_out_drop. intros; apply parametric_call_kind_out.
  - apply preserves_discard, kind_out_drop. intros; apply predictive_samples_kind_out.
  - repeat first [ apply on_base_kind, prior_precision_setter_kind | preserves_step ].
  - apply on_base_kind, set_prior_mean_kind.
  - apply on_base_kind, set_sigma_noise_kind.
  - apply preserves_discard, log_marginal_likelihood_kind.
  - apply load_state_dict_kind.
Qed.

Lemma run_ops_kind c r os s :
  kind_is c "regression" r s -> kind_is c "regression" r (run_ops os s).
Proof.
  revert s. induction os as [|o os IH]; intros s Hs; simpl; [exact Hs|].
  apply IH, run_op_kind, Hs.
Qed.

Lemma run_op_kind_no_call c l r o :
  not_a_call o -> preserves (kind_is c l r) (run_op o).
Proof.
  destruct o; simpl; intros Hn; try contradiction.
  - apply fit_kind.
  - apply preserves_discard, kind_out_drop. intros; apply predictive_samples_kind_out.
  - repeat first [ apply on_base_kind, prior_precision_setter_kind | preserves_step ].
  - apply on_base_kind, set_prior_mean_kind.
  - apply on_base_kind, set_sigma_noise_kind.
  - apply preserves_discard, log_marginal_likelihood_kind.
  - apply load_state_dict_kind.
Qed.

Lemma run_ops_kind_no_call c l r os s :
  Forall not_a_call os -> kind_is c l r s -> kind_is c l r (run_ops os s).
Proof.
  intros Hos. revert s. induction Hos as [|o os Ho _ IH]; intros s Hs; simpl;
    [exact Hs|].
  apply IH, run_op_kind_no_call; assumption.
Qed.

(** ** Reward modeling *)

Lemma base_init_reward_modeling setter cfg b :
  (forall l r p, preserves (base_kind_is l r) (setter p)) ->
  cfg_likelihood cfg = "reward_modeling" ->
  base_init setter cfg = Ok b ->
  base_kind_is "classification" true b.
Proof.
  intros Hsetter Hl. unfold base_init, base_init_steps. rewrite Hl. simpl.
  unfold bind at 1.
  destruct (setter (cfg_prior_precision cfg) (blank cfg)) as [s1 [[]|e]];
    [|discriminate].
  unfold bind at 1.
  destruct (set_prior_mean (cfg_prior_mean cfg) s1) as [s2 [[]|e]]; [|discriminate].
  unfold bind at 1. unfold lift at 1.
  destruct (ne_one (cfg_sigma_noise cfg)) as [ne|e]; [|discriminate].
  destruct ne; simpl; [discriminate|].
  cbv [bind modify get]. simpl.
  pose proof (@set_sigma_noise_kind "classification" true (cfg_sigma_noise cfg)
                (set_likelihood "classification" (set_reward_modeling true s2))) as Hs.
  destruct (set_sigma_noise (cfg_sigma_noise cfg) _) as [s3 [[]|e]];
    [|discriminate].
  simpl in Hs. specialize (Hs (conj eq_refl eq_refl)).
  destruct (cfg_backend cfg) as [bk|].
  - destruct (is_subset_params s3 && is_backpack bk); [discriminate|].
    intros [= <-]. destruct s3; exact Hs.
  - intros [= <-]. destruct s3; exact Hs.
Qed.

Lemma parametric_init_reward_modeling c d cfg s :
  cfg_likelihood cfg = "reward_modeling" ->
  parametric_init c d cfg = Ok s ->
  kind_is c "classification" true s.
Proof.
  intros Hl. unfold parametric_init.
  match goal with |- context [base_init ?st ?cf] =>
    pose proof (@base_init_reward_modeling st cf) as Hb;
    destruct (base_init st cf) as [b|e]; [|discriminate]
  end.
  simpl. intros [= <-].
  assert (Hk : base_kind_is "classification" true b).
  { apply Hb; [intros; apply prior_precision_setter_kind | | reflexivity].
    destruct c; destruct (cfg_backend cfg); assumption. }
  apply (@_init_H_kind c "classification" true). destruct Hk. now repeat split.
Qed.

(** A call whose arguments fail the checks raises and leaves the object as
    it was. *)
Lemma parametric_call_rejected x a e s :
  check_call_args a = Raise e -> parametric_call x a s = (s, Raise e).
Proof. intros H. unfold parametric_call, bind, lift. now rewrite H. Qed.

(** A call whose arguments pass the checks goes on with the likelihood
    switched. *)
Lemma parametric_call_switches x a s :
  check_call_args a = Ok tt ->
  reward_modeling (base s) = true -> likelihood (base s) = "classification" ->
  kind_out (cls s) "regression" true (Some 1) (fst (parametric_call x a s)).
Proof.
  intros Hargs Hr Hl.
  assert (Hsw : kind_out (cls s) "regression" true (Some 1)
                  (set_base (switch_reward_modeling (base s)) s)).
  { destruct s as [[] ? ? ? ? ?]. unfold kind_out, kind_is, switch_reward_modeling.
    simpl in *. subst. simpl. auto. }
  pose proof (@parametric_call_kind_out (cls s) true (Some 1) x a) as Hp.
  specialize (Hp _ Hsw).
  assert (Eid : set_base (switch_reward_modeling
                            (base (set_base (switch_reward_modeling (base s)) s)))
                  (set_base (switch_reward_modeling (base s)) s)
                = set_base (switch_reward_modeling (base s)) s).
  { destruct s as [[] ? ? ? ? ?]. unfold switch_reward_modeling. simpl in *.
    subst. reflexivity. }
  assert (Ecall : parametric_call x a s
                  = parametric_call x a (set_base (switch_reward_modeling (base s)) s)).
  { unfold parametric_call.
    rewrite !(bind_lift_ok _ _ Hargs), !bind_modify. now rewrite Eid. }
  now rewrite Ecall.
Qed.

(** With the likelihood regression, a call that returns gives mean and
    variance. *)
Lemma regression_path x a s s' p :
  likelihood (base s) = "regression" ->
  parametric_call x a s = (s', Ok p) ->
  exists f_mu f_var, p = RegressionPred f_mu f_var.
Proof.
  intros Hl Hcall. unfold parametric_call in Hcall.
  apply bind_inv_ok in Hcall. destruct Hcall as (s1 & [] & H1 & Hcall).
  unfold lift in H1. injection H1 as <- _.
  apply bind_inv_ok in Hcall. destruct Hcall as (s2 & [] & H2 & Hcall).
  unfold modify in H2. injection H2 as <-.
  set (s2 := set_base (switch_reward_modeling (base s)) s) in *.
  assert (Hk : kind_out (cls s) "regression" (reward_modeling (base s))
                 (output_size (model (base s2))) s2).
  { unfold s2. destruct s as [[] ? ? ? ? ?].
    unfold kind_out, kind_is, switch_reward_modeling. simpl in *. subst.
    rewrite andb_false_r. simpl. auto. }
  destruct (pred_type a =? "glm")%string.
  - apply bind_inv_ok in Hcall. destruct Hcall as (s3 & s2' & H3 & Hcall).
    unfold get in H3. injection H3 as <- <-.
    apply bind_inv_ok in Hcall. destruct Hcall as (s4 & [f_mu f_var] & H4 & Hcall).
    pose proof (@_glm_predictive_distribution_kind_out _ _ _ _ x
                  (joint a && (likelihood (base s2) =? "regression")%string) s2 Hk)
      as Hk4.
    rewrite H4 in Hk4. simpl in Hk4. destruct Hk4 as ((_ & Hl4 & _) & _).
    unfold bind, get in Hcall. simpl in Hcall. rewrite Hl4 in Hcall. simpl in Hcall.
    injection Hcall as _ <-. eauto.
  - unfold bind at 1 in Hcall. unfold get at 1 in Hcall.
    destruct Hk as ((_ & Hl2 & _) & _). rewrite Hl2 in Hcall. simpl in Hcall.
    apply bind_inv_ok in Hcall. destruct Hcall as (s3 & smp & _ & Hcall).
    unfold ret in Hcall. injection Hcall as _ <-. eauto.
Qed.

(** The life of the likelihood of a parametric approximation constructed
    for reward modeling. *)
Lemma reward_modeling_switch_parametric (c : laplace_cls) (d : bool) (cfg : Config)
  (s : ParametricLaplace) (before : list op) :
  cfg_likelihood cfg = "reward_modeling" ->
  parametric_init c d cfg = Ok s ->
  Forall not_a_call before ->
  likelihood (base s) = "classification"
  /\ likelihood (base (run_ops before s)) = "classification"
  /\ (forall x a e, check_call_args a = Raise e ->
        parametric_call x a (run_ops before s) = (run_ops before s, Raise e))
  /\ (forall x a, check_call_args a = Ok tt ->
        let s1 := fst (parametric_call x a (run_ops before s)) in
        likelihood (base s1) = "regression"
        /\ output_size (model (base s1)) = Some 1
        /\ forall after,
             likelihood (base (run_ops after s1)) = "regression"
             /\ forall x' a' s2 p,
                  parametric_call x' a' (run_ops after s1) = (s2, Ok p) ->
                  exists f_mu f_var, p = RegressionPred f_mu f_var).
Proof.
  intros Hl Hinit Hbefore.
  pose proof (@parametric_init_reward_modeling c d cfg s Hl Hinit) as Hk.
  pose proof (@run_ops_kind_no_call _ _ _ before s Hbefore Hk) as Hk'.
  destruct Hk as (Hc & Hlik & Hr). destruct Hk' as (Hc' & Hlik' & Hr').
  split; [assumption|]. split; [assumption|]. split.
  - intros x a e He. now apply parametric_call_rejected.
  - intros x a Hargs.
    destruct (@parametric_call_switches x a (run_ops before s) Hargs Hr' Hlik')
      as (Hk1 & Hout).
    split; [apply Hk1|]. split; [exact Hout|].
    intros after.
    destruct (@run_ops_kind _ _ after _ Hk1) as (_ & E & _).
    split; [exact E|].
    intros x' a' s2 p Hcall. eapply regression_path; eauto.
Qed.

(** ** The predictor after a predictive by sampling *)

Lemma trainable_from_spec k ps :
  NoDup (trainable_from k ps)
  /\ Forall (fun r => k <= r < k + length ps) (trainable_from k ps).
Proof.
  revert k. induction ps as [|p ps IH]; intros k; simpl.
  - split; constructor.
  - destruct (IH (S k)) as [Hnd Hf].
    assert (Hf' : Forall (fun r => k <= r < k + S (length ps)) (trainable_from (S k) ps)).
    { eapply Forall_impl; [|exact Hf]. simpl. intros; lia. }
    destruct (requires_grad p); [|split; assumption].
    split.
    + constructor; [|assumption]. intros Hin.
      rewrite Forall_forall in Hf. specialize (Hf _ Hin). lia.
    + constructor; [lia | assumption].
Qed.

(** The references that the constructor stores are distinct positions of
    tensors of the predictor. *)
Lemma blank_refs_ok cfg : refs_ok (model (blank cfg)) (params (blank cfg)).
Proof.
  unfold refs_ok, blank. simpl.
  destruct (trainable_from_spec 0 (parameters (cfg_model cfg))) as [Hnd Hf].
  split; [assumption|]. eapply Forall_impl; [|exact Hf]. simpl. intros; lia.
Qed.

Lemma sampling_from_refl s : sampling_from s s.
Proof. repeat split; auto. Qed.

Lemma load_params_sampling s0 vec : preserves (sampling_from s0) (load_params vec).
Proof.
  intros s (Hm & Hp & Hn & Hsh).
  unfold load_params. cbv beta iota delta [bind get on_base on_model]. simpl.
  repeat split; try assumption.
  - destruct Hsh as [Hs1 _]. destruct vec as [q|v]; simpl.
    + destruct (params (base s)); simpl; assumption.
    + destruct (@vector_to_parameters_loop_shapes (params (base s0))
                  (params (base s)) v (model (base s))) as [Hs2 _].
      { rewrite Hp. apply incl_refl. }
      congruence.
  - intros r Hr. destruct Hsh as [_ Hfr]. rewrite <- (Hfr r Hr).
    destruct vec as [q|v]; simpl.
    + destruct (params (base s)); reflexivity.
    + destruct (@vector_to_parameters_loop_shapes (params (base s0))
                  (params (base s)) v (model (base s))) as [_ Hf2].
      { rewrite Hp. apply incl_refl. }
      now apply Hf2.
Qed.

Lemma nn_samples_loop_sampling s0 X samples fs :
  preserves (sampling_from s0) (nn_samples_loop X samples fs).
Proof.
  revert fs. induction samples as [|smp rest IH]; intros fs; simpl.
  - apply preserves_ret.
  - repeat first [ apply load_params_sampling | apply IH | preserves_step ].
Qed.

Lemma nn_classification_loop_sampling s0 X n samples py :
  preserves (sampling_from s0) (nn_classification_loop X n samples py).
Proof.
  revert py. induction samples as [|smp rest IH]; intros py; simpl.
  - apply preserves_ret.
  - repeat first [ apply load_params_sampling | apply IH | preserves_step ].
Qed.

(** Writing [mean] back: the trainable parameters are [mean]. *)
Lemma load_mean_restores s0 s s' :
  sampling_from s0 s ->
  refs_ok (model (base s0)) (params (base s0)) -> counts_ok (base s0) ->
  load_params (mean s) s = (s', Ok tt) ->
  trainable_vector s' = mean_written s0 /\ sampling_from s0 s'.
Proof.
  intros Hs [Hnd Hin] [_ Hcount] Hload.
  pose proof (@load_params_sampling s0 (mean s) s Hs) as Hs'.
  rewrite Hload in Hs'. simpl in Hs'. split; [|exact Hs'].
  destruct Hs as (Hm & Hp & Hn & Hsh1 & Hfr1).
  unfold mean_written.
  destruct (mean s0) as [q|v] eqn:Hmean.
  { rewrite Hm in Hload. rewrite ?Hmean in Hload. unfold load_params in Hload.
    cbv beta iota delta [bind get on_base on_model] in Hload. simpl in Hload.
    unfold trainable_vector.
    destruct (params (base s)) as [|r0 refs] eqn:Ep.
    - simpl in Hload. injection Hload as <-. simpl. rewrite Ep. reflexivity.
    - simpl in Hload. discriminate Hload. }
  rewrite Hm in Hload. rewrite ?Hmean in Hload. unfold load_params in Hload.
  cbv beta iota delta [bind get on_base on_model] in Hload. simpl in Hload.
  injection Hload as <- Hok.
  destruct (vector_to_parameters_loop v (params (base s)) (model (base s)))
    as [m' r] eqn:Hrun. simpl in Hok. subst r.
  assert (Hlen' : length (parameters (model (base s)))
                  = length (parameters (model (base s0)))).
  { rewrite <- (length_map numel), Hsh1. apply length_map. }
  destruct (@vector_to_parameters_loop_written (params (base s)) v
              (model (base s)) m') as [Hw _].
  { rewrite Hp. split; [assumption|]. eapply Forall_impl; [|exact Hin].
    intros a Ha. cbv beta in *. now rewrite Hlen'. }
  { exact Hrun. }
  unfold trainable_vector. simpl. rewrite Hw, Hp.
  assert (Esum : map (fun r => numel (deref (model (base s)) r)) (params (base s0))
                 = n_params_per_layer (base s0)).
  { unfold n_params_per_layer. apply map_ext. intros r. now apply numel_deref. }
  now rewrite Esum, <- Hcount.
Qed.

Lemma _nn_predictive_samples_restores s0 X n g s s' fs :
  sampling_from s0 s ->
  refs_ok (model (base s0)) (params (base s0)) -> counts_ok (base s0) ->
  _nn_predictive_samples X n g s = (s', Ok fs) ->
  trainable_vector s' = mean_written s0 /\ sampling_from s0 s'.
Proof.
  intros Hs Hrefs Hc Hrun. unfold _nn_predictive_samples in Hrun.
  apply bind_inv_ok in Hrun. destruct Hrun as (s1 & s1' & H1 & Hrun).
  unfold get in H1. injection H1 as <- <-.
  apply bind_inv_ok in Hrun. destruct Hrun as (s2 & samples & H2 & Hrun).
  unfold lift in H2. injection H2 as <- _.
  apply bind_inv_ok in Hrun. destruct Hrun as (s3 & fs3 & H3 & Hrun).
  pose proof (@nn_samples_loop_sampling s0 X samples [] s Hs) as Hs3.
  rewrite H3 in Hs3. simpl in Hs3.
  apply bind_inv_ok in Hrun. destruct Hrun as (s4 & s3' & H4 & Hrun).
  unfold get in H4. injection H4 as <- <-.
  apply bind_inv_ok in Hrun. destruct Hrun as (s5 & [] & H5 & Hrun).
  destruct (load_mean_restores Hs3 Hrefs Hc H5) as [Htv Hs5].
  apply bind_inv_ok in Hrun. destruct Hrun as (s6 & fs6 & H6 & Hrun).
  unfold lift in H6. injection H6 as <- _.
  unfold bind, get in Hrun. simpl in Hrun.
  destruct (likelihood (base s5) =? "classification")%string;
    unfold ret in Hrun; injection Hrun as <- _; auto.
Qed.

Lemma _nn_predictive_classification_restores s0 X n s s' py :
  sampling_from s0 s ->
  refs_ok (model (base s0)) (params (base s0)) -> counts_ok (base s0) ->
  _nn_predictive_classification X n s = (s', Ok py) ->
  trainable_vector s' = mean_written s0 /\ sampling_from s0 s'.
Proof.
  intros Hs Hrefs Hc Hrun. unfold _nn_predictive_classification in Hrun.
  apply bind_inv_ok in Hrun. destruct Hrun as (s1 & s1' & H1 & Hrun).
  unfold get in H1. injection H1 as <- <-.
  apply bind_inv_ok in Hrun. destruct Hrun as (s2 & samples & H2 & Hrun).
  unfold lift in H2. injection H2 as <- _.
  apply bind_inv_ok in Hrun. destruct Hrun as (s3 & py3 & H3 & Hrun).
  pose proof (@nn_classification_loop_sampling s0 X n samples out_zero s Hs) as Hs3.
  rewrite H3 in Hs3. simpl in Hs3.
  apply bind_inv_ok in Hrun. destruct Hrun as (s4 & s3' & H4 & Hrun).
  unfold get in H4. injection H4 as <- <-.
  apply bind_inv_ok in Hrun. destruct Hrun as (s5 & [] & H5 & Hrun).
  destruct (load_mean_restores Hs3 Hrefs Hc H5) as [Htv Hs5].
  unfold ret in Hrun. injection Hrun as <- _. auto.
Qed.

Lemma concat_chunks_inj {A} (f g : nat -> list A) (refs : list nat) :
  (forall r, length (f r) = length (g r)) ->
  concat (map f refs) = concat (map g refs) ->
  forall r, In r refs -> f r = g r.
Proof.
  intros Hlen. induction refs as [|r0 refs IH]; simpl; [contradiction|].
  intros E r Hr.
  assert (E0 : f r0 = g r0 /\ concat (map f refs) = concat (map g refs)).
  { clear -E Hlen. specialize (Hlen r0).
    revert Hlen E. generalize (f r0) (g r0) (concat (map f refs))
      (concat (map g refs)).
    intros l1. induction l1 as [|x l1 IH]; intros [|y l2] t1 t2 Hl E;
      simpl in *; try discriminate; auto.
    injection E as -> E. injection Hl as Hl.
    destruct (IH _ _ _ Hl E) as [-> ->]. auto. }
  destruct E0 as [E0 E1]. destruct Hr as [<-|Hr]; auto.
Qed.


(** ** The noise scale and the likelihood *)

(** The setter stores a scalar whatever the likelihood of the object. *)
Lemma set_sigma_noise_unchecked (b : BaseLaplace) (q : Q) :
  set_sigma_noise (PyFloat q) b
  = (set__sigma_noise q (set__posterior_scale None b), Ok tt).
Proof. reflexivity. Qed.

(** The constructor raises on a noise scale other than one when the
    likelihood is not regression. *)
Lemma base_init_rejects_sigma_noise setter cfg :
  cfg_likelihood cfg <> "regression" ->
  ne_one (cfg_sigma_noise cfg) <> Ok false ->
  exists e, base_init setter cfg = Raise e.
Proof.
  intros Hl Hne. unfold base_init.
  destruct (negb (string_in (cfg_likelihood cfg)
                    ["classification"; "regression"; "reward_modeling"]));
    [eauto|].
  unfold base_init_steps. cbv beta iota delta [bind].
  destruct (setter (cfg_prior_precision cfg) (blank cfg)) as [s1 [[]|e]]; [|eauto].
  destruct (set_prior_mean (cfg_prior_mean cfg) s1) as [s2 [[]|e]]; [|eauto].
  unfold lift. destruct (ne_one (cfg_sigma_noise cfg)) as [[]|e]; try eauto.
  - apply String.eqb_neq in Hl. rewrite Hl. simpl. eauto.
  - congruence.
Qed.

Lemma parametric_init_rejects_sigma_noise c d cfg :
  cfg_likelihood cfg <> "regression" ->
  ne_one (cfg_sigma_noise cfg) <> Ok false ->
  exists e, parametric_init c d cfg = Raise e.
Proof.
  intros Hl Hne. unfold parametric_init.
  match goal with |- context [base_init ?st ?cf] =>
    destruct (@base_init_rejects_sigma_noise st cf) as [e He]
  end.
  - destruct c; destruct (cfg_backend cfg); exact Hl.
  - destruct c; destruct (cfg_backend cfg); exact Hne.
  - rewrite He. simpl. eauto.
Qed.

(** [log_marginal_likelihood] raises on any noise scale when the likelihood
    is not regression, and leaves the stored one. *)
Lemma log_marginal_likelihood_rejects_sigma_noise s p sn :
  likelihood (base s) <> "regression" ->
  (exists e, snd (log_marginal_likelihood p (Some sn) s) = Raise e)
  /\ _sigma_noise (base (fst (log_marginal_likelihood p (Some sn) s)))
     = _sigma_noise (base s).
Proof.
  intros Hl. unfold log_marginal_likelihood.
  set (m := match p with
            | Some p0 => s0 <- get;; on_base (prior_precision_setter (cls s0) p0)
            | None => ret tt
            end).
  assert (Hm : preserves (fun x => likelihood (base x) = likelihood (base s)
                                   /\ _sigma_noise (base x) = _sigma_noise (base s)) m).
  { unfold m. destruct p as [p0|]; [|apply preserves_ret].
    repeat preserves_step. apply preserves_on_base with
      (J := fun b => likelihood b = likelihood (base s)
                     /\ _sigma_noise b = _sigma_noise (base s)).
    - auto.
    - intros [] b _ Hb. exact Hb.
    - destruct (cls a); simpl; unfold kron_set_prior_precision, set_prior_precision;
        repeat preserves_step; base_modify. }
  specialize (Hm s (conj eq_refl eq_refl)).
  destruct (m s) as [s1 [[]|e]] eqn:E; simpl in Hm.
  - rewrite (@bind_ok _ _ _ _ _ _ _ _ E). destruct Hm as [Hl1 Hs1].
    apply String.eqb_neq in Hl.
    match goal with |- context [bind ?m1 ?k s1] =>
      assert (E1 : m1 s1 = (s1, Raise (ValueError
                     "Can only change sigma_noise for regression.")))
        by (cbv beta iota delta [bind get]; rewrite Hl1, Hl; reflexivity);
      rewrite (@bind_raise _ _ _ _ k _ _ _ E1)
    end.
    simpl. split; [eauto | exact Hs1].
  - rewrite (@bind_raise _ _ _ _ _ _ _ _ E). simpl. split; [eauto | apply Hm].
Qed.

(** Where every parameter of the predictor is trainable, the vector of all
    parameters, which the low-rank [fit] stores, is the vector of the
    trainable ones. *)
Lemma map_deref_all m k (ps : list Param) :
  (forall i, i < length ps -> deref m (k + i) = nth i ps (mkParam [] false)) ->
  map (deref m) (seq k (length ps)) = ps.
Proof.
  revert k. induction ps as [|p ps IH]; intros k Hn; simpl; [reflexivity|].
  f_equal.
  - rewrite <- (Nat.add_0_r k). apply (Hn 0). simpl. lia.
  - apply IH. intros i Hi. replace (S k + i) with (k + S i) by lia.
    apply (Hn (S i)). simpl. lia.
Qed.

Lemma lowrank_fit_mean_all_trainable l s s' :
  cls s = LowRankLaplace ->
  forallb requires_grad (parameters (model (base s))) = true ->
  params (base s) = trainable_from 0 (parameters (model (base s))) ->
  fit l true s = (s', Ok tt) ->
  mean s' = Vector1 (trainable_vector s).
Proof.
  intros Hc Hall Hp Hfit.
  assert (Etv : trainable_vector s
                = parameters_to_vector (parameters (model (base s)))).
  { unfold trainable_vector. rewrite Hp, trainable_from_all by assumption.
    f_equal. apply map_deref_all. intros i Hi. reflexivity. }
  unfold fit, bind at 1, get at 1 in Hfit. rewrite Hc in Hfit.
  unfold lowrank_fit in Hfit. change (negb true) with false in Hfit.
  cbv iota in Hfit. rewrite !bind_modify in Hfit.
  match type of Hfit with ?m ?s0 = _ =>
    assert (Hm : preserves (fun x => mean x = mean s0) m);
    [|specialize (Hm s0 eq_refl); rewrite Hfit in Hm; simpl in Hm;
      rewrite Hm, Etv; destruct s as [[[] ? ? ? ? ? ? ? ? ? ? ? ? ? ? ? ? ?] ? ? ? ? ?];
      reflexivity]
  end.
  repeat first [ apply preserves_on_base with (J := fun _ => True);
                 [auto | intros [] ? ? ?; assumption | intros ? ?; exact I]
               | preserves_step ];
    apply preserves_modify; intros [] ?; simpl in *; auto.
Qed.

(** C5. A low-rank approximation refuses [fit(override=False)] with the
    error "LowRank LA does not support updating." and is left as it was;
    in particular a second, incremental fit after any first fit fails. *)
Theorem lowrank_refit_without_override_fails (l : DataLoader)
  (s : ParametricLaplace) :
  cls s = LowRankLaplace ->
  fit l false s = (s, Raise (ValueError "LowRank LA does not support updating."))
  /\ forall l1 o,
       fit l false (fst (fit l1 o s))
       = (fst (fit l1 o s),
          Raise (ValueError "LowRank LA does not support updating.")).
Proof.
  intros Hc.
  assert (Hfail : forall s', cls s' = LowRankLaplace ->
            fit l false s'
            = (s', Raise (ValueError "LowRank LA does not support updating."))).
  { intros s' Hs'. unfold fit, bind, get. simpl. now rewrite Hs'. }
  split; [now apply Hfail|].
  intros l1 o. apply Hfail.
  apply (@fit_kind LowRankLaplace (likelihood (base s)) (reward_modeling (base s))
           l1 o s).
  repeat split; assumption.
Qed.

End ParametricFacts.

(* ================================================================== *)
(** ** The function-space variant *)

Section FunctionalFacts.
Context {P : Predictor} {C : CurvatureInterface} {G : GPKernels}.

Ltac fobj_modify :=
  apply preserves_modify; intros [[] ? ? ? ? ? ? ? ? ? ? ? ? ?] ?;
  unfold base_kind_is in *; simpl in *; intuition auto.

Lemma preserves_on_fbase {A} (I : FunctionalLaplace -> Prop)
  (J : BaseLaplace -> Prop) (m : Act BaseLaplace A) :
  (forall s, I s -> J (fbase s)) ->
  (forall s b, I s -> J b -> I (set_fbase b s)) ->
  preserves J m -> preserves I (on_fbase m).
Proof.
  intros HIJ Hset Hm s Hs. unfold on_fbase. simpl.
  apply Hset; [exact Hs | apply Hm, HIJ, Hs].
Qed.

(** *** The cached factor *)

Lemma built_Sigma_inv_ext (s s' : FunctionalLaplace) :
  _prior_factor_sod s' = _prior_factor_sod s ->
  _prior_precision (fbase s') = _prior_precision (fbase s) ->
  _sigma_noise (fbase s') = _sigma_noise (fbase s) ->
  temperature (fbase s') = temperature (fbase s) ->
  diagonal_kernel s' = diagonal_kernel s ->
  K_MM s' = K_MM s -> L s' = L s ->
  built_Sigma_inv s' = built_Sigma_inv s.
Proof.
  intros E1 E2 E3 E4 E5 E6 E7.
  unfold built_Sigma_inv, gp_kernel_prior_variance, _H_factor.
  now rewrite E1, E2, E3, E4, E5, E6, E7.
Qed.

Lemma built_Sigma_inv_set_Sigma_inv k s :
  built_Sigma_inv (set_Sigma_inv k s) = built_Sigma_inv s.
Proof. apply built_Sigma_inv_ext; reflexivity. Qed.

Lemma set_Sigma_inv_consistent k s :
  built_Sigma_inv s = Ok k -> Sigma_consistent (set_Sigma_inv k s).
Proof.
  intros Hk. unfold Sigma_consistent. now rewrite built_Sigma_inv_set_Sigma_inv.
Qed.

Lemma functional_predict_keeps_factor v x a :
  preserves (factor_inputs_are v) (functional_predict x a).
Proof.
  assert (Hb : preserves (factor_inputs_are v) (on_fbase backend)).
  { intros s Hs. unfold on_fbase, backend, bind, get, modify, ret. simpl.
    destruct (_backend (fbase s)); simpl.
    - destruct s as [[] ? ? ? ? ? ? ? ? ? ? ? ? ?]. exact Hs.
    - destruct Hs as [H1 H2]. split; [exact H1|]. rewrite <- H2.
      apply built_Sigma_inv_ext; destruct s as [[] ? ? ? ? ? ? ? ? ? ? ? ? ?];
        reflexivity. }
  unfold functional_predict, functional_glm_predictive_distribution,
    functional_predictive_samples, _jacobians.
  repeat first [ exact Hb | preserves_step ].
  apply preserves_modify. intros s [H1 H2]. split; [exact H1|]. rewrite <- H2.
  apply built_Sigma_inv_ext; destruct s as [[] ? ? ? ? ? ? ? ? ? ? ? ? ?];
    unfold switch_reward_modeling; simpl;
    try match goal with |- context [if ?b then _ else _] => destruct b end;
    reflexivity.
Qed.

Lemma functional_set_prior_precision_ok p s :
  snd (functional_set_prior_precision p s) = Ok tt ->
  let s1 := fst (functional_set_prior_precision p s) in
  _recompute_Sigma s1 = true /\ _fitted s1 = _fitted s
  /\ fit_state s1 = fit_state s /\ Sigma_inv s1 = Sigma_inv s.
Proof.
  unfold functional_set_prior_precision, bind, on_fbase, modify. simpl.
  destruct (snd (set_prior_precision p (fbase s))) as [[]|e] eqn:E; simpl;
    [|discriminate].
  intros _.
  assert (Hb : loss (fst (set_prior_precision p (fbase s))) = loss (fbase s)
               /\ n_data (fst (set_prior_precision p (fbase s))) = n_data (fbase s)
               /\ n_outputs (fst (set_prior_precision p (fbase s)))
                  = n_outputs (fbase s)).
  { assert (Hp : preserves (fun b => loss b = loss (fbase s)
                                      /\ n_data b = n_data (fbase s)
                                      /\ n_outputs b = n_outputs (fbase s))
                    (set_prior_precision p)).
    { unfold set_prior_precision. repeat preserves_step; base_modify. }
    apply Hp. repeat split; reflexivity. }
  destruct Hb as (Hl & Hn & Ho).
  repeat split; try reflexivity.
  unfold fit_state. simpl. now rewrite Hl, Hn, Ho.
Qed.

(** C8. After a fit, when the setter has changed the prior precision, the
    next predictive call first builds [Sigma_inv] anew from the kernel, the
    likelihood curvature, the noise and the current prior precision, and
    predicts with that factor; if the factorization fails the call raises
    and predicts nothing.  Nothing else that [fit] left in the object is
    recomputed, by the setter or by the rebuild, and the factor stays the
    one built from the current prior precision until the call ends. *)
Theorem prior_change_rebuilds_Sigma_inv (s : FunctionalLaplace) (p : pyarg)
  (x : Input) (a : CallArgs) :
  _fitted s = true ->
  snd (functional_set_prior_precision p s) = Ok tt ->
  let s1 := fst (functional_set_prior_precision p s) in
  fit_state s1 = fit_state s
  /\ functional_call x a s1 =
     match built_Sigma_inv s1 with
     | Ok k => functional_predict x a (set_Sigma_inv k s1)
     | Raise e => (s1, Raise e)
     end
  /\ (forall k, built_Sigma_inv s1 = Ok k ->
        fit_state (set_Sigma_inv k s1) = fit_state s
        /\ Sigma_consistent (set_Sigma_inv k s1)
        /\ Sigma_consistent (fst (functional_predict x a (set_Sigma_inv k s1))))
  /\ (forall s2 pred, functional_call x a s1 = (s2, Ok pred) ->
        exists k, built_Sigma_inv s1 = Ok k
          /\ functional_predict x a (set_Sigma_inv k s1) = (s2, Ok pred)
          /\ Sigma_consistent s2).
Proof.
  intros Hfit Hset s1.
  destruct (functional_set_prior_precision_ok p s Hset) as (Hflag & Hf & Hst & _).
  fold s1 in Hflag, Hf, Hst. rewrite Hfit in Hf.
  assert (Hcall : functional_call x a s1 =
                  match built_Sigma_inv s1 with
                  | Ok k => functional_predict x a (set_Sigma_inv k s1)
                  | Raise e => (s1, Raise e)
                  end).
  { unfold functional_call, bind at 1, get at 1. rewrite Hf, Hflag. simpl.
    unfold _build_Sigma_inv, bind, get, lift, modify.
    destruct (built_Sigma_inv s1); reflexivity. }
  assert (Hcons : forall k, built_Sigma_inv s1 = Ok k ->
            Sigma_consistent (fst (functional_predict x a (set_Sigma_inv k s1)))).
  { intros k Hk.
    pose proof (@functional_predict_keeps_factor (k, Ok k) x a
                  (set_Sigma_inv k s1)) as Hp.
    destruct Hp as [H1 H2].
    { split; simpl; [reflexivity|]. now rewrite built_Sigma_inv_set_Sigma_inv. }
    unfold Sigma_consistent. simpl in H1, H2. now rewrite H1, H2. }
  split; [exact Hst|]. split; [exact Hcall|]. split.
  - intros k Hk. split; [exact Hst|]. split; [now apply set_Sigma_inv_consistent|].
    now apply Hcons.
  - intros s2 pred H2. rewrite Hcall in H2.
    destruct (built_Sigma_inv s1) as [k|e] eqn:Hk; [|discriminate].
    exists k. split; [reflexivity|]. split; [exact H2|].
    specialize (Hcons k eq_refl). now rewrite H2 in Hcons.
Qed.

(** *** Reward modeling *)

Lemma on_fbase_kind {A} l r o (m : Act BaseLaplace A) :
  preserves (fun b => base_kind_is l r b /\ output_size (model b) = o) m ->
  preserves (fkind_out l r o) (on_fbase m).
Proof.
  apply preserves_on_fbase.
  - intros s Hs. exact Hs.
  - intros [] b _ Hb. exact Hb.
Qed.

Lemma base_setters_kind_out l r o p :
  preserves (fun b => base_kind_is l r b /\ output_size (model b) = o)
    (set_prior_precision p)
  /\ preserves (fun b => base_kind_is l r b /\ output_size (model b) = o)
       (set_prior_mean p)
  /\ preserves (fun b => base_kind_is l r b /\ output_size (model b) = o)
       (set_sigma_noise p).
Proof.
  unfold set_prior_precision, set_prior_mean, set_sigma_noise.
  split; [|split]; repeat preserves_step; base_modify.
Qed.

Ltac fkind_modify :=
  apply preserves_modify; intros [[] ? ? ? ? ? ? ? ? ? ? ? ? ?] ?;
  unfold fkind_out, base_kind_is in *; simpl in *; intuition auto.

Lemma _build_Sigma_inv_kind l r o : preserves (fkind_out l r o) _build_Sigma_inv.
Proof. unfold _build_Sigma_inv. repeat preserves_step; fkind_modify. Qed.

Lemma functional_predict_kind_out r o x a :
  preserves (fkind_out "regression" r o) (functional_predict x a).
Proof.
  unfold functional_predict, functional_glm_predictive_distribution,
    functional_predictive_samples, _jacobians.
  repeat first [ apply on_fbase_kind, backend_kind_out | preserves_step ].
  apply preserves_modify. intros [[] ? ? ? ? ? ? ? ? ? ? ? ? ?] ((Hl & Hr) & Ho).
  unfold fkind_out, base_kind_is, switch_reward_modeling in *. simpl in *.
  subst. rewrite andb_false_r. simpl. auto.
Qed.

Lemma functional_call_kind_out r o x a :
  preserves (fkind_out "regression" r o) (functional_call x a).
Proof.
  unfold functional_call.
  repeat first [ apply _build_Sigma_inv_kind | apply functional_predict_kind_out
               | preserves_step ].
Qed.

Lemma fkind_out_drop {A} l r (m : Act FunctionalLaplace A) :
  (forall o, preserves (fkind_out l r o) m) ->
  preserves (fun s => base_kind_is l r (fbase s)) m.
Proof.
  intros Hm s Hs.
  apply (Hm (output_size (model (fbase s))) s). split; [exact Hs | reflexivity].
Qed.

Lemma on_fbase_base_kind {A} l r (m : Act BaseLaplace A) :
  preserves (base_kind_is l r) m ->
  preserves (fun s => base_kind_is l r (fbase s)) (on_fbase m).
Proof.
  apply preserves_on_fbase.
  - intros s Hs. exact Hs.
  - intros [] b _ Hb. exact Hb.
Qed.

Ltac fbase_modify :=
  apply preserves_modify; intros [[] ? ? ? ? ? ? ? ? ? ? ? ? ?] ?;
  unfold base_kind_is in *; simpl in *;
  repeat match goal with
         | |- context [match ?x with _ => _ end] => destruct x; simpl
         end;
  intuition auto.

Lemma functional_fit_kind l r loader :
  preserves (fun s => base_kind_is l r (fbase s)) (functional_fit loader).
Proof.
  assert (Hj : forall X, preserves (fun s => base_kind_is l r (fbase s)) (_jacobians X)).
  { intros X. unfold _jacobians.
    repeat first [ apply on_fbase_base_kind, backend_kind | preserves_step ]. }
  assert (Hin : forall Js i bs j,
            preserves (fun s => base_kind_is l r (fbase s)) (fit_inner Js i j bs)).
  { intros Js i bs. induction bs as [|d bs IH]; intros j; simpl.
    - apply preserves_ret.
    - unfold batch_input, _kernel_batch, _store_K_batch.
      repeat first [ apply Hj | apply IH | preserves_step ]; fbase_modify. }
  assert (Hout : forall loader_ bs i ls ms,
            preserves (fun s => base_kind_is l r (fbase s))
              (fit_outer loader_ i bs ls ms)).
  { intros loader_ bs. induction bs as [|d bs IH]; intros i ls ms; simpl.
    - apply preserves_ret.
    - unfold batch_input, _mean_scatter_term_batch.
      repeat first [ apply Hj | apply Hin | apply IH
                   | apply on_fbase_base_kind, backend_kind | preserves_step ];
        fbase_modify. }
  unfold functional_fit, batch_input, _build_Sigma_inv.
  repeat first [ apply Hout | preserves_step ]; fbase_modify.
Qed.

Lemma run_fop_kind_no_call l r o :
  not_a_fcall o -> preserves (fun s => base_kind_is l r (fbase s)) (run_fop o).
Proof.
  destruct o; simpl; intros Hn; try contradiction.
  - apply functional_fit_kind.
  - unfold functional_set_prior_precision.
    repeat first [ apply on_fbase_base_kind, set_prior_precision_kind
                 | preserves_step ]; fbase_modify.
  - apply on_fbase_base_kind, set_prior_mean_kind.
  - apply on_fbase_base_kind, set_sigma_noise_kind.
Qed.

Lemma run_fop_kind r o :
  preserves (fun s => base_kind_is "regression" r (fbase s)) (run_fop o).
Proof.
  destruct o; try (apply run_fop_kind_no_call; exact I).
  simpl. apply preserves_discard, fkind_out_drop. intros; apply functional_call_kind_out.
Qed.

Lemma run_fops_kind_no_call l r os s :
  Forall not_a_fcall os -> base_kind_is l r (fbase s) ->
  base_kind_is l r (fbase (run_fops os s)).
Proof.
  intros Hos. revert s. induction Hos as [|o os Ho _ IH]; intros s Hs; simpl;
    [exact Hs|].
  apply IH. now apply (@run_fop_kind_no_call l r o Ho s).
Qed.

Lemma run_fops_kind r os s :
  base_kind_is "regression" r (fbase s) ->
  base_kind_is "regression" r (fbase (run_fops os s)).
Proof.
  revert s. induction os as [|o os IH]; intros s Hs; simpl; [exact Hs|].
  apply IH. now apply (@run_fop_kind r o s).
Qed.

Lemma functional_init_reward_modeling M_ dk sd cfg s :
  cfg_likelihood cfg = "reward_modeling" ->
  functional_init M_ dk sd cfg = Ok s ->
  base_kind_is "classification" true (fbase s).
Proof.
  intros Hl. unfold functional_init.
  assert (Hgo : forall r : result FunctionalLaplace,
            r = rbind (_check_prior_precision (cfg_prior_precision cfg)) (fun _ =>
                 rbind (base_init set_prior_precision
                          (mkConfig (cfg_model cfg) (cfg_likelihood cfg)
                             (cfg_sigma_noise cfg) (cfg_prior_precision cfg)
                             (cfg_prior_mean cfg) (cfg_temperature cfg) true None))
                   (fun b =>
                    Ok {| fbase := set_enable_backprop (cfg_enable_backprop cfg) b;
                          M := M_; diagonal_kernel := dk; seed := sd;
                          K_MM := KNone; Sigma_inv := KNone; train_loader := None;
                          batch_size := None; _prior_factor_sod := None;
                          mu := None; L := LNone;
                          map_estimate :=
                            parameters_to_vector (parameters (cfg_model cfg));
                          _fitted := false; _recompute_Sigma := true |})) ->
            r = Ok s -> base_kind_is "classification" true (fbase s)).
  { intros r -> Hr.
    destruct (_check_prior_precision (cfg_prior_precision cfg)); [|discriminate].
    simpl in Hr.
    match type of Hr with context [base_init ?st ?cf] =>
      pose proof (@base_init_reward_modeling st cf) as Hb;
      destruct (base_init st cf) as [b|e]; [|discriminate]
    end.
    simpl in Hr. injection Hr as <-. simpl.
    assert (Hk : base_kind_is "classification" true b).
    { eapply Hb; [intros; apply set_prior_precision_kind | exact Hl | reflexivity]. }
    destruct b; exact Hk. }
  destruct (cfg_backend cfg) as [[]|]; try discriminate; now apply Hgo.
Qed.

(** A call on an approximation that is not fitted, or whose factor cannot
    be rebuilt, or with arguments that fail the checks, raises and leaves
    the likelihood. *)
Lemma functional_call_rejected x a s :
  _fitted s = false
  \/ (_recompute_Sigma s = true /\ exists e, built_Sigma_inv s = Raise e)
  \/ (exists e, functional_check_call_args a = Raise e) ->
  likelihood (fbase (fst (functional_call x a s))) = likelihood (fbase s)
  /\ exists e, snd (functional_call x a s) = Raise e.
Proof.
  assert (Hb : forall s' e, functional_check_call_args a = Raise e ->
            functional_predict x a s' = (s', Raise e)).
  { intros s' e He. unfold functional_predict, bind, lift. now rewrite He. }
  intros [Hf|[[Hre [e He]]|[e He]]]; cbv beta iota delta [functional_call bind get].
  - rewrite Hf. simpl. eauto.
  - destruct (_fitted s); simpl; [|eauto].
    rewrite Hre. cbv beta iota delta [_build_Sigma_inv bind get lift modify].
    rewrite He. simpl. eauto.
  - destruct (_fitted s); simpl; [|eauto].
    destruct (_recompute_Sigma s).
    + cbv beta iota delta [_build_Sigma_inv bind get lift modify].
      destruct (built_Sigma_inv s) as [k|e']; simpl; [|eauto].
      rewrite (Hb _ _ He). simpl.
      split; [destruct s as [[] ? ? ? ? ? ? ? ? ? ? ? ? ?]; reflexivity | eauto].
    + simpl. rewrite (Hb _ _ He). simpl. eauto.
Qed.

(** A call on a fitted approximation whose factor is rebuilt and whose
    arguments pass the checks goes on with the likelihood switched. *)
Lemma functional_call_switches x a s :
  _fitted s = true ->
  (_recompute_Sigma s = true -> exists k, built_Sigma_inv s = Ok k) ->
  functional_check_call_args a = Ok tt ->
  reward_modeling (fbase s) = true -> likelihood (fbase s) = "classification" ->
  fkind_out "regression" true (Some 1) (fst (functional_call x a s)).
Proof.
  intros Hf Hre Hargs Hr Hl.
  assert (Hpred : forall s', reward_modeling (fbase s') = true ->
            likelihood (fbase s') = "classification" ->
            fkind_out "regression" true (Some 1) (fst (functional_predict x a s'))).
  { intros s' Hr' Hl'.
    assert (Hsw : fkind_out "regression" true (Some 1)
                    (set_fbase (switch_reward_modeling (fbase s')) s')).
    { destruct s' as [[] ? ? ? ? ? ? ? ? ? ? ? ? ?].
      unfold fkind_out, base_kind_is, switch_reward_modeling.
      simpl in *. subst. simpl. auto. }
    pose proof (@functional_predict_kind_out true (Some 1) x a _ Hsw) as Hp.
    assert (Eid : set_fbase (switch_reward_modeling
                    (fbase (set_fbase (switch_reward_modeling (fbase s')) s')))
                    (set_fbase (switch_reward_modeling (fbase s')) s')
                  = set_fbase (switch_reward_modeling (fbase s')) s').
    { destruct s' as [[] ? ? ? ? ? ? ? ? ? ? ? ? ?].
      unfold switch_reward_modeling. simpl in *. subst. reflexivity. }
    assert (Ecall : functional_predict x a s'
                    = functional_predict x a
                        (set_fbase (switch_reward_modeling (fbase s')) s')).
    { unfold functional_predict.
      rewrite !(bind_lift_ok _ _ Hargs), !bind_modify. now rewrite Eid. }
    now rewrite Ecall. }
  cbv beta iota delta [functional_call bind get]. rewrite Hf. simpl.
  destruct (_recompute_Sigma s).
  - destruct (Hre eq_refl) as [k Hk].
    cbv beta iota delta [_build_Sigma_inv bind get lift modify]. rewrite Hk.
    apply Hpred; destruct s as [[] ? ? ? ? ? ? ? ? ? ? ? ? ?]; assumption.
  - simpl. now apply Hpred.
Qed.

Lemma functional_regression_path x a s s' p :
  likelihood (fbase s) = "regression" ->
  functional_call x a s = (s', Ok p) ->
  exists f_mu f_var, p = RegressionPred f_mu f_var.
Proof.
  intros Hl Hcall.
  assert (Hpred : forall s0, likelihood (fbase s0) = "regression" ->
            functional_predict x a s0 = (s', Ok p) ->
            exists f_mu f_var, p = RegressionPred f_mu f_var).
  { intros s0 Hl0 Hp. unfold functional_predict in Hp.
    apply bind_inv_ok in Hp. destruct Hp as (s1 & [] & H1 & Hp).
    unfold lift in H1. injection H1 as <- _.
    apply bind_inv_ok in Hp. destruct Hp as (s2 & [] & H2 & Hp).
    unfold modify in H2. injection H2 as <-.
    set (s2 := set_fbase (switch_reward_modeling (fbase s0)) s0) in *.
    assert (Hk : fkind_out "regression" (reward_modeling (fbase s0))
                   (output_size (model (fbase s2))) s2).
    { unfold s2. destruct s0 as [[] ? ? ? ? ? ? ? ? ? ? ? ? ?].
      unfold fkind_out, base_kind_is, switch_reward_modeling. simpl in *. subst.
      rewrite andb_false_r. simpl. auto. }
    apply bind_inv_ok in Hp. destruct Hp as (s3 & s2' & H3 & Hp).
    unfold get in H3. injection H3 as <- <-.
    apply bind_inv_ok in Hp. destruct Hp as (s4 & [f_mu f_var] & H4 & Hp).
    assert (Hk4 : fkind_out "regression" (reward_modeling (fbase s0))
                    (output_size (model (fbase s2))) s4).
    { replace s4 with (fst (functional_glm_predictive_distribution x
                         (joint a && (likelihood (fbase s2) =? "regression")%string) s2))
        by now rewrite H4.
      assert (Hp' : forall j, preserves (fkind_out "regression"
                      (reward_modeling (fbase s0)) (output_size (model (fbase s2))))
                      (functional_glm_predictive_distribution x j)).
      { intros j. unfold functional_glm_predictive_distribution, _jacobians.
        repeat first [ apply on_fbase_kind, backend_kind_out | preserves_step ]. }
      apply Hp', Hk. }
    destruct Hk4 as ((Hl4 & _) & _).
    unfold bind, get in Hp. simpl in Hp. rewrite Hl4 in Hp. simpl in Hp.
    injection Hp as _ <-. eauto. }
  unfold functional_call in Hcall.
  apply bind_inv_ok in Hcall. destruct Hcall as (s1 & s0 & H1 & Hcall).
  unfold get in H1. injection H1 as <- <-.
  destruct (negb (_fitted s)); [discriminate|].
  apply bind_inv_ok in Hcall. destruct Hcall as (s2 & [] & H2 & Hcall).
  apply Hpred with (s0 := s2); [|exact Hcall].
  assert (Hp : preserves (fun s => base_kind_is "regression"
                            (reward_modeling (fbase s)) (fbase s))
                 (if _recompute_Sigma s then _build_Sigma_inv else ret tt)).
  { destruct (_recompute_Sigma s); [|apply preserves_ret].
    intros s0 Hs0. unfold _build_Sigma_inv, bind, get, lift, modify.
    destruct (built_Sigma_inv s0); simpl; [|exact Hs0].
    destruct s0 as [[] ? ? ? ? ? ? ? ? ? ? ? ? ?]. exact Hs0. }
  specialize (Hp s (conj Hl eq_refl)). rewrite H2 in Hp. apply Hp.
Qed.

End FunctionalFacts.

(* ================================================================== *)
(** ** Reward modeling, in both families *)

Section RewardModeling.
Context {P : Predictor} {K : KronOps} {C : CurvatureInterface} {Nm : Numerics}
        {PK : PosteriorKernels} {G : GPKernels}.


End RewardModeling.

(* ================================================================== *)
(** ** The object over its life *)

Section Shaped.
Context {P : Predictor} {K : KronOps} {C : CurvatureInterface} {Nm : Numerics}
        {PK : PosteriorKernels}.
Variables (sizes : list nat) (refs : list param_ref) (n k : nat).

Ltac shaped_modify :=
  apply preserves_modify; intros [] ?;
  unfold shaped, arch_is, prior_precision_ok in *; simpl in *; intuition auto.

Lemma set_prior_precision_shaped p :
  preserves (shaped sizes refs n k) (set_prior_precision p).
Proof.
  intros b Hb. unfold set_prior_precision. cbv beta iota delta [bind modify get].
  destruct b. unfold shaped, arch_is, prior_precision_ok in *. simpl in *.
  destruct p; simpl; try (intuition auto; fail).
  match goal with |- context [negb ?c] => destruct c eqn:E end; simpl;
    intuition auto.
Qed.

Lemma set_prior_precision_establishes p b b' :
  arch_is sizes refs n k b ->
  set_prior_precision p b = (b', Ok tt) -> shaped sizes refs n k b'.
Proof.
  unfold set_prior_precision. cbv beta iota delta [bind modify get].
  destruct b. unfold shaped, arch_is, prior_precision_ok. simpl.
  intros Hb. destruct p; simpl; try discriminate.
  - intros [= <-]. simpl. intuition auto.
  - intros [= <-]. simpl. intuition auto.
  - match goal with |- context [negb ?c] => destruct c eqn:E end; simpl;
      [|discriminate].
    intros [= <-]. simpl. intuition auto.
Qed.

Lemma kron_set_prior_precision_shaped p :
  preserves (shaped sizes refs n k) (kron_set_prior_precision p).
Proof.
  unfold kron_set_prior_precision.
  apply preserves_bind; [apply set_prior_precision_shaped | intros _].
  repeat preserves_step.
Qed.

Lemma prior_precision_setter_shaped c p :
  preserves (shaped sizes refs n k) (prior_precision_setter c p).
Proof.
  destruct c; simpl;
    first [apply set_prior_precision_shaped | apply kron_set_prior_precision_shaped].
Qed.

Lemma prior_precision_setter_establishes c p b b' :
  arch_is sizes refs n k b ->
  prior_precision_setter c p b = (b', Ok tt) -> shaped sizes refs n k b'.
Proof.
  intros Hb. destruct c; simpl; try apply (set_prior_precision_establishes p Hb).
  unfold kron_set_prior_precision. intros E.
  apply bind_inv_ok in E. destruct E as (b1 & [] & E1 & E2).
  pose proof (set_prior_precision_establishes p Hb E1) as H1.
  assert (Hp : preserves (shaped sizes refs n k)
                 (s <- get;;
                  (if negb (nat_in (length (_prior_precision s)) [1; n_layers s])
                   then raise (ValueError
                          "Prior precision for Kron either scalar or per-layer.")
                   else ret tt))) by (repeat preserves_step).
  specialize (Hp b1 H1). rewrite E2 in Hp. exact Hp.
Qed.

Lemma set_prior_mean_shaped p : preserves (shaped sizes refs n k) (set_prior_mean p).
Proof. unfold set_prior_mean. repeat preserves_step; shaped_modify. Qed.

Lemma set_sigma_noise_shaped p : preserves (shaped sizes refs n k) (set_sigma_noise p).
Proof. unfold set_sigma_noise. repeat preserves_step; shaped_modify. Qed.

Lemma backend_shaped : preserves (shaped sizes refs n k) backend.
Proof. unfold backend. repeat preserves_step; shaped_modify. Qed.


(** *** On the object *)

Ltac sobj_modify :=
  apply preserves_modify;
  intros [[[] ? ? ? ? ? ? ? ? ? ? ? ? ? ? ? ? ?] ? ? ? ? ?] ?;
  unfold shaped, arch_is, prior_precision_ok in *; simpl in *; intuition auto.

Lemma on_base_shaped {A} (m : Act BaseLaplace A) :
  preserves (shaped sizes refs n k) m ->
  preserves (fun s => shaped sizes refs n k (base s)) (on_base m).
Proof.
  apply preserves_on_base.
  - auto.
  - intros [] b _ Hb. exact Hb.
Qed.

Lemma _init_H_shaped :
  preserves (fun s => shaped sizes refs n k (base s)) _init_H.
Proof. unfold _init_H. repeat preserves_step; sobj_modify. Qed.

Lemma fit_batch_shaped N d :
  preserves (fun s => shaped sizes refs n k (base s)) (fit_batch N d).
Proof.
  intros s Hs. pose proof (fit_batch_frame N d s) as Hf.
  unfold same_frame in Hf. decompose [and] Hf.
  unfold shaped, arch_is, prior_precision_ok in *.
  repeat match goal with H : _ = _ |- _ => rewrite H end. exact Hs.
Qed.

Lemma parametric_fit_shaped loader o :
  preserves (fun s => shaped sizes refs n k (base s)) (parametric_fit loader o).
Proof.
  unfold parametric_fit.
  repeat first [ apply _init_H_shaped | apply first_forward_preserves
               | apply fit_batch_shaped | preserves_step ];
    sobj_modify.
Qed.

Lemma fit_shaped loader o :
  preserves (fun s => shaped sizes refs n k (base s)) (fit loader o).
Proof.
  unfold fit, full_fit, kron_fit, lowrank_fit.
  repeat first [ apply parametric_fit_shaped | apply _init_H_shaped
               | apply on_base_shaped, backend_shaped | preserves_step ];
    sobj_modify.
Qed.

Lemma vector_to_parameters_sizes vec rs :
  preserves (fun m => map numel (parameters m) = sizes) (vector_to_parameters vec rs).
Proof.
  intros m Hm. destruct vec as [q|v]; simpl.
  - destruct rs; exact Hm.
  - destruct (@vector_to_parameters_loop_shapes rs rs v m (incl_refl _)) as [E _].
    congruence.
Qed.

Lemma load_params_shaped vec :
  preserves (fun s => shaped sizes refs n k (base s)) (load_params vec).
Proof.
  unfold load_params. repeat preserves_step.
  apply on_base_shaped.
  apply preserves_on_model with (Q := fun m => map numel (parameters m) = sizes).
  - intros b [[Hm _] _]. exact Hm.
  - intros [] x Hb Hx. unfold shaped, arch_is, prior_precision_ok in *.
    simpl in *. intuition auto.
  - apply vector_to_parameters_sizes.
Qed.

Lemma nn_samples_loop_shaped X samples fs :
  preserves (fun s => shaped sizes refs n k (base s)) (nn_samples_loop X samples fs).
Proof.
  revert fs. induction samples as [|smp rest IH]; intros fs; simpl.
  - apply preserves_ret.
  - repeat first [ apply load_params_shaped | apply IH | preserves_step ].
Qed.

Lemma nn_classification_loop_shaped X m samples py :
  preserves (fun s => shaped sizes refs n k (base s))
            (nn_classification_loop X m samples py).
Proof.
  revert py. induction samples as [|smp rest IH]; intros py; simpl.
  - apply preserves_ret.
  - repeat first [ apply load_params_shaped | apply IH | preserves_step ].
Qed.

Lemma predictive_samples_shaped x pt m d g :
  preserves (fun s => shaped sizes refs n k (base s)) (predictive_samples x pt m d g).
Proof.
  unfold predictive_samples, _glm_predictive_distribution, _nn_predictive_samples.
  repeat first [ apply load_params_shaped | apply nn_samples_loop_shaped
               | apply on_base_shaped, backend_shaped | preserves_step ].
Qed.

Lemma parametric_call_shaped x a :
  preserves (fun s => shaped sizes refs n k (base s)) (parametric_call x a).
Proof.
  unfold parametric_call, _glm_predictive_distribution, _nn_predictive_samples,
    _nn_predictive_classification.
  repeat first [ apply load_params_shaped | apply nn_samples_loop_shaped
               | apply nn_classification_loop_shaped
               | apply predictive_samples_shaped
               | apply on_base_shaped, backend_shaped | preserves_step ].
  apply preserves_modify.
  intros [[[] ? ? ? ? ? ? ? ? ? ? ? ? ? ? ? ? ?] ? ? ? ? ?] ?.
  unfold shaped, arch_is, prior_precision_ok, switch_reward_modeling in *.
  simpl in *.
  match goal with |- context [if ?c then _ else _] => destruct c end;
    simpl; intuition auto.
Qed.

Lemma log_marginal_likelihood_shaped p sn :
  preserves (fun s => shaped sizes refs n k (base s)) (log_marginal_likelihood p sn).
Proof.
  unfold log_marginal_likelihood.
  repeat first [ apply on_base_shaped, prior_precision_setter_shaped
               | apply on_base_shaped, set_sigma_noise_shaped | preserves_step ].
Qed.

Lemma load_state_dict_shaped sd :
  preserves (fun s => shaped sizes refs n k (base s)) (load_state_dict sd).
Proof.
  unfold load_state_dict, parametric_load_state_dict.
  repeat first [ apply on_base_shaped, prior_precision_setter_shaped
               | apply on_base_shaped, set_sigma_noise_shaped
               | apply on_base_shaped, set_prior_mean_shaped
               | apply _init_H_shaped | preserves_step ];
    sobj_modify.
Qed.

Lemma run_op_shaped o :
  preserves (fun s => shaped sizes refs n k (base s)) (run_op o).
Proof.
  destruct o; simpl.
  - apply fit_shaped.
  - apply preserves_discard, parametric_call_shaped.
  - apply preserves_discard, predictive_samples_shaped.
  - repeat first [ apply on_base_shaped, prior_precision_setter_shaped
                 | preserves_step ].
  - apply on_base_shaped, set_prior_mean_shaped.
  - apply on_base_shaped, set_sigma_noise_shaped.
  - apply preserves_discard, log_marginal_likelihood_shaped.
  - apply load_state_dict_shaped.
Qed.

Lemma run_ops_shaped os s :
  shaped sizes refs n k (base s) -> shaped sizes refs n k (base (run_ops os s)).
Proof.
  revert s. induction os as [|o os IH]; intros s Hs; simpl; [exact Hs|].
  apply IH, run_op_shaped, Hs.
Qed.

End Shaped.

Section Constructed.
Context {P : Predictor} {K : KronOps} {C : CurvatureInterface} {Nm : Numerics}
        {PK : PosteriorKernels}.

(** The sizes, references and counts that the constructor computes from
    the predictor of [cfg]. *)
Lemma blank_arch cfg :
  arch_is (map numel (parameters (cfg_model cfg)))
          (trainable_from 0 (parameters (cfg_model cfg)))
          (n_params (blank cfg)) (n_layers (blank cfg)) (blank cfg).
Proof. repeat split. Qed.

Lemma base_init_shaped c cfg b :
  base_init (prior_precision_setter c) cfg = Ok b ->
  shaped (map numel (parameters (cfg_model cfg)))
         (trainable_from 0 (parameters (cfg_model cfg)))
         (n_params (blank cfg)) (n_layers (blank cfg)) b.
Proof.
  unfold base_init.
  destruct (negb (string_in (cfg_likelihood cfg)
                    ["classification"; "regression"; "reward_modeling"]));
    [discriminate|].
  unfold base_init_steps.
  destruct (prior_precision_setter c (cfg_prior_precision cfg) (blank cfg))
    as [b1 [[]|e]] eqn:E1.
  2:{ rewrite (@bind_raise _ _ _ _ _ _ _ _ E1). discriminate. }
  rewrite (@bind_ok _ _ _ _ _ _ _ _ E1).
  pose proof (prior_precision_setter_establishes c _ (blank_arch cfg) E1) as H1.
  match goal with |- context [?m b1] =>
    assert (Hm : preserves (shaped (map numel (parameters (cfg_model cfg)))
                   (trainable_from 0 (parameters (cfg_model cfg)))
                   (n_params (blank cfg)) (n_layers (blank cfg))) m)
  end.
  { repeat first [ apply set_prior_mean_shaped | apply set_sigma_noise_shaped
                 | preserves_step ];
      apply preserves_modify; intros [] ?;
      unfold shaped, arch_is, prior_precision_ok in *; simpl in *; intuition auto. }
  specialize (Hm b1 H1).
  match goal with |- context [?m b1] => destruct (m b1) as [b2 [[]|e]] end;
    [|discriminate].
  intros [= <-]. exact Hm.
Qed.

Lemma parametric_init_shaped c d cfg s :
  parametric_init c d cfg = Ok s ->
  shaped (map numel (parameters (cfg_model cfg)))
         (trainable_from 0 (parameters (cfg_model cfg)))
         (n_params (blank cfg)) (n_layers (blank cfg)) (base s).
Proof.
  unfold parametric_init.
  match goal with |- context [base_init ?st ?cf] =>
    pose proof (@base_init_shaped c cf) as Hb;
    destruct (base_init st cf) as [b|e]; [|discriminate]
  end.
  simpl. intros [= <-]. specialize (Hb b eq_refl).
  assert (E : forall cf', cfg_model cf' = cfg_model cfg ->
            shaped (map numel (parameters (cfg_model cf')))
              (trainable_from 0 (parameters (cfg_model cf')))
              (n_params (blank cf')) (n_layers (blank cf')) b ->
            shaped (map numel (parameters (cfg_model cfg)))
              (trainable_from 0 (parameters (cfg_model cfg)))
              (n_params (blank cfg)) (n_layers (blank cfg)) b).
  { intros cf' Em. unfold blank. simpl. now rewrite Em. }
  apply _init_H_shaped. simpl. eapply E; [|exact Hb]. destruct c; destruct (cfg_backend cfg); reflexivity.
Qed.

(** What [shaped] gives: the counts, and a prior precision that
    broadcasts. *)
Lemma shaped_counts_ok b :
  shaped (map numel (parameters (model b))) (params b)
         (list_sum (n_params_per_layer b)) (length (params b)) b ->
  counts_ok b.
Proof. intros [(_ & _ & Hn & Hk) _]. split; assumption. Qed.

Lemma shaped_well_formed cfg b :
  shaped (map numel (parameters (cfg_model cfg)))
         (trainable_from 0 (parameters (cfg_model cfg)))
         (n_params (blank cfg)) (n_layers (blank cfg)) b ->
  counts_ok b /\ refs_ok (model b) (params b).
Proof.
  intros [(Hs & Hr & Hn & Hk) _]. split; [split|].
  - rewrite Hk, Hr. reflexivity.
  - rewrite Hn. unfold n_params_per_layer. rewrite Hr. simpl. f_equal.
    apply map_ext. intros r. symmetry. now apply numel_deref.
  - destruct (blank_refs_ok cfg) as [Hnd Hf]. simpl in Hnd, Hf.
    rewrite Hr. split; [exact Hnd|].
    eapply Forall_impl; [|exact Hf]. intros r Hlt. cbv beta in *.
    rewrite <- (length_map numel), Hs, length_map. exact Hlt.
Qed.

(** X1.  The counts that the constructor computes describe the object for as
    long as it lives: after any sequence of operations, whether they return
    or raise, [n_layers] is the number of trainable tensors, [n_params] the
    number of their entries, the references are distinct tensors of the
    predictor, and [prior_precision_diag] returns a vector of [n_params]
    entries. *)
Theorem constructed_object_stays_well_formed (c : laplace_cls) (d : bool)
  (cfg : Config) (s : ParametricLaplace) (os : list op) :
  parametric_init c d cfg = Ok s ->
  let b := base (run_ops os s) in
  counts_ok b
  /\ refs_ok (model b) (params b)
  /\ length (trainable_vector (run_ops os s)) = n_params b
  /\ exists v, prior_precision_diag b = Ok v /\ length v = n_params b.
Proof.
  intros Hinit b.
  pose proof (parametric_init_shaped _ _ _ Hinit) as Hsh.
  apply (@run_ops_shaped _ _ _ _ _ _ _ _ _ os) in Hsh. fold b in Hsh.
  destruct (@shaped_well_formed cfg b Hsh) as [Hc Hr].
  split; [exact Hc|]. split; [exact Hr|].
  split; [apply trainable_vector_length; exact Hc|].
  apply prior_precision_diag_defined; [exact Hc | apply Hsh].
Qed.

End Constructed.

(* ================================================================== *)
(** ** Saving and loading *)

Section PersistedFacts.
Context {P : Predictor} {K : KronOps} {C : CurvatureInterface} {Nm : Numerics}
        {PK : PosteriorKernels}.

Lemma parametric_load_own_state (s t : ParametricLaplace) (h : Hrep) :
  same_architecture s t -> loadable s ->
  let sd := {| sd_mean := mean s; sd_H := h; sd_loss := loss (base s);
               sd_prior_mean := _prior_mean (base s);
               sd_prior_precision := _prior_precision (base s);
               sd_sigma_noise := _sigma_noise (base s);
               sd_n_data := n_data (base s); sd_n_outputs := n_outputs (base s);
               sd_likelihood := likelihood (base s);
               sd_temperature := temperature (base s);
               sd_enable_backprop := enable_backprop (base s);
               sd_cls_name := cls s |} in
  exists t', parametric_load_state_dict sd t = (t', Ok tt)
    /\ restored s t' /\ H t' = h /\ cls t' = cls s /\ H_facs t' = H_facs t
    /\ damping t' = damping t /\ params (base t') = params (base t)
    /\ parameters (model (base t')) = parameters (model (base t))
    /\ n_params (base t') = n_params (base t)
    /\ n_layers (base t') = n_layers (base t).
Proof.
  intros (Hc & Hn & Hk & Hl) ((v & Hm & Hv) & Hpm & Hpp) sd.
  assert (Hpp3 : nat_in (length (_prior_precision (base s)))
                   [1; n_layers (base s); n_params (base s)] = true).
  { destruct (cls s); try exact Hpp. unfold nat_in in *. simpl in *.
    rewrite !orb_true_iff in *. intuition auto. }
  unfold parametric_load_state_dict.
  cbv beta iota delta [bind get lift]. simpl.
  rewrite Hc. replace (laplace_cls_eqb (cls s) (cls s)) with true
    by (destruct (cls s); reflexivity).
  simpl. rewrite Hm. simpl. rewrite Hv, Hn, Nat.eqb_refl. simpl.
  rewrite Hl, String.eqb_refl. simpl.
  destruct s as [[? ? ? ? ? spp spm ? ? ? ? ? ? ? ? ? ? ?] sc sH sm sf sdm];
    destruct t as [[[] ? ? ? ? ? ? ? ? ? ? ? ? ? ? ? ? ?] tc tH tm tf tdm].
  unfold prior_mean_ok, restored, nat_in in *. simpl in *. subst.
  cbv beta iota delta [modify on_base set_prior_mean bind get]. simpl.
  destruct spm as [q|w]; simpl.
  - destruct sc; simpl in *;
      cbv beta iota delta [kron_set_prior_precision set_prior_precision
                             modify bind get ret raise]; simpl;
      rewrite ?Hpp3; simpl; rewrite ?Hpp; simpl;
      (eexists; split; [reflexivity | simpl; repeat split]).
  - rewrite Hpm. simpl.
    destruct sc; simpl in *;
      cbv beta iota delta [kron_set_prior_precision set_prior_precision
                             modify bind get ret raise]; simpl;
      rewrite ?Hpp3; simpl; rewrite ?Hpp; simpl;
      (eexists; split; [reflexivity | simpl; repeat split]).
Qed.


(** X3.  [load_state_dict] refuses a state and leaves the object exactly as it
    was, in this order: with a [ValueError] a state of another class;
    with a [TypeError] a saved [mean] of dimension zero, whose length is
    taken (such is the state of an object that was never fitted); with a
    [ValueError] a saved [mean] that has not [n_params] entries; and with
    a [ValueError] a state of another likelihood. *)
Theorem load_state_dict_rejects (t : ParametricLaplace) (sd : StateDict) :
  laplace_cls_eqb (cls t) (sd_cls_name sd) = false
  \/ (exists q, sd_mean sd = Scalar0 q)
  \/ (exists v, sd_mean sd = Vector1 v /\ length v <> n_params (base t))
  \/ likelihood (base t) <> sd_likelihood sd ->
  exists e, load_state_dict sd t = (t, Raise e)
    /\ (laplace_cls_eqb (cls t) (sd_cls_name sd) = false ->
        exists msg, e = ValueError msg)
    /\ (laplace_cls_eqb (cls t) (sd_cls_name sd) = true ->
        match sd_mean sd with
        | Scalar0 _ => exists msg, e = TypeError msg
        | Vector1 _ => exists msg, e = ValueError msg
        end).
Proof.
  intros Hrej.
  assert (Hp : exists e, parametric_load_state_dict sd t = (t, Raise e)
            /\ (laplace_cls_eqb (cls t) (sd_cls_name sd) = false ->
                exists msg, e = ValueError msg)
            /\ (laplace_cls_eqb (cls t) (sd_cls_name sd) = true ->
                match sd_mean sd with
                | Scalar0 _ => exists msg, e = TypeError msg
                | Vector1 _ => exists msg, e = ValueError msg
                end)).
  { unfold parametric_load_state_dict. cbv beta iota delta [bind get lift].
    destruct (laplace_cls_eqb (cls t) (sd_cls_name sd)) eqn:Ec; simpl.
    2:{ eexists. split; [reflexivity|]. split; [eauto | discriminate]. }
    destruct (sd_mean sd) as [q|v] eqn:Em; simpl.
    { eexists. split; [reflexivity|]. split; [discriminate | eauto]. }
    destruct (length v =? n_params (base t)) eqn:En; simpl.
    2:{ eexists. split; [reflexivity|]. split; [discriminate | eauto]. }
    apply Nat.eqb_eq in En.
    destruct Hrej as [Hrej|[[q Hq]|[[w [Hw Hlen]]|Hlik]]];
      [discriminate | discriminate | injection Hw as <-; contradiction |].
    apply String.eqb_neq in Hlik. rewrite Hlik. simpl.
    eexists. split; [reflexivity|]. split; [discriminate | eauto]. }
  destruct Hp as (e & Hp & H1 & H2). exists e.
  split; [|split; assumption].
  unfold load_state_dict, bind at 1, get at 1.
  destruct (cls t); try exact Hp.
  now rewrite (@bind_raise _ _ _ _ _ _ _ _ Hp).
Qed.

End PersistedFacts.

(* ================================================================== *)
(** ** What a fit leaves *)

Section FitLeaves.
Context {P : Predictor} {K : KronOps} {C : CurvatureInterface} {Nm : Numerics}
        {PK : PosteriorKernels}.

Lemma fit_leaves_ext o l b1 b2 b' :
  n_data b1 = n_data b2 -> parameters (model b1) = parameters (model b2) ->
  fit_leaves o l b1 b' -> fit_leaves o l b2 b'.
Proof.
  unfold fit_leaves. intros E1 E2 (Hn & Hk & Ht & Hp).
  rewrite <- E1, <- E2. auto.
Qed.

Lemma parametric_fit_leaves l o s s' :
  parametric_fit l o s = (s', Ok tt) -> fit_leaves o l (base s) (base s').
Proof.
  intros Hfit. rewrite parametric_fit_unfold in Hfit.
  destruct (batches l) as [|d bs]; [discriminate|].
  destruct (snd (first_forward d (fit_prelude o s))) as [out|]; [|discriminate].
  destruct (with_outputs_fields o (last_dim out) s) as (Htr & _ & Hno & Hos & _).
  pose proof (loop_frame_preserved (dataset_len l) (d :: bs)
                (with_outputs (last_dim out) (fit_prelude o s))) as Hfr.
  destruct (for_each _ _ _) as [L [[]|]]; [|discriminate].
  injection Hfit as <-. simpl in Hfr.
  destruct Hfr as (_ & _ & Em & _ & Eno & End & _).
  assert (Hnd : n_data (base (with_outputs (last_dim out) (fit_prelude o s)))
                = if o then 0 else n_data (base s)).
  { unfold with_outputs, fit_prelude. destruct o; reflexivity. }
  assert (Hps : parameters (model (base (with_outputs (last_dim out)
                                            (fit_prelude o s))))
                = parameters (model (base s))).
  { unfold with_outputs, fit_prelude.
    destruct o; simpl; [destruct (_init_H_frame s) as [_ ->]|]; reflexivity. }
  unfold fit_leaves, add_n_data. simpl. rewrite Em, Eno, End, Hnd.
  split; [reflexivity|]. split; [exists (last_dim out); auto|]. auto.
Qed.

Ltac keeps_base :=
  apply preserves_modify; intros [] ?; simpl in *; assumption.

Lemma _init_H_base b : preserves (fun s => base s = b) _init_H.
Proof. unfold _init_H. repeat preserves_step; keeps_base. Qed.

(** X4.  After [fit] has returned, for each of the four variants: [n_data] is
    the size of the data set, added to the former count unless the fit
    overrides; [n_outputs] and the attribute [output_size] of the predictor
    are the same number; the predictor is in evaluation mode, and its
    parameters are those it had. *)
Theorem fit_leaves_counts_and_predictor (l : DataLoader) (o : bool)
  (s s' : ParametricLaplace) :
  fit l o s = (s', Ok tt) -> fit_leaves o l (base s) (base s').
Proof.
  unfold fit, bind at 1, get at 1. destruct (cls s) eqn:Ec.
  - (* dense *)
    unfold full_fit. rewrite bind_modify. intros Hfit.
    apply parametric_fit_leaves in Hfit.
    eapply fit_leaves_ext; [| |exact Hfit]; destruct s as [[] ? ? ? ? ?];
      reflexivity.
  - (* Kronecker *)
    unfold kron_fit. intros Hfit.
    apply bind_inv_ok in Hfit. destruct Hfit as (s1 & [] & E1 & Hfit).
    assert (B1 : base s1 = base s).
    { assert (Hp : preserves (fun x => base x = base s)
                     (if o then modify (set_H_facs None) else ret tt))
        by (repeat preserves_step; keeps_base).
      specialize (Hp s eq_refl). now rewrite E1 in Hp. }
    unfold bind at 1, get at 1 in Hfit.
    apply bind_inv_ok in Hfit. destruct Hfit as (s2 & [] & E2 & Hfit).
    assert (B2 : base s2 = base s).
    { match type of E2 with ?m s1 = _ =>
        assert (Hp : preserves (fun x => base x = base s) m)
      end.
      { repeat first [ apply _init_H_base | preserves_step ]; keeps_base. }
      specialize (Hp s1 B1). now rewrite E2 in Hp. }
    apply bind_inv_ok in Hfit. destruct Hfit as (s3 & [] & E3 & Hfit).
    apply parametric_fit_leaves in E3. rewrite B2 in E3.
    match type of Hfit with ?m s3 = _ =>
      assert (Hp : preserves (fun x => base x = base s3) m)
    end.
    { repeat preserves_step; keeps_base. }
    specialize (Hp s3 eq_refl). rewrite Hfit in Hp. simpl in Hp.
    now rewrite Hp.
  - (* diagonal *)
    apply parametric_fit_leaves.
  - (* low rank *)
    unfold lowrank_fit. destruct o; simpl; [|discriminate].
    rewrite !bind_modify. unfold bind at 1, get at 1. intros Hfit.
    apply bind_inv_ok in Hfit. destruct Hfit as (s1 & out & E1 & Hfit).
    assert (B1 : s1 = set_mean (Vector1 (parameters_to_vector
                   (parameters (model (base
                      (set_base (set_model (eval_mode (model (base s))) (base s)) s))))))
                   (set_base (set_model (eval_mode (model (base s))) (base s)) s)).
    { revert E1. destruct (batches l) as [|[X y|X y] ?]; try discriminate.
      match goal with |- context [match ?r with _ => _ end] => destruct r as [?|[]] end;
        unfold lift; intros [= <- _]; reflexivity. }
    rewrite bind_modify in Hfit.
    apply bind_inv_ok in Hfit. destruct Hfit as (s2 & lk & E2 & Hfit).
    unfold bind at 1, get at 1 in Hfit.
    apply bind_inv_ok in Hfit. destruct Hfit as (s3 & [[U ev] ls] & E3 & Hfit).
    unfold lift in E3. injection E3 as <- _.
    rewrite !bind_modify in Hfit. unfold modify in Hfit. injection Hfit as <-.
    assert (B2 : exists bk, base s2 = set__backend bk
                   (base (set_base
                      (set_model (set_output_size (Some (last_dim out)) (model (base s1)))
                         (set_n_outputs (Some (last_dim out)) (base s1))) s1))).
    { revert E2. unfold on_base, backend, bind, get, modify, ret. simpl.
      destruct (_backend (base s1)) eqn:Eb; intros [= <- _]; simpl.
      - exists (_backend (base s1)). destruct s1 as [[] ? ? ? ? ?]. simpl in *.
        now rewrite Eb.
      - eexists. reflexivity. }
    destruct B2 as [bk B2]. subst s1.
    destruct s as [[[] ? ? ? ? ? ? ? ? ? ? ? ? ? ? ? ? ?] ? ? ? ? ?].
    destruct s2 as [b2 ? ? ? ? ?]. simpl in *. subst b2.
    unfold fit_leaves. simpl. repeat split. eexists; split; reflexivity.
Qed.

(** X5.  [fit] on a loader that yields no batch raises [StopIteration], for
    the dense and the diagonal variant of a model with at least one
    trainable parameter tensor.  A fit that does not override has
    by then changed neither [H], nor the loss, nor [n_data]; an overriding
    fit has already reset them to zero, so the former approximation is
    gone.  In both cases [mean] has been set to the trainable parameters. *)
Theorem fit_on_empty_loader (l : DataLoader) (o : bool) (s : ParametricLaplace) :
  batches l = [] ->
  cls s = FullLaplace \/ cls s = DiagLaplace ->
  params (base s) <> [] ->
  snd (fit l o s) = Raise StopIteration
  /\ mean (fst (fit l o s)) = Vector1 (trainable_vector s)
  /\ (o = false ->
      H (fst (fit l o s)) = H s
      /\ loss (base (fst (fit l o s))) = loss (base s)
      /\ n_data (base (fst (fit l o s))) = n_data (base s))
  /\ (o = true ->
      H (fst (fit l o s))
      = match cls s with
        | FullLaplace => HFull (zeros2 (n_params (base s)) (n_params (base s)))
        | _ => HDiag (zeros (n_params (base s)))
        end
      /\ loss (base (fst (fit l o s))) = 0%Q
      /\ n_data (base (fst (fit l o s))) = 0).
Proof.
  intros Hb Hc _.
  assert (E : fit l o s
              = (fit_prelude o (match cls s with
                                | FullLaplace => clear_scale s
                                | _ => s
                                end), Raise StopIteration)).
  { unfold fit, bind at 1, get at 1.
    destruct Hc as [Hc|Hc]; rewrite Hc.
    - unfold full_fit. rewrite bind_modify, parametric_fit_unfold, Hb. reflexivity.
    - rewrite parametric_fit_unfold, Hb. reflexivity. }
  rewrite E. simpl.
  destruct s as [[] c h mu hf dm]. simpl in *.
  destruct Hc as [-> | ->]; destruct o; unfold trainable_vector;
    cbv [fit_prelude clear_scale _init_H bind get modify]; simpl;
    repeat split; try reflexivity; try discriminate.
Qed.

End FitLeaves.

(* ================================================================== *)
(** ** Fitting again *)

Section Refit.
Context {P : Predictor} {K : KronOps} {C : CurvatureInterface} {Nm : Numerics}
        {PK : PosteriorKernels}.

Lemma fit_batch_with_backend N d s :
  cls s <> LowRankLaplace ->
  fit_batch N d (with_backend s) = fit_batch N d s.
Proof.
  intros Hc. rewrite !fit_batch_explicit.
  destruct s as [[] c h mu hf dm]. unfold with_backend, backend_likelihood.
  simpl in *. destruct c; try congruence; reflexivity.
Qed.

Lemma loop_with_backend N bs s :
  cls s <> LowRankLaplace -> bs <> [] ->
  for_each bs (fit_batch N) (with_backend s) = for_each bs (fit_batch N) s.
Proof.
  intros Hc Hne. destruct bs as [|d bs]; [congruence|]. simpl.
  unfold bind. now rewrite fit_batch_with_backend.
Qed.

Lemma fit_batch_result N d s :
  cls s <> LowRankLaplace -> loop_result s (fst (fit_batch N d s)).
Proof.
  intros Hc. rewrite fit_batch_explicit. unfold loop_result.
  destruct s as [[] c h mu hf dm]. unfold with_backend, backend_likelihood.
  simpl in *.
  destruct c; try congruence;
    match goal with |- context [curvature_of ?a ?b ?c0 ?d0 ?e ?f ?g] =>
      destruct (curvature_of a b c0 d0 e f g) as [r|e0]
    end; simpl; try reflexivity;
    match goal with |- context [H_iadd ?a ?b] =>
      destruct (H_iadd a b) as [h'|e1]
    end; reflexivity.
Qed.

Lemma loop_result_trans s1 s2 s3 :
  loop_result s1 s2 -> loop_result s2 s3 -> loop_result s1 s3.
Proof.
  unfold loop_result. intros E12 E23. rewrite E23 at 1. rewrite E12.
  destruct s1 as [[] ? ? ? ? ?]. reflexivity.
Qed.

(** The object after the loop of [fit] over a stream that is not empty:
    the one before it with the backend created, and some loss and [H]. *)
Lemma loop_explicit N bs s :
  cls s <> LowRankLaplace -> bs <> [] ->
  loop_result s (fst (for_each bs (fit_batch N) s)).
Proof.
  intros Hc Hne. destruct bs as [|d bs]; [congruence|]. clear Hne.
  revert d s Hc. induction bs as [|d' bs IH]; intros d s Hc.
  - simpl. unfold bind. pose proof (fit_batch_result N d s Hc) as E.
    destruct (fit_batch N d s) as [s1 [[]|e]]; exact E.
  - change (for_each (d :: d' :: bs) (fit_batch N) s)
      with (bind (fit_batch N d) (fun _ => for_each (d' :: bs) (fit_batch N)) s).
    unfold bind at 1. pose proof (fit_batch_result N d s Hc) as E.
    pose proof (fit_batch_frame N d s) as (Ec & _).
    destruct (fit_batch N d s) as [s1 [[]|e]]; simpl in E, Ec |- *; [|exact E].
    eapply loop_result_trans; [exact E|]. apply IH. now rewrite Ec.
Qed.

(** The dense and the diagonal [fit] start with the cached scale
    cleared, for the dense variant, and go on as [ParametricLaplace.fit]. *)
Lemma fit_as_parametric_fit l o s :
  cls s = FullLaplace \/ cls s = DiagLaplace ->
  fit l o s = parametric_fit l o (match cls s with
                                  | FullLaplace => clear_scale s
                                  | _ => s
                                  end).
Proof.
  intros Hc. unfold fit, bind at 1, get at 1.
  destruct Hc as [Hc|Hc]; rewrite Hc; [|reflexivity].
  unfold full_fit. now rewrite bind_modify.
Qed.

(** X6.  An overriding fit forgets what was fitted before: fitting again on the
    same stream, while the predictor gives outputs of the same size, gives
    the very same object.  For the dense and the diagonal variant. *)
Theorem overriding_fit_is_idempotent (l : DataLoader)
  (s s1 s2 : ParametricLaplace) :
  cls s = FullLaplace \/ cls s = DiagLaplace ->
  fit l true s = (s1, Ok tt) ->
  fit l true s1 = (s2, Ok tt) ->
  n_outputs (base s2) = n_outputs (base s1) ->
  s2 = s1.
Proof.
  intros Hc H1 H2 Hout.
  assert (Hc1 : cls s1 = cls s).
  { assert (Hk : kind_is (cls s) (likelihood (base s)) (reward_modeling (base s))
                    (fst (fit l true s))) by (apply fit_kind; repeat split).
    rewrite H1 in Hk. apply Hk. }
  rewrite fit_as_parametric_fit in H1 by exact Hc.
  rewrite fit_as_parametric_fit in H2 by (rewrite Hc1; exact Hc).
  rewrite Hc1 in H2.
  set (p := match cls s with FullLaplace => clear_scale s | _ => s end) in *.
  set (p1 := match cls s with FullLaplace => clear_scale s1 | _ => s1 end) in *.
  assert (Hcp : cls p <> LowRankLaplace).
  { unfold p. destruct Hc as [Hc|Hc]; rewrite Hc; simpl; rewrite ?Hc; congruence. }
  rewrite parametric_fit_unfold in H1, H2.
  destruct (batches l) as [|d bs] eqn:Eb; [discriminate|].
  destruct (snd (first_forward d (fit_prelude true p))) as [out1|]; [|discriminate].
  destruct (snd (first_forward d (fit_prelude true p1))) as [out2|]; [|discriminate].
  set (A := with_outputs (last_dim out1) (fit_prelude true p)) in *.
  set (B := with_outputs (last_dim out2) (fit_prelude true p1)) in *.
  assert (HcA : cls A <> LowRankLaplace).
  { unfold A. destruct (with_outputs_fields true (last_dim out1) p)
      as (_ & _ & _ & _ & E & _). now rewrite E. }
  pose proof (@loop_explicit (dataset_len l) (d :: bs) A HcA) as HL1.
  pose proof (loop_frame_preserved (dataset_len l) (d :: bs) B) as HfB.
  destruct (for_each (d :: bs) (fit_batch (dataset_len l)) A)
    as [L1 [[]|]] eqn:EA; [|discriminate].
  destruct (for_each (d :: bs) (fit_batch (dataset_len l)) B)
    as [L2 [[]|]] eqn:EB; [|discriminate].
  injection H1 as <-. injection H2 as <-.
  specialize (HL1 ltac:(discriminate)). simpl in HL1, HfB.
  assert (Hk : last_dim out2 = last_dim out1).
  { destruct HfB as (_ & _ & _ & _ & Eno & _).
    unfold add_n_data in Hout. simpl in Hout. rewrite Eno in Hout.
    rewrite HL1 in Hout. unfold B, A, with_outputs in Hout. simpl in Hout.
    congruence. }
  assert (HB : B = with_backend A).
  { unfold B, p1. rewrite Hk. rewrite HL1.
    unfold A, p. clear.
    destruct s as [[[] ? ? ? ? ? ? ? ? ? ? ? ? ? ? ? ? ?] c ? ? ? ?].
    destruct c; reflexivity. }
  rewrite HB, loop_with_backend in EB by (auto; discriminate).
  rewrite EA in EB. now injection EB as <-.
Qed.

End Refit.

(* ================================================================== *)
(** ** The scatter term *)

Section ScatterFacts.
Context {P : Predictor} {K : KronOps} {C : CurvatureInterface} {Nm : Numerics}
        {PK : PosteriorKernels}.

Lemma fold_left_Qplus_le (w : Vec) (a : Q) :
  Forall (fun x => 0 <= x)%Q w -> (a <= fold_left Qplus w a)%Q.
Proof.
  revert a. induction w as [|x w IH]; intros a Hw; simpl; [apply Qle_refl|].
  inversion Hw as [|? ? Hx Hw']; subst.
  eapply Qle_trans; [|apply IH; exact Hw'].
  rewrite <- (Qplus_0_r a) at 1. apply Qplus_le_compat; [apply Qle_refl | exact Hx].
Qed.

Lemma vsum_nonneg (w : Vec) : Forall (fun x => 0 <= x)%Q w -> (0 <= vsum w)%Q.
Proof. apply fold_left_Qplus_le. Qed.

Lemma fold_left_Qplus_zero (w : Vec) (a : Q) :
  Forall (fun x => x == 0)%Q w -> (fold_left Qplus w a == a)%Q.
Proof.
  revert a. induction w as [|x w IH]; intros a Hw; simpl; [reflexivity|].
  inversion Hw as [|? ? Hx Hw']; subst.
  rewrite IH by exact Hw'. rewrite Hx. ring.
Qed.

Lemma weighted_square_nonneg (x y : Q) : (0 <= y -> 0 <= x * y * x)%Q.
Proof.
  intros Hy. assert (E : (x * y * x == y * (x * x))%Q) by ring. rewrite E.
  apply Qmult_le_0_compat; [exact Hy|].
  destruct x as [n d]. unfold Qle, Qmult. simpl. nia.
Qed.

Lemma vmul_same_length (a b w : Vec) :
  vmul_same a b = Ok w -> length a = length b /\ length w = length a.
Proof.
  revert b w. induction a as [|x a IH]; intros [|y b] w E; simpl in *;
    try discriminate.
  - injection E as <-. auto.
  - destruct (vmul_same a b) as [r|] eqn:Er; [|discriminate].
    injection E as <-. destruct (IH _ _ Er) as [E1 E2]. simpl.
    rewrite E1, E2. auto.
Qed.

(** The entries of [(d * p) * d] for [p] of the length of [d]. *)
Lemma weighted_squares_same (d p dp w : Vec) :
  vmul_same d p = Ok dp -> vmul_same dp d = Ok w ->
  Forall (fun x => 0 <= x)%Q p -> Forall (fun x => 0 <= x)%Q w.
Proof.
  revert p dp w. induction d as [|x d IH]; intros [|y p] dp w E1 E2 Hp;
    simpl in *; try discriminate.
  - injection E1 as <-. simpl in E2. injection E2 as <-. constructor.
  - destruct (vmul_same d p) as [r|] eqn:Er; [|discriminate].
    injection E1 as <-. simpl in E2.
    destruct (vmul_same r d) as [r'|] eqn:Er'; [|discriminate].
    injection E2 as <-. inversion Hp as [|? ? Hy Hp']; subst.
    constructor; [now apply weighted_square_nonneg | eapply IH; eauto].
Qed.

(** The entries of [(d * y) * d] for a single [y]. *)
Lemma weighted_squares_scalar (d w : Vec) (y : Q) :
  vmul_same (map (fun x => x * y)%Q d) d = Ok w ->
  (0 <= y)%Q -> Forall (fun x => 0 <= x)%Q w.
Proof.
  revert w. induction d as [|x d IH]; intros w E Hy; simpl in *.
  - injection E as <-. constructor.
  - destruct (vmul_same _ d) as [r|] eqn:Er; [|discriminate].
    injection E as <-.
    constructor; [now apply weighted_square_nonneg | now apply IH].
Qed.

Lemma weighted_dot_nonneg (d p dp : Vec) (q : Q) :
  vmul d p = Ok dp -> dot dp d = Ok q ->
  Forall (fun x => 0 <= x)%Q p -> (0 <= q)%Q.
Proof.
  unfold vmul, dot. intros E1 E2 Hp.
  destruct (vmul_same dp d) as [w|] eqn:Ew; [|discriminate].
  simpl in E2. injection E2 as <-. apply vsum_nonneg.
  revert E1. destruct (length d =? length p) eqn:El; intros E1.
  - eapply weighted_squares_same; eauto.
  - apply Nat.eqb_neq in El. destruct (vmul_same_length _ _ Ew) as [Hl _].
    destruct d as [|x [|x' d]].
    + destruct p as [|y [|y' p]]; try discriminate; simpl in *; try congruence.
      injection E1 as <-. simpl in Ew. injection Ew as <-. constructor.
    + injection E1 as <-. unfold vscale in Hl. rewrite length_map in Hl.
      simpl in *. congruence.
    + destruct p as [|y [|y' p]]; try discriminate.
      injection E1 as <-. inversion Hp; subst.
      apply (@weighted_squares_scalar (x :: x' :: d) w y); assumption.
Qed.

(** X7.  The scatter term of the marginal likelihood,
    [(mean - prior_mean) P_0 (mean - prior_mean)], is not negative when no
    entry of the prior precision is, and is zero when [mean] is the prior
    mean. *)
Theorem scatter_nonnegative (s : ParametricLaplace) (p0 : Vec) (q : Q) :
  prior_precision_diag (base s) = Ok p0 ->
  Forall (fun x => 0 <= x)%Q p0 ->
  scatter s = Ok q ->
  (0 <= q)%Q
  /\ (_prior_mean (base s) = mean s -> q == 0)%Q.
Proof.
  unfold scatter. intros Hp0 Hpos Hq. rewrite Hp0 in Hq.
  destruct (tsub (mean s) (_prior_mean (base s))) as [[x|d]|] eqn:Ed;
    simpl in Hq; try discriminate.
  destruct (vmul d p0) as [dp|] eqn:Edp; simpl in Hq; [|discriminate].
  split; [eapply weighted_dot_nonneg; eauto|].
  intros Em. rewrite Em in Ed.
  assert (Hd : Forall (fun x => x == 0)%Q d).
  { clear -Ed. destruct (mean s) as [x|v]; simpl in Ed; [discriminate|].
    rewrite Nat.eqb_refl in Ed.
    destruct (vadd v (map Qopp v)) as [r|] eqn:Er; [|discriminate].
    injection Ed as <-. revert r Er.
    induction v as [|x v IH]; intros r Er; simpl in Er.
    - injection Er as <-. constructor.
    - destruct (vadd v (map Qopp v)) as [r'|]; [|discriminate].
      injection Er as <-. constructor; [ring | now apply IH]. }
  unfold dot in Hq.
  destruct (vmul_same dp d) as [w|] eqn:Ew; [|discriminate].
  injection Hq as <-. unfold vsum. rewrite fold_left_Qplus_zero; [reflexivity|].
  clear -Hd Ew. revert dp w Ew.
  induction Hd as [|x d Hx Hd IH]; intros [|y dp] w Ew; simpl in Ew;
    try discriminate.
  - injection Ew as <-. constructor.
  - destruct (vmul_same dp d) as [r|] eqn:Er; [|discriminate].
    injection Ew as <-. constructor; [rewrite Hx; ring | eapply IH; eauto].
Qed.

End ScatterFacts.

(* ================================================================== *)
(** ** Before the first fit *)

Section BeforeFit.
Context {P : Predictor} {K : KronOps} {C : CurvatureInterface} {Nm : Numerics}
        {PK : PosteriorKernels}.

Lemma parametric_init_H c d cfg s :
  parametric_init c d cfg = Ok s ->
  cls s = c
  /\ H s = match c with
           | FullLaplace => HFull (zeros2 (n_params (base s)) (n_params (base s)))
           | KronLaplace =>
               HKron (init_from_model
                        (map (deref (model (base s))) (params (base s))))
           | DiagLaplace => HDiag (zeros (n_params (base s)))
           | LowRankLaplace => HNone
           end.
Proof.
  unfold parametric_init.
  match goal with |- context [base_init ?st ?cf] =>
    destruct (base_init st cf) as [b|e]; [|discriminate]
  end.
  simpl. intros [= <-]. unfold _init_H, bind, get, modify. simpl.
  destruct c; simpl; split; reflexivity.
Qed.

Lemma zeros2_shape n k : has_shape (zeros2 n k) n k.
Proof.
  unfold zeros2, has_shape. split; [apply repeat_length|].
  apply Forall_forall. intros r Hr. apply repeat_spec in Hr. subst.
  apply zeros_length.
Qed.

Lemma zeros2_nth n k i j : mnth (zeros2 n k) i j = 0%Q.
Proof.
  unfold mnth, zeros2. revert i.
  induction n as [|n IH]; intros [|i]; simpl;
    first [now destruct j | apply zeros_nth | apply IH].
Qed.

(** X8.  Before any fit, with an observation noise and a temperature other
    than zero, the dense and the diagonal approximation already have a
    posterior precision, the prior precision alone; the low-rank one has
    none: [posterior_precision] and [state_dict] raise the error of an
    approximation that is not fitted. *)
Theorem posterior_precision_before_fit (c : laplace_cls) (d : bool)
  (cfg : Config) (s : ParametricLaplace) :
  parametric_init c d cfg = Ok s ->
  ~ (_sigma_noise (base s) == 0)%Q -> ~ (temperature (base s) == 0)%Q ->
  exists p0, prior_precision_diag (base s) = Ok p0
  /\ match c with
     | FullLaplace =>
         exists m, posterior_precision s = Ok (PFull m)
           /\ has_shape m (n_params (base s)) (n_params (base s))
           /\ forall i j, i < n_params (base s) -> j < n_params (base s) ->
                (mnth m i j == if i =? j then vnth p0 i else 0)%Q
     | DiagLaplace =>
         exists v, posterior_precision s = Ok (PDiag v)
           /\ length v = n_params (base s)
           /\ forall i, i < n_params (base s) -> (vnth v i == vnth p0 i)%Q
     | LowRankLaplace =>
         posterior_precision s
         = Raise (AttributeError "Laplace not fitted. Run fit() first.")
         /\ state_dict s
            = Raise (AttributeError "Laplace not fitted. Run fit() first.")
     | KronLaplace => True
     end.
Proof.
  intros Hinit _ _.
  destruct (parametric_init_H _ _ _ Hinit) as [Hc HH].
  pose proof (parametric_init_shaped _ _ _ Hinit) as Hsh.
  destruct (@shaped_well_formed cfg (base s) Hsh) as [Hco _].
  destruct (prior_precision_diag_defined Hco (proj2 Hsh)) as (p0 & Hp0 & Hlen).
  exists p0. split; [exact Hp0|].
  destruct c.
  - unfold posterior_precision, _check_H_init. rewrite Hc, HH. simpl.
    rewrite Hp0. simpl.
    set (n := n_params (base s)) in *.
    assert (Hsh0 := zeros2_shape n n).
    assert (Hsc := mscale_shape (_H_factor (base s)) Hsh0).
    assert (Hd := diag_shape p0). rewrite Hlen in Hd.
    destruct (madd_same_shape Hsc Hd) as [m Hm]. rewrite Hm. simpl.
    exists m. split; [reflexivity|].
    destruct (madd_shape _ Hm Hsc) as [Hms _]. split; [assumption|].
    intros i j Hi Hj.
    rewrite (madd_nth _ _ Hm).
    + rewrite mscale_nth.
      * rewrite diag_nth by lia. rewrite zeros2_nth. ring.
      * destruct Hsh0. lia.
      * rewrite (has_shape_nth Hsh0 Hi). assumption.
    + destruct Hsc. lia.
    + rewrite (has_shape_nth Hsc Hi). assumption.
  - exact I.
  - unfold posterior_precision, _check_H_init. rewrite Hc, HH. simpl.
    rewrite Hp0. simpl.
    destruct (vadd_same_length (vscale (_H_factor (base s))
                                  (zeros (n_params (base s)))) p0) as [v Hv].
    { rewrite vscale_length, zeros_length. congruence. }
    rewrite Hv. simpl. exists v. split; [reflexivity|].
    destruct (vadd_length _ _ Hv) as [Hlv _].
    rewrite vscale_length, zeros_length in Hlv.
    split; [congruence|].
    intros i Hi.
    rewrite (vadd_nth _ _ Hv) by (rewrite vscale_length, zeros_length; lia).
    rewrite vscale_nth by (rewrite zeros_length; lia).
    unfold vnth at 1. rewrite zeros_nth. ring.
  - unfold posterior_precision, state_dict, _check_H_init. rewrite HH.
    split; reflexivity.
Qed.

End BeforeFit.

(* ================================================================== *)
(** ** The marginal likelihood and the setters *)

Section MarglikFacts.
Context {P : Predictor} {K : KronOps} {C : CurvatureInterface} {Nm : Numerics}
        {PK : PosteriorKernels}.

Lemma same_but_hyperparameters_refl s : same_but_hyperparameters s s.
Proof.
  exists (_prior_precision (base s)), (_sigma_noise (base s)),
    (_posterior_scale (base s)).
  destruct s as [[] ? ? ? ? ?]. reflexivity.
Qed.

Lemma setter_same_but_hyperparameters s0 (m : Act BaseLaplace unit) :
  (forall b, exists pp sn ps,
      fst (m b) = set__posterior_scale ps (set__sigma_noise sn
                    (set__prior_precision pp b))) ->
  preserves (same_but_hyperparameters s0) (on_base m).
Proof.
  intros Hm s (pp0 & sn0 & ps0 & ->). unfold on_base. simpl.
  match goal with |- context [m ?b] =>
    destruct (Hm b) as (pp & sn & ps & E); rewrite E
  end.
  exists pp, sn, ps. destruct s0 as [[] ? ? ? ? ?]. reflexivity.
Qed.

Ltac writes_only :=
  match goal with
  | |- exists pp sn ps, ?x = _ =>
      exists (_prior_precision x), (_sigma_noise x), (_posterior_scale x);
      reflexivity
  end.

Lemma set_prior_precision_writes p b :
  exists pp sn ps,
    fst (set_prior_precision p b)
    = set__posterior_scale ps (set__sigma_noise sn (set__prior_precision pp b)).
Proof.
  unfold set_prior_precision. cbv beta iota delta [bind modify get raise].
  destruct b. destruct p; simpl;
    try (match goal with |- context [negb ?c] => destruct c end; simpl);
    writes_only.
Qed.

Lemma prior_precision_setter_writes c p b :
  exists pp sn ps,
    fst (prior_precision_setter c p b)
    = set__posterior_scale ps (set__sigma_noise sn (set__prior_precision pp b)).
Proof.
  destruct c; simpl; try apply set_prior_precision_writes.
  unfold kron_set_prior_precision. unfold bind at 1.
  destruct (set_prior_precision_writes p b) as (pp & sn & ps & E).
  destruct (set_prior_precision p b) as [b1 [[]|e]]; simpl in *.
  - cbv beta iota delta [bind get raise ret].
    destruct (negb _); simpl; exists pp, sn, ps; exact E.
  - exists pp, sn, ps; exact E.
Qed.

Lemma set_sigma_noise_writes p b :
  exists pp sn ps,
    fst (set_sigma_noise p b)
    = set__posterior_scale ps (set__sigma_noise sn (set__prior_precision pp b)).
Proof.
  unfold set_sigma_noise. cbv beta iota delta [bind modify get raise].
  destruct b. destruct p as [q|q|[|q [|q' v]]| |]; simpl; writes_only.
Qed.

(** X9.  [log_marginal_likelihood] changes nothing in the object but the prior
    precision, the noise and the cached scale, whether it returns or
    raises; without arguments it changes nothing; and a prior precision
    passed as a number stays stored after the call. *)
Theorem log_marginal_likelihood_frame (p sn : option pyarg)
  (s : ParametricLaplace) :
  same_but_hyperparameters s (fst (log_marginal_likelihood p sn s))
  /\ (p = None -> sn = None -> fst (log_marginal_likelihood p sn s) = s)
  /\ (forall q, p = Some (PyFloat q) -> sn = None ->
        _prior_precision (base (fst (log_marginal_likelihood p sn s))) = [q]).
Proof.
  split; [|split].
  - assert (Hp : preserves (same_but_hyperparameters s)
                   (log_marginal_likelihood p sn)).
    { unfold log_marginal_likelihood.
      repeat first
        [ apply setter_same_but_hyperparameters;
          first [ apply prior_precision_setter_writes
                | apply set_sigma_noise_writes ]
        | preserves_step ]. }
    apply Hp, same_but_hyperparameters_refl.
  - intros -> ->. unfold log_marginal_likelihood.
    cbv beta iota delta [bind ret get lift].
    destruct (log_likelihood (base s)); [|reflexivity].
    destruct (log_det_ratio s); [|reflexivity].
    destruct (scatter s); reflexivity.
  - intros q -> ->. unfold log_marginal_likelihood.
    assert (E : forall c b, prior_precision_setter c (PyFloat q) b
                  = (set__prior_precision [q] (set__posterior_scale None b), Ok tt)).
    { intros c b. destruct c; reflexivity. }
    cbv beta iota delta [bind ret get lift on_base]. rewrite E. simpl.
    destruct s as [[] ? ? ? ? ?]. simpl.
    repeat match goal with
           | |- context [match ?r with Ok _ => _ | Raise _ => _ end] =>
               destruct r; simpl
           end; reflexivity.
Qed.

(** X10.  The setter of the Kronecker variant checks the length after the
    assignment of the base class: a prior precision per parameter, which
    the variant refuses, is stored when the error is raised; the setter of
    the base class leaves the stored value when it raises. *)
Theorem kron_prior_precision_refused_after_assignment (b : BaseLaplace)
  (v : Vec) :
  length v = n_params b -> length v <> 1 -> length v <> n_layers b ->
  kron_set_prior_precision (Tensor1 v) b
  = (set__prior_precision v (set__posterior_scale None b),
     Raise (ValueError "Prior precision for Kron either scalar or per-layer."))
  /\ forall p e, snd (set_prior_precision p b) = Raise e ->
       _prior_precision (fst (set_prior_precision p b)) = _prior_precision b.
Proof.
  intros Hn H1 Hk. split.
  - unfold kron_set_prior_precision, set_prior_precision.
    cbv beta iota delta [bind modify get ret raise]. destruct b. simpl in *.
    apply Nat.eqb_neq in H1, Hk. apply Nat.eqb_eq in Hn.
    unfold nat_in. simpl. rewrite H1, Hk, Hn. simpl.
    rewrite ?H1, ?Hk. reflexivity.
  - intros p e. unfold set_prior_precision.
    cbv beta iota delta [bind modify get ret raise]. destruct b.
    destruct p; simpl; try discriminate; try reflexivity.
    match goal with |- context [negb ?c] => destruct c end; simpl;
      [discriminate | reflexivity].
Qed.

End MarglikFacts.

(* ================================================================== *)
(** ** The flags of a function-space object *)

Lemma ensures_bind {S A B} (J : S -> Prop) (m : Act S A) (f : A -> Act S B) :
  (forall a, ensures J (f a)) -> ensures J (bind m f).
Proof.
  intros Hf s b. unfold bind. destruct (m s) as [s1 [a|e]]; simpl.
  - apply Hf.
  - discriminate.
Qed.

Lemma ensures_raise {S A} (J : S -> Prop) e : ensures J (@raise S A e).
Proof. intros s a. discriminate. Qed.

Lemma keeps_on_raise_bind {S A B} (I : S -> Prop) (m : Act S A)
  (f : A -> Act S B) :
  preserves I m -> (forall a, keeps_on_raise I (f a)) ->
  keeps_on_raise I (bind m f).
Proof.
  intros Hm Hf s e Hs. unfold bind. specialize (Hm s Hs).
  destruct (m s) as [s1 [a|e1]]; simpl in *.
  - now apply Hf.
  - intros _. exact Hm.
Qed.

Lemma keeps_on_raise_preserves {S A} (I : S -> Prop) (m : Act S A) :
  preserves I m -> keeps_on_raise I m.
Proof. intros Hm s e Hs _. now apply Hm. Qed.

Lemma keeps_on_raise_modify {S} (I : S -> Prop) (g : S -> S) :
  keeps_on_raise I (modify g).
Proof. intros s e _. discriminate. Qed.

Section FunctionalFlags.
Context {P : Predictor} {C : CurvatureInterface} {G : GPKernels}.

Ltac flags_modify :=
  apply preserves_modify; intros [? ? ? ? ? ? ? ? ? ? ? ? ? ?] ?;
  unfold on_flags in *; simpl in *;
  repeat match goal with
         | |- context [match ?x with _ => _ end] => destruct x; simpl
         end;
  solve [auto].

Lemma on_fbase_flags {A} I (m : Act BaseLaplace A) :
  preserves (on_flags I) (on_fbase m).
Proof.
  intros s Hs. unfold on_fbase, on_flags in *. simpl. destruct s. exact Hs.
Qed.

(** What keeps a property of the flags: everything but the assignments
    [_fitted = True] and [_recompute_Sigma = True]. *)
Lemma functional_predict_flags I x a :
  preserves (on_flags I) (functional_predict x a).
Proof.
  unfold functional_predict, functional_glm_predictive_distribution,
    functional_predictive_samples, _jacobians.
  repeat first [ apply on_fbase_flags | preserves_step ]; flags_modify.
Qed.

Lemma _build_Sigma_inv_flags I : preserves (on_flags I) _build_Sigma_inv.
Proof. unfold _build_Sigma_inv. repeat preserves_step; flags_modify. Qed.

Lemma functional_call_flags I x a :
  preserves (on_flags I) (functional_call x a).
Proof.
  unfold functional_call.
  repeat first [ apply functional_predict_flags | apply _build_Sigma_inv_flags
               | preserves_step ].
Qed.

Lemma _jacobians_flags I X : preserves (on_flags I) (_jacobians X).
Proof.
  unfold _jacobians. repeat first [ apply on_fbase_flags | preserves_step ].
Qed.

Lemma fit_inner_flags I Js i bs :
  forall j, preserves (on_flags I) (fit_inner Js i j bs).
Proof.
  induction bs as [|d bs IH]; intros j; simpl.
  - apply preserves_ret.
  - unfold batch_input, _kernel_batch, _store_K_batch.
    repeat first [ apply _jacobians_flags | apply IH | preserves_step ];
      flags_modify.
Qed.

Lemma fit_outer_flags I loader_ bs :
  forall i ls ms, preserves (on_flags I) (fit_outer loader_ i bs ls ms).
Proof.
  induction bs as [|d bs IH]; intros i ls ms; simpl.
  - apply preserves_ret.
  - unfold batch_input, _mean_scatter_term_batch.
    repeat first [ apply _jacobians_flags | apply fit_inner_flags | apply IH
                 | apply on_fbase_flags | preserves_step ];
      flags_modify.
Qed.

Lemma functional_fit_flags I loader :
  (forall f r, I f r -> I true r) ->
  preserves (on_flags I) (functional_fit loader).
Proof.
  intros HI. unfold functional_fit, batch_input.
  repeat first [ apply fit_outer_flags | apply _build_Sigma_inv_flags
               | preserves_step ];
    try flags_modify.
  apply preserves_modify. intros [] Hs. unfold on_flags in *. simpl in *.
  eapply HI; eauto.
Qed.

Lemma run_fop_flags I o :
  (forall f r, I f r -> I true r) -> (forall f r, I f r -> I f true) ->
  preserves (on_flags I) (run_fop o).
Proof.
  intros Hf Hr. destruct o; simpl.
  - now apply functional_fit_flags.
  - apply preserves_discard, functional_call_flags.
  - unfold functional_set_prior_precision.
    repeat first [ apply on_fbase_flags | preserves_step ].
    apply preserves_modify. intros [] Hs. unfold on_flags in *. simpl in *.
    eapply Hr; eauto.
  - apply on_fbase_flags.
  - apply on_fbase_flags.
Qed.

Lemma run_fops_flags I os s :
  (forall f r, I f r -> I true r) -> (forall f r, I f r -> I f true) ->
  on_flags I s -> on_flags I (run_fops os s).
Proof.
  intros Hf Hr. revert s. induction os as [|o os IH]; intros s Hs; simpl;
    [exact Hs|].
  apply IH. now apply run_fop_flags.
Qed.

Lemma functional_init_flags M_arg dk sd cfg s :
  functional_init M_arg dk sd cfg = Ok s ->
  _fitted s = false /\ _recompute_Sigma s = true.
Proof.
  unfold functional_init.
  destruct (cfg_backend cfg) as [[]|]; try discriminate;
    destruct (_check_prior_precision _); try discriminate; simpl;
    destruct (base_init _ _); try discriminate; simpl;
    intros [= <-]; split; reflexivity.
Qed.

Lemma functional_fit_raise_keeps_flags I l :
  keeps_on_raise (on_flags I) (functional_fit l).
Proof.
  unfold functional_fit, batch_input. cbv zeta.
  repeat first
    [ apply keeps_on_raise_modify
    | apply keeps_on_raise_bind;
      [ repeat first [ apply fit_outer_flags | apply _build_Sigma_inv_flags
                     | preserves_step ]; try flags_modify
      | intros ? ] ].
Qed.

Lemma functional_fit_ensures_fitted l :
  ensures (fun s => _fitted s = true) (functional_fit l).
Proof.
  unfold functional_fit. cbv zeta.
  repeat first [ apply ensures_bind; intros ? ].
  intros [] ? _. reflexivity.
Qed.

(** X11.  A function-space approximation predicts only after a fit that returned.
    The object the constructor returns is unfitted; a predictive call on it
    raises [RuntimeError] and changes nothing; and a fit that raises, at
    whatever point, leaves it unfitted, so that the next call raises
    [RuntimeError] again. *)
Theorem functional_call_before_fit (M_arg : option nat) (dk : bool)
  (sd : nat) (cfg : Config) (s0 : FunctionalLaplace) (x : Input)
  (a : CallArgs) :
  functional_init M_arg dk sd cfg = Ok s0 ->
  (exists msg, functional_call x a s0 = (s0, Raise (RuntimeError msg)))
  /\ (forall l e, snd (functional_fit l s0) = Raise e ->
      let s1 := fst (functional_fit l s0) in
      exists msg, functional_call x a s1 = (s1, Raise (RuntimeError msg))).
Proof.
  intros Hinit. apply functional_init_flags in Hinit as [H0 _].
  assert (Hcall : forall s, _fitted s = false ->
            exists msg, functional_call x a s = (s, Raise (RuntimeError msg))).
  { intros s Hf. unfold functional_call, bind, get. rewrite Hf. simpl.
    eexists. reflexivity. }
  split; [now apply Hcall|]. intros l e Hr s1. apply Hcall.
  apply (@functional_fit_raise_keeps_flags (fun f _ => f = false) l s0 e);
    assumption.
Qed.

(** X12.  Once a fit has returned, the object stays fitted: no later fit, whether
    it returns or raises, no predictive call and no assignment of the prior
    precision, the prior mean or the observation noise clears [_fitted]. *)
Theorem functional_fitted_is_kept (l : DataLoader)
  (s s' : FunctionalLaplace) (os : list fop) :
  functional_fit l s = (s', Ok tt) -> _fitted (run_fops os s') = true.
Proof.
  intros Hfit.
  apply (@run_fops_flags (fun f _ => f = true) os s'); auto.
  unfold on_flags.
  pose proof (@functional_fit_ensures_fitted l s tt) as He.
  rewrite Hfit in He. now apply He.
Qed.

(** X13.  The flag [_recompute_Sigma] is set by the constructor and by the
    setter of the prior precision, and nothing clears it: on every object
    that the constructor returned, after any sequence of fits, predictive
    calls and assignments of the prior precision, the prior mean and the
    observation noise, it is set, so every predictive call on a fitted object builds [Sigma_inv]
    anew before it predicts, whether or not the prior precision has
    changed since the last call. *)
Theorem every_call_rebuilds_Sigma_inv (M_arg : option nat) (dk : bool)
  (sd : nat) (cfg : Config) (s0 : FunctionalLaplace) (os : list fop)
  (x : Input) (a : CallArgs) :
  functional_init M_arg dk sd cfg = Ok s0 ->
  let s := run_fops os s0 in
  _recompute_Sigma s = true
  /\ (_fitted s = true ->
      functional_call x a s
      = match built_Sigma_inv s with
        | Ok k => functional_predict x a (set_Sigma_inv k s)
        | Raise e => (s, Raise e)
        end).
Proof.
  intros Hinit s.
  apply functional_init_flags in Hinit as [_ H0].
  assert (Hr : _recompute_Sigma s = true).
  { apply (@run_fops_flags (fun _ r => r = true) os s0); auto. }
  split; [exact Hr|]. intros Hf.
  unfold functional_call. cbv beta iota delta [bind get].
  rewrite Hf, Hr. simpl. unfold _build_Sigma_inv.
  cbv beta iota delta [bind get lift modify].
  destruct (built_Sigma_inv s); reflexivity.
Qed.

End FunctionalFlags.

(* ================================================================== *)
(** ** What a linearized prediction writes *)

Section GlmFrameFacts.
Context {P : Predictor} {K : KronOps} {C : CurvatureInterface}
  {N : Numerics} {PK : PosteriorKernels}.

Lemma same_but_backend_refl s : same_but_backend s s.
Proof. exists (_backend (base s)). destruct s as [[] ? ? ? ? ?]. reflexivity. Qed.

Lemma backend_same_but_backend s0 :
  preserves (same_but_backend s0) (on_base backend).
Proof.
  intros s [bk ->]. unfold on_base, backend.
  cbv beta iota delta [bind get modify ret].
  destruct s0 as [[] ? ? ? ? ?]. simpl. destruct bk; simpl.
  - eexists. reflexivity.
  - eexists. reflexivity.
Qed.

Lemma _glm_predictive_distribution_same_but_backend s0 X j :
  preserves (same_but_backend s0) (_glm_predictive_distribution X j).
Proof.
  unfold _glm_predictive_distribution.
  repeat first [ apply backend_same_but_backend | preserves_step ].
Qed.

Lemma glm_branch_preserves I x a :
  preserves I (on_base backend) -> preserves I (glm_branch x a).
Proof.
  intros Hb.
  assert (Hg : forall X j, preserves I (_glm_predictive_distribution X j)).
  { intros X j. unfold _glm_predictive_distribution.
    repeat first [ exact Hb | preserves_step ]. }
  unfold glm_branch, predictive_samples.
  change (negb (string_in "glm" ["glm"; "nn"])) with false.
  change ("glm" =? "glm")%string with true. cbv iota.
  repeat first [ apply Hg | preserves_step ].
Qed.

Lemma parametric_call_glm x a s :
  pred_type a = "glm" ->
  parametric_call x a s
  = match check_call_args a with
    | Ok _ => glm_branch x a (set_base (switch_reward_modeling (base s)) s)
    | Raise e => (s, Raise e)
    end.
Proof.
  intros Hg. unfold parametric_call. rewrite Hg. simpl String.eqb. cbv iota.
  unfold bind at 1. unfold lift at 1.
  destruct (check_call_args a) as [[]|e]; [|reflexivity].
  unfold bind at 1. unfold modify at 1. reflexivity.
Qed.

(** X14.  On the diagonal, the Kronecker and the low-rank variant, whose
    [functional_variance] caches nothing, a prediction with
    [pred_type='glm'] reads the approximation and writes nothing but the
    cached backend object (and, for reward modeling, the switch of the
    likelihood at the head of the call): the mean, [H], the loss, the
    hyperparameters and the parameters of the predictor are those before
    the call, whether the call returns or raises.  With rejected
    arguments the object is unchanged; and once the backend object
    exists, a call on an object that is not in reward modeling leaves the
    object as it was.  The dense variant is left out: its
    [functional_variance] reads [posterior_covariance], which stores the
    scale it computes in [_posterior_scale]. *)
Theorem glm_call_frame (x : Input) (a : CallArgs) (s : ParametricLaplace) :
  pred_type a = "glm" ->
  cls s <> FullLaplace ->
  let s' := fst (parametric_call x a s) in
  (forall e, check_call_args a = Raise e -> parametric_call x a s = (s, Raise e))
  /\ (check_call_args a = Ok tt ->
      same_but_backend (set_base (switch_reward_modeling (base s)) s) s')
  /\ (reward_modeling (base s) = false -> _backend (base s) <> None -> s' = s).
Proof.
  intros Hg _ s'. unfold s'. rewrite (@parametric_call_glm x a s Hg).
  split; [|split].
  - intros e ->. reflexivity.
  - intros ->.
    apply glm_branch_preserves;
      [apply backend_same_but_backend | apply same_but_backend_refl].
  - intros Hrm Hb. destruct (check_call_args a) as [[]|e]; [|reflexivity].
    assert (Hsw : set_base (switch_reward_modeling (base s)) s = s).
    { unfold switch_reward_modeling. rewrite Hrm. simpl.
      destruct s as [[] ? ? ? ? ?]. reflexivity. }
    rewrite Hsw.
    apply (@glm_branch_preserves (fun t => t = s) x a); [|reflexivity].
    intros t ->. unfold on_base, backend.
    cbv beta iota delta [bind get modify ret].
    destruct s as [[? ? ? ? ? ? ? ? ? ? ? ? bk ? ? ? ? ?] ? ? ? ? ?].
    simpl in *. destruct bk; [reflexivity | contradiction].
Qed.

End GlmFrameFacts.

(* ================================================================== *)
(** ** What the constructors store *)

Section Constructors.
Context {P : Predictor}.

Lemma set_prior_mean_ok_inv p b b' :
  set_prior_mean p b = (b', Ok tt) -> exists pm, b' = set__prior_mean pm b.
Proof.
  unfold set_prior_mean. cbv beta iota delta [bind modify get raise].
  destruct p; simpl; try discriminate;
    try (intros [= <-]; eexists; reflexivity).
  match goal with |- context [negb ?c] => destruct c end; simpl;
    first [discriminate | intros [= <-]; eexists; reflexivity].
Qed.

Lemma set_sigma_noise_ok_inv p b b' :
  set_sigma_noise p b = (b', Ok tt) ->
  exists q, scalar_of p = Some q
            /\ b' = set__sigma_noise q (set__posterior_scale None b).
Proof.
  unfold set_sigma_noise. cbv beta iota delta [bind modify get raise].
  destruct p as [q|q|[|q [|q' v]]| |]; simpl; try discriminate;
    intros [= <-]; exists q; split; reflexivity.
Qed.

Lemma ne_one_scalar p q :
  scalar_of p = Some q -> ne_one p = Ok (negb (Qeq_bool q 1)).
Proof.
  destruct p as [x|x|[|x [|x' v]]| |]; simpl; try discriminate;
    intros [= ->]; reflexivity.
Qed.

(** The object that [BaseLaplace.__init__] returns, attribute by
    attribute, from the object that the setter of the prior precision
    left. *)
Lemma base_init_explicit setter cfg b :
  base_init setter cfg = Ok b ->
  exists b1 pm q,
    setter (cfg_prior_precision cfg) (blank cfg) = (b1, Ok tt)
    /\ scalar_of (cfg_sigma_noise cfg) = Some q
    /\ (Qeq_bool q 1 = true \/ cfg_likelihood cfg = "regression")
    /\ is_subset_params b1
       && match cfg_backend cfg with Some c => is_backpack c | None => false end
       = false
    /\ b = set__backend_cls
             (match cfg_backend cfg with Some c => c | None => CurvlinopsGGN end)
             (set__sigma_noise q
                (set__posterior_scale None
                   (set_likelihood
                      (if (cfg_likelihood cfg =? "reward_modeling")%string
                       then "classification" else cfg_likelihood cfg)
                      (set_reward_modeling
                         (cfg_likelihood cfg =? "reward_modeling")%string
                         (set__prior_mean pm b1))))).
Proof.
  unfold base_init.
  destruct (negb (string_in _ _)); [discriminate|].
  destruct (base_init_steps setter cfg (blank cfg)) as [b' [[]|e]] eqn:E;
    [|discriminate].
  intros [= <-]. unfold base_init_steps in E.
  apply bind_inv_ok in E. destruct E as (b1 & [] & E1 & E).
  apply bind_inv_ok in E. destruct E as (b2 & [] & E2 & E).
  apply bind_inv_ok in E. destruct E as (b3 & bb & E3 & E).
  apply set_prior_mean_ok_inv in E2. destruct E2 as (pm & ->).
  unfold lift in E3.
  destruct (ne_one (cfg_sigma_noise cfg)) as [bb'|] eqn:En; [|discriminate].
  injection E3 as <- <-.
  destruct (bb' && negb (cfg_likelihood cfg =? "regression")%string) eqn:Eb;
    [discriminate|].
  rewrite bind_modify in E.
  apply bind_inv_ok in E. destruct E as (b4 & s4 & E4 & E).
  injection E4 as <- <-.
  apply bind_inv_ok in E. destruct E as (b5 & [] & E5 & E).
  apply bind_inv_ok in E. destruct E as (b6 & [] & E6 & E).
  apply set_sigma_noise_ok_inv in E6. destruct E6 as (q & Hq & ->).
  apply bind_inv_ok in E. destruct E as (b7 & s7 & E7 & E).
  injection E7 as <- <-.
  exists b1, pm, q. split; [exact E1|]. split; [exact Hq|].
  rewrite (ne_one_scalar _ Hq) in En. injection En as <-.
  split.
  { destruct (Qeq_bool q 1); [now left|]. right. simpl in Eb.
    apply negb_false_iff in Eb. now apply String.eqb_eq. }
  assert (E5' : b5 = set_likelihood
                       (if (cfg_likelihood cfg =? "reward_modeling")%string
                        then "classification" else cfg_likelihood cfg)
                       (set_reward_modeling
                          (cfg_likelihood cfg =? "reward_modeling")%string
                          (set__prior_mean pm b1))).
  { revert E5. destruct b1. simpl.
    destruct (cfg_likelihood cfg =? "reward_modeling")%string;
      cbv beta iota delta [modify]; intros [= <-]; reflexivity. }
  subst b5. revert E. destruct b1. simpl.
  destruct (cfg_backend cfg) as [c|]; simpl.
  - destruct (_ && is_backpack c); [discriminate|].
    cbv beta iota delta [modify]. intros [= <-]. split; reflexivity.
  - cbv beta iota delta [modify]. intros [= <-]. split; [|reflexivity].
    now rewrite andb_false_r.
Qed.

End Constructors.

Section FunctionalConstructor.
Context {P : Predictor} {C : CurvatureInterface} {G : GPKernels}.

(** X15.  What [FunctionalLaplace.__init__] returns.  The prior precision is a
    single number, that of the argument; the likelihood is the one given,
    and ['classification'] for reward modeling; the observation noise is
    that of the argument, and it is 1 unless the likelihood given is
    ['regression']; [enable_backprop] is the argument; and the stored
    backend class is [CurvlinopsGGN], the default of the base class,
    whichever backend was given. *)
Theorem functional_init_stores (M_arg : option nat) (dk : bool) (sd : nat)
  (cfg : Config) (s : FunctionalLaplace) :
  functional_init M_arg dk sd cfg = Ok s ->
  (exists q, scalar_of (cfg_prior_precision cfg) = Some q
             /\ _prior_precision (fbase s) = [q])
  /\ likelihood (fbase s)
     = (if (cfg_likelihood cfg =? "reward_modeling")%string
        then "classification" else cfg_likelihood cfg)
  /\ reward_modeling (fbase s) = (cfg_likelihood cfg =? "reward_modeling")%string
  /\ (exists q, scalar_of (cfg_sigma_noise cfg) = Some q
                /\ _sigma_noise (fbase s) = q
                /\ (Qeq_bool q 1 = true \/ cfg_likelihood cfg = "regression"))
  /\ temperature (fbase s) = cfg_temperature cfg
  /\ enable_backprop (fbase s) = cfg_enable_backprop cfg
  /\ _backend_cls (fbase s) = CurvlinopsGGN
  /\ M s = M_arg /\ diagonal_kernel s = dk /\ seed s = sd
  /\ map_estimate s = parameters_to_vector (parameters (cfg_model cfg)).
Proof.
  unfold functional_init.
  assert (Hb : (match cfg_backend cfg with
                | Some BackPackGGN | Some AsdlGGN | None => true
                | _ => false end) = true
               \/ (match cfg_backend cfg with
                   | Some BackPackGGN | Some AsdlGGN | None => true
                   | _ => false end) = false)
    by (destruct (cfg_backend cfg) as [[]|]; auto).
  intros E.
  assert (E' : rbind (_check_prior_precision (cfg_prior_precision cfg)) (fun _ =>
      let cfg' := mkConfig (cfg_model cfg) (cfg_likelihood cfg)
                    (cfg_sigma_noise cfg) (cfg_prior_precision cfg)
                    (cfg_prior_mean cfg) (cfg_temperature cfg) true None in
      rbind (base_init set_prior_precision cfg') (fun b =>
      Ok {| fbase := set_enable_backprop (cfg_enable_backprop cfg) b;
            M := M_arg; diagonal_kernel := dk;
            seed := sd; K_MM := KNone; Sigma_inv := KNone;
            train_loader := None; batch_size := None;
            _prior_factor_sod := None; mu := None; L := LNone;
            map_estimate := parameters_to_vector (parameters (cfg_model cfg));
            _fitted := false; _recompute_Sigma := true |})) = Ok s).
  { clear Hb. destruct (cfg_backend cfg) as [[]|]; try discriminate; exact E. }
  clear E Hb.
  destruct (_check_prior_precision (cfg_prior_precision cfg)) eqn:Ec;
    [|discriminate].
  simpl in E'.
  match type of E' with rbind ?r _ = _ => destruct r as [b|e] eqn:Eb end;
    [|discriminate].
  simpl in E'. injection E' as <-.
  apply base_init_explicit in Eb.
  destruct Eb as (b1 & pm & q & E1 & Hq & Hs & _ & ->). simpl in *.
  assert (Hpp : exists p, scalar_of (cfg_prior_precision cfg) = Some p
                          /\ _prior_precision b1 = [p]).
  { revert E1 Ec. unfold set_prior_precision, _check_prior_precision.
    cbv beta iota delta [bind modify get raise].
    destruct (cfg_prior_precision cfg) as [x|x|[|x [|x' v]]| |]; simpl;
      try discriminate;
      intros [= <-] _; exists x; split; reflexivity. }
  destruct Hpp as (p & Hp & Hb1).
  assert (Ht : temperature b1 = cfg_temperature cfg).
  { destruct (set_prior_precision_writes (cfg_prior_precision cfg)
                (blank (mkConfig (cfg_model cfg) (cfg_likelihood cfg)
                    (cfg_sigma_noise cfg) (cfg_prior_precision cfg)
                    (cfg_prior_mean cfg) (cfg_temperature cfg) true None)))
      as (pp & sn & ps & Ew).
    rewrite E1 in Ew. simpl in Ew. rewrite Ew. reflexivity. }
  destruct b1. simpl in *.
  split; [exists p; split; assumption|].
  repeat split; try reflexivity.
  - exists q. repeat split; assumption.
  - exact Ht.
Qed.

End FunctionalConstructor.

(* ================================================================== *)
(** ** The outcome of a grid search *)

Section GridsearchOutcome.
Variable S : Type.
Variable prior_setter : pyarg -> Act S unit.
Variable validate : Act S score.

(** When the loop returns, it has recorded every grid point, in order, and
    one score for each. *)
Lemma gridsearch_loop_returns (interval : list pyarg) :
  forall results precs s s' rs ps,
    gridsearch_loop prior_setter validate interval results precs s
    = (s', Ok (rs, ps)) ->
    ps = precs ++ interval
    /\ length rs = length results + length interval.
Proof.
  induction interval as [|p rest IH]; intros results precs s s' rs ps; simpl.
  - intros [= _ <- <-]. rewrite app_nil_r. split; [reflexivity | lia].
  - intros E. apply bind_inv_ok in E. destruct E as (s1 & [] & _ & E).
    apply bind_inv_ok in E. destruct E as (s2 & r & _ & E).
    apply IH in E. destruct E as [-> ->]. rewrite <- app_assoc.
    split; [reflexivity|]. rewrite length_app. simpl. lia.
Qed.

(** What [_gridsearch] returns is a point of the grid. *)
Lemma _gridsearch_returns_grid_point lo interval s s' p :
  _gridsearch prior_setter validate lo interval s = (s', Ok p) ->
  lo = true /\ In p interval.
Proof.
  unfold _gridsearch. destruct lo; simpl; [|discriminate].
  intros E. apply bind_inv_ok in E. destruct E as (s1 & [rs ps] & E1 & E).
  apply gridsearch_loop_returns in E1. destruct E1 as [-> _]. simpl in E.
  apply bind_inv_ok in E. destruct E as (s2 & i & _ & E).
  split; [reflexivity|].
  destruct (nth_error interval i) as [p'|] eqn:En; [|discriminate].
  injection E as _ <-. eapply nth_error_In; eassumption.
Qed.

Lemma except_RuntimeError_state (m : Act S score) (s0 : S) :
  fst (except_RuntimeError m s0) = fst (m s0).
Proof.
  unfold except_RuntimeError. destruct (m s0) as [s2 [y|e0]]; [reflexivity|].
  destruct (is_RuntimeError e0); reflexivity.
Qed.

(** X17.  An exception of the validation that is neither a [RuntimeError] nor of
    one of its subclasses ends the search: when the evaluation of a grid
    point raises it, the evaluations before it having returned or raised
    exceptions that [except RuntimeError] catches, the search raises it,
    and the object is left as that evaluation left it: the setter of the
    selected grid point is not reached. *)
Theorem gridsearch_propagates_other_errors (interval : list pyarg) (s : S)
  (i : nat) (p : pyarg) (e : exn) :
  (forall p s, In p interval -> snd (prior_setter p s) = Ok tt) ->
  nth_error (evaluations prior_setter validate interval s) i
  = Some (p, Raise e) ->
  is_RuntimeError e = false ->
  (forall j q e', j < i ->
     nth_error (evaluations prior_setter validate interval s) j
     = Some (q, Raise e') -> is_RuntimeError e' = true) ->
  exists s1,
    optimize_prior_precision_gridsearch prior_setter validate true true
      interval s
    = (fst (validate (fst (prior_setter p s1))), Raise e)
    /\ snd (validate (fst (prior_setter p s1))) = Raise e.
Proof.
  intros Hset Hi He Hbefore.
  unfold optimize_prior_precision_gridsearch, _gridsearch. simpl.
  assert (Hloop : forall results precs,
            exists s1,
              gridsearch_loop prior_setter validate interval results precs s
              = (fst (validate (fst (prior_setter p s1))), Raise e)
              /\ snd (validate (fst (prior_setter p s1))) = Raise e).
  { revert s i Hset Hi Hbefore.
    induction interval as [|p0 rest IH]; intros s i Hset Hi Hbefore results precs.
    - destruct i; discriminate.
    - simpl. cbv beta iota delta [bind].
      pose proof (Hset p0 s (or_introl eq_refl)) as Hp0.
      simpl in Hi, Hbefore.
      destruct (prior_setter p0 s) as [s1 r1] eqn:E1. simpl in *. subst r1.
      simpl.
      destruct i as [|i]; simpl in Hi.
      + injection Hi as <- Hr. exists s. rewrite E1. simpl.
        unfold except_RuntimeError.
        destruct (validate s1) as [s2 r2]. simpl in *. subst r2.
        rewrite He. split; reflexivity.
      + pose proof (except_RuntimeError_state validate s1) as Hst.
        assert (Hv : exists x, snd (except_RuntimeError validate s1) = Ok x).
        { unfold except_RuntimeError.
          destruct (validate s1) as [s2 [x|e0]] eqn:E2; simpl.
          - now exists x.
          - rewrite (Hbefore 0 p0 e0 ltac:(lia) eq_refl). now exists Inf. }
        destruct Hv as [x Hx].
        destruct (except_RuntimeError validate s1) as [s2 r2].
        simpl in Hx, Hst. subst r2 s2.
        apply (IH (fst (validate s1)) i).
        * intros; apply Hset; now right.
        * exact Hi.
        * intros j q e' Hj Hn.
          apply (Hbefore (Datatypes.S j) q e'); [lia | exact Hn]. }
  destruct (Hloop [] []) as (s1 & E & Er). exists s1. split; [|exact Er].
  cbv beta iota delta [bind]. rewrite E. reflexivity.
Qed.

End GridsearchOutcome.

Section GridsearchStores.
Context {P : Predictor}.
Variable validate : Act BaseLaplace score.

Lemma set_prior_precision_stores p b b' :
  set_prior_precision p b = (b', Ok tt) ->
  _prior_precision b' = stored_prior_precision p.
Proof.
  unfold set_prior_precision. cbv beta iota delta [bind modify get raise].
  destruct b. destruct p; simpl; try discriminate;
    try (intros [= <-]; reflexivity).
  match goal with |- context [negb ?c] => destruct c end; simpl;
    first [discriminate | intros [= <-]; reflexivity].
Qed.

(** X16.  When the grid search over the prior precision returns, the prior
    precision of the object is the grid point that [_gridsearch] selected,
    a point of the grid, whatever the evaluations left in the object; and
    it returns only with a validation loader and a usable loss. *)
Theorem gridsearch_stores_selected (hv lo : bool) (interval : list pyarg)
  (b b' : BaseLaplace) :
  optimize_prior_precision_gridsearch set_prior_precision validate
    hv lo interval b = (b', Ok tt) ->
  hv = true /\ lo = true
  /\ exists p, In p interval
       /\ snd (_gridsearch set_prior_precision validate lo interval b) = Ok p
       /\ _prior_precision b' = stored_prior_precision p.
Proof.
  unfold optimize_prior_precision_gridsearch.
  destruct hv; simpl; [|discriminate].
  intros E. apply bind_inv_ok in E. destruct E as (b1 & p & E1 & E2).
  destruct (_gridsearch_returns_grid_point _ _ _ _ _ E1) as [-> Hin].
  split; [reflexivity|]. split; [reflexivity|].
  exists p. split; [exact Hin|]. split; [now rewrite E1|].
  now apply set_prior_precision_stores in E2.
Qed.

End GridsearchStores.

(* ================================================================== *)
(** ** The diagonal variant: variance and density *)

Section DiagMethodsFacts.
Context {P : Predictor} {K : KronOps} {N : Numerics}.

Lemma square_weighted_nonneg (x y : Q) : (0 <= y -> 0 <= x * (x * y))%Q.
Proof.
  intros Hy. assert (E : (x * (x * y) == x * y * x)%Q) by ring. rewrite E.
  now apply weighted_square_nonneg.
Qed.

(** The entries of [d * (d * v)]. *)
Lemma dot_weighted_entries (d v dv w : Vec) :
  vmul d v = Ok dv -> vmul_same d dv = Ok w ->
  (Forall (fun y => 0 <= y)%Q v -> Forall (fun x => 0 <= x)%Q w)
  /\ (Forall (fun x => x == 0)%Q d -> Forall (fun x => x == 0)%Q w).
Proof.
  unfold vmul. intros E1 E2.
  assert (Hsame : forall d v dv w,
            vmul_same d v = Ok dv -> vmul_same d dv = Ok w ->
            (Forall (fun y => 0 <= y)%Q v -> Forall (fun x => 0 <= x)%Q w)
            /\ (Forall (fun x => x == 0)%Q d -> Forall (fun x => x == 0)%Q w)).
  { clear. induction d as [|x d IH]; intros [|y v] dv w E1 E2; simpl in *;
      try discriminate.
    - injection E1 as <-. simpl in E2. injection E2 as <-. split; constructor.
    - destruct (vmul_same d v) as [r|] eqn:Er; [|discriminate].
      injection E1 as <-. simpl in E2.
      destruct (vmul_same d r) as [r'|] eqn:Er'; [|discriminate].
      injection E2 as <-. destruct (IH _ _ _ Er Er') as [H1 H2].
      split; intros Hf; inversion Hf as [|? ? Hy Hf']; subst; constructor; auto.
      + now apply square_weighted_nonneg.
      + rewrite Hy. ring. }
  assert (Hscal : forall y d w,
            vmul_same d (map (fun x => x * y)%Q d) = Ok w ->
            ((0 <= y)%Q -> Forall (fun x => 0 <= x)%Q w)
            /\ (Forall (fun x => x == 0)%Q d -> Forall (fun x => x == 0)%Q w)).
  { clear. intros y. induction d as [|x d IH]; intros w E; simpl in *.
    - injection E as <-. split; constructor.
    - destruct (vmul_same d _) as [r|] eqn:Er; [|discriminate].
      injection E as <-. destruct (IH _ eq_refl) as [H1 H2].
      split; intros Hf.
      + constructor; [now apply square_weighted_nonneg | auto].
      + inversion Hf as [|? ? Hx Hf']; subst. constructor; [|auto].
        rewrite Hx. ring. }
  destruct (length d =? length v) eqn:El.
  - eapply Hsame; eauto.
  - apply Nat.eqb_neq in El. destruct (vmul_same_length _ _ E2) as [Hl _].
    destruct d as [|x [|x' d]].
    + destruct v as [|y [|y' v]]; try discriminate; simpl in *; try congruence.
      injection E1 as <-. simpl in E2. injection E2 as <-. split; constructor.
    + destruct v as [|y [|y' v]]; simpl in *; try congruence.
      * injection E1 as <-. discriminate.
      * injection E1 as <-. simpl in Hl. discriminate.
    + destruct v as [|y [|y' v]]; try discriminate.
      injection E1 as <-.
      destruct (Hscal y _ _ E2) as [H1 H2]. split; [|exact H2].
      intros Hf. inversion Hf; subst. auto.
Qed.

Lemma tsub_self_zero (t : tensor01) (d : Vec) :
  tsub t t = Ok (Vector1 d) -> Forall (fun x => x == 0)%Q d.
Proof.
  destruct t as [x|v]; simpl; [discriminate|].
  rewrite Nat.eqb_refl.
  destruct (vadd v (map Qopp v)) as [r|] eqn:E; simpl; [|discriminate].
  intros [= <-]. revert r E. induction v as [|x v IH]; intros r E; simpl in *.
  - injection E as <-. constructor.
  - destruct (vadd v (map Qopp v)) as [r'|]; [|discriminate].
    injection E as <-. constructor; [ring | now apply IH].
Qed.

Lemma diag_square_norm_inv value s q :
  diag_square_norm value s = Ok q ->
  exists d v dv w,
    tsub value (mean s) = Ok (Vector1 d)
    /\ posterior_precision s = Ok (PDiag v)
    /\ vmul d v = Ok dv /\ vmul_same d dv = Ok w /\ q = vsum w.
Proof.
  unfold diag_square_norm.
  destruct (tsub value (mean s)) as [[x|d]|]; simpl; try discriminate;
    destruct (posterior_precision s) as [[]|]; simpl; try discriminate.
  destruct (vmul d v) as [dv|] eqn:Edv; simpl; [|discriminate].
  unfold dot. destruct (vmul_same d dv) as [w|] eqn:Ew; simpl; [|discriminate].
  intros [= <-]. exists d, v, dv, w. auto.
Qed.

(** X18.  Under a diagonal posterior precision without negative entries, the
    square norm of [DiagLaplace] is never negative and is zero at the mean
    of the approximation; so the log density takes its largest value at
    the mean: whenever [log_prob] returns at [value] and at the mean, the
    value at the mean is the larger one, normalized or not. *)
Theorem diag_log_prob_largest_at_mean (log_2pi : Q) (s : ParametricLaplace)
  (v : Vec) :
  posterior_precision s = Ok (PDiag v) ->
  Forall (fun x => 0 <= x)%Q v ->
  (forall value q, diag_square_norm value s = Ok q -> (0 <= q)%Q)
  /\ (forall q, diag_square_norm (mean s) s = Ok q -> (q == 0)%Q)
  /\ (forall value nrm lp lm,
        diag_log_prob log_2pi value nrm s = Ok lp ->
        diag_log_prob log_2pi (mean s) nrm s = Ok lm -> (lp <= lm)%Q).
Proof.
  intros Hpp Hv.
  assert (Hnn : forall value q, diag_square_norm value s = Ok q -> (0 <= q)%Q).
  { intros value q Hq. apply diag_square_norm_inv in Hq.
    destruct Hq as (d & v' & dv & w & _ & Hpp' & Edv & Ew & ->).
    rewrite Hpp in Hpp'. injection Hpp' as <-.
    apply vsum_nonneg. now apply (dot_weighted_entries _ _ Edv Ew). }
  assert (Hz : forall q, diag_square_norm (mean s) s = Ok q -> (q == 0)%Q).
  { intros q Hq. apply diag_square_norm_inv in Hq.
    destruct Hq as (d & v' & dv & w & Ed & _ & Edv & Ew & ->).
    apply tsub_self_zero in Ed. unfold vsum.
    apply fold_left_Qplus_zero. now apply (dot_weighted_entries _ _ Edv Ew). }
  split; [exact Hnn|]. split; [exact Hz|].
  intros value nrm lp lm. unfold diag_log_prob.
  destruct nrm; simpl.
  - destruct (log_det_posterior_precision s) as [ld|]; simpl; [|discriminate].
    destruct (diag_square_norm value s) as [q|] eqn:Eq; simpl; [|discriminate].
    destruct (diag_square_norm (mean s) s) as [q0|] eqn:Eq0; simpl;
      [|discriminate].
    intros [= <-] [= <-]. specialize (Hnn _ _ Eq). specialize (Hz _ eq_refl).
    rewrite Hz. unfold Qminus.
    apply Qplus_le_compat; [apply Qle_refl|].
    apply Qopp_le_compat. unfold Qdiv.
    apply Qmult_le_compat_r; [exact Hnn | discriminate].
  - destruct (diag_square_norm value s) as [q|] eqn:Eq; simpl; [|discriminate].
    destruct (diag_square_norm (mean s) s) as [q0|] eqn:Eq0; simpl;
      [|discriminate].
    intros [= <-] [= <-]. specialize (Hnn _ _ Eq). specialize (Hz _ eq_refl).
    rewrite Hz. unfold Qdiv. 
    apply Qmult_le_compat_r; [|discriminate].
    apply Qopp_le_compat. exact Hnn.
Qed.

Lemma Qinv_le_pos (p x : Q) : (0 < p -> p <= x -> 0 < 1 / x /\ 1 / x <= 1 / p)%Q.
Proof.
  intros Hp Hx. assert (Hx0 : (0 < x)%Q) by (eapply Qlt_le_trans; eauto).
  split.
  - unfold Qdiv. rewrite Qmult_1_l. now apply Qinv_lt_0_compat.
  - apply Qle_shift_div_l; [exact Hp|].
    assert (E : (1 / x * p == p / x)%Q) by (unfold Qdiv; ring).
    rewrite E. apply Qle_shift_div_r; [exact Hx0|].
    now rewrite Qmult_1_l.
Qed.

(** X19.  The diagonal approximation never has a larger variance than the prior.
    With a curvature [H] without negative entries, a positive temperature,
    a nonzero observation noise and positive prior precisions, every entry
    of the posterior precision is at least the prior precision of that
    parameter, and every entry of [posterior_variance] is finite, positive
    and at most the prior variance [1 / prior_precision_diag]. *)
Theorem diag_posterior_variance_bounded (s : ParametricLaplace)
  (h p0 : Vec) :
  cls s = DiagLaplace -> H s = HDiag h ->
  prior_precision_diag (base s) = Ok p0 -> length h = length p0 ->
  Forall (fun x => 0 <= x)%Q h -> Forall (fun p => 0 < p)%Q p0 ->
  (0 < temperature (base s))%Q -> ~ (_sigma_noise (base s) == 0)%Q ->
  exists v w,
    posterior_precision s = Ok (PDiag v)
    /\ diag_posterior_variance s = Ok (map Some w)
    /\ Forall2 (fun p x => p <= x)%Q p0 v
    /\ Forall2 (fun p y => 0 < y /\ y <= 1 / p)%Q p0 w.
Proof.
  intros Hc HH Hp0 Hlen Hh Hpos HT Hs.
  assert (Hf : (0 <= _H_factor (base s))%Q).
  { unfold _H_factor. cbv zeta. unfold Qdiv. rewrite Qmult_1_l.
    apply Qmult_le_0_compat.
    - apply Qinv_le_0_compat.
      destruct (_sigma_noise (base s)) as [n d]. unfold Qle, Qmult. simpl. nia.
    - apply Qinv_le_0_compat. now apply Qlt_le_weak. }
  unfold diag_posterior_variance, posterior_precision, _check_H_init.
  rewrite Hc, HH, Hp0. simpl.
  generalize (_H_factor (base s)) Hf. intros f Hf'. clear Hp0 HH Hc Hf.
  revert p0 Hlen Hpos. induction h as [|x h IH]; intros [|p p0] Hlen Hpos;
    simpl in *; try discriminate.
  - exists [], []. simpl. repeat split; constructor.
  - inversion Hh as [|? ? Hx Hh']; subst.
    inversion Hpos as [|? ? Hp Hpos']; subst.
    destruct (IH Hh' p0 ltac:(lia) Hpos') as (v & w & Ev & Ew & Hv & Hw).
    destruct (vadd (vscale f h) p0) as [r|] eqn:Er; simpl in *; [|discriminate].
    injection Ev as <-. injection Ew as Ew.
    assert (Hpx : (p <= f * x + p)%Q).
    { rewrite <- (Qplus_0_l p) at 1. apply Qplus_le_compat; [|apply Qle_refl].
      now apply Qmult_le_0_compat. }
    destruct (Qinv_le_pos Hp Hpx) as [H1 H2].
    exists ((f * x + p)%Q :: r), ((1 / (f * x + p))%Q :: w). simpl.
    split; [reflexivity|]. split.
    + unfold reciprocal at 1.
      destruct (Qeq_bool (f * x + p) 0) eqn:E0.
      * apply Qeq_bool_eq in E0. rewrite E0 in Hpx.
        exfalso. exact (Qlt_not_le _ _ Hp Hpx).
      * now rewrite Ew.
    + split; constructor; auto.
Qed.

End DiagMethodsFacts.

(* ================================================================== *)
(** ** What a function-space fit leaves *)

Section FunctionalFitFacts.
Context {P : Predictor} {C : CurvatureInterface} {G : GPKernels}.

Ltac setup_modify :=
  apply preserves_modify; intros [[] ? ? ? ? ? ? ? ? ? ? ? ? ?] ?;
  unfold fit_setup in *; simpl in *;
  repeat match goal with
         | |- context [match ?x with _ => _ end] => destruct x; simpl
         end;
  solve [auto].

Lemma backend_fit_setup c :
  preserves (fun s => fit_setup s = c) (on_fbase backend).
Proof.
  intros [[? ? ? ? ? ? ? ? ? ? ? ? bk ? ? ? ? ?] ? ? ? ? ? ? ? ? ? ? ? ? ?] Hs.
  unfold on_fbase, backend, fit_setup in *.
  cbv beta iota delta [bind get modify ret]. simpl in *.
  destruct bk; exact Hs.
Qed.

Lemma _jacobians_fit_setup c X :
  preserves (fun s => fit_setup s = c) (_jacobians X).
Proof.
  unfold _jacobians. repeat first [ apply backend_fit_setup | preserves_step ].
Qed.

Lemma fit_inner_fit_setup c Js i bs :
  forall j, preserves (fun s => fit_setup s = c) (fit_inner Js i j bs).
Proof.
  induction bs as [|d bs IH]; intros j; simpl.
  - apply preserves_ret.
  - unfold batch_input, _kernel_batch, _store_K_batch.
    repeat first [ apply _jacobians_fit_setup | apply IH | preserves_step ];
      setup_modify.
Qed.

Lemma fit_outer_fit_setup c loader_ bs :
  forall i ls ms,
    preserves (fun s => fit_setup s = c) (fit_outer loader_ i bs ls ms).
Proof.
  induction bs as [|d bs IH]; intros i ls ms; simpl.
  - apply preserves_ret.
  - unfold batch_input, _mean_scatter_term_batch.
    repeat first [ apply _jacobians_fit_setup | apply fit_inner_fit_setup
                 | apply IH | apply backend_fit_setup | preserves_step ];
      setup_modify.
Qed.

Ltac inv_pure E :=
  let t := fresh "t" in
  let a := fresh "a" in
  let E1 := fresh "E1" in
  apply bind_inv_ok in E; destruct E as (t & a & E1 & E);
  cbv beta iota delta [modify get] in E1; injection E1 as <- <-;
  cbv beta zeta in E.

(** X20.  What a fit of the function-space approximation leaves when it returns.
    The loader had a first batch and a dataset that is not empty;
    [n_data] is the size of the dataset; [M] is the value it had, and the
    size of the dataset when it was [None]; [_prior_factor_sod] is [M / N];
    [train_loader] is the subset loader over [M] points; [n_outputs] and
    [model.output_size] hold the same number and the predictor is in
    evaluation mode, with the parameters it had; the stored [Sigma_inv] is
    the factor built from the kernel, the curvature and the prior precision
    of the object; and the object is fitted. *)
Theorem functional_fit_leaves (l : DataLoader) (s s' : FunctionalLaplace) :
  functional_fit l s = (s', Ok tt) ->
  let N := dataset_len l in
  let m := match M s with Some m => m | None => N end in
  batches l <> [] /\ N <> 0
  /\ n_data (fbase s') = N
  /\ M s' = Some m
  /\ _prior_factor_sod s'
     = Some (inject_Z (Z.of_nat m) / inject_Z (Z.of_nat N))%Q
  /\ train_loader s' = Some (SoD_loader l N m (seed s))
  /\ batch_size s' = Some (loader_batch_size l)
  /\ (exists k, n_outputs (fbase s') = Some k
                /\ model (fbase s')
                   = eval_mode (set_output_size (Some k) (model (fbase s))))
  /\ Sigma_consistent s'
  /\ _fitted s' = true.
Proof.
  intros E. cbv zeta. unfold functional_fit in E.
  apply bind_inv_ok in E. destruct E as (t0 & xy & E0 & E).
  assert (Hb : batches l <> [] /\ t0 = s).
  { revert E0. destruct (batches l) as [|d bs];
      [cbv beta iota delta [raise]; intros E0; discriminate E0|].
    intros E0. split; [discriminate|].
    destruct d; cbv beta iota delta [batch_input raise ret] in E0;
      [|discriminate].
    now injection E0 as <- _. }
  destruct Hb as [Hb ->]. clear E0.
  inv_pure E.
  apply bind_inv_ok in E. destruct E as (t1 & out & E1 & E).
  unfold lift in E1.
  match type of E1 with (_, ?r) = _ => destruct r as [o|]; [|discriminate] end.
  injection E1 as <- <-. cbv beta zeta in E.
  do 7 inv_pure E.
  apply bind_inv_ok in E. destruct E as (t2 & f & E2 & E).
  unfold lift, int_ratio in E2. revert E2.
  destruct (dataset_len l =? 0) eqn:EN; [discriminate|]. intros E2.
  apply Nat.eqb_neq in EN.
  injection E2 as <- <-. cbv beta zeta in E.
  do 3 inv_pure E.
  apply bind_inv_ok in E. destruct E as (t3 & r & E3 & E).
  inv_pure E.
  apply bind_inv_ok in E. destruct E as (t4 & mu_ & E4 & E).
  unfold lift in E4.
  match type of E4 with (_, ?r) = _ => destruct r as [mm|]; [|discriminate] end.
  injection E4 as <- <-. cbv beta zeta in E.
  inv_pure E.
  apply bind_inv_ok in E. destruct E as (t5 & [] & E5 & E).
  cbv beta iota delta [modify] in E. injection E as <-.
  match type of E3 with fit_outer ?ld ?i ?bs ?ls ?ms ?pre = _ =>
    pose proof (@fit_outer_fit_setup (fit_setup pre) ld bs i ls ms pre eq_refl)
      as Hset
  end.
  rewrite E3 in Hset. simpl fst in Hset.
  unfold _build_Sigma_inv in E5.
  inv_pure E5.
  apply bind_inv_ok in E5. destruct E5 as (t6 & k & E6 & E5).
  unfold lift in E6.
  match type of E6 with (_, ?r) = _ =>
    destruct r as [k'|] eqn:Ek; [|discriminate] end.
  injection E6 as <- <-. cbv beta iota delta [modify] in E5.
  injection E5 as <-.
  match type of Ek with built_Sigma_inv ?X = _ =>
    assert (Hsc : Sigma_consistent (set__fitted true (set_Sigma_inv k' X)))
  end.
  { unfold Sigma_consistent.
    match goal with |- _ = Ok (Sigma_inv ?Y) =>
      change (Sigma_inv Y) with k' end.
    rewrite <- Ek. apply built_Sigma_inv_ext; reflexivity. }
  split; [exact Hb|]. split; [exact EN|].
  repeat match goal with |- _ /\ _ => split end;
    try exact Hsc; try reflexivity; clear Hsc Ek E3;
    destruct t3 as [[] ? ? ? ? ? ? ? ? ? ? ? ? ?];
    destruct s as [[? ? ? ? ? ? ? ? ? ? ? ? ? ? ? ? ? ?] [m0|] ? ? ? ? ? ? ? ? ? ? ? ?];
    unfold fit_setup in Hset; simpl in *;
    injection Hset as -> -> -> -> -> -> ->; try reflexivity.
  all: exists (last_dim o); split; reflexivity.
Qed.

End FunctionalFitFacts.

(* ================================================================== *)
(** ** Saving and loading a function-space object *)

Section FunctionalPersistedFacts.
Context {P : Predictor} {C : CurvatureInterface} {G : GPKernels}.


End FunctionalPersistedFacts.

(* ================================================================== *)
(** ** The Kronecker variant after a fit *)

Section KronFitFacts.
Context {P : Predictor} {K : KronOps} {C : CurvatureInterface}.

Lemma kron_fit_ensures_decomposed l o :
  ensures (fun s => exists facs, H_facs s = Some facs
             /\ H s = HKronDecomposed (decompose facs (damping s)))
    (kron_fit l o).
Proof.
  unfold kron_fit. cbv zeta.
  do 6 (apply ensures_bind; intros ?).
  intros s0 u. cbv beta iota delta [bind get modify raise].
  destruct s0 as [? ? ? ? [facs|] ?]; simpl;
    [|intros Hx; discriminate Hx].
  intros _. exists facs. split; reflexivity.
Qed.

(** X22.  When [fit] of the Kronecker variant returns, with or without
    [override], [H] is the decomposition of the factors kept in [H_facs],
    with the damping of the object; so [posterior_precision] passes the
    check of the fit and is what the decomposed form computes for
    [H * _H_factor + prior_precision], raising only where that operation
    raises, and [state_dict] returns with the raw factors under ['H']. *)
Theorem kron_fit_decomposes (l : DataLoader) (o : bool)
  (s s' : ParametricLaplace) :
  cls s = KronLaplace ->
  fit l o s = (s', Ok tt) ->
  exists facs,
    H_facs s' = Some facs
    /\ H s' = HKronDecomposed (decompose facs (damping s'))
    /\ posterior_precision s'
       = rbind (kd_posterior (decompose facs (damping s'))
                  (_H_factor (base s')) (_prior_precision (base s')))
               (fun k => Ok (PKron k))
    /\ exists sd, state_dict s' = Ok sd /\ sd_H sd = HKron facs.
Proof.
  intros Hc Hfit.
  assert (Hk : cls s' = KronLaplace).
  { pose proof (@fit_kind _ _ _ KronLaplace (likelihood (base s))
                  (reward_modeling (base s)) l o s) as Hp.
    rewrite Hfit in Hp. apply Hp. repeat split; assumption. }
  assert (E : kron_fit l o s = (s', Ok tt)).
  { revert Hfit. unfold fit. cbv beta iota delta [bind get]. now rewrite Hc. }
  pose proof (@kron_fit_ensures_decomposed l o s tt) as He.
  rewrite E in He. destruct (He eq_refl) as (facs & Hf & HH).
  simpl fst in Hf, HH.
  exists facs. split; [exact Hf|]. split; [exact HH|].
  unfold posterior_precision, state_dict, _check_H_init.
  rewrite Hk, HH, Hf. simpl. split; [reflexivity|].
  eexists. split; reflexivity.
Qed.

End KronFitFacts.

(* ================================================================== *)
(** ** What the constructor of a parametric variant stores *)

Section ParametricConstructor.
Context {P : Predictor} {K : KronOps}.

Lemma prior_precision_setter_stores c p b b' :
  prior_precision_setter c p b = (b', Ok tt) ->
  _prior_precision b' = stored_prior_precision p
  /\ (c = KronLaplace ->
      nat_in (length (_prior_precision b')) [1; n_layers b'] = true).
Proof.
  destruct c; simpl; intros E;
    try (split; [now apply set_prior_precision_stores in E | discriminate]).
  unfold kron_set_prior_precision in E.
  apply bind_inv_ok in E. destruct E as (b1 & [] & E1 & E).
  apply set_prior_precision_stores in E1.
  revert E. cbv beta iota delta [bind get raise ret].
  destruct (nat_in (length (_prior_precision b1)) [1; n_layers b1]) eqn:En;
    simpl; intros E; [|discriminate E].
  injection E as <-. split; [exact E1 | intros _; exact En].
Qed.

(** X23.  What the constructor of a parametric variant returns.  The prior
    precision is the tensor given (a number becomes a tensor of one
    entry), and for the Kronecker variant it has one entry or one per
    layer; the likelihood is the one given, and ['classification'] for
    reward modeling; the observation noise is the number given, and it is
    1 unless the likelihood given is ['regression']; the backend class is
    the one given, [CurvlinopsGGN] by default and [AsdfghjklHessian] for
    the low-rank variant, and no BackPACK backend when a parameter of the
    model is frozen; [mean] is the stored prior mean; the Kronecker
    variant, the only one with the attribute, has no [H_facs] yet; no
    data has been seen. *)
Theorem parametric_init_stores (c : laplace_cls) (d : bool) (cfg : Config)
  (s : ParametricLaplace) :
  parametric_init c d cfg = Ok s ->
  cls s = c /\ damping s = d /\ (c = KronLaplace -> H_facs s = None)
  /\ mean s = _prior_mean (base s)
  /\ _prior_precision (base s) = stored_prior_precision (cfg_prior_precision cfg)
  /\ (c = KronLaplace ->
      nat_in (length (_prior_precision (base s))) [1; n_layers (base s)] = true)
  /\ likelihood (base s)
     = (if (cfg_likelihood cfg =? "reward_modeling")%string
        then "classification" else cfg_likelihood cfg)
  /\ reward_modeling (base s) = (cfg_likelihood cfg =? "reward_modeling")%string
  /\ (exists q, scalar_of (cfg_sigma_noise cfg) = Some q
                /\ _sigma_noise (base s) = q
                /\ (Qeq_bool q 1 = true \/ cfg_likelihood cfg = "regression"))
  /\ temperature (base s) = cfg_temperature cfg
  /\ enable_backprop (base s) = cfg_enable_backprop cfg
  /\ _backend_cls (base s)
     = match cfg_backend cfg, c with
       | Some b, _ => b
       | None, LowRankLaplace => AsdfghjklHessian
       | None, _ => CurvlinopsGGN
       end
  /\ is_subset_params (base s) && is_backpack (_backend_cls (base s)) = false
  /\ n_data (base s) = 0 /\ n_outputs (base s) = None.
Proof.
  unfold parametric_init. cbv zeta.
  match goal with |- rbind (base_init ?st ?cf) _ = _ -> _ =>
    set (cfg' := cf);
    destruct (base_init st cfg') as [b|e] eqn:Eb; [|discriminate]
  end.
  simpl. intros [= <-].
  destruct (_init_H_frame {| base := b; cls := c; H := HNone;
                             mean := _prior_mean b; H_facs := None;
                             damping := d |}) as [Hcls Hbase].
  simpl in Hcls, Hbase.
  assert (Hrest : mean (fst (_init_H {| base := b; cls := c; H := HNone;
                             mean := _prior_mean b; H_facs := None;
                             damping := d |})) = _prior_mean b
                  /\ H_facs (fst (_init_H {| base := b; cls := c; H := HNone;
                             mean := _prior_mean b; H_facs := None;
                             damping := d |})) = None
                  /\ damping (fst (_init_H {| base := b; cls := c; H := HNone;
                             mean := _prior_mean b; H_facs := None;
                             damping := d |})) = d).
  { unfold _init_H. cbv beta iota delta [bind get modify]. simpl.
    destruct c; simpl; repeat split. }
  destruct Hrest as (Hmean & Hfacs & Hd).
  rewrite Hcls, Hbase, Hmean, Hfacs, Hd.
  apply base_init_explicit in Eb.
  destruct Eb as (b1 & pm & q & E1 & Hq & Hs & Hbp & ->).
  assert (Hm : cfg_model cfg' = cfg_model cfg
               /\ cfg_likelihood cfg' = cfg_likelihood cfg
               /\ cfg_sigma_noise cfg' = cfg_sigma_noise cfg
               /\ cfg_prior_precision cfg' = cfg_prior_precision cfg
               /\ cfg_temperature cfg' = cfg_temperature cfg
               /\ cfg_enable_backprop cfg' = cfg_enable_backprop cfg
               /\ match cfg_backend cfg' with Some x => x | None => CurvlinopsGGN end
                  = match cfg_backend cfg, c with
                    | Some b, _ => b
                    | None, LowRankLaplace => AsdfghjklHessian
                    | None, _ => CurvlinopsGGN
                    end
               /\ match cfg_backend cfg' with Some x => is_backpack x | None => false end
                  = is_backpack (match cfg_backend cfg' with Some x => x | None => CurvlinopsGGN end)).
  { unfold cfg'. destruct c; destruct (cfg_backend cfg) eqn:Ebk; simpl;
      rewrite ?Ebk; repeat split. }
  destruct Hm as (Hm1 & Hm2 & Hm3 & Hm4 & Hm5 & Hm6 & Hm7 & Hm8).
  rewrite Hm2, Hm3 in *. rewrite Hm4 in E1. rewrite Hm8, Hm7 in Hbp.
  rewrite Hm7.
  destruct (prior_precision_setter_stores _ _ _ E1) as [Hpp Hkr].
  destruct (prior_precision_setter_writes c (cfg_prior_precision cfg) (blank cfg'))
    as (pp & sn & ps & Ew).
  rewrite E1 in Ew. simpl in Ew.
  assert (Hb1 : temperature b1 = cfg_temperature cfg
                /\ enable_backprop b1 = cfg_enable_backprop cfg
                /\ n_data b1 = 0 /\ n_outputs b1 = None).
  { rewrite Ew. simpl. rewrite Hm5, Hm6. repeat split. }
  destruct Hb1 as (Ht & He & Hnd & Hno).
  destruct b1. simpl in *.
  repeat match goal with |- _ /\ _ => split end; try reflexivity;
    try assumption.
  exists q. repeat split; assumption.
Qed.

End ParametricConstructor.

(* ================================================================== *)
(** ** The grid search of the function-space variant *)

Section FunctionalGridsearch.
Context {P : Predictor} {C : CurvatureInterface} {G : GPKernels}.

Lemma functional_set_prior_precision_stores p s s' :
  functional_set_prior_precision p s = (s', Ok tt) ->
  _prior_precision (fbase s') = stored_prior_precision p
  /\ _recompute_Sigma s' = true.
Proof.
  unfold functional_set_prior_precision. intros E.
  apply bind_inv_ok in E. destruct E as (s1 & [] & E1 & E).
  cbv beta iota delta [modify] in E. injection E as <-.
  unfold on_fbase in E1.
  destruct (set_prior_precision p (fbase s)) as [b r] eqn:Eb.
  simpl in E1. injection E1 as <- ->.
  apply set_prior_precision_stores in Eb.
  destruct s. simpl in *. split; [exact Eb | reflexivity].
Qed.

(** X24.  When the grid search of the function-space variant returns, it was
    called with [pred_type='gp'] and a scalar prior structure; the prior
    precision of the object is a point of the grid, the one that
    [_gridsearch] selected; and [Sigma_inv] has been built for it: it is
    the factor that [_build_Sigma_inv] computes from the object. *)
Theorem functional_gridsearch_rebuilds (validate : Act FunctionalLaplace score)
  (pred_type_ prior_structure : string) (hv lo : bool)
  (interval : list pyarg) (s s' : FunctionalLaplace) :
  functional_optimize_prior_precision validate pred_type_ prior_structure
    hv lo interval s = (s', Ok tt) ->
  pred_type_ = "gp" /\ prior_structure = "scalar" /\ hv = true /\ lo = true
  /\ (exists p, In p interval
        /\ snd (_gridsearch functional_set_prior_precision validate lo
                  interval s) = Ok p
        /\ _prior_precision (fbase s') = stored_prior_precision p)
  /\ Sigma_consistent s'.
Proof.
  unfold functional_optimize_prior_precision.
  destruct (String.eqb_spec pred_type_ "gp") as [->|]; simpl;
    [|intros E; discriminate E].
  destruct (String.eqb_spec prior_structure "scalar") as [->|]; simpl;
    [|intros E; discriminate E].
  intros E. apply bind_inv_ok in E. destruct E as (s1 & [] & E1 & E2).
  unfold optimize_prior_precision_gridsearch in E1.
  destruct hv; simpl in E1; [|discriminate E1].
  apply bind_inv_ok in E1. destruct E1 as (s0 & p & Eg & Es).
  destruct (_gridsearch_returns_grid_point _ _ _ _ _ Eg) as [-> Hin].
  apply functional_set_prior_precision_stores in Es. destruct Es as [Hp _].
  unfold _build_Sigma_inv in E2.
  apply bind_inv_ok in E2. destruct E2 as (t & a & Et & E2).
  cbv beta iota delta [get] in Et. injection Et as <- <-.
  apply bind_inv_ok in E2. destruct E2 as (t & k & Ek & E2).
  unfold lift in Ek.
  destruct (built_Sigma_inv s1) as [k'|] eqn:Eb; [|discriminate Ek].
  injection Ek as <- <-. cbv beta iota delta [modify] in E2.
  injection E2 as <-.
  repeat split.
  - exists p. split; [exact Hin|]. split; [now rewrite Eg|].
    destruct s1. exact Hp.
  - now apply set_Sigma_inv_consistent.
Qed.

End FunctionalGridsearch.

(* ================================================================== *)
(** * The code at concrete inputs *)

Section SmallWorldFacts.
#[local] Existing Instance lin_predictor.
#[local] Existing Instance lin_backend.
#[local] Existing Instance plain_kron.
#[local] Existing Instance plain_numerics.
#[local] Existing Instance shifted_samples.
#[local] Existing Instance plain_gp.

Lemma prior_precision_diag_broadcast_witness :
  counts_ok (base (parametric_object DiagLaplace config_per_layer))
  /\ prior_precision_diag (base (parametric_object DiagLaplace config_per_layer))
     = Ok [2; 2; 3]%Q.
Proof.
  assert (Hc : counts_ok (base (parametric_object DiagLaplace config_per_layer)))
    by (split; reflexivity).
  split; [exact Hc|].
  destruct (prior_precision_diag_broadcast Hc) as (_ & Hlayer & _).
  apply Hlayer; [reflexivity | left; vm_compute; discriminate].
Defined.

(** The posterior precision of the dense approximation of [net3] with a
    prior precision per layer, fitted on two batches. *)
Lemma posterior_precision_formula_witness :
  let s := fitted_object FullLaplace config_per_layer first_half in
  counts_ok (base s)
  /\ exists m, posterior_precision s = Ok (PFull m)
       /\ (mnth m 0 0 == spec_H_factor (base s) * 5 + 2)%Q
       /\ (mnth m 2 2 == spec_H_factor (base s) * 5 + 3)%Q
       /\ (mnth m 0 2 == spec_H_factor (base s) * 5 + 0)%Q.
Proof.
  intros s.
  assert (Hc : counts_ok (base s)) by (split; reflexivity).
  split; [exact Hc|].
  destruct (posterior_precision_formula s Hc eq_refl)
    as (p0 & Hp0 & Hfull & _).
  destruct (Hfull (repeat (repeat 5%Q 3) 3) eq_refl eq_refl)
    as (m & Hm & _ & Hent).
  { split; [reflexivity | repeat constructor]. }
  exists m. split; [exact Hm|].
  assert (E : p0 = [2; 2; 3]%Q) by (vm_compute in Hp0; congruence).
  subst p0.
  split; [|split].
  - apply (Hent 0 0); vm_compute; lia.
  - apply (Hent 2 2); vm_compute; lia.
  - apply (Hent 0 2); vm_compute; lia.
Defined.

(** The backend of the small world ignores the declared size of the
    stream. *)
Lemma lin_backend_N_independent : N_independent.
Proof. intros bc l m X y N N'. split; reflexivity. Qed.

(** Two fits of the dense approximation of [net2] on two batches each,
    against one fit on the four. *)
Lemma split_fit_equals_concatenated_fit_witness :
  let s0 := parametric_object FullLaplace (config net2 "regression") in
  let s1 := fst (fit first_half true s0) in
  let s2 := fst (fit second_half false s1) in
  exists s3, fit (concat_loader first_half second_half) true s0 = (s3, Ok tt)
    /\ H s3 = H s2
    /\ loss (base s3) = loss (base s2)
    /\ n_data (base s3) = n_data (base s2)
    /\ s3 = s2.
Proof.
  intros s0 s1 s2.
  apply (split_fit_equals_concatenated_fit first_half second_half true s0 (s1:=s1) (s2:=s2)).
  - exact lin_backend_N_independent.
  - left. reflexivity.
  - vm_compute. reflexivity.
  - vm_compute. reflexivity.
  - vm_compute. reflexivity.
Defined.

(** C3, at a classification object.  The constructor raises on
    [sigma_noise=2], and so does [log_marginal_likelihood(sigma_noise=2)];
    the assignment [la.sigma_noise = 2.0] returns and stores 2, the
    likelihood staying ['classification']. *)
Theorem sigma_noise_setter_accepts_non_unit_for_classification :
  let s := parametric_object DiagLaplace (config net2 "classification") in
  let cfg2 := {| cfg_model := net2; cfg_likelihood := "classification";
                 cfg_sigma_noise := PyFloat 2; cfg_prior_precision := PyFloat 1;
                 cfg_prior_mean := PyFloat 0; cfg_temperature := 1;
                 cfg_enable_backprop := false; cfg_backend := None |} in
  likelihood (base s) = "classification"
  /\ parametric_init DiagLaplace false cfg2
     = Raise (ValueError "Sigma noise != 1 only available for regression.")
  /\ snd (log_marginal_likelihood None (Some (PyFloat 2)) s)
     = Raise (ValueError "Can only change sigma_noise for regression.")
  /\ snd (run_op (OpSetSigmaNoise (PyFloat 2)) s) = Ok tt
  /\ _sigma_noise (base (fst (run_op (OpSetSigmaNoise (PyFloat 2)) s))) = 2%Q
  /\ likelihood (base (fst (run_op (OpSetSigmaNoise (PyFloat 2)) s)))
     = "classification".
Proof. repeat split; vm_compute; reflexivity. Qed.

(** C4, at a low-rank approximation of a predictor with a frozen tensor
    [[5]] before a trainable tensor [[7]].  After [fit], [mean] is
    [[5; 7]], the vector of all the parameters, while the trainable ones are
    [[7]] and [n_params] is 1. *)
Theorem lowrank_fit_mean_includes_frozen_parameters :
  let s := parametric_object LowRankLaplace (config net_frozen "classification") in
  let s' := fst (fit first_half true s) in
  snd (fit first_half true s) = Ok tt
  /\ mean s' = Vector1 [5; 7]%Q
  /\ trainable_vector s' = [7]%Q
  /\ n_params (base s') = 1.
Proof. repeat split; vm_compute; reflexivity. Qed.

(** A fitted low-rank approximation refuses the incremental fit and stays
    as it is. *)
Lemma lowrank_refit_without_override_fails_witness :
  let s := fitted_object LowRankLaplace (config net2 "classification") first_half in
  fit second_half false s
  = (s, Raise (ValueError "LowRank LA does not support updating.")).
Proof.
  intros s.
  assert (Hc : cls s = LowRankLaplace) by (vm_compute; reflexivity).
  exact (proj1 (lowrank_refit_without_override_fails second_half s Hc)).
Defined.

(** A grid whose first point fails: the first of the two points of least
    loss is returned. *)
Lemma gridsearch_selects_first_minimum_witness :
  let b := base (parametric_object DiagLaplace (config net2 "regression")) in
  let grid := [Tensor0 (1 # 2); Tensor0 3; Tensor0 2; Tensor0 2] in
  snd (_gridsearch set_prior_precision validate_above_one true grid b)
  = Ok (Tensor0 2)
  /\ exists i p r,
       snd (_gridsearch set_prior_precision validate_above_one true grid b) = Ok p
       /\ nth_error (evaluations set_prior_precision validate_above_one grid b) i
          = Some (p, r)
       /\ exists y, r = Ok y /\ score_ltb y Inf = true.
Proof.
  intros b grid. split; [vm_compute; reflexivity|].
  destruct (gridsearch_selects_first_minimum set_prior_precision
              validate_above_one (interval := grid) b)
    as (i & p & r & Hret & Hnth & Hmin & _).
  - discriminate.
  - intros p s [<-|[<-|[<-|[<-|[]]]]]; reflexivity.
  - intros s e. unfold validate_above_one. simpl.
    destruct (_prior_precision s) as [|q [|]]; try (intros [= <-]; reflexivity).
    destruct (Qle_bool q 1); intros [= <-]; reflexivity.
  - exists i, p, r. split; [exact Hret|]. split; [exact Hnth|].
    assert (Hno : forall j q,
              nth_error (evaluations set_prior_precision validate_above_one
                           grid b) j <> Some (q, Ok NaN)).
    { intros [|[|[|[|j]]]] q; vm_compute; try discriminate.
      destruct j; discriminate. }
    destruct (Hmin Hno) as (_ & _ & Hfin).
    apply Hfin. exists 1, (Tensor0 3), 3%Q. reflexivity.
Defined.

(** A grid whose second evaluation returns [nan] without raising: the
    search returns that point, although the first point has a finite
    loss. *)
Lemma gridsearch_returns_nan_candidate :
  let b := base (parametric_object DiagLaplace (config net2 "regression")) in
  let validate : Act BaseLaplace score :=
    fun b => (b, match _prior_precision b with
                 | [p] => if Qle_bool p 1 then Ok (Finite p) else Ok NaN
                 | _ => Ok Inf
                 end) in
  let grid := [Tensor0 1; Tensor0 2; Tensor0 (1 # 2)] in
  snd (_gridsearch set_prior_precision validate true grid b) = Ok (Tensor0 2)
  /\ map snd (evaluations set_prior_precision validate grid b)
     = [Ok (Finite 1); Ok NaN; Ok (Finite (1 # 2))].
Proof. split; vm_compute; reflexivity. Qed.

(** A grid on which every evaluation raises: the search returns its first
    point, whose evaluation raised. *)
Lemma gridsearch_returns_failed_candidate :
  let b := base (parametric_object DiagLaplace (config net2 "regression")) in
  let grid := [Tensor0 (1 # 2); Tensor0 1] in
  snd (_gridsearch set_prior_precision validate_above_one true grid b)
  = Ok (Tensor0 (1 # 2))
  /\ nth_error (evaluations set_prior_precision validate_above_one grid b) 0
     = Some (Tensor0 (1 # 2),
             Raise (RuntimeError
                      "linalg.cholesky: the input is not positive-definite")).
Proof. split; vm_compute; reflexivity. Qed.

(** After a fit and a change of the prior precision from 1 to 2, the call
    predicts with the factor built at the new prior precision. *)
Lemma prior_change_rebuilds_Sigma_inv_witness :
  let s := fitted_functional_object (config net2 "regression") first_half in
  let s1 := fst (functional_set_prior_precision (PyFloat 2) s) in
  Sigma_inv s = KDense [[4 # 2]]%Q
  /\ built_Sigma_inv s1 = Ok (KDense [[6 # 4]]%Q)
  /\ fit_state s1 = fit_state s
  /\ functional_call 1%Q gp_args s1
     = functional_predict 1%Q gp_args (set_Sigma_inv (KDense [[6 # 4]]%Q) s1).
Proof.
  intros s s1.
  assert (Hf : _fitted s = true) by (vm_compute; reflexivity).
  assert (Hs : snd (functional_set_prior_precision (PyFloat 2) s) = Ok tt)
    by (vm_compute; reflexivity).
  assert (Hb : built_Sigma_inv s1 = Ok (KDense [[6 # 4]]%Q))
    by (vm_compute; reflexivity).
  destruct (prior_change_rebuilds_Sigma_inv s (PyFloat 2) 1%Q gp_args Hf Hs)
    as (Hst & Hcall & _).
  fold s1 in Hst, Hcall. rewrite Hb in Hcall.
  split; [vm_compute; reflexivity|]. split; [exact Hb|].
  split; [exact Hst | exact Hcall].
Defined.



(** A call by sampling directly after the fit of a low-rank approximation
    of a predictor with a frozen tensor [[5]] before a trainable tensor
    [[7]]: [mean] is [[5; 7]], and the trainable tensor receives its first
    entry, the frozen value. *)
Lemma nn_predictive_after_lowrank_fit :
  let s := fitted_object LowRankLaplace (config net_frozen "classification")
             first_half in
  let s' := fst (parametric_call 1%Q nn_mc_args s) in
  is_ok (snd (parametric_call 1%Q nn_mc_args s)) = true
  /\ mean s = Vector1 [5; 7]%Q
  /\ trainable_vector s = [7]%Q
  /\ trainable_vector s' = [5]%Q
  /\ mean_written s = [5]%Q.
Proof. repeat split; vm_compute; reflexivity. Qed.



End SmallWorldFacts.

(* ================================================================== *)
(** * More of the code at concrete inputs *)

Section SmallWorldChecks.
#[local] Existing Instance lin_predictor.
#[local] Existing Instance lin_backend.
#[local] Existing Instance plain_kron.
#[local] Existing Instance plain_numerics.
#[local] Existing Instance shifted_samples.
#[local] Existing Instance plain_gp.

(** A diagonal approximation of [net3] after a fit, a rejected assignment
    of a prior precision of four entries and a call by sampling. *)
Lemma constructed_object_stays_well_formed_witness :
  let s := parametric_object DiagLaplace config_per_layer in
  let os := [OpFit first_half true; OpSetPriorPrecision (Tensor1 [1; 2; 3; 4]%Q);
             OpCall 1%Q nn_mc_args] in
  n_params (base (run_ops os s)) = 3
  /\ exists v, prior_precision_diag (base (run_ops os s)) = Ok v
               /\ length v = n_params (base (run_ops os s)).
Proof.
  intros s os.
  assert (Hinit : parametric_init DiagLaplace false config_per_layer = Ok s)
    by (vm_compute; reflexivity).
  destruct (@constructed_object_stays_well_formed lin_predictor plain_kron
              lin_backend plain_numerics shifted_samples
              DiagLaplace false config_per_layer s os Hinit)
    as (_ & _ & _ & Hv).
  split; [vm_compute; reflexivity | exact Hv].
Defined.


(** The state of a diagonal approximation that was never fitted has a
    [mean] of dimension zero: loading it, even into the object it was
    saved from, raises [TypeError]. *)
Lemma load_state_dict_rejects_witness :
  let t := parametric_object DiagLaplace (config net2 "regression") in
  exists sd msg,
    state_dict t = Ok sd
    /\ load_state_dict sd t = (t, Raise (TypeError msg)).
Proof.
  intros t.
  set (sd := match state_dict t with Ok sd => sd | Raise _ => stored_at_3_4 end).
  assert (Esd : state_dict t = Ok sd) by (vm_compute; reflexivity).
  assert (Hq : sd_mean sd = Scalar0 0) by (vm_compute; reflexivity).
  assert (Hcls : laplace_cls_eqb (cls t) (sd_cls_name sd) = true)
    by (vm_compute; reflexivity).
  destruct (@load_state_dict_rejects _ t sd
              (or_intror (or_introl (ex_intro _ 0%Q Hq))))
    as (e & E & _ & Hty).
  specialize (Hty Hcls). rewrite Hq in Hty. destruct Hty as [msg ->].
  exists sd, msg. split; [exact Esd | exact E].
Defined.

(** A second, incremental fit of the Kronecker approximation of [net2]:
    two data points are added to the two of the first fit. *)
Lemma fit_leaves_counts_and_predictor_witness :
  let s := fitted_object KronLaplace (config net2 "regression") first_half in
  let s' := fst (fit second_half false s) in
  n_data (base s') = 4
  /\ training (model (base s')) = false
  /\ parameters (model (base s')) = parameters net2.
Proof.
  intros s s'.
  assert (Hfit : fit second_half false s = (s', Ok tt))
    by (vm_compute; reflexivity).
  destruct (fit_leaves_counts_and_predictor _ _ _ Hfit) as (Hn & _ & Ht & Hp).
  split; [rewrite Hn; vm_compute; reflexivity|].
  split; [exact Ht | rewrite Hp; vm_compute; reflexivity].
Defined.

(** An overriding fit of a fitted diagonal approximation on a loader
    without batches. *)
Lemma fit_on_empty_loader_witness :
  let s := fitted_object DiagLaplace (config net2 "regression") first_half in
  let l := {| batches := []; dataset_len := 0; loader_batch_size := 1 |} in
  H s = HDiag [5; 5]%Q
  /\ snd (fit l true s) = Raise StopIteration
  /\ H (fst (fit l true s)) = HDiag [0; 0]%Q
  /\ n_data (base (fst (fit l true s))) = 0.
Proof.
  intros s l.
  assert (Hp : params (base s) <> []) by (vm_compute; discriminate).
  destruct (@fit_on_empty_loader _ _ _ l true s eq_refl (or_intror eq_refl) Hp)
    as (Hr & _ & _ & Ho).
  destruct (Ho eq_refl) as (HH & _ & Hn).
  split; [vm_compute; reflexivity|]. split; [exact Hr|].
  split; [rewrite HH; vm_compute; reflexivity | exact Hn].
Defined.

(** The dense approximation of [net2], fitted twice on the same two
    batches. *)
Lemma overriding_fit_is_idempotent_witness :
  let s := parametric_object FullLaplace (config net2 "regression") in
  let s1 := fst (fit first_half true s) in
  snd (fit first_half true s) = Ok tt
  /\ fit first_half true s1 = (s1, Ok tt).
Proof.
  intros s s1.
  assert (Hc : cls s = FullLaplace \/ cls s = DiagLaplace)
    by (left; vm_compute; reflexivity).
  assert (H1 : fit first_half true s = (s1, Ok tt)) by (vm_compute; reflexivity).
  remember (fst (fit first_half true s1)) as s2 eqn:E2.
  assert (H2 : fit first_half true s1 = (s2, Ok tt))
    by (rewrite E2; vm_compute; reflexivity).
  assert (Hout : n_outputs (base s2) = n_outputs (base s1))
    by (rewrite E2; vm_compute; reflexivity).
  pose proof (@overriding_fit_is_idempotent _ _ _ first_half s s1 s2 Hc H1 H2 Hout) as E.
  split; [vm_compute; reflexivity|]. rewrite <- E at 2. exact H2.
Defined.

(** The scatter term of the fitted diagonal approximation of [net2], with
    prior precision one and prior mean zero. *)
Lemma scatter_nonnegative_witness :
  let s := fitted_object DiagLaplace (config net2 "regression") first_half in
  exists q, scatter s = Ok q /\ (0 <= q)%Q.
Proof.
  intros s.
  assert (Hp : prior_precision_diag (base s) = Ok [1; 1]%Q)
    by (vm_compute; reflexivity).
  destruct (scatter s) as [q|e] eqn:Hq; [|vm_compute in Hq; discriminate].
  exists q. split; [reflexivity|].
  apply (@scatter_nonnegative _ s [1; 1]%Q q Hp); [|exact Hq].
  repeat constructor; discriminate.
Defined.

(** A diagonal approximation of [net3] before any fit: its posterior
    precision is there, with three entries. *)
Lemma posterior_precision_before_fit_witness :
  let s := parametric_object DiagLaplace config_per_layer in
  exists v, posterior_precision s = Ok (PDiag v) /\ length v = 3.
Proof.
  intros s.
  assert (Hinit : parametric_init DiagLaplace false config_per_layer = Ok s)
    by (vm_compute; reflexivity).
  assert (Hs : ~ (_sigma_noise (base s) == 0)%Q) by (vm_compute; discriminate).
  assert (HT : ~ (temperature (base s) == 0)%Q) by (vm_compute; discriminate).
  destruct (posterior_precision_before_fit _ _ _ Hinit Hs HT)
    as (p0 & _ & v & Hv & Hl & _).
  exists v. split; [exact Hv | rewrite Hl; vm_compute; reflexivity].
Defined.

(** The marginal likelihood of a fitted diagonal approximation at the
    prior precision 2: the value 2 stays in the object. *)
Lemma log_marginal_likelihood_frame_witness :
  let s := fitted_object DiagLaplace (config net2 "regression") first_half in
  let s' := fst (log_marginal_likelihood (Some (PyFloat 2)) None s) in
  _prior_precision (base s) = [1]%Q
  /\ _prior_precision (base s') = [2]%Q
  /\ same_but_hyperparameters s s'.
Proof.
  intros s s'.
  destruct (log_marginal_likelihood_frame (Some (PyFloat 2)) None s)
    as (Hf & _ & Hq).
  split; [vm_compute; reflexivity|].
  split; [exact (Hq 2%Q eq_refl eq_refl) | exact Hf].
Defined.

(** A Kronecker approximation of [net3], with two tensors and three
    entries, given a prior precision of three entries. *)
Lemma kron_prior_precision_refused_after_assignment_witness :
  let b := base (parametric_object KronLaplace (config net3 "regression")) in
  snd (kron_set_prior_precision (Tensor1 [1; 2; 3]%Q) b)
  = Raise (ValueError "Prior precision for Kron either scalar or per-layer.")
  /\ _prior_precision (fst (kron_set_prior_precision (Tensor1 [1; 2; 3]%Q) b))
     = [1; 2; 3]%Q.
Proof.
  intros b.
  assert (Hn : length [1; 2; 3]%Q = n_params b) by (vm_compute; reflexivity).
  assert (H1 : length [1; 2; 3]%Q <> 1) by discriminate.
  assert (Hk : length [1; 2; 3]%Q <> n_layers b) by (vm_compute; discriminate).
  destruct (@kron_prior_precision_refused_after_assignment b [1; 2; 3]%Q Hn H1 Hk) as [E _].
  rewrite E. split; [reflexivity|]. destruct b; reflexivity.
Defined.

(** The object the constructor returns for [net2] raises on a call. *)
Lemma functional_call_before_fit_witness :
  let s := functional_object (config net2 "regression") in
  exists msg, functional_call 1%Q gp_args s = (s, Raise (RuntimeError msg)).
Proof.
  intros s.
  assert (Hinit : functional_init (Some 2) false 0 (config net2 "regression")
                  = Ok s) by (vm_compute; reflexivity).
  exact (proj1 (@functional_call_before_fit _ _ _ _ _ _ _ _ 1%Q gp_args Hinit)).
Defined.

(** The object fitted on the first half stays fitted through a new prior
    precision, a call and a fit on an empty loader. *)
Lemma functional_fitted_is_kept_witness :
  let s := functional_object (config net2 "regression") in
  let s' := fitted_functional_object (config net2 "regression") first_half in
  _fitted
    (run_fops [FopSetPriorPrecision (PyFloat 2); FopCall 1%Q gp_args;
               FopFit {| batches := []; dataset_len := 0; loader_batch_size := 1 |}] s') = true.
Proof.
  intros s s'.
  assert (Hfit : functional_fit first_half s = (s', Ok tt))
    by (vm_compute; reflexivity).
  exact (@functional_fitted_is_kept _ _ _ _ _ _ _ Hfit).
Defined.

(** After a fit and a call, the next call on the object of [net2] builds
    the factor once more. *)
Lemma every_call_rebuilds_Sigma_inv_witness :
  let s0 := functional_object (config net2 "regression") in
  let s := run_fops [FopFit first_half; FopCall 1%Q gp_args] s0 in
  _recompute_Sigma s = true
  /\ functional_call 1%Q gp_args s
     = functional_predict 1%Q gp_args (set_Sigma_inv (KDense [[4 # 2]]%Q) s).
Proof.
  intros s0 s.
  assert (Hinit : functional_init (Some 2) false 0 (config net2 "regression")
                  = Ok s0) by (vm_compute; reflexivity).
  assert (Hf : _fitted s = true) by (vm_compute; reflexivity).
  assert (Hb : built_Sigma_inv s = Ok (KDense [[4 # 2]]%Q))
    by (vm_compute; reflexivity).
  destruct (@every_call_rebuilds_Sigma_inv lin_predictor _ _ _ _ _ _ _
              [FopFit first_half; @FopCall lin_predictor 1%Q gp_args]
              1%Q gp_args Hinit)
    as [Hr Hcall].
  split; [exact Hr|]. fold s0 in Hcall. fold s in Hcall.
  rewrite (Hcall Hf), Hb. reflexivity.
Defined.

(** A linearized prediction on a fitted diagonal approximation of [net2]
    leaves the object as it was. *)
Lemma glm_call_frame_witness :
  let s := fitted_object DiagLaplace (config net2 "regression") first_half in
  fst (parametric_call 1%Q glm_args s) = s.
Proof.
  intros s.
  assert (Hg : pred_type glm_args = "glm") by reflexivity.
  assert (Hr : reward_modeling (base s) = false) by (vm_compute; reflexivity).
  assert (Hb : _backend (base s) <> None) by (vm_compute; discriminate).
  assert (Hc : cls s <> FullLaplace) by (vm_compute; discriminate).
  exact (proj2 (proj2 (@glm_call_frame _ _ _ _ 1%Q glm_args s Hg Hc)) Hr Hb).
Defined.

(** The function-space object of [net2] for regression: its prior
    precision is the single number 1, and its backend class the default
    of the base class. *)
Lemma functional_init_stores_witness :
  let s := functional_object (config net2 "regression") in
  _prior_precision (fbase s) = [1%Q]
  /\ _backend_cls (fbase s) = CurvlinopsGGN.
Proof.
  intros s.
  assert (Hinit : functional_init (Some 2) false 0 (config net2 "regression")
                  = Ok s) by (vm_compute; reflexivity).
  destruct (@functional_init_stores _ _ _ _ _ _ Hinit)
    as ((q & Hq & Hp) & _ & _ & _ & _ & _ & Hc & _).
  split; [|exact Hc]. rewrite Hp.
  assert (Hq' : Some q = Some 1%Q) by (rewrite <- Hq; vm_compute; reflexivity).
  injection Hq' as ->. reflexivity.
Defined.

(** The search over a grid of four points on the diagonal approximation of
    [net2] stores the point 2. *)
Lemma gridsearch_stores_selected_witness :
  let b := base (parametric_object DiagLaplace (config net2 "regression")) in
  let grid := [Tensor0 (1 # 2); Tensor0 3; Tensor0 2; Tensor0 2] in
  let b' := fst (optimize_prior_precision_gridsearch set_prior_precision
                   validate_above_one true true grid b) in
  _prior_precision b' = [2%Q].
Proof.
  intros b grid b'.
  assert (E : optimize_prior_precision_gridsearch set_prior_precision
                validate_above_one true true grid b = (b', Ok tt))
    by (vm_compute; reflexivity).
  destruct (gridsearch_stores_selected _ _ _ _ _ E)
    as (_ & _ & p & _ & Hp & Hst).
  assert (Hp' : Ok p = Ok (Tensor0 2))
    by (rewrite <- Hp; vm_compute; reflexivity).
  injection Hp' as ->. exact Hst.
Defined.

(** A validation that raises [NotImplementedError] up to 1 and
    [ValueError] above: the first is caught and scored, the search over
    three points raises the second at the second point. *)
Lemma gridsearch_propagates_other_errors_witness :
  let b := base (parametric_object DiagLaplace (config net2 "regression")) in
  let validate : Act BaseLaplace score :=
    fun b => (b, match _prior_precision b with
                 | [p] => if Qle_bool p 1 then Raise NotImplementedError
                          else Raise (ValueError "Target size does not match")
                 | _ => Ok Inf
                 end) in
  let grid := [Tensor0 1; Tensor0 2; Tensor0 (1 # 2)] in
  snd (optimize_prior_precision_gridsearch set_prior_precision validate
         true true grid b)
  = Raise (ValueError "Target size does not match").
Proof.
  intros b validate grid.
  assert (Hset : forall p s, In p grid -> snd (set_prior_precision p s) = Ok tt)
    by (intros p s [<-|[<-|[<-|[]]]]; reflexivity).
  assert (Hi : nth_error (evaluations set_prior_precision validate grid b) 1
               = Some (Tensor0 2, Raise (ValueError "Target size does not match")))
    by (vm_compute; reflexivity).
  assert (He : is_RuntimeError (ValueError "Target size does not match") = false)
    by reflexivity.
  assert (Hb : forall j q e', j < 1 ->
            nth_error (evaluations set_prior_precision validate grid b) j
            = Some (q, Raise e') -> is_RuntimeError e' = true).
  { intros [|j] q e' Hj; [|lia]. vm_compute. intros [= _ <-]. reflexivity. }
  destruct (@gridsearch_propagates_other_errors _ set_prior_precision validate
              grid b 1 _ _ Hset Hi He Hb) as (s1 & E & _).
  rewrite E. reflexivity.
Defined.

(** The fitted diagonal approximation of [net2], with mean [(1, 2)] and
    posterior precision [(6, 6)]: the log density at [(3, 5)] is below the
    one at the mean. *)
Lemma diag_log_prob_largest_at_mean_witness :
  let s := fitted_object DiagLaplace (config net2 "regression") first_half in
  (diag_log_prob 2 (Vector1 [3; 5]%Q) true s = Ok (-280 # 8)%Q
   /\ diag_log_prob 2 (mean s) true s = Ok (32 # 8)%Q)
  /\ (-280 # 8 <= 32 # 8)%Q.
Proof.
  intros s.
  assert (Hpp : posterior_precision s = Ok (PDiag [6; 6]%Q))
    by (vm_compute; reflexivity).
  assert (Hv : Forall (fun x => 0 <= x)%Q [6; 6]%Q)
    by (repeat constructor; discriminate).
  assert (E1 : diag_log_prob 2 (Vector1 [3; 5]%Q) true s = Ok (-280 # 8)%Q)
    by (vm_compute; reflexivity).
  assert (E2 : diag_log_prob 2 (mean s) true s = Ok (32 # 8)%Q)
    by (vm_compute; reflexivity).
  split; [split; assumption|].
  exact (proj2 (proj2 (@diag_log_prob_largest_at_mean _ _ 2%Q s _ Hpp Hv))
           _ _ _ _ E1 E2).
Defined.

(** The same approximation, with curvature [(5, 5)] and prior precision
    [(1, 1)]: its posterior variance has two finite entries. *)
Lemma diag_posterior_variance_bounded_witness :
  let s := fitted_object DiagLaplace (config net2 "regression") first_half in
  exists v w,
    posterior_precision s = Ok (PDiag v)
    /\ diag_posterior_variance s = Ok (map Some w)
    /\ Forall2 (fun p y => 0 < y /\ y <= 1 / p)%Q [1; 1]%Q w.
Proof.
  intros s.
  assert (Hc : cls s = DiagLaplace) by (vm_compute; reflexivity).
  assert (HH : H s = HDiag [5; 5]%Q) by (vm_compute; reflexivity).
  assert (Hp : prior_precision_diag (base s) = Ok [1; 1]%Q)
    by (vm_compute; reflexivity).
  assert (Hl : length [5; 5]%Q = length [1; 1]%Q) by reflexivity.
  assert (Hh : Forall (fun x => 0 <= x)%Q [5; 5]%Q)
    by (repeat constructor; discriminate).
  assert (Hp0 : Forall (fun p => 0 < p)%Q [1; 1]%Q)
    by (repeat constructor; reflexivity).
  assert (HT : (0 < temperature (base s))%Q) by (vm_compute; reflexivity).
  assert (Hs : ~ (_sigma_noise (base s) == 0)%Q) by (vm_compute; discriminate).
  destruct (@diag_posterior_variance_bounded _ s _ _ Hc HH Hp Hl Hh Hp0 HT Hs)
    as (v & w & Hv & Hw & _ & Hb).
  exists v, w. split; [exact Hv|]. split; [exact Hw | exact Hb].
Defined.

(** The fit of the function-space object of [net2] on two points. *)
Lemma functional_fit_leaves_witness :
  let s := functional_object (config net2 "regression") in
  let s' := fitted_functional_object (config net2 "regression") first_half in
  n_data (fbase s') = 2 /\ M s' = Some 2 /\ Sigma_consistent s'
  /\ _fitted s' = true.
Proof.
  intros s s'.
  assert (E : functional_fit first_half s = (s', Ok tt))
    by (vm_compute; reflexivity).
  destruct (@functional_fit_leaves _ _ _ first_half s s' E)
    as (_ & _ & Hn & HM & _ & _ & _ & _ & Hc & Hf).
  split; [exact Hn|]. split; [exact HM|]. split; [exact Hc | exact Hf].
Defined.


(** The Kronecker approximation of [net2] after a fit on two points. *)
Lemma kron_fit_decomposes_witness :
  let s := parametric_object KronLaplace (config net2 "regression") in
  let s' := fst (fit first_half true s) in
  exists facs,
    H_facs s' = Some facs
    /\ H s' = HKronDecomposed (decompose facs (damping s')).
Proof.
  intros s s'.
  assert (Hc : cls s = KronLaplace) by (vm_compute; reflexivity).
  assert (E : fit first_half true s = (s', Ok tt)) by (vm_compute; reflexivity).
  destruct (@kron_fit_decomposes _ _ _ first_half true s s' Hc E)
    as (facs & Hf & HH & _).
  exists facs. split; [exact Hf | exact HH].
Defined.

(** The low-rank approximation of [net2] as constructed without a backend:
    its backend class is [AsdfghjklHessian] and its prior precision the
    single entry 1. *)
Lemma parametric_init_stores_witness :
  let s := parametric_object LowRankLaplace (config net2 "regression") in
  _backend_cls (base s) = AsdfghjklHessian
  /\ _prior_precision (base s) = [1%Q]
  /\ mean s = _prior_mean (base s).
Proof.
  intros s.
  assert (Hinit : parametric_init LowRankLaplace false (config net2 "regression")
                  = Ok s) by (vm_compute; reflexivity).
  destruct (@parametric_init_stores _ LowRankLaplace false
              (config net2 "regression") s Hinit)
    as (_ & _ & _ & Hm & Hp & _ & _ & _ & _ & _ & _ & Hb & _).
  split; [exact Hb|]. split; [exact Hp | exact Hm].
Defined.

(** A search over two grid points on the fitted function-space object of
    [net2], with the prior precision as validation loss: the point 1 is
    stored and the factor is built for it. *)
Lemma functional_gridsearch_rebuilds_witness :
  let s := fitted_functional_object (config net2 "regression") first_half in
  let validate : Act FunctionalLaplace score :=
    fun s => (s, match _prior_precision (fbase s) with
                 | [p] => Ok (Finite p)
                 | _ => Ok Inf
                 end) in
  let s' := fst (functional_optimize_prior_precision validate "gp" "scalar"
                   true true [Tensor0 2; Tensor0 1] s) in
  _prior_precision (fbase s') = [1%Q] /\ Sigma_consistent s'.
Proof.
  intros s validate s'.
  assert (E : functional_optimize_prior_precision validate "gp" "scalar"
                true true [Tensor0 2; Tensor0 1] s = (s', Ok tt))
    by (vm_compute; reflexivity).
  destruct (@functional_gridsearch_rebuilds _ _ validate _ _ _ _ _ s s' E)
    as (_ & _ & _ & _ & (p & _ & Hp & Hst) & Hc).
  split; [|exact Hc].
  assert (Hp' : Ok p = Ok (Tensor0 1))
    by (rewrite <- Hp; vm_compute; reflexivity).
  injection Hp' as ->. exact Hst.
Defined.

End SmallWorldChecks.
